(* ===== verification/_CoqProject ===== *)
-Q . S2P
Prelude.v
GoErrors.v
Entity.v
JobRepo.v
MemoryJobRepo.v
SqlxJobRepo.v
UserRepo.v
Services.v
Queue.v
Stream.v
WorkerPool.v
GoStrings.v
HttpErrors.v
HttpUtils.v
Security.v
Middleware.v
Outbound.v
GrpcServer.v
Server.v
Handlers.v
ProfileHandler.v
Config.v
ConfigLoad.v
Router.v
Observability.v
GrpcTransport.v
Telemetry.v
RuntimeInfo.v
Wiring.v
App.v
Dispatch.v
AsyncSystem.v
AsyncInv.v
AsyncPool.v
AsyncLive.v
ErrorText.v
LogPolicy.v
Process.v
Protogen.v
