(* ===== verification/Prelude.v ===== *)
(** * Verification of the pet-study service

    The program is a Go HTTP service for users and background jobs, with an
    internal gRPC server, two storage back ends (memory and PostgreSQL), server
    sent events, JWT authentication, an outgoing profile client, telemetry and a
    fail-closed configuration.  [cmd/api/main.go] wires the packages of
    [internal/] together; a request passes the middleware, the routers and a
    handler, which calls a service over a repository; asynchronous creations go
    through the queue to the worker pool, which publishes the progress of a job
    to the event hub, from which the SSE handler streams.

    ** Conventions

    - A Go [(T, error)] is [res error T]; a returned [error] is [option error],
      [None] being nil.  Errors are the trees of [GoErrors.error], on which
      [errors.Is] and [errors.As] are executable.
    - [int], [int64] and [time.Duration] are [Z] with the wrap-around written out
      ([wrap64], [wrapu64]); strings are byte strings.
    - State is passed explicitly; a panic, a send on a closed channel or a block
      under a mutex is [None].  Code under a mutex is one atomic step; where
      goroutines interleave the component is a step relation and its theorems
      quantify over [rtc].
    - What the program does not contain (drivers, codecs, the JWT library, the
      OpenTelemetry SDK, the clock, randomness, files, sockets) is an argument
      or a field of an environment record; the few hypotheses about it are named
      and each is discharged for a concrete function in a witness.
    - A map in the code is a [gmap]; a [for range] over one takes its order as an
      argument.

    ** Files

    Foundations:
    - [Prelude]: integers, results, notation, automation; [GoErrors]: error
      values, [errors.Is/As/Join]; [GoStrings]: the parts of [strings],
      [strconv], [net] and [net/textproto] the code uses.

    Domain and storage:
    - [Entity]: [internal/entity], [internal/apperr]: data and the job state
      machine.  [JobRepo]: the interface [service.JobRepository] as a class with
      its contract (each transition one compare-and-set).  [MemoryJobRepo]
      ([store/jobrepo/memory_job_repo.go]) and [SqlxJobRepo]
      ([store/jobrepo/sqlx.go], statements as table transformers) implement it.
      [UserRepo]: the user repository contract and both back ends.
    - [Services]: [internal/service], proved against the contracts with
      arbitrary interference between two repository calls.

    Concurrency:
    - [Queue]: [internal/queue], the admission barrier as a step relation;
      [Stream]: [internal/stream], channels as a shared store; [WorkerPool]:
      [internal/workerpool], modules [Lifecycle] (generations of workers under
      concurrent Start/Stop) and [Worker] (one item); [GrpcServer]:
      [transport/grpcserver/runtime.go], the life cycle of the gRPC runtime.
    - [AsyncSystem] composes handler, service, repository, queue, pool and hub
      into one step relation over one process state; [AsyncInv] and [AsyncPool]
      hold its invariants, [AsyncLive] its progress under fair scheduling.

    HTTP:
    - [HttpErrors] and [HttpUtils]: [internal/httputils]; [Security]:
      [internal/security]; [Middleware]: [internal/middleware], [requestid],
      [interceptors/auth.go]; [Handlers] and [ProfileHandler]:
      [internal/routes], [grpc_job_service.go]; [Router]: [internal/router],
      [internal/health] and the parts of [http.ServeMux] they rely on;
      [Observability]: [internal/metrics], status recorder, access log, recovery
      and metrics middleware.  [ErrorText]: the [Error] methods of every error
      type of the program, the texts that [MapError] must not depend on.
    - [Outbound]: [internal/outbound], the retrying profile client.

    Process:
    - [Config] (records, defaults, look-ups, parsers, checks) and [ConfigLoad]
      ([Load] and its contract): [internal/config].  [GrpcTransport]:
      request ids, gRPC interceptors, credentials and construction on both sides.
      [Telemetry]: [internal/telemetry], with its accessors in module [Api].
      [LogPolicy]: the field lists of [internal/logpolicy] and the records that
      the audit trail, the retry loop, the event stream, the shutdown summary
      and the access log build under it.  [RuntimeInfo]: [internal/runtimeinfo].
      [Server]: [internal/api/server.go].  [Wiring]: [run] of [cmd/api/main.go]
      with [db.Open], [httpclient.New], [NewProxyAPI].  [App]: the request path
      that [run] assembles, from the connection to the operation and back;
      [Dispatch]: the operations themselves over one process state.
      [Process]: [main], the readiness checks, the settings of the HTTP servers
      and the database statistics page.  [Protogen]: [scripts/protogen].

    ** What the theorems show

    - Jobs: both repositories implement the contract (refinement), so under every
      interleaving of writers a job only moves along the state machine.
    - Queue, hub, pool, gRPC runtime: nothing is admitted after a stop, the hub
      never blocks or panics and delivers gap-free, one generation of workers
      lives at a time and is repaired once, shutdown ends and is final.
    - Asynchronous creation from the request to the event stream: an unfinished
      job is in exactly one place (the request, the queue or one worker), its
      events are published in the order of its states; under fair scheduling an
      accepted job finishes, a Stop call returns and a shutdown leaves every job
      settled.
    - Requests: mediation of every operation, reachability of every operation,
      readiness, access log and request ids ([App.request_guarded] is the
      composition), protection headers from the configuration down to the answer
      ([App.protected_api_headers]), confinement of an ordinary user to their own
      records by any request ([Dispatch.ordinary_user_confined], two process
      states that agree on what the caller may read cannot be told apart); handlers: bridge and direct reads agree
      but for an ended context (408 and 504 against 500), asynchronous creation is all or nothing, event streams, conditional reads,
      profile reads bounded by the retry budget.
    - Configuration: the type of everything [Load] returns; which of these
      configurations start ([Process.startup_contract]: all but an unknown storage
      backend and gRPC over TLS with a file missing, which [Load] accepts and
      [run] refuses); signing keys round-trip.
    - Process: deferred resources are released in reverse order on every path,
      the gRPC listener by the shutdown of the server, cleanup runs to its end,
      outcomes are summarised truthfully, and [main] ends with the status and
      the one record that the outcome of [run] asks for
      ([Process.main_ends_properly]); the probe is ready exactly when the
      components are.
    - Records, stated field by field against the requests and the errors they
      are about: every denial is audited exactly once, the retry log tells what
      the loop did and nothing about the request, the stream log stays at the
      level of the connection, error texts never reach a client.
    - Defects the model exhibits are theorems too (retry-after, lost bearer error
      kinds, backoff overflow, ids overwritten in memory, gRPC disabled, a gRPC
      listener left open when a port cannot be bound, minimal TLS version of the
      HTTP server ignored).

    ** Fuel and bounds

    - [Itoa] has 20 digits of fuel and [FormatInt36] 13, enough for 64 bits;
      trimming recurses on the length of the text; the retry loop has
      [maxAttempts] as fuel, which is its own bound; the shutdown of the gRPC
      runtime is shown to end by a weight that every step decreases;
      [AsyncSystem] runs one item in at most 9 worker steps and one request in 4,
      and both runs are shown to agree with the functions of the components;
      [Protogen] climbs one directory per unit of fuel, and has one more than the
      length of the path.  Other recursions are structural.

    ** Not modelled

    - Generated protobuf code and the test kit; expvar registration of the HTTP
      metrics (their publication only); the diagnostic log lines of [main], the
      worker pool, the gRPC runtime and the start of telemetry (the records that
      are the observable are modelled: access, audit, retry, stream, shutdown,
      telemetry failures, gRPC calls); the byte format of JSON and
      protobuf documents (encoders are arguments); [http.ServeContent];
      timing, beyond the deadlines that decide a branch.
    - SQL is modelled statement by statement at the level of atomic table
      updates; isolation anomalies inside one statement are PostgreSQL's.
    - In [App] the operations behind the API are an argument with the laws of
      [App.env_ok]; [Dispatch.process_env_ok] shows that the handlers meet them,
      which leaves the laws about [net/http]'s own answers and debug pages.

    ** Plan

    Done: the composition of the asynchronous path, the liveness of the worker
    pool, the accessors of telemetry, the records of the log policy,
    object-level authorization end to end.  Left: [AsyncSystem] over the
    PostgreSQL back end. *)

From Stdlib Require Export ZArith Lia.
From Stdlib Require Export ssreflect.
From stdpp Require Export base tactics option list gmap strings numbers.

Declare Scope go_scope.
Delimit Scope go_scope with go.
#[export] Set Default Goal Selector "!".
#[global] Open Scope general_if_scope.

(** ** Machine integers

    Go's [int] (on the 64-bit targets the service is built for), [int64] and
    [time.Duration] are two's-complement 64-bit integers whose arithmetic
    wraps; [uint64] wraps modulo 2^64. *)
Definition int_min : Z := (- 2 ^ 63)%Z.
Definition int_max : Z := (2 ^ 63 - 1)%Z.
Definition wrap64 (z : Z) : Z := ((z + 2 ^ 63) mod 2 ^ 64 - 2 ^ 63)%Z.
Definition wrapu64 (z : Z) : Z := (z mod 2 ^ 64)%Z.
Definition int64_ok (z : Z) : Prop := (int_min <= z <= int_max)%Z.

#[export] Instance int64_ok_dec z : Decision (int64_ok z).
Proof. unfold int64_ok. apply _. Defined.

Lemma wrap64_id z : int64_ok z → wrap64 z = z.
Proof.
  unfold int64_ok, int_min, int_max, wrap64. intros ?.
  rewrite Z.mod_small; lia.
Qed.

Lemma wrap64_ok z : int64_ok (wrap64 z).
Proof.
  unfold int64_ok, int_min, int_max, wrap64.
  pose proof (Z.mod_pos_bound (z + 2 ^ 63) (2 ^ 64) ltac:(lia)). lia.
Qed.

Lemma wrapu64_id z : (0 <= z < 2 ^ 64)%Z → wrapu64 z = z.
Proof. intros. unfold wrapu64. by rewrite Z.mod_small. Qed.

(** ** Results: a Go return of type [(T, error)]

    [Ok v] is [v, nil]; [Err e] is the zero value with a non-nil error.  The
    error type is a parameter, the development instantiates it with
    [GoErrors.error]. *)
Inductive res (E A : Type) : Type :=
| Ok (a : A)
| Err (e : E).
Arguments Ok {E A} _.
Arguments Err {E A} _.

Definition res_bind {E A B} (r : res E A) (k : A → res E B) : res E B :=
  match r with
  | Ok a => k a
  | Err e => Err e
  end.

Module ResNotations.
  Notation "'try' x ':=' c 'in' k" := (res_bind c (fun x => k))
    (at level 10, x pattern, c at level 100, k at level 200,
     format "'[v' 'try'  x  ':='  c  'in' '/' k ']'") : go_scope.
End ResNotations.

Definition is_ok {E A} (r : res E A) : bool :=
  match r with Ok _ => true | Err _ => false end.

Lemma res_bind_Ok {E A B} (r : res E A) (k : A → res E B) b :
  res_bind r k = Ok b ↔ ∃ a, r = Ok a ∧ k a = Ok b.
Proof. destruct r; simpl; naive_solver. Qed.

Lemma res_bind_Err {E A B} (r : res E A) (k : A → res E B) e :
  res_bind r k = Err e ↔ r = Err e ∨ ∃ a, r = Ok a ∧ k a = Err e.
Proof. destruct r; simpl; naive_solver. Qed.

(** ** Boolean string and integer comparison *)
Definition streqb (a b : string) : bool := bool_decide (a = b).
Infix "=?s" := streqb (at level 70) : go_scope.

Lemma streqb_eq a b : streqb a b = true ↔ a = b.
Proof. apply bool_decide_eq_true. Qed.
Lemma streqb_neq a b : streqb a b = false ↔ a ≠ b.
Proof. apply bool_decide_eq_false. Qed.
Lemma streqb_refl a : streqb a a = true.
Proof. by apply streqb_eq. Qed.

(** ** Lists *)
#[export] Instance List_filter_Permutation {A} (f : A → bool) :
  Proper ((≡ₚ) ==> (≡ₚ)) (List.filter f).
Proof.
  induction 1 as [|x l l' _ IH|x y l|l1 l2 l3 _ IH1 _ IH2]; simpl.
  - done.
  - destruct (f x); by rewrite IH.
  - destruct (f x), (f y); try done. by constructor.
  - by rewrite IH1.
Qed.

Lemma list_lookup_alter_Some {A} (f : A → A) (l : list A) (i j : nat) (x : A) :
  alter f i l !! j = Some x ↔
  (i = j ∧ ∃ y, l !! i = Some y ∧ x = f y) ∨ (i ≠ j ∧ l !! j = Some x).
Proof.
  rewrite list_lookup_alter. destruct (decide (i = j)) as [<-|].
  - rewrite fmap_Some. naive_solver.
  - naive_solver.
Qed.

Lemma elem_of_rev {A} (x : A) l : x ∈ rev l ↔ x ∈ l.
Proof. rewrite !list_elem_of_In. symmetry. apply in_rev. Qed.

(** ** Automation shared by the components *)
Create HintDb go.
Create Rewrite HintDb go_rw.
#[export] Hint Rewrite @streqb_refl : go_rw.
#[export] Hint Resolve wrap64_ok : go.

(** Turns boolean tests in the context into propositions. *)
Ltac reflect_bools :=
  repeat match goal with
  | H : streqb _ _ = true |- _ => apply streqb_eq in H
  | H : streqb _ _ = false |- _ => apply streqb_neq in H
  | H : bool_decide _ = true |- _ => apply bool_decide_eq_true in H
  | H : bool_decide _ = false |- _ => apply bool_decide_eq_false in H
  | H : (_ && _)%bool = true |- _ => apply andb_true_iff in H as [??]
  | H : (_ || _)%bool = false |- _ => apply orb_false_iff in H as [??]
  | H : negb _ = true |- _ => apply negb_true_iff in H
  | H : negb _ = false |- _ => apply negb_false_iff in H
  | H : (_ <=? _)%Z = true |- _ => apply Z.leb_le in H
  | H : (_ <=? _)%Z = false |- _ => apply Z.leb_gt in H
  | H : (_ <? _)%Z = true |- _ => apply Z.ltb_lt in H
  | H : (_ <? _)%Z = false |- _ => apply Z.ltb_ge in H
  | H : (_ =? _)%Z = true |- _ => apply Z.eqb_eq in H
  | H : (_ =? _)%Z = false |- _ => apply Z.eqb_neq in H
  end.

(** Splits every [match] and [if] of the goal, keeping the equations, and
    closes the branches that contradict each other. *)
Ltac split_branches :=
  repeat (case_match; simplify_eq/=); reflect_bools; simplify_eq/=.
