(* ===== verification/GoErrors.v ===== *)
(** * Errors as Go values

    Go errors form trees: [fmt.Errorf] with [%w] and the typed errors of the
    service wrap one error, [errors.Join] and the typed errors with
    [Unwrap() []error] wrap several.  [errors.Is] and [errors.As] search such a
    tree in pre-order.  This file holds the tree, the search, and the sentinel
    and typed errors declared across the packages of the service. *)
From S2P Require Import Prelude.

(** ** Sentinel errors (compared by identity) *)
Inductive sentinel : Type :=
(* internal/entity/errors.go, internal/apperr *)
| ErrUserNotFound | ErrJobNotFound | ErrUserAlreadyExists
| ErrConflict | ErrForbidden | ErrJobTransitionConflict
(* internal/queue, internal/stream, internal/workerpool *)
| ErrQueueFull | ErrQueueStopped | ErrHubClosed
| ErrPoolNotRunning | ErrPoolStopping
(* internal/outbound/profile *)
| ErrTimeout | ErrCanceled | ErrNetwork | ErrUpstream5xx | ErrUpstream4xx
| ErrParse | ErrBadResponse
(* internal/httputils *)
| ErrNotAcceptable | ErrBulkheadRejected
| ErrGRPCBridgeUnavailable | ErrGRPCBridgeTimeout | ErrGRPCBridgeCanceled
| ErrJSONEmptyBody | ErrJSONTrailingData | ErrJSONUnknownField
| ErrJSONBadSyntax | ErrJSONTypeMismatch | ErrJSONDecodeFailure
| ErrUnsupportedMediaType | ErrStreamingUnsupported | ErrProtobufUnavailable
(* internal/security, internal/transport/grpcserver *)
| errNoKID
| ErrGRPCServerNotRunning | ErrGRPCServerAlreadyStarted
| ErrGRPCServerRuntimeRequired
(* the standard library and the drivers *)
| ContextCanceled | ContextDeadlineExceeded | SqlErrNoRows
| IoEOF | IoErrUnexpectedEOF
| HttpErrServerClosed | GrpcErrServerStopped
| JwtErrTokenSignatureInvalid | JwtErrTokenExpired | JwtErrTokenNotValidYet.

#[export] Instance sentinel_eq_dec : EqDecision sentinel.
Proof. solve_decision. Defined.

(** [apperr.ErrNotFound] is an alias of [entity.ErrUserNotFound]. *)
Definition ErrNotFound : sentinel := ErrUserNotFound.

(** ** Payloads of the typed errors *)
Record InvalidParam := mkInvalidParam { Name : string; Reason : string }.

Definition AuthNErrorKind := string.
Definition AuthNMissing : AuthNErrorKind := "missing".
Definition AuthNInvalid : AuthNErrorKind := "invalid".
Definition AuthNExpired : AuthNErrorKind := "expired".
Definition AuthNNotYetValid : AuthNErrorKind := "not_yet_valid".

Definition AuthZErrorKind := string.
Definition AuthZForbidden : AuthZErrorKind := "forbidden".
Definition AuthZAdminRequired : AuthZErrorKind := "admin_required".
Definition AuthZNoPolicyRule : AuthZErrorKind := "no_policy_rule".
Definition AuthZUnknownAccess : AuthZErrorKind := "unknown_access".

Inductive shutdownOutcome : Type :=
| shutdownOutcomeGraceful | shutdownOutcomeForced
| shutdownOutcomeTimedOut | shutdownOutcomeFailed.

#[export] Instance shutdownOutcome_eq_dec : EqDecision shutdownOutcome.
Proof. solve_decision. Defined.

(** ** Error values

    [EText] stands for an [errors.New]/[fmt.Errorf] value without [%w] and for
    errors of other packages that the service does not inspect. *)
Inductive error : Type :=
| ESentinel (s : sentinel)
| EText (msg : string)
| EWrap (msg : string) (e : error)
| EJoin (es : list error)
| EBadRequestError (Detail : string)
| EMethodNotAllowedError (Allow : string)
| EUnauthorizedError (Kind : AuthNErrorKind) (Cause : option error)
| EAuthNError (Kind : AuthNErrorKind) (Cause : option error)
| EForbiddenError (Kind : AuthZErrorKind) (Cause : option error)
| EValidationError (InvalidParams : list InvalidParam)
| EJSONRequestError (Kind : sentinel) (Field : string) (Offset : Z)
    (Cause : option error)
| EMaxBytesError (Limit : Z)
| ERateLimitError (RetryAfter : Z)
| EJobTransitionConflictError (JobID : Z) (From To Intent : string)
| EProfileError (Kind : sentinel) (Status : Z) (Cause : option error)
| EComponentShutdownError (Component : string) (Outcome : shutdownOutcome)
    (Err : option error)
| EPgError (Code : string)
| EStatusError (Code : Z) (Message : string)
| ETimeoutNetError (msg : string)
| EJSONSyntaxError (Offset : Z)
| EJSONUnmarshalTypeError (Field : string).

Abbreviation result A := (res error A) (only parsing).

(** The children a value exposes through [Unwrap].  The sentinel children of
    the conflict, JSON and profile errors are listed first, as in the code. *)
Definition Unwrap (e : error) : list error :=
  match e with
  | EWrap _ e => [e]
  | EJoin es => es
  | EUnauthorizedError _ c | EAuthNError _ c | EForbiddenError _ c
  | EComponentShutdownError _ _ c => option_list c
  | EJSONRequestError k _ _ c | EProfileError k _ c =>
      ESentinel k :: option_list c
  | EJobTransitionConflictError _ _ _ _ =>
      [ESentinel ErrJobTransitionConflict; ESentinel ErrConflict]
  | _ => []
  end.

(** Pre-order search: the node itself, then its children from left to right. *)
Fixpoint errors_As {A} (p : error → option A) (e : error) : option A :=
  let first := fix first (es : list error) : option A :=
    match es with
    | [] => None
    | e :: es => match errors_As p e with Some a => Some a | None => first es end
    end in
  let cause (c : option error) : option A :=
    match c with Some c => errors_As p c | None => None end in
  match p e with
  | Some a => Some a
  | None =>
      match e with
      | EWrap _ e => errors_As p e
      | EJoin es => first es
      | EUnauthorizedError _ c | EAuthNError _ c | EForbiddenError _ c
      | EComponentShutdownError _ _ c => cause c
      | EJSONRequestError k _ _ c | EProfileError k _ c =>
          match p (ESentinel k) with Some a => Some a | None => cause c end
      | EJobTransitionConflictError _ _ _ _ =>
          match p (ESentinel ErrJobTransitionConflict) with
          | Some a => Some a
          | None => p (ESentinel ErrConflict)
          end
      | _ => None
      end
  end.

Definition as_sentinel (s : sentinel) (e : error) : option unit :=
  match e with
  | ESentinel s' => if decide (s' = s) then Some tt else None
  | _ => None
  end.

Definition errors_Is (e : error) (s : sentinel) : bool :=
  match errors_As (as_sentinel s) e with Some _ => true | None => false end.

(** [errors.Join] drops nil errors and returns nil when nothing is left. *)
Definition errors_Join (es : list (option error)) : option error :=
  match omap id es with
  | [] => None
  | es => Some (EJoin es)
  end.

(** The sub-errors reachable by [Unwrap], the node itself included. *)
Inductive error_in : error → error → Prop :=
| error_in_here e : error_in e e
| error_in_child e c e' : c ∈ Unwrap e' → error_in e c → error_in e e'.

(** ** Induction on errors through [Unwrap] *)
Fixpoint error_size (e : error) : nat :=
  let cause (c : option error) : nat :=
    match c with Some c => error_size c | None => 0 end in
  match e with
  | EWrap _ e => S (error_size e)
  | EJoin es => S (list_sum (map error_size es))
  | EUnauthorizedError _ c | EAuthNError _ c | EForbiddenError _ c
  | EComponentShutdownError _ _ c => S (cause c)
  | EJSONRequestError _ _ _ c | EProfileError _ _ c => S (S (cause c))
  | EJobTransitionConflictError _ _ _ _ => 2
  | _ => 1
  end.

Lemma elem_of_list_sum_size c es :
  c ∈ es → error_size c <= list_sum (map error_size es).
Proof. induction 1; simpl; lia. Qed.

Lemma error_size_Unwrap e c : c ∈ Unwrap e → error_size c < error_size e.
Proof.
  destruct e as [| | |es| | |? [c'|]|? [c'|]|? [c'|]| |? ? ? [c'|]| | |
                 |? ? [c'|]|? ? [c'|]| | | | |]; simpl; intros Hc;
    lazymatch type of Hc with
    | _ ∈ es => apply elem_of_list_sum_size in Hc; lia
    | _ => set_unfold; repeat destruct Hc as [Hc|Hc]; subst; simpl; try done; lia
    end.
Qed.

Lemma error_ind_Unwrap (P : error → Prop) :
  (∀ e, (∀ c, c ∈ Unwrap e → P c) → P e) → ∀ e, P e.
Proof.
  intros IH e. remember (error_size e) as n eqn:Hn. revert e Hn.
  induction n as [n IHn] using (well_founded_induction lt_wf); intros e ->.
  apply IH. intros c Hc. by apply (IHn (error_size c)); [apply error_size_Unwrap|].
Qed.

(** The first hit among a list of errors. *)
Definition first_As {A} (p : error → option A) : list error → option A :=
  foldr (λ e k, match errors_As p e with Some a => Some a | None => k end) None.

(** [errors_As] is the pre-order search over [Unwrap]. *)
Lemma errors_As_unfold {A} (p : error → option A) e :
  errors_As p e = match p e with Some a => Some a | None => first_As p (Unwrap e) end.
Proof.
  destruct e as [| |? e0|es| | |? [c'|]|? [c'|]|? [c'|]| |? ? ? [c'|]| | |
                 |? ? [c'|]|? ? [c'|]| | | | |]; simpl;
    repeat case_match; simplify_eq/=; try done.
Qed.

Lemma first_As_Some {A} (p : error → option A) es :
  is_Some (first_As p es) ↔ ∃ e, e ∈ es ∧ is_Some (errors_As p e).
Proof.
  induction es as [|e es IH]; simpl.
  - split; [by intros []|]. intros (e & He%elem_of_nil & _). done.
  - destruct (errors_As p e) eqn:He.
    + split; [|by eauto]. intros _. exists e. rewrite He. split; [left|eauto].
    + rewrite IH. split.
      * intros (e' & ? & ?). exists e'. split; [by right|done].
      * intros (e' & [->|?]%elem_of_cons & [a Ha]); [congruence|eauto].
Qed.

(** [errors.Is(err, s)] holds exactly when the sentinel occurs in the tree. *)
Lemma errors_As_in {A} (p : error → option A) e :
  is_Some (errors_As p e) ↔ ∃ e', error_in e' e ∧ is_Some (p e').
Proof.
  induction e as [e IH] using error_ind_Unwrap. rewrite errors_As_unfold.
  destruct (p e) as [a|] eqn:Hp.
  { split; [|by eauto]. intros _. exists e. rewrite Hp. split; [constructor|eauto]. }
  rewrite first_As_Some. split.
  - intros (c & Hc & Hs). apply IH in Hs as (e' & ? & ?); [|done].
    exists e'. split; [eauto using error_in|done].
  - intros (e' & Hin & Hs). inversion Hin as [|? c ? Hc Hin']; subst.
    { rewrite Hp in Hs. by destruct Hs. }
    exists c. split; [done|]. apply IH; eauto.
Qed.

(** The value found belongs to a node of the tree. *)
Lemma errors_As_first {A} (p : error → option A) e a :
  errors_As p e = Some a → ∃ e', error_in e' e ∧ p e' = Some a.
Proof.
  induction e as [e IH] using error_ind_Unwrap. rewrite errors_As_unfold.
  destruct (p e) as [b|] eqn:Hp; [intros [= <-]; eauto using error_in|].
  intros Hf. assert (∃ c, c ∈ Unwrap e ∧ errors_As p c = Some a) as (c & Hc & Ha).
  { clear Hp IH. induction (Unwrap e) as [|c cs IHc]; simpl in Hf; [done|].
    destruct (errors_As p c) eqn:Ec; simplify_eq; [exists c; split; [left|done]|].
    destruct (IHc Hf) as (c' & ? & ?). exists c'. split; [by right|done]. }
  destruct (IH c Hc Ha) as (e' & ? & ?). eauto using error_in.
Qed.

Lemma errors_Is_in e s : errors_Is e s = true ↔ error_in (ESentinel s) e.
Proof.
  unfold errors_Is. transitivity (is_Some (errors_As (as_sentinel s) e)).
  { destruct (errors_As _ e); split; try done. }
  rewrite errors_As_in. split.
  - intros (e' & ? & [? Hs]). destruct e'; simpl in Hs; try done.
    case_decide; by simplify_eq.
  - intros. exists (ESentinel s). split; [done|]. simpl. by rewrite decide_True.
Qed.

(** Wrapping with [%w] is transparent to [errors.Is]; joining is a disjunction. *)
Lemma errors_Is_EWrap m e s : errors_Is (EWrap m e) s = errors_Is e s.
Proof. unfold errors_Is. rewrite errors_As_unfold /=. by destruct (errors_As _ e). Qed.

Lemma errors_Is_EJoin es s : errors_Is (EJoin es) s = existsb (λ e, errors_Is e s) es.
Proof.
  unfold errors_Is at 1. rewrite errors_As_unfold /=.
  induction es as [|e es IH]; simpl; [done|]. unfold errors_Is at 1.
  by destruct (errors_As _ e).
Qed.

#[export] Hint Rewrite errors_Is_EWrap errors_Is_EJoin : go_rw.
