(* ===== verification/Entity.v ===== *)
(** * Entities: jobs, their state machine, users

    Models [internal/entity] and [internal/apperr/job_transition.go]. *)
From S2P Require Import Prelude.
From S2P Require Import GoErrors.

(** ** Job statuses and transition intents (string types in the code) *)
Definition JobStatus := string.
Definition JobQueued : JobStatus := "queued".
Definition JobRunning : JobStatus := "running".
Definition JobSucceeded : JobStatus := "succeeded".
Definition JobFailed : JobStatus := "failed".

Definition JobTransition := string.
Definition JobTransitionStart : JobTransition := "start".
Definition JobTransitionSucceed : JobTransition := "succeed".
Definition JobTransitionFail : JobTransition := "fail".

Record JobTransitionSpec := mkJobTransitionSpec {
  Intent : JobTransition;
  From : list JobStatus;
  To : JobStatus;
}.

Definition jobTransitionSpecs : gmap JobTransition JobTransitionSpec :=
  {[ JobTransitionStart := mkJobTransitionSpec JobTransitionStart [JobQueued] JobRunning;
     JobTransitionSucceed := mkJobTransitionSpec JobTransitionSucceed [JobRunning] JobSucceeded;
     JobTransitionFail := mkJobTransitionSpec JobTransitionFail [JobQueued; JobRunning] JobFailed ]}.

Definition IsTerminal (s : JobStatus) : bool :=
  (streqb s JobSucceeded || streqb s JobFailed)%bool.

(** The zero value is returned with [false] for an unknown intent. *)
Definition JobTransitionFor (intent : JobTransition) : JobTransitionSpec * bool :=
  match jobTransitionSpecs !! intent with
  | Some spec => (spec, true)
  | None => (mkJobTransitionSpec "" [] "", false)
  end.

Definition CanTransitionJob (from : JobStatus) (intent : JobTransition) : bool :=
  let '(spec, ok) := JobTransitionFor intent in
  if negb ok then false
  else existsb (λ allowedFrom, streqb from allowedFrom) (From spec).

(** ** Jobs *)
Record JobResult := mkJobResult { UserID : Z }.
Record JobInvalidParam := mkJobInvalidParam { ipName : string; ipReason : string }.
Record JobProblem := mkJobProblem {
  Type_ : string;
  Title : string;
  Status_ : Z;
  Detail : string;
  Instance_ : string;
  RequestID : string;
  InvalidParams : list JobInvalidParam;
}.

Record Job := mkJob {
  ID : Z;
  Status : JobStatus;
  Result : option JobResult;
  Error : option JobProblem;
  OwnerUserID : Z;
}.

#[export] Instance JobResult_eq_dec : EqDecision JobResult.
Proof. solve_decision. Defined.
#[export] Instance JobInvalidParam_eq_dec : EqDecision JobInvalidParam.
Proof. solve_decision. Defined.
#[export] Instance JobProblem_eq_dec : EqDecision JobProblem.
Proof. solve_decision. Defined.
#[export] Instance Job_eq_dec : EqDecision Job.
Proof. solve_decision. Defined.

(** [apperr.NewJobTransitionConflict] *)
Definition NewJobTransitionConflict (jobID : Z) (from : JobStatus)
    (spec : JobTransitionSpec) : error :=
  EJobTransitionConflictError jobID from (To spec) (Intent spec).

(** ** Users *)
Record User := mkUser {
  uID : Z;
  uName : string;
  uAge : Z;
  uEmail : string;
  uVersion : Z;
}.
Record UserDTO := mkUserDTO { dID : Z; dName : string; dEmail : string }.
Record UserDTOV2 := mkUserDTOV2 { d2ID : Z; FullName : string; d2Email : string }.
Record CreateUserInput := mkCreateUserInput { inName : string; inAge : Z; inEmail : string }.
Record CreateUserInputV2 := mkCreateUserInputV2 {
  in2FullName : string; in2Age : Z; in2Email : string }.

#[export] Instance User_eq_dec : EqDecision User.
Proof. solve_decision. Defined.
#[export] Instance CreateUserInput_eq_dec : EqDecision CreateUserInput.
Proof. solve_decision. Defined.

Definition MapCreateV2ToV1 (i : CreateUserInputV2) : CreateUserInput :=
  mkCreateUserInput (in2FullName i) (in2Age i) (in2Email i).
Definition MapUserDTOToV2 (u : UserDTO) : UserDTOV2 :=
  mkUserDTOV2 (dID u) (dName u) (dEmail u).
Definition MapUsersToV2 (users : list User) : list UserDTOV2 :=
  foldl (λ out u, out ++ [mkUserDTOV2 (uID u) (uName u) (uEmail u)]) [] users.

(** ** The state machine as a relation: the specification of [CanTransitionJob] *)
Inductive job_move : JobStatus → JobTransition → JobStatus → Prop :=
| move_start : job_move JobQueued JobTransitionStart JobRunning
| move_succeed : job_move JobRunning JobTransitionSucceed JobSucceeded
| move_fail_queued : job_move JobQueued JobTransitionFail JobFailed
| move_fail_running : job_move JobRunning JobTransitionFail JobFailed.

Definition job_step (s s' : JobStatus) : Prop := ∃ i, job_move s i s'.

(** The statuses a job can be stored with. *)
Definition job_status_ok (s : JobStatus) : Prop :=
  s = JobQueued ∨ s = JobRunning ∨ s = JobSucceeded ∨ s = JobFailed.

Lemma jobTransitionSpecs_Some i spec :
  jobTransitionSpecs !! i = Some spec ↔
  (i = JobTransitionStart ∧ spec = mkJobTransitionSpec i [JobQueued] JobRunning) ∨
  (i = JobTransitionSucceed ∧ spec = mkJobTransitionSpec i [JobRunning] JobSucceeded) ∨
  (i = JobTransitionFail ∧ spec = mkJobTransitionSpec i [JobQueued; JobRunning] JobFailed).
Proof.
  unfold jobTransitionSpecs. rewrite !lookup_insert.
  repeat case_decide; subst; naive_solver.
Qed.

Lemma CanTransitionJob_move s i :
  CanTransitionJob s i = true → job_move s i (To (JobTransitionFor i).1).
Proof.
  unfold CanTransitionJob, JobTransitionFor.
  destruct (jobTransitionSpecs !! i) as [spec|] eqn:Hi; [|done].
  apply jobTransitionSpecs_Some in Hi as [[-> ->]|[[-> ->]|[-> ->]]]; simpl;
    rewrite ?orb_false_r ?orb_true_iff ?streqb_eq; intros Hs;
    repeat (destruct Hs as [Hs|Hs]); subst; constructor.
Qed.

Lemma job_move_CanTransitionJob s i s' :
  job_move s i s' → CanTransitionJob s i = true ∧ (JobTransitionFor i).1.(To) = s' ∧
                    (JobTransitionFor i).2 = true.
Proof. by destruct 1. Qed.

Lemma job_move_not_terminal s i s' : job_move s i s' → IsTerminal s = false.
Proof. by destruct 1. Qed.

Lemma IsTerminal_no_move s i : IsTerminal s = true → CanTransitionJob s i = false.
Proof.
  intros Ht. destruct (CanTransitionJob s i) eqn:E; [|done].
  apply CanTransitionJob_move, job_move_not_terminal in E. congruence.
Qed.

(** The transition table is exactly the documented state machine:
    [CanTransitionJob from intent] holds iff the machine has that move, and the
    target the table gives is the machine's (queued -start-> running
    -succeed-> succeeded, queued/running -fail-> failed, nothing else). *)
Theorem CanTransitionJob_spec s i s' :
  (CanTransitionJob s i = true ∧ To (JobTransitionFor i).1 = s') ↔ job_move s i s'.
Proof.
  split.
  - intros [Hc <-]. by apply CanTransitionJob_move.
  - intros Hm%job_move_CanTransitionJob. tauto.
Qed.

(** Terminal statuses are exactly those stored statuses without an
    outgoing move. *)
Theorem IsTerminal_spec s :
  job_status_ok s → (IsTerminal s = true ↔ ∀ i, CanTransitionJob s i = false).
Proof.
  intros Hs. split; [intros ? i; by apply IsTerminal_no_move|]. intros Hno.
  specialize (Hno JobTransitionFail).
  destruct Hs as [->|[->|[->| ->]]]; vm_compute in Hno |- *; congruence.
Qed.

Lemma IsTerminal_spec_witness :
  job_status_ok JobFailed ∧ (IsTerminal JobFailed = true ↔ ∀ i, CanTransitionJob JobFailed i = false).
Proof. split; [unfold job_status_ok; tauto | apply IsTerminal_spec; unfold job_status_ok; tauto]. Defined.

(** The number of moves a job can still make. *)
Definition job_rank (s : JobStatus) : nat :=
  if streqb s JobQueued then 2 else if streqb s JobRunning then 1 else 0.

Lemma job_step_rank s s' : job_step s s' → job_rank s' < job_rank s.
Proof. by intros [i []]; vm_compute; lia. Qed.

Lemma job_step_ok s s' : job_step s s' → job_status_ok s'.
Proof. unfold job_status_ok. intros [i []]; tauto. Qed.

(** Every job life cycle is finite: a status reached from another through
    [n] moves has used up at least [n] of the at most two moves, so a job makes
    at most two transitions in its life. *)
Theorem job_lifecycle_bounded n s s' :
  nsteps job_step n s s' → n + job_rank s' <= job_rank s ∧ n <= 2.
Proof.
  intros Hn. assert (n + job_rank s' <= job_rank s) as Hle.
  { induction Hn as [|n x y z Hs Hn IH]; [lia|]. apply job_step_rank in Hs. lia. }
  split; [done|]. assert (job_rank s <= 2); [|lia].
  unfold job_rank. repeat case_match; lia.
Qed.

Lemma job_lifecycle_bounded_witness :
  nsteps job_step 2 JobQueued JobSucceeded ∧ (2 + job_rank JobSucceeded <= job_rank JobQueued ∧ 2 <= 2).
Proof.
  assert (nsteps job_step 2 JobQueued JobSucceeded) as H.
  { econstructor; [exists JobTransitionStart; constructor|].
    econstructor; [exists JobTransitionSucceed; constructor|constructor]. }
  split; [exact H|]. exact (job_lifecycle_bounded 2 JobQueued JobSucceeded H).
Defined.
