(* ===== verification/JobRepo.v ===== *)
(** * The job repository contract

    [internal/service/jobRepository.go] declares the interface the job service
    and the worker pool are written against.  This file states what it
    promises: the transition methods are compare-and-set operations on the
    stored job, and nothing else touches a stored job.  [MemoryJobRepo] and
    [SqlxJobRepo] discharge the laws, [JobService] uses them. *)
From S2P Require Import Prelude.
From S2P Require Import GoErrors.
From S2P Require Import Entity.

(** ** What the transitions write *)
Definition apply_running (j : Job) : Job :=
  mkJob (ID j) JobRunning None None (OwnerUserID j).
Definition apply_succeeded (res : JobResult) (j : Job) : Job :=
  mkJob (ID j) JobSucceeded (Some res) None (OwnerUserID j).
Definition apply_failed (p : JobProblem) (j : Job) : Job :=
  mkJob (ID j) JobFailed None (Some p) (OwnerUserID j).

Definition is_active (j : Job) : bool :=
  (streqb (Status j) JobQueued || streqb (Status j) JobRunning)%bool.

(** [FailActive] on the abstract store: every active job is failed. *)
Definition fail_active_job (p : JobProblem) (j : Job) : Job :=
  if is_active j then apply_failed p j else j.
Definition active_count (m : gmap Z Job) : nat :=
  length (List.filter (λ kj, is_active kj.2) (map_to_list m)).

(** ** Outcome of a compare-and-set

    An error that is neither "not found" nor "conflict" comes from the storage
    behind the repository; it may be reported after the write was applied.  The
    same rule covers a conflict that a concurrent writer made the storage
    diagnose from a later status. *)
Inductive cas_outcome (m : gmap Z Job) (id : Z) (intent : JobTransition) (f : Job → Job)
  : gmap Z Job → option error → Prop :=
| cas_applied j :
    m !! id = Some j → CanTransitionJob (Status j) intent = true →
    cas_outcome m id intent f (<[id := f j]> m) None
| cas_conflict j :
    m !! id = Some j → CanTransitionJob (Status j) intent = false →
    cas_outcome m id intent f m
      (Some (NewJobTransitionConflict id (Status j) (JobTransitionFor intent).1))
| cas_not_found :
    m !! id = None → cas_outcome m id intent f m (Some (ESentinel ErrJobNotFound))
| cas_storage_error e : cas_outcome m id intent f m (Some e)
| cas_storage_error_applied j e :
    m !! id = Some j → CanTransitionJob (Status j) intent = true →
    cas_outcome m id intent f (<[id := f j]> m) (Some e).

(** The outcome when the storage itself does not fail: a total function. *)
Definition cas (m : gmap Z Job) (id : Z) (intent : JobTransition) (f : Job → Job)
  : gmap Z Job * option error :=
  match m !! id with
  | None => (m, Some (ESentinel ErrJobNotFound))
  | Some j =>
      if CanTransitionJob (Status j) intent then (<[id := f j]> m, None)
      else (m, Some (NewJobTransitionConflict id (Status j) (JobTransitionFor intent).1))
  end.

(** ** The interface

    [repo_env] is what the storage decides about one call (nothing for the
    in-memory repository, the driver's outcome for the SQL one), [repo_jobs]
    the abstract content, [repo_ok] the representation invariant and
    [repo_storable] the job problems the storage can represent. *)
Class JobRepository (S : Type) := {
  repo_env : Type;
  repo_jobs : S → gmap Z Job;
  repo_ok : S → Prop;
  repo_storable : JobProblem → Prop;
  GetByID : repo_env → S → Z → res error Job;
  SetRunning : repo_env → S → Z → S * option error;
  SetSucceeded : repo_env → S → Z → JobResult → S * option error;
  SetFailed : repo_env → S → Z → JobProblem → S * option error;
  FailActive : repo_env → S → JobProblem → S * (Z * option error);
  Save : repo_env → S → Job → S * (Job * option error);
  Delete : repo_env → S → Z → S * option error;
}.

(** The laws the code relies on. *)
Class JobRepositoryLaws (S : Type) `{JobRepository S} := {
  GetByID_law env s id j :
    repo_ok s → GetByID env s id = Ok j → repo_jobs s !! id = Some j;
  SetRunning_law env s id :
    repo_ok s →
    repo_ok (SetRunning env s id).1 ∧
    cas_outcome (repo_jobs s) id JobTransitionStart apply_running
      (repo_jobs (SetRunning env s id).1) (SetRunning env s id).2;
  SetSucceeded_law env s id r :
    repo_ok s →
    repo_ok (SetSucceeded env s id r).1 ∧
    cas_outcome (repo_jobs s) id JobTransitionSucceed (apply_succeeded r)
      (repo_jobs (SetSucceeded env s id r).1) (SetSucceeded env s id r).2;
  SetFailed_law env s id p :
    repo_ok s → repo_storable p →
    repo_ok (SetFailed env s id p).1 ∧
    cas_outcome (repo_jobs s) id JobTransitionFail (apply_failed p)
      (repo_jobs (SetFailed env s id p).1) (SetFailed env s id p).2;
  FailActive_law env s p :
    repo_ok s → repo_storable p →
    repo_ok (FailActive env s p).1 ∧
    (repo_jobs (FailActive env s p).1 = fail_active_job p <$> repo_jobs s ∨
     (repo_jobs (FailActive env s p).1 = repo_jobs s ∧ is_Some (FailActive env s p).2.2));
  Delete_law env s id :
    repo_ok s →
    repo_ok (Delete env s id).1 ∧
    (repo_jobs (Delete env s id).1 = delete id (repo_jobs s) ∨
     (repo_jobs (Delete env s id).1 = repo_jobs s ∧ is_Some (Delete env s id).2));
}.

(** ** Facts about outcomes *)

(** Every job of the new store was there before, and its status moved along
    the state machine or stayed. *)
Definition store_moves (m m' : gmap Z Job) : Prop :=
  ∀ id j', m' !! id = Some j' →
    ∃ j, m !! id = Some j ∧ OwnerUserID j' = OwnerUserID j ∧
         (j' = j ∨ job_step (Status j) (Status j')).

Lemma store_moves_refl m : store_moves m m.
Proof. intros id j ?. eauto. Qed.

Lemma store_moves_insert m id i j f :
  m !! id = Some j → CanTransitionJob (Status j) i = true →
  Status (f j) = To (JobTransitionFor i).1 → OwnerUserID (f j) = OwnerUserID j →
  store_moves m (<[id := f j]> m).
Proof.
  intros Hj Hc Hs Ho id' j'. destruct (decide (id = id')) as [<-|Hne].
  - rewrite lookup_insert_eq. intros [= <-]. exists j. split_and!; [done..|].
    right. exists i. rewrite Hs. by apply CanTransitionJob_move.
  - rewrite lookup_insert_ne //. eauto.
Qed.

(** A function that writes the target status of its intent and keeps the owner. *)
Definition cas_writer (i : JobTransition) (f : Job → Job) : Prop :=
  ∀ j, Status (f j) = To (JobTransitionFor i).1 ∧ OwnerUserID (f j) = OwnerUserID j.

Lemma apply_running_writer : cas_writer JobTransitionStart apply_running.
Proof. by intros j. Qed.
Lemma apply_succeeded_writer r : cas_writer JobTransitionSucceed (apply_succeeded r).
Proof. by intros j. Qed.
Lemma apply_failed_writer p : cas_writer JobTransitionFail (apply_failed p).
Proof. by intros j. Qed.
#[export] Hint Resolve apply_running_writer apply_succeeded_writer apply_failed_writer : go.

Lemma cas_outcome_moves m id i f m' e :
  cas_writer i f → cas_outcome m id i f m' e → store_moves m m'.
Proof.
  intros Hf Ho.
  destruct Ho as [j Hj Hc|j Hj Hc|Hn|e|j e Hj Hc]; try apply store_moves_refl;
    (apply (store_moves_insert _ _ i); [done|done|apply Hf..]).
Qed.

Lemma cas_outcome_None m id i f m' :
  cas_outcome m id i f m' None →
  ∃ j, m !! id = Some j ∧ CanTransitionJob (Status j) i = true ∧ m' = <[id := f j]> m.
Proof. inversion 1; naive_solver. Qed.

Lemma cas_cas_outcome m id i f : cas_outcome m id i f (cas m id i f).1 (cas m id i f).2.
Proof.
  unfold cas. destruct (m !! id) as [j|] eqn:Hj; simpl; [|by apply cas_not_found].
  destruct (CanTransitionJob (Status j) i) eqn:Hc; simpl; by econstructor.
Qed.

Lemma cas_allowed m id i f j :
  m !! id = Some j → CanTransitionJob (Status j) i = true → cas m id i f = (<[id := f j]> m, None).
Proof. unfold cas. by intros -> ->. Qed.

(** Terminal jobs are immutable under every compare-and-set. *)
Lemma cas_outcome_terminal m id i f m' e id' j :
  cas_outcome m id i f m' e → m !! id' = Some j → IsTerminal (Status j) = true →
  m' !! id' = Some j.
Proof.
  intros Ho Hj Ht.
  destruct Ho as [j0 Hj0 Hc|j0 Hj0 Hc|Hn|e|j0 e Hj0 Hc]; try done;
    (destruct (decide (id = id')) as [->|Hne]; [|by rewrite lookup_insert_ne]);
    simplify_eq; rewrite IsTerminal_no_move in Hc; done.
Qed.

Lemma fail_active_job_id p j : is_active j = false → fail_active_job p j = j.
Proof. unfold fail_active_job. by intros ->. Qed.

Lemma fail_active_moves p m : store_moves m (fail_active_job p <$> m).
Proof.
  intros id j'. rewrite lookup_fmap fmap_Some. intros (j & Hj & ->).
  exists j. split_and!; [done| |]; unfold fail_active_job;
    destruct (is_active j) eqn:Ha; try done; [|by left]. right.
  exists JobTransitionFail. unfold is_active in Ha.
  apply orb_true_iff in Ha as [Ha%streqb_eq|Ha%streqb_eq]; rewrite Ha; constructor.
Qed.

(** ** Consistency of a stored job: the payload matches the status *)
Definition job_consistent (j : Job) : Prop :=
  (Status j = JobQueued ∧ Result j = None ∧ Error j = None) ∨
  (Status j = JobRunning ∧ Result j = None ∧ Error j = None) ∨
  (Status j = JobSucceeded ∧ is_Some (Result j) ∧ Error j = None) ∨
  (Status j = JobFailed ∧ Result j = None ∧ is_Some (Error j)).

Definition jobs_consistent (m : gmap Z Job) : Prop :=
  ∀ id j, m !! id = Some j → ID j = id ∧ job_consistent j.

Lemma apply_running_consistent j : job_consistent (apply_running j).
Proof. right; left. done. Qed.
Lemma apply_succeeded_consistent r j : job_consistent (apply_succeeded r j).
Proof. do 2 right; left. split_and!; [done|by eexists|done]. Qed.
Lemma apply_failed_consistent p j : job_consistent (apply_failed p j).
Proof. do 3 right. split_and!; [done|done|by eexists]. Qed.
#[export] Hint Resolve apply_running_consistent apply_succeeded_consistent
  apply_failed_consistent : go.

Lemma jobs_consistent_insert m id j :
  jobs_consistent m → ID j = id → job_consistent j → jobs_consistent (<[id := j]> m).
Proof.
  intros Hm ?? id' j'. rewrite lookup_insert. case_decide; [naive_solver|apply Hm].
Qed.

Lemma jobs_consistent_delete m id : jobs_consistent m → jobs_consistent (delete id m).
Proof. intros Hm id' j' [_ ?]%lookup_delete_Some. by apply Hm. Qed.

Lemma jobs_consistent_cas m id i f m' e :
  (∀ j, ID (f j) = ID j ∧ job_consistent (f j)) →
  jobs_consistent m → cas_outcome m id i f m' e → jobs_consistent m'.
Proof.
  intros Hf Hm Ho. destruct Ho as [j Hj|?|?|?|j e Hj]; try done;
    (apply jobs_consistent_insert; [done| |apply Hf]);
    destruct (Hf j) as [-> _]; by apply (Hm _ _ Hj).
Qed.

Lemma jobs_consistent_fail_active p m :
  jobs_consistent m → jobs_consistent (fail_active_job p <$> m).
Proof.
  intros Hm id j'. rewrite lookup_fmap fmap_Some. intros (j & Hj & ->).
  destruct (Hm _ _ Hj) as [<- Hc]. unfold fail_active_job.
  destruct (is_active j); [|done]. split; [done|apply apply_failed_consistent].
Qed.
#[export] Hint Resolve jobs_consistent_delete jobs_consistent_fail_active : go.
