(* ===== verification/MemoryJobRepo.v ===== *)
(** * The in-memory job repository

    Models [internal/store/jobrepo/memory_job_repo.go].  Every method holds the
    repository's mutex for its whole body, so a method is one atomic state
    transformer.  A Go [range] over the map visits the keys in an unspecified
    order: the loops take that order as an argument, and the theorems hold for
    every order. *)
From S2P Require Import Prelude.
From S2P Require Import GoErrors.
From S2P Require Import Entity.
From S2P Require Import JobRepo.

Record MemoryJobRepository := mkMemoryJobRepository {
  jobs : gmap Z Job;
  nextID : Z;
}.

Definition NewMemoryJobRepository : MemoryJobRepository := mkMemoryJobRepository ∅ 1.

Definition set_ID (i : Z) (j : Job) : Job :=
  mkJob i (Status j) (Result j) (Error j) (OwnerUserID j).

Definition cloneJobProblem (i : JobProblem) : JobProblem :=
  mkJobProblem (Type_ i) (Title i) (Status_ i) (Detail i) (Instance_ i) (RequestID i)
    ([] ++ InvalidParams i).

Definition cloneJob (i : Job) : Job :=
  mkJob (ID i) (Status i)
    (match Result i with Some r => Some (mkJobResult (UserID r)) | None => None end)
    (match Error i with Some p => Some (cloneJobProblem p) | None => None end)
    (OwnerUserID i).

(** [Save] also writes the assigned id back to the caller's job. *)
Definition Save (r : MemoryJobRepository) (job : Job) : MemoryJobRepository * Job :=
  let '(job, next) :=
    if (ID job =? 0)%Z then (set_ID (nextID r) job, wrap64 (nextID r + 1))
    else (job, nextID r) in
  let j := cloneJob job in
  (mkMemoryJobRepository (<[ID j := j]> (jobs r)) next, job).

(** One iteration of a [range] loop per key of [order]. *)
Definition GetAll (order : list Z) (r : MemoryJobRepository) : list Job :=
  omap (λ k, cloneJob <$> jobs r !! k) order.

Definition GetByID (r : MemoryJobRepository) (id : Z) : res error Job :=
  match jobs r !! id with
  | None => Err (ESentinel ErrJobNotFound)
  | Some j => Ok (cloneJob j)
  end.

Definition Delete (r : MemoryJobRepository) (id : Z) : MemoryJobRepository * option error :=
  match jobs r !! id with
  | None => (r, Some (ESentinel ErrJobNotFound))
  | Some _ => (mkMemoryJobRepository (delete id (jobs r)) (nextID r), None)
  end.

Definition transition (r : MemoryJobRepository) (id : Z) (intent : JobTransition)
    (apply : Job → Job) : MemoryJobRepository * option error :=
  match jobs r !! id with
  | None => (r, Some (ESentinel ErrJobNotFound))
  | Some job =>
      let '(spec, ok) := JobTransitionFor intent in
      if negb ok then
        (r, Some (NewJobTransitionConflict id (Status job) (mkJobTransitionSpec intent [] "")))
      else if negb (CanTransitionJob (Status job) intent) then
        (r, Some (NewJobTransitionConflict id (Status job) spec))
      else (mkMemoryJobRepository (<[id := apply job]> (jobs r)) (nextID r), None)
  end.

Definition SetRunning (r : MemoryJobRepository) (id : Z) :=
  transition r id JobTransitionStart
    (λ job, mkJob (ID job) JobRunning None None (OwnerUserID job)).

Definition SetSucceeded (r : MemoryJobRepository) (id : Z) (rs : JobResult) :=
  transition r id JobTransitionSucceed
    (λ job, mkJob (ID job) JobSucceeded (Some rs) None (OwnerUserID job)).

Definition SetFailed (r : MemoryJobRepository) (id : Z) (p : JobProblem) :=
  transition r id JobTransitionFail
    (λ job, mkJob (ID job) JobFailed None (Some (cloneJobProblem p)) (OwnerUserID job)).

(** The body of the [FailActive] loop for one key. *)
Definition failActive_step (p : JobProblem) (st : gmap Z Job * Z) (k : Z) : gmap Z Job * Z :=
  let '(m, failed) := st in
  match m !! k with
  | None => st
  | Some job =>
      if (negb (streqb (Status job) JobQueued) && negb (streqb (Status job) JobRunning))%bool
      then st
      else (<[k := mkJob (ID job) JobFailed None (Some (cloneJobProblem p)) (OwnerUserID job)]> m,
            wrap64 (failed + 1))
  end.

Definition FailActive (order : list Z) (r : MemoryJobRepository) (p : JobProblem)
  : MemoryJobRepository * Z :=
  let '(m, failed) := foldl (failActive_step p) (jobs r, 0%Z) order in
  (mkMemoryJobRepository m (nextID r), failed).

(** ** Cloning is the identity on values *)
Lemma cloneJobProblem_id p : cloneJobProblem p = p.
Proof. by destruct p. Qed.
Lemma cloneJob_id j : cloneJob j = j.
Proof. destruct j as [? ? [[]|] [[]|] ?]; by unfold cloneJob. Qed.
#[export] Hint Rewrite cloneJobProblem_id cloneJob_id : go_rw.

(** ** The transition method is the compare-and-set of the contract *)
Lemma transition_cas r id i f :
  (JobTransitionFor i).2 = true →
  transition r id i f =
    (mkMemoryJobRepository (cas (jobs r) id i f).1 (nextID r), (cas (jobs r) id i f).2).
Proof.
  intros Hi. unfold transition, cas. destruct r as [m n]; simpl.
  destruct (m !! id) as [j|]; [|done].
  destruct (JobTransitionFor i) as [spec ok] eqn:E. simpl in *. subst ok. simpl.
  by destruct (CanTransitionJob (Status j) i).
Qed.

Lemma SetRunning_cas r id :
  SetRunning r id =
    (mkMemoryJobRepository (cas (jobs r) id JobTransitionStart apply_running).1 (nextID r),
     (cas (jobs r) id JobTransitionStart apply_running).2).
Proof. by apply transition_cas. Qed.

Lemma SetSucceeded_cas r id rs :
  SetSucceeded r id rs =
    (mkMemoryJobRepository (cas (jobs r) id JobTransitionSucceed (apply_succeeded rs)).1 (nextID r),
     (cas (jobs r) id JobTransitionSucceed (apply_succeeded rs)).2).
Proof. by apply transition_cas. Qed.

Lemma SetFailed_cas r id p :
  SetFailed r id p =
    (mkMemoryJobRepository (cas (jobs r) id JobTransitionFail (apply_failed p)).1 (nextID r),
     (cas (jobs r) id JobTransitionFail (apply_failed p)).2).
Proof. unfold SetFailed. by rewrite transition_cas // cloneJobProblem_id. Qed.
#[export] Hint Rewrite SetRunning_cas SetSucceeded_cas SetFailed_cas : go_rw.

(** (C7) Every transition method of the in-memory repository is exactly the
    compare-and-set of the contract, on all branches: job missing, source
    status not allowed (typed conflict, store unchanged), applied. *)
Theorem memory_transitions_cas r id rs p :
  SetRunning r id =
    (mkMemoryJobRepository (cas (jobs r) id JobTransitionStart apply_running).1 (nextID r),
     (cas (jobs r) id JobTransitionStart apply_running).2) ∧
  SetSucceeded r id rs =
    (mkMemoryJobRepository (cas (jobs r) id JobTransitionSucceed (apply_succeeded rs)).1 (nextID r),
     (cas (jobs r) id JobTransitionSucceed (apply_succeeded rs)).2) ∧
  SetFailed r id p =
    (mkMemoryJobRepository (cas (jobs r) id JobTransitionFail (apply_failed p)).1 (nextID r),
     (cas (jobs r) id JobTransitionFail (apply_failed p)).2).
Proof.
  by rewrite SetRunning_cas SetSucceeded_cas SetFailed_cas.
Qed.

(** ** [FailActive] is order-independent *)

(** [order] is an order in which a [range] loop may visit the keys of [m]. *)
Definition range_order {A} (m : gmap Z A) (order : list Z) : Prop :=
  order ≡ₚ (map_to_list m).*1.

Lemma range_order_NoDup {A} (m : gmap Z A) order : range_order m order → NoDup order.
Proof. intros ->. apply NoDup_fst_map_to_list. Qed.

Lemma range_order_elem {A} (m : gmap Z A) order k :
  range_order m order → k ∈ order ↔ is_Some (m !! k).
Proof.
  intros ->. rewrite list_elem_of_fmap. split.
  - intros ([k' v] & -> & ?%elem_of_map_to_list). eauto.
  - intros [v ?]. exists (k, v). by rewrite elem_of_map_to_list.
Qed.

Lemma is_active_alt j :
  (negb (streqb (Status j) JobQueued) && negb (streqb (Status j) JobRunning))%bool
  = negb (is_active j).
Proof. unfold is_active. by rewrite negb_orb. Qed.

Lemma failActive_step_lookup p m n k :
  (failActive_step p (m, n) k).1 = alter (fail_active_job p) k m.
Proof.
  simpl. apply map_eq. intros k'. rewrite lookup_alter.
  destruct (m !! k) as [j|] eqn:Hk; simpl.
  - rewrite is_active_alt cloneJobProblem_id. unfold fail_active_job.
    destruct (decide (k = k')) as [<-|Hne].
    + rewrite ?Hk /=. destruct (is_active j); simpl; [by rewrite lookup_insert_eq|done].
    + destruct (is_active j); simpl; [by rewrite lookup_insert_ne|done].
  - case_decide; subst; by rewrite ?Hk.
Qed.

Lemma failActive_step_count p m n k :
  (failActive_step p (m, n) k).2 =
    match m !! k with Some j => if is_active j then wrap64 (n + 1) else n | None => n end.
Proof.
  simpl. destruct (m !! k) as [j|]; [|done]. rewrite is_active_alt.
  by destruct (is_active j).
Qed.

Lemma failActive_fold p order : ∀ m n,
  NoDup order →
  (foldl (failActive_step p) (m, n) order).1 =
    map_imap (λ k j, Some (if decide (k ∈ order) then fail_active_job p j else j)) m.
Proof.
  induction order as [|k order IH]; intros m n Hnd; cbn [foldl].
  - apply map_eq. intros k. rewrite map_lookup_imap /=. by destruct (m !! k).
  - apply list.NoDup_cons in Hnd as [Hk Hnd].
    destruct (failActive_step p (m, n) k) as [m' n'] eqn:E.
    rewrite IH //. assert (m' = alter (fail_active_job p) k m) as ->.
    { by rewrite -(failActive_step_lookup p m n k) E. }
    apply map_eq. intros k'. rewrite !map_lookup_imap lookup_alter.
    destruct (decide (k = k')) as [<-|Hkk].
    + destruct (m !! k) as [j|]; simpl; [|done].
      rewrite decide_False // decide_True //. by left.
    + destruct (m !! k') as [j|]; simpl; [|done].
      destruct (decide (k' ∈ order)) as [Hin|Hin].
      * rewrite decide_True //. by right.
      * rewrite decide_False //. rewrite elem_of_cons. intuition congruence.
Qed.

Definition active_at (m : gmap Z Job) (k : Z) : bool :=
  match m !! k with Some j => is_active j | None => false end.

Lemma failActive_fold_count p order : ∀ m n,
  NoDup order → (0 <= n)%Z → (n + Z.of_nat (length order) <= int_max)%Z →
  (foldl (failActive_step p) (m, n) order).2 =
    (n + Z.of_nat (length (List.filter (active_at m) order)))%Z.
Proof.
  induction order as [|k order IH]; intros m n Hnd Hn Hmax; cbn [foldl List.filter].
  { simpl. lia. }
  apply list.NoDup_cons in Hnd as [Hk Hnd]. cbn [length] in Hmax.
  destruct (failActive_step p (m, n) k) as [m' n'] eqn:E.
  pose proof (failActive_step_lookup p m n k) as Hm'. rewrite E /= in Hm'.
  pose proof (failActive_step_count p m n k) as Hn'. rewrite E /= in Hn'.
  assert (wrap64 (n + 1) = n + 1)%Z as Hw.
  { apply wrap64_id. unfold int64_ok, int_min. lia. }
  assert (List.filter (active_at m') order = List.filter (active_at m) order) as Hf.
  { apply filter_ext_in. intros k' Hk'. unfold active_at.
    rewrite Hm' lookup_alter_ne //. intros ->. by apply Hk, list_elem_of_In. }
  rewrite IH //; [..|rewrite Hf].
  1-2: rewrite Hn' Hw; repeat case_match; lia.
  rewrite Hn' Hw. unfold active_at at 2.
  destruct (m !! k) as [j|]; [destruct (is_active j)|]; simpl; lia.
Qed.

Lemma active_count_order m order :
  range_order m order → length (List.filter (active_at m) order) = active_count m.
Proof.
  intros Ho. unfold active_count, range_order in *.
  transitivity (length (List.filter (active_at m) (map_to_list m).*1)).
  { apply Permutation_length. by rewrite Ho. }
  assert (∀ l, (∀ k j, (k, j) ∈ l → m !! k = Some j) →
    length (List.filter (active_at m) l.*1) = length (List.filter (λ kj, is_active kj.2) l)) as Hl.
  { induction l as [|[k j] l IH]; intros Hl; [done|]. simpl.
    unfold active_at at 1. rewrite (Hl k j); [by left|].
    destruct (is_active j); simpl; rewrite IH //; intros; apply Hl; by right. }
  apply Hl. intros k j. by rewrite elem_of_map_to_list.
Qed.

Lemma FailActive_jobs order r p :
  range_order (jobs r) order →
  (FailActive order r p).1 = mkMemoryJobRepository (fail_active_job p <$> jobs r) (nextID r).
Proof.
  intros Ho. unfold FailActive.
  pose proof (failActive_fold p order (jobs r) 0 (range_order_NoDup _ _ Ho)) as Hm.
  destruct (foldl _ _ order) as [m' c]. simpl in *. subst. f_equal.
  apply map_eq. intros k. rewrite map_lookup_imap lookup_fmap.
  destruct (jobs r !! k) as [j|] eqn:Hk; simpl; [|done].
  rewrite decide_True //. by apply (range_order_elem _ _ _ Ho).
Qed.

(** [FailActive] fails exactly the queued and running jobs, leaves every
    terminal job untouched, and returns how many it failed, whatever order Go's
    map iteration picks. *)
Theorem memory_FailActive_spec order r p :
  range_order (jobs r) order → (Z.of_nat (size (jobs r)) <= int_max)%Z →
  FailActive order r p =
    (mkMemoryJobRepository (fail_active_job p <$> jobs r) (nextID r),
     Z.of_nat (active_count (jobs r))).
Proof.
  intros Ho Hsz. rewrite (surjective_pairing (FailActive order r p)) FailActive_jobs //.
  f_equal. unfold FailActive.
  assert (length order = size (jobs r)) as Hlen.
  { rewrite (Permutation_length Ho) length_fmap. apply length_map_to_list. }
  pose proof (failActive_fold_count p order (jobs r) 0 (range_order_NoDup _ _ Ho)) as Hc.
  destruct (foldl _ _ order) as [m' c]. simpl in *.
  rewrite Hc ?Hlen; [lia..|]. by rewrite active_count_order.
Qed.

Definition ex_problem : JobProblem := mkJobProblem "" "t" 503 "d" "" "" [].
Definition ex_repo : MemoryJobRepository :=
  (SetRunning (Save (Save NewMemoryJobRepository (mkJob 0 JobQueued None None 7)).1
                 (mkJob 0 JobQueued None None 8)).1 2).1.

Lemma memory_FailActive_spec_witness :
  FailActive [2; 1]%Z ex_repo ex_problem =
    (mkMemoryJobRepository (fail_active_job ex_problem <$> jobs ex_repo) (nextID ex_repo),
     Z.of_nat (active_count (jobs ex_repo))).
Proof.
  apply memory_FailActive_spec; [|vm_compute; congruence].
  assert ((map_to_list (jobs ex_repo)).*1 = [1; 2]%Z ∨ (map_to_list (jobs ex_repo)).*1 = [2; 1]%Z)
    as [H|H] by (vm_compute; tauto);
    unfold range_order; rewrite H; [apply Permutation_swap|reflexivity].
Defined.

(** ** Well-formedness: ids are positive and below the counter, payloads match statuses *)
Record memory_wf (r : MemoryJobRepository) : Prop := {
  wf_next : (0 < nextID r)%Z;
  wf_ids : ∀ id j, jobs r !! id = Some j → (0 < id < nextID r)%Z;
  wf_jobs : jobs_consistent (jobs r);
}.

Lemma NewMemoryJobRepository_wf : memory_wf NewMemoryJobRepository.
Proof. split; [done|intros ?? H|intros ?? H]; by rewrite lookup_empty in H. Qed.

Lemma wf_of_moves r m' :
  memory_wf r → store_moves (jobs r) m' → jobs_consistent m' →
  memory_wf (mkMemoryJobRepository m' (nextID r)).
Proof.
  intros [Hn Hi Hc] Hm Hc'. split; simpl; [done| |done].
  intros id j' Hj'. destruct (Hm _ _ Hj') as (j & Hj & _). eauto.
Qed.

Lemma cas_wf r id i f :
  memory_wf r → cas_writer i f → (∀ j, ID (f j) = ID j ∧ job_consistent (f j)) →
  memory_wf (mkMemoryJobRepository (cas (jobs r) id i f).1 (nextID r)).
Proof.
  intros Hwf Hw Hf. pose proof (cas_cas_outcome (jobs r) id i f) as Ho.
  apply wf_of_moves; [done| |].
  - by eapply cas_outcome_moves.
  - eapply jobs_consistent_cas; [done|apply Hwf|done].
Qed.

Lemma Save_fresh r job :
  memory_wf r → (nextID r < int_max)%Z → ID job = 0%Z → job_consistent job →
  let '(r', job') := Save r job in
  jobs r !! ID job' = None ∧ ID job' = nextID r ∧ GetByID r' (ID job') = Ok job' ∧
  (∀ id, id ≠ ID job' → jobs r' !! id = jobs r !! id) ∧ memory_wf r'.
Proof.
  intros [Hn Hi Hc] Hmax Hid Hcons. unfold Save. rewrite Hid /=. autorewrite with go_rw. simpl.
  assert (wrap64 (nextID r + 1) = nextID r + 1)%Z as ->.
  { apply wrap64_id. unfold int64_ok, int_min. lia. }
  assert (jobs r !! nextID r = None) as Hfresh.
  { destruct (jobs r !! nextID r) as [j|] eqn:E; [|done]. apply Hi in E. lia. }
  split_and!; [done|done| | |].
  - unfold GetByID. simpl. by rewrite lookup_insert_eq cloneJob_id.
  - intros id Hne. by rewrite lookup_insert_ne.
  - split; simpl; [lia| |].
    + intros id j. rewrite lookup_insert. case_decide; [lia|]. intros ?%Hi. lia.
    + by apply jobs_consistent_insert.
Qed.

(** A newly saved job gets a fresh id: no stored job is overwritten, the
    caller sees the assigned id, reading it back returns the job, all other
    jobs are untouched and the invariant is kept. *)
Theorem memory_Save_fresh r job :
  memory_wf r → (nextID r < int_max)%Z → ID job = 0%Z → job_consistent job →
  let '(r', job') := Save r job in
  jobs r !! ID job' = None ∧ ID job' = nextID r ∧ GetByID r' (ID job') = Ok job' ∧
  (∀ id, id ≠ ID job' → jobs r' !! id = jobs r !! id) ∧ memory_wf r'.
Proof.
  apply Save_fresh.
Qed.

Lemma memory_Save_fresh_witness :
  let '(r', job') := Save NewMemoryJobRepository (mkJob 0 JobQueued None None 7) in
  jobs NewMemoryJobRepository !! ID job' = None ∧ ID job' = nextID NewMemoryJobRepository ∧
  GetByID r' (ID job') = Ok job' ∧
  (∀ id, id ≠ ID job' → jobs r' !! id = jobs NewMemoryJobRepository !! id) ∧ memory_wf r'.
Proof.
  apply (memory_Save_fresh NewMemoryJobRepository (mkJob 0 JobQueued None None 7));
    [apply NewMemoryJobRepository_wf|vm_compute; reflexivity|reflexivity|left; done].
Defined.

(** Saving with a caller-chosen id does not advance the id counter, so the
    next automatically numbered save silently replaces that job. *)
Theorem memory_Save_explicit_id_overwritten :
  ∃ explicit fresh,
    let '(r1, j1) := Save NewMemoryJobRepository explicit in
    let '(r2, j2) := Save r1 fresh in
    ID explicit = 1%Z ∧ ID fresh = 0%Z ∧ GetByID r1 1 = Ok explicit ∧
    ID j2 = ID j1 ∧ GetByID r2 1 = Ok j2 ∧ OwnerUserID j2 ≠ OwnerUserID explicit.
Proof.
  exists (mkJob 1 JobQueued None None 7), (mkJob 0 JobQueued None None 8).
  vm_compute. split_and!; congruence.
Qed.

(** ** Sequences of operations *)
Inductive memory_op : Type :=
| OpSave (job : Job)
| OpDelete (id : Z)
| OpRunning (id : Z)
| OpSucceeded (id : Z) (rs : JobResult)
| OpFailed (id : Z) (p : JobProblem)
| OpFailActive (p : JobProblem).

(** The canonical iteration order, one of those [memory_FailActive_spec] covers. *)
Definition some_order (r : MemoryJobRepository) : list Z := (map_to_list (jobs r)).*1.

Lemma some_order_ok r : range_order (jobs r) (some_order r).
Proof. apply Permutation_refl. Qed.
#[export] Hint Resolve some_order_ok : core.

Definition run_op (r : MemoryJobRepository) (o : memory_op) : MemoryJobRepository :=
  match o with
  | OpSave job => (Save r job).1
  | OpDelete id => (Delete r id).1
  | OpRunning id => (SetRunning r id).1
  | OpSucceeded id rs => (SetSucceeded r id rs).1
  | OpFailed id p => (SetFailed r id p).1
  | OpFailActive p => (FailActive (some_order r) r p).1
  end.

(** The saves the handlers perform: a new queued job without an id. *)
Definition handler_op (o : memory_op) : Prop :=
  match o with
  | OpSave job => ID job = 0%Z ∧ Status job = JobQueued ∧ Result job = None ∧ Error job = None
  | _ => True
  end.

Definition saves (ops : list memory_op) : nat :=
  length (List.filter (λ o, match o with OpSave _ => true | _ => false end) ops).

Lemma run_op_next r o :
  nextID (run_op r o) =
    match o with
    | OpSave job => if (ID job =? 0)%Z then wrap64 (nextID r + 1) else nextID r
    | _ => nextID r
    end.
Proof.
  destruct o as [job|id|id|id rs|id p|p]; simpl.
  - unfold Save. by destruct (ID job =? 0)%Z.
  - unfold Delete. by destruct (jobs r !! id).
  - by rewrite SetRunning_cas.
  - by rewrite SetSucceeded_cas.
  - by rewrite SetFailed_cas.
  - by rewrite FailActive_jobs.
Qed.

Lemma run_op_wf r o :
  memory_wf r → handler_op o → (nextID r < int_max)%Z → memory_wf (run_op r o).
Proof.
  intros Hwf Ho Hmax. destruct o as [job|id|id|id rs|id p|p]; simpl in *.
  - destruct Ho as (Hid & Hs & Hr & He).
    pose proof (Save_fresh r job Hwf Hmax Hid) as Hsave.
    destruct (Save r job). apply Hsave. left. done.
  - unfold Delete. destruct (jobs r !! id); [|done]. destruct Hwf as [Hn Hi Hc].
    split; simpl; [done| |by apply jobs_consistent_delete].
    intros id' j' [_ ?]%lookup_delete_Some. eauto.
  - rewrite SetRunning_cas. apply cas_wf; auto with go.
  - rewrite SetSucceeded_cas. apply cas_wf; auto with go.
  - rewrite SetFailed_cas. apply cas_wf; auto with go.
  - rewrite FailActive_jobs; [done|]. apply wf_of_moves; [done|apply fail_active_moves|].
    apply jobs_consistent_fail_active, Hwf.
Qed.

Lemma run_ops_wf ops : ∀ r,
  memory_wf r → Forall handler_op ops → (nextID r + Z.of_nat (saves ops) < int_max)%Z →
  memory_wf (foldl run_op r ops).
Proof.
  unfold saves. induction ops as [|o ops IH]; intros r Hwf Hops Hmax; [done|].
  apply list.Forall_cons in Hops as [Ho Hops]. simpl in *.
  pose proof (wf_next r Hwf) as Hn. pose proof (run_op_next r o) as Hnext.
  assert (nextID r < int_max)%Z by (destruct o; simpl in *; lia).
  apply IH; [by apply run_op_wf|done|]. rewrite Hnext.
  destruct o as [job| | | | |]; simpl in *; try lia.
  destruct Ho as [-> _]. simpl. rewrite wrap64_id; [|lia].
  unfold int64_ok, int_min. lia.
Qed.

(** Starting from the empty repository, every sequence of the operations
    the service performs (fewer than 2^63-2 saves) keeps the invariant: ids are
    positive, below the counter and equal to the stored job's id; a queued or
    running job has no payload, a succeeded one exactly a result, a failed one
    exactly an error. *)
Theorem memory_reachable_wf ops :
  Forall handler_op ops → (1 + Z.of_nat (saves ops) < int_max)%Z →
  memory_wf (foldl run_op NewMemoryJobRepository ops).
Proof. intros. by apply run_ops_wf; [apply NewMemoryJobRepository_wf| |]. Qed.

Definition ex_ops : list memory_op :=
  [OpSave (mkJob 0 JobQueued None None 7); OpRunning 1; OpSucceeded 1 (mkJobResult 5);
   OpSave (mkJob 0 JobQueued None None 8); OpFailActive ex_problem].

Lemma memory_reachable_wf_witness :
  memory_wf (foldl run_op NewMemoryJobRepository ex_ops) ∧
  (Status <$> jobs (foldl run_op NewMemoryJobRepository ex_ops) !! 2%Z) = Some JobFailed.
Proof.
  split; [|vm_compute; reflexivity].
  apply (memory_reachable_wf ex_ops); [|vm_compute; reflexivity].
  repeat constructor.
Defined.

Lemma run_op_terminal r o id j :
  memory_wf r → handler_op o → (nextID r < int_max)%Z → o ≠ OpDelete id →
  jobs r !! id = Some j → IsTerminal (Status j) = true → jobs (run_op r o) !! id = Some j.
Proof.
  intros Hwf Ho Hmax Hne Hj Ht. destruct o as [job|id'|id'|id' rs|id' p|p]; simpl in *.
  - destruct Ho as (Hid & Hs & Hr & He).
    pose proof (Save_fresh r job Hwf Hmax Hid) as Hsave.
    destruct (Save r job) as [r' job']. destruct Hsave as (Hf & _ & _ & Hoth & _); [by left|].
    simpl. rewrite Hoth //. congruence.
  - unfold Delete. destruct (jobs r !! id'); [|done]. simpl.
    rewrite lookup_delete_ne //. congruence.
  - rewrite SetRunning_cas. eapply cas_outcome_terminal; [apply cas_cas_outcome|done..].
  - rewrite SetSucceeded_cas. eapply cas_outcome_terminal; [apply cas_cas_outcome|done..].
  - rewrite SetFailed_cas. eapply cas_outcome_terminal; [apply cas_cas_outcome|done..].
  - rewrite FailActive_jobs; [done|]. rewrite lookup_fmap Hj /= fail_active_job_id //.
    apply orb_true_iff in Ht as [Ht%streqb_eq|Ht%streqb_eq];
      unfold is_active; by rewrite Ht.
Qed.

(** A job that reached a terminal status is never changed again: whatever
    the service does afterwards, short of deleting that job, reading it returns
    the same record. *)
Theorem memory_terminal_immutable ops r id j :
  memory_wf r → Forall handler_op ops → (nextID r + Z.of_nat (saves ops) < int_max)%Z →
  OpDelete id ∉ ops → GetByID r id = Ok j → IsTerminal (Status j) = true →
  GetByID (foldl run_op r ops) id = Ok j.
Proof.
  unfold GetByID. intros Hwf Hops Hmax Hdel Hj Ht.
  destruct (jobs r !! id) as [j0|] eqn:Hj0; [|done]. rewrite cloneJob_id in Hj.
  injection Hj as ->. enough (jobs (foldl run_op r ops) !! id = Some j) as ->.
  { by rewrite cloneJob_id. }
  unfold saves in Hmax. revert r Hwf Hmax Hj0.
  induction ops as [|o ops IH]; intros r Hwf Hmax Hj0; [done|].
  apply list.Forall_cons in Hops as [Ho Hops].
  apply not_elem_of_cons in Hdel as [Hd Hdel]. simpl in *.
  pose proof (wf_next r Hwf) as Hn. pose proof (run_op_next r o) as Hnext.
  assert (nextID r < int_max)%Z by (destruct o; simpl in *; lia).
  apply IH; [done|done|by apply run_op_wf| |by apply run_op_terminal]. rewrite Hnext.
  destruct o as [job| | | | |]; simpl in *; try lia.
  destruct Ho as [-> _]. simpl. rewrite wrap64_id; [|lia].
  unfold int64_ok, int_min. lia.
Qed.

Lemma memory_terminal_immutable_witness :
  let r := foldl run_op NewMemoryJobRepository [OpSave (mkJob 0 JobQueued None None 7); OpRunning 1;
                                                OpSucceeded 1 (mkJobResult 5)] in
  let j := mkJob 1 JobSucceeded (Some (mkJobResult 5)) None 7 in
  GetByID (foldl run_op r [OpFailed 1 ex_problem; OpFailActive ex_problem]) 1 = Ok j.
Proof.
  intros r j. apply (memory_terminal_immutable _ r 1 j).
  - apply (run_ops_wf _ NewMemoryJobRepository);
      [apply NewMemoryJobRepository_wf|repeat constructor|vm_compute; reflexivity].
  - repeat constructor.
  - vm_compute. reflexivity.
  - rewrite !not_elem_of_cons. split_and!; [congruence|congruence|apply not_elem_of_nil].
  - vm_compute. reflexivity.
  - reflexivity.
Defined.

(** ** The in-memory repository implements the contract *)
#[export] Instance memory_JobRepository : JobRepository MemoryJobRepository := {|
  repo_env := unit;
  repo_jobs := jobs;
  repo_ok _ := True;
  repo_storable _ := True;
  JobRepo.GetByID _ r id := GetByID r id;
  JobRepo.SetRunning _ r id := SetRunning r id;
  JobRepo.SetSucceeded _ r id rs := SetSucceeded r id rs;
  JobRepo.SetFailed _ r id p := SetFailed r id p;
  JobRepo.FailActive _ r p :=
    let '(r', n) := FailActive (some_order r) r p in (r', (n, None));
  JobRepo.Save _ r job := let '(r', job') := Save r job in (r', (job', None));
  JobRepo.Delete _ r id := Delete r id;
|}.

#[export] Instance memory_JobRepositoryLaws : JobRepositoryLaws MemoryJobRepository.
Proof.
  split; intros []; simpl; intros; split_and?; try done.
  - unfold GetByID in *. case_match; [|done]. rewrite ->cloneJob_id in *. congruence.
  - rewrite SetRunning_cas. apply cas_cas_outcome.
  - rewrite SetSucceeded_cas. apply cas_cas_outcome.
  - rewrite SetFailed_cas. apply cas_cas_outcome.
  - left. pose proof (FailActive_jobs (some_order s) s p (some_order_ok s)) as Hj.
    destruct (FailActive _ s p) as [r' n]. simpl in *. by rewrite Hj.
  - unfold Delete. destruct (jobs s !! id); [by left|right; eauto].
Qed.
