(* ===== verification/SqlxJobRepo.v ===== *)
(** * The PostgreSQL job repository

    Models [internal/store/jobrepo/sqlx.go].  The database is a service: its
    content is the table of [migrations/*jobs*.up.sql] (timestamps, which the
    code never reads, are left out), each SQL statement of the file is one
    atomic table transformer, and what the driver reports about a statement
    (done, failed before or after taking effect, no row count) is an argument.
    The JSON codec and PostgreSQL's JSONB normalisation are parameters. *)
From stdpp Require Import sorting.
From S2P Require Import Prelude.
From S2P Require Import GoErrors.
From S2P Require Import Entity.
From S2P Require Import JobRepo.


Record jobRow := mkJobRow {
  rowID : Z;
  rowStatus : string;
  rowOwnerUserID : Z;
  rowResultUserID : option Z;
  rowErrorPayload : option string;
}.

(** The table and the sequence behind [id BIGSERIAL]. *)
Record JobsTable := mkJobsTable { rows : gmap Z jobRow; seq : Z }.

(** ** What the database and its driver report

    [env_exec] is about the statement that writes, [env_query] and [env_rows]
    about reading (the query and the end of the row iteration).  The status
    read after an update that matched no row is a second statement: [env_later]
    is what it finds when another transaction ran in between. *)
Inductive exec_report : Type :=
| ExecDone
| ExecFailed (e : error) (applied : bool)
| ExecNoRowCount (e : error).

Record sql_env := mkSqlEnv {
  env_exec : exec_report;
  env_query : option error;
  env_rows : option error;
  env_later : option (option string);
}.
Definition env_fine : sql_env := mkSqlEnv ExecDone None None None.

(** [CHECK (status IN ('queued', 'running', 'succeeded', 'failed'))] *)
Definition check_status (s : string) : bool :=
  existsb (streqb s) [JobQueued; JobRunning; JobSucceeded; JobFailed].

(** An [UPDATE ... SET ... WHERE p]: the new table and the rows affected. *)
Definition sql_update (set : jobRow → jobRow) (p : jobRow → bool) (t : JobsTable) : JobsTable * Z :=
  (mkJobsTable ((λ r, if p r then set r else r) <$> rows t) (seq t),
   Z.of_nat (size (filter (λ kr : Z * jobRow, p kr.2 = true) (rows t)))).

Definition mapJobRepoErr (e : error) : error :=
  if errors_Is e SqlErrNoRows then ESentinel ErrJobNotFound
  else if (errors_Is e ContextCanceled || errors_Is e ContextDeadlineExceeded)%bool then e
  else e.

Definition toNullInt64 (result : option JobResult) : option Z :=
  match result with
  | None => None
  | Some r => Some (UserID r)
  end.

(** ** The repository *)
Section repository.
  (** [json.Marshal]/[json.Unmarshal] of a [JobProblem] and the text PostgreSQL
      returns for a stored JSONB value. *)
  Context (Marshal : JobProblem → res error string).
  Context (Unmarshal : string → res error JobProblem).
  Context (jsonb : string → string).

(** ** The statements *)
Definition qGetJobStatus (t : JobsTable) (id : Z) : option string :=
  rowStatus <$> rows t !! id.

(** A rejected row still consumes the sequence value. *)
Definition qInsertJob (t : JobsTable) (status : string) (owner : Z) (result : option Z)
    (payload : option string) : JobsTable * res error Z :=
  if check_status status then
    (mkJobsTable (<[seq t := mkJobRow (seq t) status owner result (jsonb <$> payload)]> (rows t))
       (seq t + 1), Ok (seq t))
  else (mkJobsTable (rows t) (seq t + 1), Err (EPgError "23514")).

Definition qUpdateJob (t : JobsTable) (status : string) (owner : Z) (result : option Z)
    (payload : option string) (id : Z) : res error (JobsTable * Z) :=
  if (check_status status || negb (bool_decide (is_Some (rows t !! id))))%bool then
    Ok (sql_update (λ r, mkJobRow (rowID r) status owner result (jsonb <$> payload))
          (λ r, (rowID r =? id)%Z) t)
  else Err (EPgError "23514").

Definition qSetJobRunning (t : JobsTable) (status : string) (id : Z) (from : string) :=
  sql_update (λ r, mkJobRow (rowID r) status (rowOwnerUserID r) None None)
    (λ r, ((rowID r =? id)%Z && streqb (rowStatus r) from)%bool) t.

Definition qSetJobSucceeded (t : JobsTable) (status : string) (user : Z) (id : Z) (from : string) :=
  sql_update (λ r, mkJobRow (rowID r) status (rowOwnerUserID r) (Some user) None)
    (λ r, ((rowID r =? id)%Z && streqb (rowStatus r) from)%bool) t.

Definition qSetJobFailed (t : JobsTable) (status : string) (payload : option string) (id : Z)
    (from1 from2 : string) :=
  sql_update (λ r, mkJobRow (rowID r) status (rowOwnerUserID r) None (jsonb <$> payload))
    (λ r, ((rowID r =? id)%Z &&
           (streqb (rowStatus r) from1 || streqb (rowStatus r) from2))%bool) t.

Definition qFailActiveJobs (t : JobsTable) (status : string) (payload : option string)
    (from1 from2 : string) :=
  sql_update (λ r, mkJobRow (rowID r) status (rowOwnerUserID r) None (jsonb <$> payload))
    (λ r, (streqb (rowStatus r) from1 || streqb (rowStatus r) from2)%bool) t.

Definition qDeleteJob (t : JobsTable) (id : Z) : JobsTable * Z :=
  (mkJobsTable (delete id (rows t)) (seq t),
   if decide (is_Some (rows t !! id)) then 1%Z else 0%Z).

Definition toJSONBytes (problem : option JobProblem) : res error (option string) :=
  match problem with
  | None => Ok None
  | Some p => match Marshal p with Ok b => Ok (Some b) | Err e => Err e end
  end.

Definition toEntityJob (row : jobRow) : res error Job :=
  let result := mkJobResult <$> rowResultUserID row in
  let base err := mkJob (rowID row) (rowStatus row) result err (rowOwnerUserID row) in
  match rowErrorPayload row with
  | Some b =>
      if (0 <? String.length b)%nat then
        match Unmarshal b with
        | Ok p => Ok (base (Some p))
        | Err e => Err e
        end
      else Ok (base None)
  | None => Ok (base None)
  end.

Definition GetByID (env : sql_env) (t : JobsTable) (id : Z) : res error Job :=
  match env_query env with
  | Some e => Err (mapJobRepoErr e)
  | None =>
      match rows t !! id with
      | None => Err (mapJobRepoErr (ESentinel SqlErrNoRows))
      | Some row => toEntityJob row
      end
  end.

(** [SELECT ... ORDER BY id]: [ids] lists the table's keys in increasing order. *)
Fixpoint scan_rows (t : JobsTable) (ids : list Z) : res error (list Job) :=
  match ids with
  | [] => Ok []
  | id :: ids =>
      match rows t !! id with
      | None => scan_rows t ids
      | Some row =>
          match toEntityJob row with
          | Err e => Err e
          | Ok j => match scan_rows t ids with Ok js => Ok (j :: js) | Err e => Err e end
          end
      end
  end.

Definition GetAll (env : sql_env) (t : JobsTable) : res error (list Job) :=
  match env_query env with
  | Some e => Err (mapJobRepoErr e)
  | None =>
      match scan_rows t (merge_sort Z.le (map_to_list (rows t)).*1) with
      | Err e => Err e
      | Ok jobs => match env_rows env with Some e => Err (mapJobRepoErr e) | None => Ok jobs end
      end
  end.

Definition Save (env : sql_env) (t : JobsTable) (job : Job) : JobsTable * (Job * option error) :=
  let resultUserID := toNullInt64 (Result job) in
  match toJSONBytes (Error job) with
  | Err e => (t, (job, Some e))
  | Ok errorPayload =>
      if (ID job =? 0)%Z then
        let '(t', id) :=
          qInsertJob t (Status job) (OwnerUserID job) resultUserID errorPayload in
        match env_exec env with
        | ExecDone =>
            match id with
            | Ok id => (t', (mkJob id (Status job) (Result job) (Error job) (OwnerUserID job), None))
            | Err e => (t', (job, Some (mapJobRepoErr e)))
            end
        | ExecFailed e applied => (if applied then t' else t, (job, Some (mapJobRepoErr e)))
        | ExecNoRowCount e => (t', (job, Some (mapJobRepoErr e)))
        end
      else
        match qUpdateJob t (Status job) (OwnerUserID job) resultUserID errorPayload (ID job) with
        | Err e => (t, (job, Some (mapJobRepoErr e)))
        | Ok (t', n) =>
            match env_exec env with
            | ExecFailed e applied =>
                (if applied then t' else t, (job, Some (mapJobRepoErr e)))
            | ExecNoRowCount e => (t', (job, Some e))
            | ExecDone =>
                if (n =? 0)%Z then (t', (job, Some (ESentinel ErrJobNotFound)))
                else (t', (job, None))
            end
        end
  end.

(** The common shape of an [ExecContext]/[RowsAffected] pair. *)
Definition exec_rows (env : sql_env) (t : JobsTable) (stmt : JobsTable * Z)
    (zero : JobsTable → option error) : JobsTable * option error :=
  let '(t', n) := stmt in
  match env_exec env with
  | ExecFailed e applied => (if applied then t' else t, Some (mapJobRepoErr e))
  | ExecNoRowCount e => (t', Some e)
  | ExecDone => if (n =? 0)%Z then (t', zero t') else (t', None)
  end.

Definition Delete (env : sql_env) (t : JobsTable) (id : Z) : JobsTable * option error :=
  exec_rows env t (qDeleteJob t id) (λ _, Some (ESentinel ErrJobNotFound)).

Definition transitionConflictOrNotFound (env : sql_env) (t : JobsTable) (id : Z)
    (intent : JobTransition) : error :=
  match env_query env with
  | Some e => mapJobRepoErr e
  | None =>
      match default (qGetJobStatus t id) (env_later env) with
      | None => mapJobRepoErr (ESentinel SqlErrNoRows)
      | Some status =>
          let '(spec, ok) := JobTransitionFor intent in
          if negb ok then NewJobTransitionConflict id status (mkJobTransitionSpec intent [] "")
          else NewJobTransitionConflict id status spec
      end
  end.

Definition SetRunning (env : sql_env) (t : JobsTable) (id : Z) : JobsTable * option error :=
  exec_rows env t (qSetJobRunning t JobRunning id JobQueued)
    (λ t', Some (transitionConflictOrNotFound env t' id JobTransitionStart)).

Definition SetSucceeded (env : sql_env) (t : JobsTable) (id : Z) (r : JobResult) :=
  exec_rows env t (qSetJobSucceeded t JobSucceeded (UserID r) id JobRunning)
    (λ t', Some (transitionConflictOrNotFound env t' id JobTransitionSucceed)).

Definition SetFailed (env : sql_env) (t : JobsTable) (id : Z) (p : JobProblem) :=
  match toJSONBytes (Some p) with
  | Err e => (t, Some e)
  | Ok errorPayload =>
      exec_rows env t (qSetJobFailed t JobFailed errorPayload id JobQueued JobRunning)
        (λ t', Some (transitionConflictOrNotFound env t' id JobTransitionFail))
  end.

Definition FailActive (env : sql_env) (t : JobsTable) (p : JobProblem)
  : JobsTable * (Z * option error) :=
  match toJSONBytes (Some p) with
  | Err e => (t, (0%Z, Some e))
  | Ok errorPayload =>
      let '(t', n) := qFailActiveJobs t JobFailed errorPayload JobQueued JobRunning in
      match env_exec env with
      | ExecFailed e applied => (if applied then t' else t, (0%Z, Some (mapJobRepoErr e)))
      | ExecNoRowCount e => (t', (0%Z, Some e))
      | ExecDone => (t', (wrap64 n, None))
      end
  end.

(** ** Abstraction: the jobs a table denotes *)
Definition table_jobs (t : JobsTable) : gmap Z Job :=
  omap (λ row, match toEntityJob row with Ok j => Some j | Err _ => None end) (rows t).

(** Rows are keyed by their id, statuses pass the CHECK, payloads decode. *)
Definition table_ok (t : JobsTable) : Prop :=
  ∀ id row, rows t !! id = Some row →
    rowID row = id ∧ check_status (rowStatus row) = true ∧ ∃ j, toEntityJob row = Ok j.

(** The codec represents the problem [p]. *)
Definition storable (p : JobProblem) : Prop :=
  ∃ b, Marshal p = Ok b ∧ jsonb b ≠ EmptyString ∧ Unmarshal (jsonb b) = Ok p.

(** ** A guarded single-row update *)
Lemma filter_size_at (m : gmap Z jobRow) (p : jobRow → bool) (id : Z) :
  (∀ k r, m !! k = Some r → p r = true → k = id) →
  size (filter (λ kr : Z * jobRow, p kr.2 = true) m) =
    match m !! id with Some r => if p r then 1 else 0 | None => 0 end.
Proof.
  intros Hp. destruct (m !! id) as [r|] eqn:Hr; [destruct (p r) eqn:Hpr|].
  - rewrite (_ : filter _ m = {[ id := r ]}) ?map_size_singleton //.
    apply map_eq. intros k. apply option_eq. intros r'.
    rewrite map_lookup_filter_Some lookup_singleton_Some /=. naive_solver.
  - apply map_size_empty_iff, map_empty_filter. intros k r' Hk Hp'.
    pose proof (Hp _ _ Hk Hp'). simpl in *. congruence.
  - apply map_size_empty_iff, map_empty_filter. intros k r' Hk Hp'.
    pose proof (Hp _ _ Hk Hp'). congruence.
Qed.

Definition keyed (t : JobsTable) : Prop := ∀ id row, rows t !! id = Some row → rowID row = id.

Lemma sql_update_ext set p p' t :
  (∀ r, p r = p' r) → sql_update set p t = sql_update set p' t.
Proof.
  intros Hp. unfold sql_update. do 2 f_equal.
  - apply map_fmap_ext. intros. by rewrite Hp.
  - f_equal. apply map_filter_ext. intros ? r _. by rewrite /= Hp.
Qed.

Lemma sql_update_at set q id t :
  keyed t →
  sql_update set (λ r, ((rowID r =? id)%Z && q r)%bool) t =
    match rows t !! id with
    | Some r => if q r then (mkJobsTable (<[id := set r]> (rows t)) (seq t), 1%Z) else (t, 0%Z)
    | None => (t, 0%Z)
    end.
Proof.
  intros Hk. unfold sql_update.
  pose proof (filter_size_at (rows t) (λ r, ((rowID r =? id)%Z && q r)%bool) id) as Hs.
  cbv beta in Hs. rewrite Hs; clear Hs.
  { intros k r Hr [Hid _]%andb_true_iff. apply Z.eqb_eq in Hid. by rewrite -(Hk _ _ Hr). }
  assert (∀ m, (∀ k, rows t !! k = m !! k ∨
      ∃ r, rows t !! k = Some r ∧ k = id ∧ q r = true ∧ m !! k = Some (set r)) →
    (∀ k r, rows t !! k = Some r → k = id → q r = true → m !! k = Some (set r)) →
    (λ r, if ((rowID r =? id)%Z && q r)%bool then set r else r) <$> rows t = m) as Hm.
  { intros m H1 H2. apply map_eq. intros k. rewrite lookup_fmap.
    destruct (rows t !! k) as [r|] eqn:Hr; simpl.
    - rewrite (Hk _ _ Hr). destruct (k =? id)%Z eqn:E; simpl.
      + apply Z.eqb_eq in E as ->. destruct (q r) eqn:Hq; [by rewrite (H2 _ _ Hr)|].
        destruct (H1 id) as [?|(r' & ? & ? & ? & ?)]; congruence.
      + apply Z.eqb_neq in E. destruct (H1 k) as [?|(r' & ? & ? & ? & ?)]; congruence.
    - destruct (H1 k) as [?|(r' & ? & ? & ? & ?)]; congruence. }
  destruct (rows t !! id) as [r|] eqn:Hr; simpl; [rewrite (Hk _ _ Hr) Z.eqb_refl /=; destruct (q r) eqn:Hq|];
    destruct t as [m n]; simpl in *; do 2 f_equal; apply Hm.
  - intros k. destruct (decide (k = id)) as [->|]; [right|left].
    + exists r. by rewrite lookup_insert_eq.
    + by rewrite lookup_insert_ne.
  - intros k r' Hr' -> _. rewrite lookup_insert_eq. congruence.
  - by left.
  - intros. congruence.
  - by left.
  - intros. congruence.
Qed.

Lemma table_ok_keyed t : table_ok t → keyed t.
Proof. intros Ht id row Hr. by destruct (Ht _ _ Hr). Qed.

Lemma table_jobs_lookup t id :
  table_ok t →
  table_jobs t !! id = match rows t !! id with
                       | Some row => match toEntityJob row with Ok j => Some j | Err _ => None end
                       | None => None
                       end.
Proof. intros _. unfold table_jobs. rewrite lookup_omap. by destruct (rows t !! id). Qed.

Lemma toEntityJob_status row j :
  toEntityJob row = Ok j → Status j = rowStatus row ∧ ID j = rowID row ∧ OwnerUserID j = rowOwnerUserID row.
Proof. unfold toEntityJob. intros. repeat case_match; by simplify_eq. Qed.

Lemma table_jobs_insert t id row j :
  toEntityJob row = Ok j →
  table_jobs (mkJobsTable (<[id := row]> (rows t)) (seq t)) = <[id := j]> (table_jobs t).
Proof. intros Hj. unfold table_jobs. simpl. erewrite omap_insert_Some; [done|]. by rewrite Hj. Qed.

Lemma table_ok_insert t id row j n :
  table_ok t → rowID row = id → check_status (rowStatus row) = true → toEntityJob row = Ok j →
  table_ok (mkJobsTable (<[id := row]> (rows t)) n).
Proof.
  intros Ht Hid Hc Hj id' row'. simpl. rewrite lookup_insert.
  destruct (decide (id = id')) as [<-|]; [|apply Ht]. intros [= <-]. eauto.
Qed.

(** A transition method: the guarded update [set]/[q], then the diagnosis. *)
Section transition_method.
  Context (intent : JobTransition) (f : Job → Job) (set : jobRow → jobRow) (q : jobRow → bool).
  Context (Hq : ∀ row, q row = CanTransitionJob (rowStatus row) intent).
  Context (Hknown : (JobTransitionFor intent).2 = true).
  Context (Hset : ∀ row j, toEntityJob row = Ok j →
    rowID (set row) = rowID row ∧ check_status (rowStatus (set row)) = true ∧
    toEntityJob (set row) = Ok (f j)).

Definition method (env : sql_env) (t : JobsTable) (id : Z) : JobsTable * option error :=
  exec_rows env t (sql_update set (λ r, ((rowID r =? id)%Z && q r)%bool) t)
    (λ t', Some (transitionConflictOrNotFound env t' id intent)).

Lemma method_law env t id :
  table_ok t →
  table_ok (method env t id).1 ∧
  cas_outcome (table_jobs t) id intent f (table_jobs (method env t id).1) (method env t id).2.
Proof.
  intros Ht. unfold method. rewrite (sql_update_at _ _ _ _ (table_ok_keyed _ Ht)).
  pose proof (table_jobs_lookup t id Ht) as Hl.
  destruct (rows t !! id) as [row|] eqn:Hr.
  - destruct (Ht _ _ Hr) as (Hid & Hc & j & Hj). rewrite Hj in Hl.
    destruct (toEntityJob_status _ _ Hj) as (Hs & _ & _).
    rewrite Hq -Hs. destruct (CanTransitionJob (Status j) intent) eqn:Hcan.
    + destruct (Hset _ _ Hj) as (Hid' & Hc' & Hj').
      assert (table_ok (mkJobsTable (<[id:=set row]> (rows t)) (seq t))) as Hok
        by (eapply table_ok_insert; eauto; congruence).
      unfold exec_rows. destruct (env_exec env) as [|e []|e]; simpl;
        rewrite ?(table_jobs_insert _ _ _ _ Hj'); (split; [done|]);
        eauto using cas_outcome.
    + unfold exec_rows. destruct (env_exec env) as [|e []|e]; simpl; (split; [done|]);
        eauto using cas_outcome.
  - unfold exec_rows. destruct (env_exec env) as [|e []|e]; simpl; (split; [done|]);
      eauto using cas_outcome.
Qed.

Lemma method_cas t id :
  table_ok t →
  (table_jobs (method env_fine t id).1, (method env_fine t id).2) =
    cas (table_jobs t) id intent f.
Proof.
  intros Ht. unfold method, cas. rewrite (sql_update_at _ _ _ _ (table_ok_keyed _ Ht)).
  rewrite (table_jobs_lookup t id Ht).
  destruct (rows t !! id) as [row|] eqn:Hr.
  - destruct (Ht _ _ Hr) as (Hid & Hc & j & Hj). rewrite Hj.
    destruct (toEntityJob_status _ _ Hj) as (Hs & _ & _).
    rewrite Hq -Hs. destruct (CanTransitionJob (Status j) intent) eqn:Hcan.
    + destruct (Hset _ _ Hj) as (Hid' & Hc' & Hj'). simpl.
      by rewrite (table_jobs_insert _ _ _ _ Hj').
    + simpl. unfold transitionConflictOrNotFound, qGetJobStatus. simpl. rewrite Hr /=.
      destruct (JobTransitionFor intent) as [spec ok]. simpl in *. subst. by rewrite -Hs.
  - simpl. unfold transitionConflictOrNotFound, qGetJobStatus. by rewrite /= Hr.
Qed.
End transition_method.

(** The [WHERE status ...] guards are the rows of the transition table. *)
Lemma guard_start s : streqb s JobQueued = CanTransitionJob s JobTransitionStart.
Proof.
  unfold CanTransitionJob.
  assert (JobTransitionFor JobTransitionStart =
    (mkJobTransitionSpec JobTransitionStart [JobQueued] JobRunning, true)) as -> by reflexivity.
  by rewrite /= orb_false_r.
Qed.
Lemma guard_succeed s : streqb s JobRunning = CanTransitionJob s JobTransitionSucceed.
Proof.
  unfold CanTransitionJob.
  assert (JobTransitionFor JobTransitionSucceed =
    (mkJobTransitionSpec JobTransitionSucceed [JobRunning] JobSucceeded, true)) as -> by reflexivity.
  by rewrite /= orb_false_r.
Qed.
Lemma guard_fail s :
  (streqb s JobQueued || streqb s JobRunning)%bool = CanTransitionJob s JobTransitionFail.
Proof.
  unfold CanTransitionJob.
  assert (JobTransitionFor JobTransitionFail =
    (mkJobTransitionSpec JobTransitionFail [JobQueued; JobRunning] JobFailed, true)) as -> by reflexivity.
  by rewrite /= orb_false_r.
Qed.

Lemma toEntityJob_set_failed p b row j :
  jsonb b ≠ EmptyString → Unmarshal (jsonb b) = Ok p → toEntityJob row = Ok j →
  toEntityJob (mkJobRow (rowID row) JobFailed (rowOwnerUserID row) None (jsonb <$> Some b))
    = Ok (apply_failed p j).
Proof.
  intros Hne Hu Hj. destruct (toEntityJob_status _ _ Hj) as (_ & Hid & Ho).
  unfold toEntityJob, apply_failed. simpl. rewrite Hu Hid Ho.
  by destruct (jsonb b).
Qed.

(** What each UPDATE writes decodes to what the contract's transition writes. *)
Definition writes (set : jobRow → jobRow) (f : Job → Job) : Prop := ∀ row j,
  toEntityJob row = Ok j →
  rowID (set row) = rowID row ∧ check_status (rowStatus (set row)) = true ∧
  toEntityJob (set row) = Ok (f j).

Lemma set_running_ok :
  writes (λ r, mkJobRow (rowID r) JobRunning (rowOwnerUserID r) None None) apply_running.
Proof.
  intros row j Hj. destruct (toEntityJob_status _ _ Hj) as (_ & Hid & Ho).
  split_and!; [done..|]. unfold toEntityJob, apply_running. simpl. by rewrite Hid Ho.
Qed.

Lemma set_succeeded_ok r :
  writes (λ row, mkJobRow (rowID row) JobSucceeded (rowOwnerUserID row) (Some (UserID r)) None)
    (apply_succeeded r).
Proof.
  intros row j Hj. destruct (toEntityJob_status _ _ Hj) as (_ & Hid & Ho).
  split_and!; [done..|]. unfold toEntityJob, apply_succeeded. simpl. rewrite Hid Ho.
  by destruct r.
Qed.

Lemma set_failed_ok p b :
  jsonb b ≠ EmptyString → Unmarshal (jsonb b) = Ok p →
  writes (λ row, mkJobRow (rowID row) JobFailed (rowOwnerUserID row) None (jsonb <$> Some b))
    (apply_failed p).
Proof.
  intros Hne Hu row j Hj. split_and!; [done..|]. by apply toEntityJob_set_failed.
Qed.

Lemma SetRunning_sound env t id :
  table_ok t →
  table_ok (SetRunning env t id).1 ∧
  cas_outcome (table_jobs t) id JobTransitionStart apply_running
    (table_jobs (SetRunning env t id).1) (SetRunning env t id).2.
Proof.
  apply (method_law JobTransitionStart apply_running
    (λ r, mkJobRow (rowID r) JobRunning (rowOwnerUserID r) None None)
    (λ r, streqb (rowStatus r) JobQueued)); [intros; apply guard_start|].
  intros row j. by apply set_running_ok.
Qed.

Lemma SetSucceeded_sound env t id r :
  table_ok t →
  table_ok (SetSucceeded env t id r).1 ∧
  cas_outcome (table_jobs t) id JobTransitionSucceed (apply_succeeded r)
    (table_jobs (SetSucceeded env t id r).1) (SetSucceeded env t id r).2.
Proof.
  apply (method_law JobTransitionSucceed (apply_succeeded r)
    (λ row, mkJobRow (rowID row) JobSucceeded (rowOwnerUserID row) (Some (UserID r)) None)
    (λ r, streqb (rowStatus r) JobRunning)); [intros; apply guard_succeed|].
  intros row j. by apply set_succeeded_ok.
Qed.

Lemma SetFailed_sound env t id p :
  table_ok t → storable p →
  table_ok (SetFailed env t id p).1 ∧
  cas_outcome (table_jobs t) id JobTransitionFail (apply_failed p)
    (table_jobs (SetFailed env t id p).1) (SetFailed env t id p).2.
Proof.
  intros Ht (b & Hm & Hne & Hu). unfold SetFailed. simpl. rewrite Hm. revert Ht.
  apply (method_law JobTransitionFail (apply_failed p)
    (λ row, mkJobRow (rowID row) JobFailed (rowOwnerUserID row) None (jsonb <$> Some b))
    (λ r, (streqb (rowStatus r) JobQueued || streqb (rowStatus r) JobRunning)%bool));
    [intros; apply guard_fail|].
  intros row j. by apply set_failed_ok.
Qed.

Lemma FailActive_sound env t p :
  table_ok t → storable p →
  table_ok (FailActive env t p).1 ∧
  (table_jobs (FailActive env t p).1 = fail_active_job p <$> table_jobs t ∨
   (table_jobs (FailActive env t p).1 = table_jobs t ∧ is_Some (FailActive env t p).2.2)).
Proof.
  intros Ht (b & Hm & Hne & Hu). unfold FailActive, qFailActiveJobs, sql_update. simpl. rewrite Hm.
  set (upd := λ r, if (streqb (rowStatus r) JobQueued || streqb (rowStatus r) JobRunning)%bool
                   then mkJobRow (rowID r) JobFailed (rowOwnerUserID r) None (jsonb <$> Some b)
                   else r).
  assert (∀ row j, toEntityJob row = Ok j → toEntityJob (upd row) = Ok (fail_active_job p j)) as Hupd.
  { intros row j Hj. unfold upd, fail_active_job, is_active.
    destruct (toEntityJob_status _ _ Hj) as (-> & _ & _).
    destruct (_ || _)%bool; [by apply toEntityJob_set_failed|done]. }
  assert (table_ok (mkJobsTable (upd <$> rows t) (seq t))) as Hok.
  { intros id row. rewrite lookup_fmap fmap_Some. intros (row0 & Hr & ->).
    destruct (Ht _ _ Hr) as (Hid & Hc & j & Hj). unfold upd at 1 2.
    destruct (_ || _)%bool; simpl; eauto. }
  assert (table_jobs (mkJobsTable (upd <$> rows t) (seq t)) = fail_active_job p <$> table_jobs t) as Hjobs.
  { apply map_eq. intros id. rewrite lookup_fmap !table_jobs_lookup // lookup_fmap.
    destruct (rows t !! id) as [row|] eqn:Hr; [|done]. simpl.
    destruct (Ht _ _ Hr) as (_ & _ & j & Hj). by rewrite Hj (Hupd _ _ Hj). }
  destruct (env_exec env) as [|e []|e]; simpl; (split; [done|]); eauto.
Qed.

Lemma Delete_sound env t id :
  table_ok t →
  table_ok (Delete env t id).1 ∧
  (table_jobs (Delete env t id).1 = delete id (table_jobs t) ∨
   (table_jobs (Delete env t id).1 = table_jobs t ∧ is_Some (Delete env t id).2)).
Proof.
  intros Ht. unfold Delete, qDeleteJob, exec_rows.
  assert (table_ok (mkJobsTable (delete id (rows t)) (seq t))) as Hok.
  { intros id' row. simpl. intros [_ Hr]%lookup_delete_Some. by apply Ht. }
  assert (table_jobs (mkJobsTable (delete id (rows t)) (seq t)) = delete id (table_jobs t)) as Hj.
  { unfold table_jobs. simpl. by rewrite omap_delete. }
  destruct (env_exec env) as [|e []|e]; [case_decide|..]; simpl; (split; [done|]); eauto.
Qed.

Lemma GetByID_sound env t id j :
  table_ok t → GetByID env t id = Ok j → table_jobs t !! id = Some j.
Proof.
  intros Ht. rewrite table_jobs_lookup //. unfold GetByID.
  destruct (env_query env), (rows t !! id); try done. by intros ->.
Qed.

(** ** The SQL repository implements the contract *)
Definition sqlx_JobRepository : JobRepository JobsTable := {|
  repo_env := sql_env;
  repo_jobs := table_jobs;
  repo_ok := table_ok;
  repo_storable := storable;
  JobRepo.GetByID := GetByID;
  JobRepo.SetRunning := SetRunning;
  JobRepo.SetSucceeded := SetSucceeded;
  JobRepo.SetFailed := SetFailed;
  JobRepo.FailActive := FailActive;
  JobRepo.Save := Save;
  JobRepo.Delete := Delete;
|}.

Lemma sqlx_laws : @JobRepositoryLaws JobsTable sqlx_JobRepository.
Proof.
  split; simpl; eauto using SetRunning_sound, SetSucceeded_sound, SetFailed_sound,
    FailActive_sound, Delete_sound, GetByID_sound.
Qed.

(** (C8) Refinement: over a well-formed table and a database that answers, each
    transition method of the SQL repository (guarded UPDATE, then the
    not-found/conflict diagnosis) is the compare-and-set of the contract on the
    jobs the table denotes, with the same typed errors as the in-memory one. *)
Theorem sqlx_transitions_cas t id r p :
  table_ok t → storable p →
  (table_jobs (SetRunning env_fine t id).1, (SetRunning env_fine t id).2) =
    cas (table_jobs t) id JobTransitionStart apply_running ∧
  (table_jobs (SetSucceeded env_fine t id r).1, (SetSucceeded env_fine t id r).2) =
    cas (table_jobs t) id JobTransitionSucceed (apply_succeeded r) ∧
  (table_jobs (SetFailed env_fine t id p).1, (SetFailed env_fine t id p).2) =
    cas (table_jobs t) id JobTransitionFail (apply_failed p).
Proof.
  intros Ht (b & Hm & Hne & Hu). split_and!.
  - apply (method_cas JobTransitionStart apply_running
      (λ r, mkJobRow (rowID r) JobRunning (rowOwnerUserID r) None None)
      (λ r, streqb (rowStatus r) JobQueued)); [intros; apply guard_start|done| |done].
    intros row j. by apply set_running_ok.
  - apply (method_cas JobTransitionSucceed (apply_succeeded r)
      (λ row, mkJobRow (rowID row) JobSucceeded (rowOwnerUserID row) (Some (UserID r)) None)
      (λ r, streqb (rowStatus r) JobRunning)); [intros; apply guard_succeed|done| |done].
    intros row j. by apply set_succeeded_ok.
  - unfold SetFailed. simpl. rewrite Hm.
    apply (method_cas JobTransitionFail (apply_failed p)
      (λ row, mkJobRow (rowID row) JobFailed (rowOwnerUserID row) None (jsonb <$> Some b))
      (λ r, (streqb (rowStatus r) JobQueued || streqb (rowStatus r) JobRunning)%bool));
      [intros; apply guard_fail|done| |done].
    intros row j. by apply set_failed_ok.
Qed.

(** ** [Save] *)
Definition storable_opt (p : option JobProblem) : Prop :=
  match p with Some p => storable p | None => True end.

Lemma toJSONBytes_storable job :
  storable_opt (Error job) →
  ∃ payload, toJSONBytes (Error job) = Ok payload ∧
    ∀ id, toEntityJob (mkJobRow id (Status job) (OwnerUserID job) (toNullInt64 (Result job))
                         (jsonb <$> payload))
          = Ok (mkJob id (Status job) (Result job) (Error job) (OwnerUserID job)).
Proof.
  destruct job as [id st [[u]|] [p|] o]; simpl;
    try (intros (b & Hm & Hne & Hu); rewrite Hm; eexists; split; [done|]; intros id';
         unfold toEntityJob; simpl; rewrite Hu; by destruct (jsonb b));
    intros _; by eexists.
Qed.

(** The sequence is ahead of every stored id. *)
Definition seq_fresh (t : JobsTable) : Prop := ∀ id, is_Some (rows t !! id) → (0 < id < seq t)%Z.

(** Round trip: saving a new job assigns the next id of the sequence,
    reading that id back returns exactly the saved job, no other row changes
    and the table stays well-formed. *)
Theorem sqlx_Save_GetByID t job :
  table_ok t → seq_fresh t → ID job = 0%Z → check_status (Status job) = true →
  storable_opt (Error job) →
  let '(t', (job', e)) := Save env_fine t job in
  e = None ∧ ID job' = seq t ∧ rows t !! ID job' = None ∧
  GetByID env_fine t' (ID job') = Ok job' ∧
  (∀ id, id ≠ ID job' → rows t' !! id = rows t !! id) ∧ table_ok t'.
Proof.
  intros Ht Hf Hid Hc Hp. unfold Save. rewrite Hid /=.
  destruct (toJSONBytes_storable job Hp) as (payload & -> & Hdec).
  unfold qInsertJob. rewrite Hc /=. split_and!; [done|done| | | |].
  - apply eq_None_not_Some. intros ?%Hf. lia.
  - unfold GetByID. simpl. rewrite lookup_insert_eq. apply Hdec.
  - intros id ?. by rewrite lookup_insert_ne.
  - by eapply table_ok_insert.
Qed.

(** Saving a job with an explicit id that the table does not hold reports
    [ErrJobNotFound] and stores nothing; the in-memory repository inserts it. *)
Theorem sqlx_Save_missing_id t job :
  keyed t → ID job ≠ 0%Z → rows t !! ID job = None → storable_opt (Error job) →
  Save env_fine t job = (t, (job, Some (ESentinel ErrJobNotFound))).
Proof.
  intros Hk Hid Hr Hp. unfold Save.
  destruct (toJSONBytes_storable job Hp) as (payload & -> & _).
  destruct (Z.eqb_spec (ID job) 0); [done|]. unfold qUpdateJob.
  rewrite bool_decide_eq_false_2; [rewrite Hr; by apply is_Some_None|].
  rewrite orb_true_r. cbv zeta.
  rewrite (sql_update_ext _ (λ r, (rowID r =? ID job)%Z) (λ r, ((rowID r =? ID job)%Z && true)%bool)).
  { intros r. by rewrite andb_true_r. }
  by rewrite (sql_update_at _ (λ _, true)) // Hr.
Qed.

End repository.

(** ** A concrete codec and table *)
Definition ex_Marshal (p : JobProblem) : res error string := Ok (String.append "{" (Title p)).
Definition ex_Unmarshal (s : string) : res error JobProblem :=
  match s with
  | String _ title => Ok (mkJobProblem "" title 0 "" "" "" [])
  | EmptyString => Err (EText "bad payload")
  end.
Definition ex_jsonb (s : string) : string := s.
Definition ex_problem : JobProblem := mkJobProblem "" "boom" 0 "" "" "" [].
Definition ex_table : JobsTable :=
  (SetRunning env_fine
    (Save ex_Marshal ex_jsonb env_fine
       (Save ex_Marshal ex_jsonb env_fine (mkJobsTable ∅ 1) (mkJob 0 JobQueued None None 7)).1
       (mkJob 0 JobQueued None None 8)).1 2).1.

Lemma ex_storable : storable ex_Marshal ex_Unmarshal ex_jsonb ex_problem.
Proof. by exists "{boom". Qed.

Lemma ex_table_ok : table_ok ex_Unmarshal ex_table.
Proof.
  assert (ex_table = mkJobsTable
    {[ 1%Z := mkJobRow 1 JobQueued 7 None None; 2%Z := mkJobRow 2 JobRunning 8 None None ]} 3)
    as -> by (vm_compute; reflexivity).
  intros id row. simpl. rewrite !lookup_insert lookup_empty.
  repeat case_decide; intros [= <-]; subst; split_and!; try done; by eexists.
Qed.

Lemma ex_table_fresh : seq_fresh ex_table.
Proof.
  assert (ex_table = mkJobsTable
    {[ 1%Z := mkJobRow 1 JobQueued 7 None None; 2%Z := mkJobRow 2 JobRunning 8 None None ]} 3)
    as -> by (vm_compute; reflexivity).
  intros id. simpl. rewrite !lookup_insert lookup_empty.
  repeat case_decide; intros [? [=]]; subst; simpl; lia.
Qed.

Lemma sqlx_transitions_cas_witness :
  (table_jobs ex_Unmarshal (SetFailed ex_Marshal ex_jsonb env_fine ex_table 1 ex_problem).1,
   (SetFailed ex_Marshal ex_jsonb env_fine ex_table 1 ex_problem).2) =
    cas (table_jobs ex_Unmarshal ex_table) 1 JobTransitionFail (apply_failed ex_problem) ∧
  (SetFailed ex_Marshal ex_jsonb env_fine ex_table 1 ex_problem).2 = None.
Proof.
  split; [|vm_compute; reflexivity].
  apply (sqlx_transitions_cas ex_Marshal ex_Unmarshal ex_jsonb ex_table 1 (mkJobResult 3) ex_problem);
    [apply ex_table_ok|apply ex_storable].
Defined.

Lemma sqlx_Save_GetByID_witness :
  let job := mkJob 0 JobFailed None (Some ex_problem) 9 in
  let '(t', (job', e)) := Save ex_Marshal ex_jsonb env_fine ex_table job in
  e = None ∧ ID job' = seq ex_table ∧ rows ex_table !! ID job' = None ∧
  GetByID ex_Unmarshal env_fine t' (ID job') = Ok job' ∧
  (∀ id, id ≠ ID job' → rows t' !! id = rows ex_table !! id) ∧ table_ok ex_Unmarshal t'.
Proof.
  apply sqlx_Save_GetByID; [apply ex_table_ok|apply ex_table_fresh|reflexivity|reflexivity|
    apply ex_storable].
Defined.

Lemma sqlx_Save_missing_id_witness :
  let job := mkJob 99 JobQueued None None 9 in
  Save ex_Marshal ex_jsonb env_fine ex_table job = (ex_table, (job, Some (ESentinel ErrJobNotFound))).
Proof.
  apply (sqlx_Save_missing_id ex_Marshal ex_Unmarshal ex_jsonb);
    [apply (table_ok_keyed ex_Unmarshal), ex_table_ok|discriminate|vm_compute; reflexivity|exact I].
Defined.
