(* ===== verification/UserRepo.v ===== *)
(** * User storage

    Models [internal/store/userrepo/memory_user_repo.go] (module [Memory]) and
    [internal/store/userrepo/sqlx.go] (module [Sqlx]) and states the contract
    of [internal/service/repository.go] both discharge.

    [strings.EqualFold] compares two strings under Unicode simple case folding,
    that is, equality of their folded forms: the folding is the parameter
    [fold] and every theorem holds for any such function. *)
From stdpp Require Import sorting.
From S2P Require Import Prelude.
From S2P Require Import GoErrors.
From S2P Require Import Entity.

(** ** The contract

    [mail_eq] is the storage's notion of equal addresses: folded equality in
    memory, plain equality in SQL.  [user_room] says that the id space is not
    exhausted. *)
Class UserRepository (S : Type) := {
  user_env : Type;
  mail_eq : string → string → bool;
  repo_users : S → gmap Z User;
  users_ok : S → Prop;
  user_room : S → Prop;
  GetByID : user_env → S → Z → res error User;
  Save : user_env → S → User → S * (User * option error);
  Delete : user_env → S → Z → S * option error;
  ExistsByEmail : user_env → S → string → res error bool;
}.

(** Two stored users never have equal addresses. *)
Definition emails_unique (eq : string → string → bool) (m : gmap Z User) : Prop :=
  ∀ i j u v, m !! i = Some u → m !! j = Some v → eq (uEmail u) (uEmail v) = true → i = j.

Definition email_taken (eq : string → string → bool) (m : gmap Z User) (email : string) : Prop :=
  ∃ i u, m !! i = Some u ∧ eq (uEmail u) email = true.

(** The stored record carries the caller's data under the assigned id. *)
Definition stored_as (m : gmap Z User) (id : Z) (u : User) : Prop :=
  ∃ v, m !! id = Some v ∧ uID v = id ∧ uName v = uName u ∧ uAge v = uAge u ∧ uEmail v = uEmail u.

Class UserRepositoryLaws (S : Type) `{UserRepository S} := {
  mail_eq_refl a : mail_eq a a = true;
  users_ok_unique s : users_ok s → emails_unique mail_eq (repo_users s);
  GetByID_user_law env s id u :
    users_ok s → GetByID env s id = Ok u → stored_as (repo_users s) id u;
  ExistsByEmail_law env s email b :
    users_ok s → ExistsByEmail env s email = Ok b →
    (b = true ↔ email_taken mail_eq (repo_users s) email);
  Save_user_ok env s u s' u' :
    users_ok s → user_room s → uID u = 0%Z → Save env s u = (s', (u', None)) →
    repo_users s !! uID u' = None ∧ ¬ email_taken mail_eq (repo_users s) (uEmail u) ∧
    uName u' = uName u ∧ uEmail u' = uEmail u ∧
    stored_as (repo_users s') (uID u') u ∧
    (∀ i, i ≠ uID u' → repo_users s' !! i = repo_users s !! i);
  Save_user_taken env s u :
    users_ok s → uID u = 0%Z → email_taken mail_eq (repo_users s) (uEmail u) →
    repo_users (Save env s u).1 = repo_users s ∧ is_Some (Save env s u).2.2;
  Save_users_ok env s u :
    users_ok s → user_room s → uID u = 0%Z → users_ok (Save env s u).1;
  Delete_users_ok env s id : users_ok s → users_ok (Delete env s id).1;
}.

Lemma emails_unique_insert eq m id u :
  (∀ a b, eq a b = eq b a) →
  emails_unique eq m → ¬ email_taken eq m (uEmail u) → emails_unique eq (<[id := u]> m).
Proof.
  intros Hsym Hu Hn i j a b. rewrite !lookup_insert.
  destruct (decide (id = i)) as [<-|], (decide (id = j)) as [<-|]; try done.
  - intros [= <-] Hb Hab. destruct Hn. exists j, b. by rewrite Hsym.
  - intros Ha [= <-] Hab. destruct Hn. by exists i, a.
  - intros Ha Hb. by apply Hu.
Qed.

Lemma emails_unique_delete eq m id : emails_unique eq m → emails_unique eq (delete id m).
Proof.
  intros Hu i j u v [_ Hi]%lookup_delete_Some [_ Hj]%lookup_delete_Some. by apply Hu.
Qed.

Lemma existsb_values {A} (m : gmap Z A) (p : A → bool) :
  existsb p (map_to_list m).*2 = true ↔ ∃ i a, m !! i = Some a ∧ p a = true.
Proof.
  rewrite existsb_exists. split.
  - intros (a & Hin%list_elem_of_In & Hp).
    apply list_elem_of_fmap in Hin as ([i a'] & -> & Hin%elem_of_map_to_list). eauto.
  - intros (i & a & Hi & Hp). exists a. split; [|done].
    apply list_elem_of_In, list_elem_of_fmap. exists (i, a). by rewrite elem_of_map_to_list.
Qed.

(** ** In memory *)
Module Memory.

Record MemoryUserRepository := mkMemoryUserRepository { users : gmap Z User; nextID : Z }.

Definition NewMemoryUserRepository : MemoryUserRepository := mkMemoryUserRepository ∅ 1.

Section repository.
  Context (fold : string → string).

Definition EqualFold (a b : string) : bool := streqb (fold a) (fold b).

(** [range] loops that only search: the visiting order does not matter. *)
Definition GetAll (order : list Z) (r : MemoryUserRepository) : list User :=
  omap (λ k, users r !! k) order.

Definition GetByID (r : MemoryUserRepository) (id : Z) : res error User :=
  match users r !! id with
  | None => Err (ESentinel ErrUserNotFound)
  | Some u => Ok u
  end.

Definition Save (r : MemoryUserRepository) (user : User) : MemoryUserRepository * (User * option error) :=
  if existsb (λ u, EqualFold (uEmail u) (uEmail user)) (map_to_list (users r)).*2
  then (r, (user, Some (ESentinel ErrConflict)))
  else
    let store (id next : Z) :=
      let version := if (uVersion user =? 0)%Z then 1%Z else uVersion user in
      let stored := mkUser id (uName user) (uAge user) (uEmail user) version in
      (mkMemoryUserRepository (<[uID stored := stored]> (users r)) next, (stored, None)) in
    if (uID user =? 0)%Z then store (nextID r) (wrap64 (nextID r + 1))
    else if decide (is_Some (users r !! uID user)) then
      (r, (user, Some (ESentinel ErrUserAlreadyExists)))
    else store (uID user) (nextID r).

Definition Delete (r : MemoryUserRepository) (id : Z) : MemoryUserRepository * option error :=
  match users r !! id with
  | None => (r, Some (ESentinel ErrUserNotFound))
  | Some _ => (mkMemoryUserRepository (delete id (users r)) (nextID r), None)
  end.

Definition ExistsByEmail (r : MemoryUserRepository) (email : string) : bool :=
  existsb (λ u, EqualFold (uEmail u) email) (map_to_list (users r)).*2.

Definition Update (r : MemoryUserRepository) (id : Z) (u : User)
  : MemoryUserRepository * res error User :=
  match users r !! id with
  | None => (r, Err (ESentinel ErrUserNotFound))
  | Some prev =>
      let next := mkUser id (uName u) (uAge u) (uEmail u) (wrap64 (uVersion prev + 1)) in
      (mkMemoryUserRepository (<[id := next]> (users r)) (nextID r), Ok next)
  end.

Lemma EqualFold_sym a b : EqualFold a b = EqualFold b a.
Proof. unfold EqualFold, streqb. apply bool_decide_ext. naive_solver. Qed.

Lemma ExistsByEmail_taken r email :
  ExistsByEmail r email = true ↔ email_taken EqualFold (users r) email.
Proof. apply (existsb_values (users r) (λ u, EqualFold (uEmail u) email)). Qed.

(** Ids and addresses: the invariant the service keeps (it never saves an explicit id). *)
Record memory_users_ok (r : MemoryUserRepository) : Prop := {
  mu_ids : ∀ i u, users r !! i = Some u → uID u = i ∧ (0 < i < nextID r)%Z;
  mu_next : (0 < nextID r <= int_max)%Z;
  mu_unique : emails_unique EqualFold (users r);
}.

Lemma Save_unique r user :
  emails_unique EqualFold (users r) → emails_unique EqualFold (users (Save r user).1).
Proof.
  intros Hu. unfold Save. destruct (existsb _ _) eqn:He; [done|].
  assert (¬ email_taken EqualFold (users r) (uEmail user)) as Hn.
  { rewrite -ExistsByEmail_taken. unfold ExistsByEmail. by rewrite He. }
  repeat case_match; simpl; try done; apply emails_unique_insert; auto using EqualFold_sym.
Qed.

(** Address uniqueness is an invariant of the in-memory user store: no
    sequence of [Save] (with or without explicit ids) and [Delete] can create
    two users whose addresses are equal under case folding. *)
Theorem memory_emails_unique (ops : list (User + Z)) :
  emails_unique EqualFold
    (users (foldl (λ r op, match op with inl u => (Save r u).1 | inr id => (Delete r id).1 end)
       NewMemoryUserRepository ops)).
Proof.
  assert (∀ r, emails_unique EqualFold (users r) → emails_unique EqualFold
    (users (foldl (λ r op, match op with inl u => (Save r u).1 | inr id => (Delete r id).1 end)
       r ops))) as H; [|apply H; intros ????; simpl; by rewrite lookup_empty].
  induction ops as [|[u|id] ops IH]; intros r Hr; simpl; [done|apply IH..].
  - by apply Save_unique.
  - unfold Delete. case_match; simpl; [by apply emails_unique_delete|done].
Qed.

Lemma Save_new r user :
  memory_users_ok r → (nextID r < int_max)%Z → uID user = 0%Z →
  ¬ email_taken EqualFold (users r) (uEmail user) →
  Save r user =
    let stored := mkUser (nextID r) (uName user) (uAge user) (uEmail user)
                    (if (uVersion user =? 0)%Z then 1%Z else uVersion user) in
    (mkMemoryUserRepository (<[nextID r := stored]> (users r)) (nextID r + 1), (stored, None)).
Proof.
  intros Hok Hmax Hid Hn. unfold Save. rewrite Hid /=.
  destruct (existsb _ _) eqn:He; [by apply ExistsByEmail_taken in He|].
  rewrite wrap64_id //. pose proof (mu_next r Hok). unfold int64_ok, int_min. lia.
Qed.

Lemma Save_taken r user :
  email_taken EqualFold (users r) (uEmail user) →
  Save r user = (r, (user, Some (ESentinel ErrConflict))).
Proof. intros He%ExistsByEmail_taken. unfold Save, ExistsByEmail in *. by rewrite He. Qed.

Lemma Save_new_ok r user :
  memory_users_ok r → (nextID r < int_max)%Z → uID user = 0%Z → memory_users_ok (Save r user).1.
Proof.
  intros Hok Hmax Hid. destruct (ExistsByEmail r (uEmail user)) eqn:He.
  { apply ExistsByEmail_taken in He. by rewrite Save_taken. }
  assert (¬ email_taken EqualFold (users r) (uEmail user)) as Hn
    by (rewrite -ExistsByEmail_taken; congruence).
  rewrite Save_new //. destruct Hok as [Hids Hnext Huniq]. split; simpl; [|lia|].
  - intros i u. rewrite lookup_insert. destruct (decide (nextID r = i)) as [<-|].
    + intros [= <-]. simpl. lia.
    + intros Hu%Hids. lia.
  - apply emails_unique_insert; auto using EqualFold_sym.
Qed.

(** The in-memory store implements the contract. *)
Definition memory_UserRepository : UserRepository MemoryUserRepository := {|
  user_env := unit;
  mail_eq := EqualFold;
  repo_users := users;
  users_ok := memory_users_ok;
  user_room r := (nextID r < int_max)%Z;
  UserRepo.GetByID _ := GetByID;
  UserRepo.Save _ := Save;
  UserRepo.Delete _ := Delete;
  UserRepo.ExistsByEmail _ r email := Ok (ExistsByEmail r email);
|}.

Lemma memory_users_laws : @UserRepositoryLaws _ memory_UserRepository.
Proof.
  split; simpl.
  - intros a. apply streqb_refl.
  - intros s. apply mu_unique.
  - intros _ s id u Hok. unfold GetByID.
    destruct (users s !! id) as [v|] eqn:Hv; [|done]. intros [= ->].
    exists u. by destruct (mu_ids s Hok _ _ Hv).
  - intros _ s email b _ [= <-]. apply ExistsByEmail_taken.
  - intros _ s u s' u' Hok Hroom Hid Hs.
    destruct (ExistsByEmail s (uEmail u)) eqn:He.
    { apply ExistsByEmail_taken, Save_taken in He. congruence. }
    assert (¬ email_taken EqualFold (users s) (uEmail u)) as Hn
      by (rewrite -ExistsByEmail_taken; congruence).
    rewrite Save_new // in Hs. injection Hs as <- <-. simpl. split_and!; try done.
    + apply eq_None_not_Some. intros [v [_ ?]%(mu_ids s Hok)]. lia.
    + eexists. by rewrite lookup_insert_eq.
    + intros i ?. by rewrite lookup_insert_ne.
  - intros _ s u _ _ He. by rewrite Save_taken.
  - intros _ s u. apply Save_new_ok.
  - intros _ s id [Hids Hnext Huniq]. unfold Delete. case_match; [|done]. split; simpl; [|done|].
    + intros i v [_ Hv]%lookup_delete_Some. by apply Hids.
    + by apply emails_unique_delete.
Qed.

(** [Update] keeps the id and increments the version, but it does not
    check addresses: it can give two users the same address, which [Save]
    forbids. *)
Theorem memory_Update_spec r id u prev :
  users r !! id = Some prev →
  ∃ out, Update r id u = (mkMemoryUserRepository (<[id := out]> (users r)) (nextID r), Ok out) ∧
    uID out = id ∧ uVersion out = wrap64 (uVersion prev + 1) ∧ uEmail out = uEmail u ∧
    (∀ j v, j ≠ id → users r !! j = Some v → EqualFold (uEmail v) (uEmail u) = true →
       ¬ emails_unique EqualFold (users (Update r id u).1)).
Proof.
  intros Hp. unfold Update. rewrite Hp. eexists. split_and!; [done..|].
  intros j v Hne Hv Heq Huniq. simpl in Huniq. apply Hne.
  eapply (Huniq j id v); [by rewrite lookup_insert_ne|by rewrite lookup_insert_eq|done].
Qed.
End repository.

Definition ex_fold (s : string) : string := s.
Definition ex_users : MemoryUserRepository :=
  (Save ex_fold (Save ex_fold NewMemoryUserRepository (mkUser 0 "Ann" 30 "ann@x.io" 0)).1
     (mkUser 0 "Bob" 31 "bob@x.io" 0)).1.

Lemma memory_Update_spec_witness :
  ¬ emails_unique (EqualFold ex_fold)
      (users (Update ex_users 2 (mkUser 2 "Bob" 31 "ann@x.io" 0)).1).
Proof.
  destruct (memory_Update_spec ex_fold ex_users 2 (mkUser 2 "Bob" 31 "ann@x.io" 0)
    (mkUser 2 "Bob" 31 "bob@x.io" 1) eq_refl) as (out & _ & _ & _ & _ & H).
  apply (H 1%Z (mkUser 1 "Ann" 30 "ann@x.io" 1)); [lia|reflexivity|reflexivity].
Defined.

End Memory.

(** ** PostgreSQL *)
Module Sqlx.

Record userRow := mkUserRow { rID : Z; rName : string; rEmail : string; rAge : Z }.
Record UsersTable := mkUsersTable { urows : gmap Z userRow; useq : Z }.

(** What the driver reports: the write may fail before or after taking effect,
    it may give no row count, and a read or its row iteration may fail. *)
Record usql_env := mkUsqlEnv {
  uenv_exec : option (error * bool);
  uenv_nocount : option error;
  uenv_query : option error;
  uenv_rows : option error;
}.
Definition uenv_fine : usql_env := mkUsqlEnv None None None None.

Definition as_pg (e : error) : option string :=
  match e with EPgError code => Some code | _ => None end.

Definition mapUserRepoErr (err : error) : error :=
  if errors_Is err SqlErrNoRows then ESentinel ErrUserNotFound
  else if (errors_Is err ContextCanceled || errors_Is err ContextDeadlineExceeded)%bool then err
  else
    match errors_As as_pg err with
    | Some code => if streqb code "23505" then ESentinel ErrConflict else err
    | None => err
    end.

(** The INSERT under [CHECK (age >= 0)] (an [INTEGER] column) and the unique
    index on [email]; a rejected row still consumes its sequence value. *)
Definition qInsertUser (t : UsersTable) (name email : string) (age : Z) : UsersTable * res error Z :=
  let burnt := mkUsersTable (urows t) (useq t + 1) in
  if (2 ^ 31 - 1 <? age)%Z then (t, Err (EText "age is out of range for int4"))
  else if (age <? 0)%Z then
    if (age <? - 2 ^ 31)%Z then (t, Err (EText "age is out of range for int4"))
    else (burnt, Err (EPgError "23514"))
  else if existsb (λ r, streqb (rEmail r) email) (map_to_list (urows t)).*2
  then (burnt, Err (EPgError "23505"))
  else (mkUsersTable (<[useq t := mkUserRow (useq t) name email age]> (urows t)) (useq t + 1),
        Ok (useq t)).

Definition qDeleteUser (t : UsersTable) (id : Z) : UsersTable * Z :=
  (mkUsersTable (delete id (urows t)) (useq t),
   if decide (is_Some (urows t !! id)) then 1%Z else 0%Z).

Definition scan_user (row : userRow) : User :=
  mkUser (rID row) (rName row) (rAge row) (rEmail row) 0.

Definition GetAll (env : usql_env) (t : UsersTable) : res error (list User) :=
  match uenv_query env with
  | Some e => Err (mapUserRepoErr e)
  | None =>
      match uenv_rows env with
      | Some e => Err (mapUserRepoErr e)
      | None => Ok (omap (λ k, scan_user <$> urows t !! k)
                      (merge_sort Z.le (map_to_list (urows t)).*1))
      end
  end.

Definition GetByID (env : usql_env) (t : UsersTable) (id : Z) : res error User :=
  match uenv_query env with
  | Some e => Err (mapUserRepoErr e)
  | None =>
      match urows t !! id with
      | None => Err (mapUserRepoErr (ESentinel SqlErrNoRows))
      | Some row => Ok (scan_user row)
      end
  end.

Definition Save (env : usql_env) (t : UsersTable) (user : User) : UsersTable * (User * option error) :=
  let '(t', r) := qInsertUser t (uName user) (uEmail user) (uAge user) in
  match uenv_exec env with
  | Some (e, applied) => (if applied then t' else t, (user, Some (mapUserRepoErr e)))
  | None =>
      match r with
      | Err e => (t', (user, Some (mapUserRepoErr e)))
      | Ok id => (t', (mkUser id (uName user) (uAge user) (uEmail user) (uVersion user), None))
      end
  end.

Definition Delete (env : usql_env) (t : UsersTable) (id : Z) : UsersTable * option error :=
  let '(t', n) := qDeleteUser t id in
  match uenv_exec env with
  | Some (e, applied) => (if applied then t' else t, Some (mapUserRepoErr e))
  | None =>
      match uenv_nocount env with
      | Some e => (t', Some e)
      | None => if (n =? 0)%Z then (t', Some (ESentinel ErrUserNotFound)) else (t', None)
      end
  end.

Definition ExistsByEmail (env : usql_env) (t : UsersTable) (email : string) : res error bool :=
  match uenv_query env with
  | Some e => Err (mapUserRepoErr e)
  | None => Ok (existsb (λ r, streqb (rEmail r) email) (map_to_list (urows t)).*2)
  end.

Definition table_users (t : UsersTable) : gmap Z User := scan_user <$> urows t.

Record users_table_ok (t : UsersTable) : Prop := {
  ut_ids : ∀ i r, urows t !! i = Some r → rID r = i ∧ (0 < i < useq t)%Z;
  ut_seq : (0 < useq t)%Z;
  ut_unique : emails_unique streqb (table_users t);
}.

Lemma streqb_sym a b : streqb a b = streqb b a.
Proof. unfold streqb. apply bool_decide_ext. naive_solver. Qed.

Lemma exists_taken t email :
  existsb (λ r, streqb (rEmail r) email) (map_to_list (urows t)).*2 = true ↔
  email_taken streqb (table_users t) email.
Proof.
  rewrite (existsb_values (urows t)). unfold email_taken, table_users. split.
  - intros (i & r & Hr & Hp). exists i, (scan_user r). by rewrite lookup_fmap Hr.
  - intros (i & u & Hu & Hp). rewrite lookup_fmap fmap_Some in Hu. destruct Hu as (r & Hr & ->).
    eauto.
Qed.

(** What an insert can do to a well-formed table. *)
Lemma qInsertUser_cases t name email age :
  users_table_ok t →
  users_table_ok (qInsertUser t name email age).1 ∧
  ((∃ e, (qInsertUser t name email age).2 = Err e ∧
         table_users (qInsertUser t name email age).1 = table_users t) ∨
   ((qInsertUser t name email age).2 = Ok (useq t) ∧
    ¬ email_taken streqb (table_users t) email ∧
    table_users (qInsertUser t name email age).1 =
      <[useq t := mkUser (useq t) name age email 0]> (table_users t))).
Proof.
  intros Hok. unfold qInsertUser.
  assert (users_table_ok (mkUsersTable (urows t) (useq t + 1))) as Hburnt.
  { destruct Hok as [Hi Hs Hu]. split; [|simpl; lia|done].
    intros i r Hr. destruct (Hi _ _ Hr). simpl. split; [done|lia]. }
  destruct (2 ^ 31 - 1 <? age)%Z; [split; [done|left; by eexists]|].
  destruct (age <? 0)%Z; [destruct (age <? - 2 ^ 31)%Z; (split; [done|left; by eexists])|].
  destruct (existsb _ _) eqn:He; simpl; [split; [done|left; by eexists]|].
  assert (¬ email_taken streqb (table_users t) email) as Hn.
  { rewrite -exists_taken. congruence. }
  assert (table_users (mkUsersTable (<[useq t:=mkUserRow (useq t) name email age]> (urows t))
    (useq t + 1)) = <[useq t:=mkUser (useq t) name age email 0]> (table_users t)) as Ht.
  { unfold table_users. simpl. by rewrite fmap_insert. }
  split; [|right; done]. destruct Hok as [Hi Hs Hu]. split; simpl; [|lia|].
  - intros i r. rewrite lookup_insert. destruct (decide (useq t = i)) as [<-|].
    + intros [= <-]. simpl. lia.
    + intros Hr. destruct (Hi _ _ Hr). split; [done|lia].
  - rewrite Ht. apply emails_unique_insert; auto using streqb_sym.
Qed.

Definition sqlx_UserRepository : UserRepository UsersTable := {|
  user_env := usql_env;
  mail_eq := streqb;
  repo_users := table_users;
  users_ok := users_table_ok;
  user_room _ := True;
  UserRepo.GetByID := GetByID;
  UserRepo.Save := Save;
  UserRepo.Delete := Delete;
  UserRepo.ExistsByEmail := ExistsByEmail;
|}.

Lemma sqlx_users_laws : @UserRepositoryLaws _ sqlx_UserRepository.
Proof.
  split; simpl.
  - intros a. apply streqb_refl.
  - intros s. apply ut_unique.
  - intros env s id u Hok. unfold GetByID. repeat case_match; try done. intros [= <-].
    eexists. unfold table_users. rewrite lookup_fmap. simplify_option_eq.
    split_and!; try done. simpl. by edestruct (ut_ids s Hok).
  - intros env s email b _. unfold ExistsByEmail. case_match; [done|]. intros [= <-].
    apply exists_taken.
  - intros env s u s' u' Hok _ Hid. unfold Save.
    pose proof (qInsertUser_cases s (uName u) (uEmail u) (uAge u) Hok) as [Hok' Hc].
    destruct (qInsertUser _ _ _ _) as [t' r]. simpl in *.
    destruct (uenv_exec env) as [[]|]; [done|].
    destruct Hc as [(e & -> & _)|(-> & Hn & Ht)]; [done|]. intros [= <- <-]. simpl.
    split_and!; try done.
    + apply eq_None_not_Some. unfold table_users. rewrite lookup_fmap fmap_is_Some.
      intros [v [_ ?]%(ut_ids s Hok)]. lia.
    + rewrite Ht. eexists. by rewrite lookup_insert_eq.
    + intros i ?. by rewrite Ht lookup_insert_ne.
  - intros env s u Hok _ He. unfold Save.
    pose proof (qInsertUser_cases s (uName u) (uEmail u) (uAge u) Hok) as [Hok' Hc].
    destruct (qInsertUser _ _ _ _) as [t' r]. simpl in *.
    destruct Hc as [(e & -> & ?)|(-> & Hn & Ht)]; [|done].
    destruct (uenv_exec env) as [[? []]|]; simpl; eauto.
  - intros env s u Hok _ _. unfold Save.
    pose proof (qInsertUser_cases s (uName u) (uEmail u) (uAge u) Hok) as [Hok' _].
    destruct (qInsertUser _ _ _ _) as [t' r]. simpl in *. repeat case_match; done.
  - intros env s id Hok. unfold Delete, qDeleteUser.
    assert (users_table_ok (mkUsersTable (delete id (urows s)) (useq s))) as Hok'.
    { destruct Hok as [Hi Hs Hu]. split; simpl; [|done|].
      - intros i r [_ Hr]%lookup_delete_Some. by apply Hi.
      - unfold table_users in *. rewrite fmap_delete. by apply emails_unique_delete. }
    repeat case_match; simplify_eq/=; done.
Qed.

End Sqlx.
