(* ===== verification/Services.v ===== *)
(** * The application services

    Models [internal/service/jobService.go], [service.go] and
    [user_profile_service.go] against the repository interfaces.

    A service call makes several repository calls; between two of them other
    goroutines may run.  The definitions take that interference as a function
    on the state, and the theorems hold for every interference that respects
    the repository invariant. *)
From S2P Require Import Prelude.
From S2P Require Import GoErrors.
From S2P Require Import Entity.
From S2P Require Import JobRepo.
From S2P Require Import MemoryJobRepo.
From S2P Require Import UserRepo.

(** ** Jobs *)
Module JobService.

Definition ShutdownJobProblem : JobProblem :=
  mkJobProblem "" "service unavailable" 503 "job canceled: server shutting down" "" "" [].

Section service.
  Context {S : Type} `{!JobRepository S}.
  (** What the storage decides about the read and about the write, and what
      other goroutines do in between. *)
  Context (env_get env_apply : repo_env) (interfere : S → S).

Definition Save (s : S) (job : Job) := JobRepo.Save env_apply s job.
Definition Delete (s : S) (id : Z) := JobRepo.Delete env_apply s id.
Definition GetByID (s : S) (id : Z) := JobRepo.GetByID env_get s id.

Definition transition (s : S) (id : Z) (intent : JobTransition)
    (apply : S → S * option error) : S * option error :=
  match JobRepo.GetByID env_get s id with
  | Err e => (s, Some e)
  | Ok job =>
      let '(spec, ok) := JobTransitionFor intent in
      if negb ok then
        (s, Some (NewJobTransitionConflict id (Status job) (mkJobTransitionSpec intent [] "")))
      else if negb (CanTransitionJob (Status job) intent) then
        (s, Some (NewJobTransitionConflict id (Status job) spec))
      else apply (interfere s)
  end.

Definition SetRunning (s : S) (id : Z) : S * option error :=
  transition s id JobTransitionStart (λ s, JobRepo.SetRunning env_apply s id).
Definition SetSucceeded (s : S) (id : Z) (r : JobResult) : S * option error :=
  transition s id JobTransitionSucceed (λ s, JobRepo.SetSucceeded env_apply s id r).
Definition SetFailed (s : S) (id : Z) (p : JobProblem) : S * option error :=
  transition s id JobTransitionFail (λ s, JobRepo.SetFailed env_apply s id p).

Definition FailActiveOnShutdown (s : S) : S * (Z * option error) :=
  JobRepo.FailActive env_apply s ShutdownJobProblem.
End service.

(** *** What a service transition promises *)
Section laws.
  Context {S : Type} `{JobRepositoryLaws S}.

(** Rejected before any write, or a compare-and-set on the state the write finds. *)
Definition service_outcome (s s2 : S) (id : Z) (intent : JobTransition) (f : Job → Job)
    (out : S * option error) : Prop :=
  (out.1 = s ∧ is_Some out.2) ∨
  cas_outcome (repo_jobs s2) id intent f (repo_jobs out.1) out.2.

Lemma transition_outcome eg interfere s id intent f apply :
  cas_outcome (repo_jobs (interfere s)) id intent f
    (repo_jobs (apply (interfere s)).1) (apply (interfere s)).2 →
  service_outcome s (interfere s) id intent f (transition eg interfere s id intent apply).
Proof.
  intros Ho. unfold transition, service_outcome. destruct (JobRepo.GetByID eg s id) as [job|e].
  - destruct (JobTransitionFor intent) as [spec []]; simpl; [|left; eauto].
    destruct (CanTransitionJob _ _); simpl; [by right|left; eauto].
  - left. eauto.
Qed.

(** The read before the write is only an early rejection: whatever other
    goroutines do between the two repository calls and whatever the storage
    answers, a service transition either rejects without writing or performs
    one compare-and-set on the state it then finds.  In particular a reported
    success means that the stored job allowed the move at the moment of the
    write and that nothing but that job was changed. *)
Theorem service_transitions_atomic eg ea interfere s id r p :
  repo_ok (interfere s) → repo_storable p →
  service_outcome s (interfere s) id JobTransitionStart apply_running
    (SetRunning eg ea interfere s id) ∧
  service_outcome s (interfere s) id JobTransitionSucceed (apply_succeeded r)
    (SetSucceeded eg ea interfere s id r) ∧
  service_outcome s (interfere s) id JobTransitionFail (apply_failed p)
    (SetFailed eg ea interfere s id p).
Proof.
  intros Hok Hp. split_and!; apply transition_outcome.
  - by apply SetRunning_law.
  - by apply SetSucceeded_law.
  - by apply SetFailed_law.
Qed.

(** *** Interleavings

    One atomic repository write, by any goroutine, for any storage behaviour. *)
Inductive write_step : S → S → Prop :=
| write_running env s id : write_step s (JobRepo.SetRunning env s id).1
| write_succeeded env s id r : write_step s (JobRepo.SetSucceeded env s id r).1
| write_failed env s id p :
    repo_storable p → write_step s (JobRepo.SetFailed env s id p).1
| write_fail_active env s p :
    repo_storable p → write_step s (JobRepo.FailActive env s p).1.

Lemma write_step_moves s s' :
  repo_ok s → write_step s s' → repo_ok s' ∧ store_moves (repo_jobs s) (repo_jobs s').
Proof.
  intros Hok Hw. destruct Hw as [env s id|env s id r|env s id p Hp|env s p Hp].
  - destruct (SetRunning_law env s id Hok). eauto using cas_outcome_moves with go.
  - destruct (SetSucceeded_law env s id r Hok). eauto using cas_outcome_moves with go.
  - destruct (SetFailed_law env s id p Hok Hp). eauto using cas_outcome_moves with go.
  - destruct (FailActive_law env s p Hok Hp) as [? [-> |[-> _]]];
      eauto using fail_active_moves, store_moves_refl.
Qed.

(** (C6) Under every interleaving of transition writes by any number of
    goroutines, over any repository that satisfies the contract and any storage
    failures, each job that is still there has moved along the state machine
    only, and its owner never changed. *)
Theorem interleaved_writes_follow_machine s s' :
  repo_ok s → rtc write_step s s' →
  repo_ok s' ∧
  ∀ id j', repo_jobs s' !! id = Some j' →
    ∃ j, repo_jobs s !! id = Some j ∧ OwnerUserID j' = OwnerUserID j ∧
         rtc job_step (Status j) (Status j').
Proof.
  intros Hok Hs. revert Hok. induction Hs as [s|s s1 s' Hw Hs IH]; intros Hok.
  - split; [done|]. intros id j' Hj'. exists j'. eauto using rtc_refl.
  - destruct (write_step_moves _ _ Hok Hw) as [Hok1 Hm].
    destruct (IH Hok1) as [Hok' IH']. split; [done|]. intros id j' Hj'.
    destruct (IH' _ _ Hj') as (j1 & Hj1 & Ho1 & Hs1).
    destruct (Hm _ _ Hj1) as (j & Hj & Ho & Hstep). exists j. split_and!; [done|congruence|].
    destruct Hstep as [->|Hstep]; [done|by eapply rtc_l].
Qed.

(** After the shutdown sweep reports success no job is left queued or
    running, terminal jobs are untouched, and every job it failed carries the
    503 shutdown problem. *)
Theorem shutdown_sweep_complete env s :
  repo_ok s → repo_storable ShutdownJobProblem →
  (FailActiveOnShutdown env s).2.2 = None →
  ∀ id j', repo_jobs (FailActiveOnShutdown env s).1 !! id = Some j' →
    is_active j' = false ∧
    ∃ j, repo_jobs s !! id = Some j ∧
      if is_active j then j' = apply_failed ShutdownJobProblem j else j' = j.
Proof.
  intros Hok Hp He id j'. unfold FailActiveOnShutdown in *.
  destruct (FailActive_law env s ShutdownJobProblem Hok Hp) as [_ [->|[_ [e He']]]];
    [|congruence].
  rewrite lookup_fmap fmap_Some. intros (j & Hj & ->). unfold fail_active_job.
  destruct (is_active j) eqn:Ha; (split; [done|]); exists j; by rewrite Ha.
Qed.
End laws.

(** The in-memory repository decides nothing about its calls. *)
Definition no_env : @repo_env _ memory_JobRepository := tt.

Definition race_repo : MemoryJobRepository :=
  (MemoryJobRepo.Save NewMemoryJobRepository (mkJob 0 JobQueued None None 7)).1.

(** Two workers race to start job 1: the one whose write comes second loses. *)
Lemma service_transitions_atomic_witness :
  let racer (s : MemoryJobRepository) := (MemoryJobRepo.SetRunning s 1).1 in
  let out := SetRunning no_env no_env racer race_repo 1 in
  service_outcome race_repo (racer race_repo) 1 JobTransitionStart apply_running out ∧
  (out.2 = Some (EJobTransitionConflictError 1 JobRunning JobRunning JobTransitionStart)).
Proof.
  intros racer out. split; [|vm_compute; reflexivity].
  apply (service_transitions_atomic no_env no_env racer race_repo 1 (mkJobResult 1) ShutdownJobProblem);
    exact I.
Defined.

Lemma interleaved_writes_follow_machine_witness :
  let s' := (MemoryJobRepo.SetSucceeded (MemoryJobRepo.SetRunning race_repo 1).1 1 (mkJobResult 3)).1 in
  ∃ j, repo_jobs race_repo !! 1%Z = Some j ∧ rtc job_step (Status j) JobSucceeded.
Proof.
  intros s'. destruct (interleaved_writes_follow_machine race_repo s') as [_ H].
  - exact I.
  - eapply rtc_l; [exact (write_running no_env race_repo 1)|].
    eapply rtc_l; [exact (write_succeeded no_env _ 1 (mkJobResult 3))|].
    apply rtc_refl.
  - destruct (H 1%Z (mkJob 1 JobSucceeded (Some (mkJobResult 3)) None 7)) as (j & Hj & _ & Hs);
      [vm_compute; reflexivity|]. exists j. split; [exact Hj|exact Hs].
Defined.

Lemma shutdown_sweep_complete_witness :
  let j' := apply_failed ShutdownJobProblem (mkJob 1 JobQueued None None 7) in
  repo_jobs (FailActiveOnShutdown no_env race_repo).1 !! 1%Z = Some j' ∧ is_active j' = false.
Proof.
  intros j'.
  assert (repo_jobs (FailActiveOnShutdown no_env race_repo).1 !! 1%Z = Some j') as Hj
    by (vm_compute; reflexivity).
  split; [exact Hj|].
  apply (shutdown_sweep_complete no_env race_repo I I (eq_refl : _ = None) 1 j' Hj).
Defined.

End JobService.

(** ** Users *)
Module UserService.

Section service.
  Context {S : Type} `{!UserRepository S}.
  Context (env_exists env_save : user_env) (interfere : S → S).

Definition GetByID (s : S) (id : Z) : res error User := UserRepo.GetByID env_exists s id.
Definition Save (s : S) (u : User) := UserRepo.Save env_save s u.
Definition Delete (s : S) (id : Z) := UserRepo.Delete env_save s id.

Definition CreateUser (s : S) (i : CreateUserInput) : S * res error UserDTO :=
  match ExistsByEmail env_exists s (inEmail i) with
  | Err e => (s, Err (EWrap "check email" e))
  | Ok true => (s, Err (EWrap "email already exists" (ESentinel ErrConflict)))
  | Ok false =>
      let u := mkUser 0 (inName i) (inAge i) (inEmail i) 0 in
      match UserRepo.Save env_save (interfere s) u with
      | (s', (_, Some e)) => (s', Err (EWrap "save user" e))
      | (s', (u, None)) => (s', Ok (mkUserDTO (uID u) (uName u) (uEmail u)))
      end
  end.
End service.

Section laws.
  Context {S : Type} `{UserRepositoryLaws S}.

(** [CreateUser] is safe against the check-then-save race: when it reports
    success, the address was free at the moment of the write (whatever happened
    since the check), the new id was unused, the stored user carries the input,
    the returned DTO shows it, and no other user changed. *)
Theorem CreateUser_success eg es interfere s i s' dto :
  users_ok (interfere s) → user_room (interfere s) →
  CreateUser eg es interfere s i = (s', Ok dto) →
  let m := repo_users (interfere s) in
  ¬ email_taken mail_eq m (inEmail i) ∧ m !! dID dto = None ∧
  stored_as (repo_users s') (dID dto) (mkUser (dID dto) (inName i) (inAge i) (inEmail i) 0) ∧
  dName dto = inName i ∧ dEmail dto = inEmail i ∧
  (∀ id, id ≠ dID dto → repo_users s' !! id = m !! id) ∧ users_ok s'.
Proof.
  intros Hok Hroom. unfold CreateUser.
  destruct (ExistsByEmail eg s (inEmail i)) as [[]|]; try done.
  set (u := mkUser 0 (inName i) (inAge i) (inEmail i) 0).
  destruct (UserRepo.Save es (interfere s) u) as [s2 [u2 [e|]]] eqn:Hs; [done|].
  intros [= <- <-]. simpl.
  pose proof (Save_users_ok es (interfere s) u Hok Hroom eq_refl) as Hok'. rewrite Hs /= in Hok'.
  apply (Save_user_ok _ _ u _ _ Hok Hroom eq_refl) in Hs as (? & ? & ? & ? & ? & ?).
  by split_and!.
Qed.

(** The loser of a race always loses: if an equal address is stored when
    the write happens, even though the earlier check did not see it, the call
    returns an error and stores nothing. *)
Theorem CreateUser_race_loser eg es interfere s i :
  users_ok (interfere s) → email_taken mail_eq (repo_users (interfere s)) (inEmail i) →
  is_ok (CreateUser eg es interfere s i).2 = false ∧
  ((CreateUser eg es interfere s i).1 = s ∨
   repo_users (CreateUser eg es interfere s i).1 = repo_users (interfere s)).
Proof.
  intros Hok Ht. unfold CreateUser.
  destruct (ExistsByEmail eg s (inEmail i)) as [[]|]; [eauto| |eauto].
  pose proof (Save_user_taken es (interfere s) (mkUser 0 (inName i) (inAge i) (inEmail i) 0)
    Hok eq_refl Ht) as [Hr [e He]].
  destruct (UserRepo.Save _ _ _) as [s' [u' e']]. simpl in *. subst. simpl. eauto.
Qed.
End laws.

#[local] Existing Instance Memory.memory_UserRepository.
#[local] Existing Instance Memory.memory_users_laws.
#[local] Existing Instance Sqlx.sqlx_UserRepository.
#[local] Existing Instance Sqlx.sqlx_users_laws.

Definition fine : @user_env _ Sqlx.sqlx_UserRepository := Sqlx.uenv_fine.
Definition ann : CreateUserInput := mkCreateUserInput "Ann" 30 "ann@x.io".
Definition bob : CreateUserInput := mkCreateUserInput "Bob" 31 "ann@x.io".

Lemma empty_table_ok : Sqlx.users_table_ok (Sqlx.mkUsersTable ∅ 1).
Proof. split; simpl; [done|done|]. intros i j u v Hu. vm_compute in Hu. discriminate Hu. Qed.

Lemma CreateUser_success_witness :
  let out := CreateUser fine fine id
               (Sqlx.mkUsersTable ∅ 1) ann in
  out.2 = Ok (mkUserDTO 1 "Ann" "ann@x.io") ∧ Sqlx.users_table_ok out.1.
Proof.
  intros out. split; [vm_compute; reflexivity|].
  edestruct (CreateUser_success fine fine id
    (Sqlx.mkUsersTable ∅ 1) ann out.1 (mkUserDTO 1 "Ann" "ann@x.io"))
    as (_ & _ & _ & _ & _ & _ & H); [apply empty_table_ok|exact I|vm_compute; reflexivity|exact H].
Defined.

(** Bob's check sees a free address, Ann is stored meanwhile, Bob's save fails. *)
Lemma CreateUser_race_loser_witness :
  let meanwhile (t : Sqlx.UsersTable) :=
    (CreateUser fine fine id t ann).1 in
  let out := CreateUser fine fine meanwhile
               (Sqlx.mkUsersTable ∅ 1) bob in
  is_ok out.2 = false ∧
  out.2 = Err (EWrap "save user" (ESentinel ErrConflict)).
Proof.
  intros meanwhile out. split; [|vm_compute; reflexivity].
  apply (CreateUser_race_loser fine fine meanwhile
    (Sqlx.mkUsersTable ∅ 1) bob).
  - exact (proj1 (Sqlx.qInsertUser_cases (Sqlx.mkUsersTable ∅ 1) "Ann" "ann@x.io" 30
      empty_table_ok)).
  - exists 1%Z, (mkUser 1 "Ann" 30 "ann@x.io" 0). split; vm_compute; reflexivity.
Defined.

End UserService.

(** ** Users with their remote profile *)
Module UserProfileService.

(** [profile.Profile] *)
Record Profile := mkProfile { pUserID : Z; Bio : string; City : string }.

Section service.
  Context {S : Type} `{!UserRepository S}.
  (** The profile client of [internal/outbound], under the service's timeout. *)
  Context (env : user_env) (FetchProfile : Z → string → res error Profile).

Definition GetUserWithProfile (s : S) (userID : Z) (requestID : string) : res error (User * Profile) :=
  match UserService.GetByID env s (wrap64 userID) with
  | Err e => Err e
  | Ok user =>
      match FetchProfile userID requestID with
      | Err e => Err e
      | Ok prof => Ok (user, prof)
      end
  end.
End service.
End UserProfileService.
