(* ===== verification/Queue.v ===== *)
(** * The work queue

    Models [internal/queue/queue.go]: a buffered channel guarded by a
    read-write lock that serves as admission barrier.  The first part is the
    sequential behaviour of each method; the second runs any number of
    concurrent [Enqueue] calls, [StopAccepting] and receivers as a step
    relation over the lock. *)
From S2P Require Import Prelude.
From S2P Require Import GoErrors.
From S2P Require Import Entity.

Record WorkItem := mkWorkItem { JobID : Z; Payload : CreateUserInput }.

(** The channel's buffer (head first) and capacity, the stop flag, and the
    process-wide rejection counter. *)
Record Queue := mkQueue {
  ch : list WorkItem;
  capacity : Z;
  stopped : bool;
  queueRejectionsTotal : Z;
}.

(** [make(chan, n)] panics for a negative capacity. *)
Definition New (cap : Z) : option Queue :=
  if (cap <? 0)%Z then None else Some (mkQueue [] cap false 0).

Definition StopAccepting (q : Queue) : Queue :=
  mkQueue (ch q) (capacity q) true (queueRejectionsTotal q).

(** What the caller's context shows at the three places it is read, and which
    case [select] picks when sending and cancellation are both ready. *)
Record ctx_obs := mkCtxObs {
  err_at_entry : option error;
  err_in_lock : option error;
  done_at_select : option error;
  select_send : bool;
}.
Definition ctx_live : ctx_obs := mkCtxObs None None None true.

Definition can_send (q : Queue) : bool := (Z.of_nat (length (ch q)) <? capacity q)%Z.

Definition send (q : Queue) (item : WorkItem) : Queue :=
  mkQueue (ch q ++ [item]) (capacity q) (stopped q) (queueRejectionsTotal q).

(** The [select] statement. *)
Definition enqueue_select (o : ctx_obs) (q : Queue) (item : WorkItem) : Queue * option error :=
  match can_send q, done_at_select o with
  | true, None => (send q item, None)
  | true, Some e => if select_send o then (send q item, None) else (q, Some e)
  | false, Some e => (q, Some e)
  | false, None =>
      (mkQueue (ch q) (capacity q) (stopped q) (wrap64 (queueRejectionsTotal q + 1)),
       Some (ESentinel ErrQueueFull))
  end.

(** The section under the read lock. *)
Definition enqueue_locked (o : ctx_obs) (q : Queue) (item : WorkItem) : Queue * option error :=
  if stopped q then (q, Some (ESentinel ErrQueueStopped))
  else
    match err_in_lock o with
    | Some e => (q, Some e)
    | None => enqueue_select o q item
    end.

Definition Enqueue (o : ctx_obs) (q : Queue) (item : WorkItem) : Queue * option error :=
  match err_at_entry o with
  | Some e => (q, Some e)
  | None => enqueue_locked o q item
  end.

(** A receive by a worker from [Chan]. *)
Definition receive (q : Queue) : option (WorkItem * Queue) :=
  match ch q with
  | [] => None
  | item :: rest => Some (item, mkQueue rest (capacity q) (stopped q) (queueRejectionsTotal q))
  end.

Definition queue_ok (q : Queue) : Prop :=
  (0 <= capacity q)%Z ∧ (Z.of_nat (length (ch q)) <= capacity q)%Z.

(** What a call can do: append one item and report success, or leave the
    channel alone and report an error. *)
Lemma enqueue_select_cases o q item :
  (enqueue_select o q item = (send q item, None) ∧ can_send q = true) ∨
  (ch (enqueue_select o q item).1 = ch q ∧ capacity (enqueue_select o q item).1 = capacity q ∧
   stopped (enqueue_select o q item).1 = stopped q ∧ is_Some (enqueue_select o q item).2).
Proof.
  unfold enqueue_select.
  destruct (can_send q), (done_at_select o); simpl; eauto 10. destruct (select_send o); eauto 10.
Qed.

Lemma Enqueue_cases o q item :
  (Enqueue o q item = (send q item, None) ∧ can_send q = true ∧ stopped q = false) ∨
  (ch (Enqueue o q item).1 = ch q ∧ capacity (Enqueue o q item).1 = capacity q ∧
   stopped (Enqueue o q item).1 = stopped q ∧ is_Some (Enqueue o q item).2).
Proof.
  unfold Enqueue, enqueue_locked.
  destruct (err_at_entry o); [right; eauto|]. destruct (stopped q) eqn:Hs; [right; simpl; eauto|].
  destruct (err_in_lock o); [right; simpl; eauto|].
  destruct (enqueue_select_cases o q item) as [[-> ?]|(? & ? & Hs' & ?)]; [by left|].
  right. by rewrite Hs' Hs.
Qed.

Lemma send_ok q item : queue_ok q → can_send q = true → queue_ok (send q item).
Proof.
  unfold queue_ok, can_send, send. simpl. intros [? ?] ?%Z.ltb_lt. rewrite length_app /=. lia.
Qed.

(** [Enqueue] with a live context never blocks and is decided by the stop
    flag and the free capacity: stopped wins, then a full buffer is rejected
    (and counted), otherwise the item is appended at the tail.  A context that
    is already done is refused before anything else. *)
Theorem Enqueue_decision o q item :
  queue_ok q →
  queue_ok (Enqueue o q item).1 ∧
  (∀ e, err_at_entry o = Some e → Enqueue o q item = (q, Some e)) ∧
  (o = ctx_live →
   (stopped q = true → Enqueue o q item = (q, Some (ESentinel ErrQueueStopped))) ∧
   (stopped q = false → Z.of_nat (length (ch q)) = capacity q →
      (Enqueue o q item).2 = Some (ESentinel ErrQueueFull) ∧
      ch (Enqueue o q item).1 = ch q ∧
      queueRejectionsTotal (Enqueue o q item).1 = wrap64 (queueRejectionsTotal q + 1)) ∧
   (stopped q = false → (Z.of_nat (length (ch q)) < capacity q)%Z →
      Enqueue o q item = (send q item, None))).
Proof.
  intros Hok. split_and!.
  - destruct (Enqueue_cases o q item) as [(-> & ? & _)|(H1 & H2 & _)]; [by apply send_ok|].
    unfold queue_ok. by rewrite H1 H2.
  - intros e. unfold Enqueue. by intros ->.
  - intros ->. unfold Enqueue, enqueue_locked, enqueue_select, can_send. simpl. split_and!.
    + by intros ->.
    + intros -> ->. by rewrite Z.ltb_irrefl.
    + intros -> Hlt%Z.ltb_lt. by rewrite Hlt.
Qed.

Definition ex_item (n : Z) : WorkItem := mkWorkItem n (mkCreateUserInput "a" 1 "a@b.c").

Lemma Enqueue_decision_witness :
  queue_ok (mkQueue [ex_item 1] 1 false 0) ∧
  (Enqueue ctx_live (mkQueue [ex_item 1] 1 false 0) (ex_item 2)).2 = Some (ESentinel ErrQueueFull).
Proof.
  assert (queue_ok (mkQueue [ex_item 1] 1 false 0)) as Hok by (split; simpl; lia).
  split; [exact Hok|].
  apply (proj2 (proj2 (Enqueue_decision ctx_live _ (ex_item 2) Hok)) eq_refl); reflexivity.
Defined.

(** ** Concurrent calls

    A producer holds the read lock from the stop check to the end of the
    [select]; [StopAccepting] holds the write lock while it sets the flag.
    [AtStopCheck] and [AtSelect] are the program points inside the lock. *)
Inductive producer_pc : Type := AtStopCheck | AtSelect.

Record qsystem := mkQsystem {
  qs_queue : Queue;
  qs_producers : gmap nat (producer_pc * WorkItem);
  qs_writer : bool;
  qs_stop_returned : bool;
  qs_accepted : list WorkItem;
  qs_received : list WorkItem;
}.

Definition qs_init (q : Queue) : qsystem := mkQsystem q ∅ false false [] [].

Inductive qstep : qsystem → qsystem → Prop :=
| q_rlock s pid item :
    qs_writer s = false → qs_producers s !! pid = None →
    qstep s (mkQsystem (qs_queue s) (<[pid := (AtStopCheck, item)]> (qs_producers s))
               (qs_writer s) (qs_stop_returned s) (qs_accepted s) (qs_received s))
| q_stopped s pid item :
    qs_producers s !! pid = Some (AtStopCheck, item) → stopped (qs_queue s) = true →
    qstep s (mkQsystem (qs_queue s) (delete pid (qs_producers s))
               (qs_writer s) (qs_stop_returned s) (qs_accepted s) (qs_received s))
| q_cancelled s pid item :
    qs_producers s !! pid = Some (AtStopCheck, item) → stopped (qs_queue s) = false →
    qstep s (mkQsystem (qs_queue s) (delete pid (qs_producers s))
               (qs_writer s) (qs_stop_returned s) (qs_accepted s) (qs_received s))
| q_checked s pid item :
    qs_producers s !! pid = Some (AtStopCheck, item) → stopped (qs_queue s) = false →
    qstep s (mkQsystem (qs_queue s) (<[pid := (AtSelect, item)]> (qs_producers s))
               (qs_writer s) (qs_stop_returned s) (qs_accepted s) (qs_received s))
| q_select s pid item o :
    qs_producers s !! pid = Some (AtSelect, item) →
    qstep s (mkQsystem (enqueue_select o (qs_queue s) item).1 (delete pid (qs_producers s))
               (qs_writer s) (qs_stop_returned s)
               (match (enqueue_select o (qs_queue s) item).2 with
                | None => qs_accepted s ++ [item]
                | Some _ => qs_accepted s
                end) (qs_received s))
| q_lock s :
    qs_writer s = false → qs_producers s = ∅ →
    qstep s (mkQsystem (qs_queue s) ∅ true (qs_stop_returned s) (qs_accepted s) (qs_received s))
| q_stop s :
    qs_writer s = true →
    qstep s (mkQsystem (StopAccepting (qs_queue s)) (qs_producers s) false true
               (qs_accepted s) (qs_received s))
| q_receive s item q' :
    receive (qs_queue s) = Some (item, q') →
    qstep s (mkQsystem q' (qs_producers s) (qs_writer s) (qs_stop_returned s)
               (qs_accepted s) (qs_received s ++ [item])).

(** The invariant: the flag is set once [StopAccepting] returned, nobody is
    past the check when it is, the writer excludes producers, and what was
    accepted is what was received followed by what is buffered. *)
Record qinv (s : qsystem) : Prop := {
  qi_flag : qs_stop_returned s = true → stopped (qs_queue s) = true;
  qi_select : ∀ pid item, qs_producers s !! pid = Some (AtSelect, item) →
                stopped (qs_queue s) = false;
  qi_writer : qs_writer s = true → qs_producers s = ∅;
  qi_fifo : qs_accepted s = qs_received s ++ ch (qs_queue s);
  qi_ok : queue_ok (qs_queue s);
}.

Lemma qinv_init q : queue_ok q → ch q = [] → qinv (qs_init q).
Proof. intros Hok Hch. by split. Qed.

Lemma qinv_rlock s pid pc item :
  qinv s → qs_writer s = false → (pc = AtSelect → stopped (qs_queue s) = false) →
  qinv (mkQsystem (qs_queue s) (<[pid := (pc, item)]> (qs_producers s))
          (qs_writer s) (qs_stop_returned s) (qs_accepted s) (qs_received s)).
Proof.
  intros [] Hw Hpc. split; simpl; try done; [|congruence].
  intros pid' item'. rewrite lookup_insert. case_decide; [|eauto]. intros [= -> ->]. auto.
Qed.

Lemma qinv_unlock s pid :
  qinv s →
  qinv (mkQsystem (qs_queue s) (delete pid (qs_producers s))
          (qs_writer s) (qs_stop_returned s) (qs_accepted s) (qs_received s)).
Proof.
  intros [? Hsel Hw ? ?]. split; simpl; try done.
  - intros pid' item' [_ ?]%lookup_delete_Some. eauto.
  - intros Hw'. by rewrite (Hw Hw') delete_empty.
Qed.

Lemma qinv_step s s' : qinv s → qstep s s' → qinv s'.
Proof.
  intros Hi Hs.
  destruct Hs as [s pid item Hw Hp|s pid item Hp Hst|s pid item Hp Hst|s pid item Hp Hst
                 |s pid item o Hp|s Hw Hp|s Hw|s item q' Hr];
    try by apply qinv_unlock.
  - by apply qinv_rlock.
  - apply qinv_rlock; try done. destruct (qs_writer s) eqn:Hw; [|done].
    rewrite (qi_writer s Hi Hw) lookup_empty in Hp. done.
  - pose proof (qinv_unlock s pid Hi) as [Hf Hsel Hw Hfifo Hok]. simpl in *.
    destruct (enqueue_select_cases o (qs_queue s) item) as [[-> Hc]|(Hch & Hcap & Hst & [e He])].
    + split; simpl; try done; [by rewrite Hfifo app_assoc|by apply send_ok].
    + rewrite He. split; simpl; rewrite ?Hst ?Hch; try done.
      unfold queue_ok. by rewrite Hch Hcap.
  - destruct Hi as [? Hsel ? ? ?]. by split.
  - destruct Hi as [? Hsel Hx ? ?]. split; simpl; try done.
    intros pid item. by rewrite (Hx Hw) lookup_empty.
  - destruct Hi as [Hf Hsel Hx Hfifo [? Hlen]]. unfold receive in Hr.
    destruct (ch (qs_queue s)) as [|i rest] eqn:Hc; [done|]. injection Hr as <- <-.
    split; simpl in *; try done; [by rewrite Hfifo -app_assoc|].
    split; simpl; [done|lia].
Qed.

Lemma qinv_reachable s s' : qinv s → rtc qstep s s' → qinv s'.
Proof. intros Hi Hs. induction Hs; eauto using qinv_step. Qed.

(** Once the flag is set no step accepts an item. *)
Lemma stopped_step s s' :
  qinv s → stopped (qs_queue s) = true → qstep s s' →
  stopped (qs_queue s') = true ∧ qs_accepted s' = qs_accepted s.
Proof.
  intros Hi Hst Hs. destruct Hs as [| | | |s pid item o Hp| | |s item q' Hr]; simpl; try done.
  - rewrite (qi_select s Hi _ _ Hp) in Hst. done.
  - unfold receive in Hr. destruct (ch (qs_queue s)); [done|]. injection Hr as <- <-. done.
Qed.

(** (C20) The admission barrier: once [StopAccepting] has returned, no [Enqueue]
    running concurrently or started later is ever accepted, however the calls
    interleave, while workers may keep draining what was accepted before. *)
Theorem StopAccepting_barrier q s s' :
  queue_ok q → ch q = [] → rtc qstep (qs_init q) s → qs_stop_returned s = true →
  rtc qstep s s' → qs_accepted s' = qs_accepted s.
Proof.
  intros Hok Hch Hs Hret Hs'.
  pose proof (qinv_reachable _ _ (qinv_init q Hok Hch) Hs) as Hi.
  pose proof (qi_flag s Hi Hret) as Hst. clear Hs Hret.
  induction Hs' as [|s s1 s' Hstep Hs' IH]; [done|].
  destruct (stopped_step _ _ Hi Hst Hstep) as [Hst1 <-]. eauto using qinv_step.
Qed.

(** Nothing is lost, duplicated or reordered: in every interleaving the
    accepted items are, in order, the received ones followed by the buffered
    ones, and the buffer never exceeds its capacity. *)
Theorem queue_fifo q s :
  queue_ok q → ch q = [] → rtc qstep (qs_init q) s →
  qs_accepted s = qs_received s ++ ch (qs_queue s) ∧
  (Z.of_nat (length (ch (qs_queue s))) <= capacity (qs_queue s))%Z.
Proof.
  intros Hok Hch Hs. destruct (qinv_reachable _ _ (qinv_init q Hok Hch) Hs) as [? ? ? ? []]. done.
Qed.

Definition ex_queue : Queue := mkQueue [] 1 false 0.

Lemma ex_trace :
  ∃ s, rtc qstep (qs_init ex_queue) s ∧ qs_stop_returned s = true ∧
       qs_accepted s = [ex_item 1] ∧ qs_received s = [] ∧ qs_producers s = ∅.
Proof.
  eexists. split.
  { eapply rtc_l; [apply (q_rlock _ 0 (ex_item 1)); reflexivity|]. cbn.
    eapply rtc_l; [apply (q_checked _ 0 (ex_item 1)); reflexivity|]. cbn.
    eapply rtc_l; [apply (q_select _ 0 (ex_item 1) ctx_live); reflexivity|]. cbn.
    eapply rtc_l; [apply q_lock; reflexivity|]. cbn.
    eapply rtc_l; [apply q_stop; reflexivity|]. apply rtc_refl. }
  by split_and!.
Qed.

Lemma StopAccepting_barrier_witness :
  ∃ s s', rtc qstep (qs_init ex_queue) s ∧ qs_stop_returned s = true ∧ s' ≠ s ∧
    rtc qstep s s' ∧ qs_accepted s' = qs_accepted s.
Proof.
  destruct ex_trace as (s & Hs & Hret & Hacc & Hrec & Hp).
  assert (queue_ok ex_queue) as Hok by (split; simpl; lia).
  assert (ch (qs_queue s) = [ex_item 1]) as Hch.
  { destruct (qinv_reachable _ _ (qinv_init _ Hok eq_refl) Hs) as [_ _ _ Hf _].
    rewrite Hrec Hacc in Hf. simpl in Hf. congruence. }
  assert (∃ q', receive (qs_queue s) = Some (ex_item 1, q')) as [q' Hr].
  { unfold receive. rewrite Hch. eexists; reflexivity. }
  assert (rtc qstep s _) as Hs' by (eapply rtc_once, (q_receive s (ex_item 1) q' Hr)).
  exists s. eexists. split; [exact Hs|]. split; [exact Hret|].
  split; [|split; [exact Hs'|]].
  - intros E. apply (f_equal qs_received) in E. simpl in E. rewrite Hrec in E. discriminate E.
  - exact (StopAccepting_barrier ex_queue s _ Hok eq_refl Hs Hret Hs').
Defined.

Lemma queue_fifo_witness :
  ∃ s, rtc qstep (qs_init ex_queue) s ∧ qs_accepted s = [ex_item 1] ∧
       qs_accepted s = qs_received s ++ ch (qs_queue s).
Proof.
  destruct ex_trace as (s & Hs & _ & Hacc & _). exists s. split; [exact Hs|]. split; [exact Hacc|].
  apply (queue_fifo ex_queue s); [split; simpl; lia|reflexivity|exact Hs].
Defined.
