(* ===== verification/Stream.v ===== *)
(** * The event hub

    Models [internal/stream/stream.go].  Channels are shared between the hub
    and the SSE handlers, so they live in a store ([chans]) that the hub's
    subscriber records point into.  A send that would block forever while the
    hub's mutex is held and a send on a closed channel (a panic) are [None].
    [consumed] and [lost] are history variables: what the handler has received
    and how many events were dropped for that channel. *)
From S2P Require Import Prelude.
From S2P Require Import GoErrors.
From S2P Require Import Entity.

(** The payloads the service publishes. *)
Inductive EventData : Type :=
| DataNil
| DataJobResult (r : JobResult)
| DataJobProblem (p : JobProblem).

Record Event := mkEvent { evType : string; evJobID : Z; At : Z; Data : EventData }.

Record chan := mkChan { buf : list Event; chClosed : bool; consumed : list Event; lost : nat }.
Definition new_chan : chan := mkChan [] false [] 0.

(** [subs job id] is the subscriber [id] of [job]; its channel is [chans id]. *)
Record Hub := mkHub {
  subs : gmap Z (gmap Z unit);
  history : gmap Z (list Event);
  nextID : Z;
  subscriberBuffer : Z;
  subscribers : Z;
  eventsTotal : Z;
  dropsTotal : Z;
  closed : bool;
  chans : gmap Z chan;
  unsubscribed : gset Z;
}.

Definition NewHub (buffer : Z) : option Hub :=
  if (buffer <=? 0)%Z then None
  else Some (mkHub ∅ ∅ 0 buffer 0 0 0 false ∅ ∅).

Definition room (cap : Z) (c : chan) : bool := (Z.of_nat (length (buf c)) <? cap)%Z.

Definition push (ev : Event) (c : chan) : chan :=
  mkChan (buf c ++ [ev]) (chClosed c) (consumed c) (lost c).

(** [ch <- ev] on a channel nobody else holds yet: blocks when it is full. *)
Fixpoint replay (cap : Z) (evs : list Event) (c : chan) : option chan :=
  match evs with
  | [] => Some c
  | ev :: evs => if room cap c then replay cap evs (push ev c) else None
  end.

Definition Subscribe (h : Hub) (jobID : Z) : option (Hub * res error Z) :=
  if closed h then Some (h, Err (ESentinel ErrHubClosed))
  else
    let id := wrapu64 (nextID h + 1) in
    match replay (subscriberBuffer h) (default [] (history h !! jobID)) new_chan with
    | None => None
    | Some c =>
        Some (mkHub (<[jobID := <[id := tt]> (default ∅ (subs h !! jobID))]> (subs h)) (history h)
                id (subscriberBuffer h) (wrap64 (subscribers h + 1)) (eventsTotal h)
                (dropsTotal h) (closed h) (<[id := c]> (chans h)) (unsubscribed h), Ok id)
    end.

(** The closure [Subscribe] returns, run at most once. *)
Definition unsubscribe (h : Hub) (jobID id : Z) : Hub :=
  if decide (id ∈ unsubscribed h) then h
  else
    let once := {[id]} ∪ unsubscribed h in
    match subs h !! jobID with
    | Some jobSubs =>
        if decide (is_Some (jobSubs !! id)) then
          let jobSubs := delete id jobSubs in
          mkHub (if decide (jobSubs = ∅) then delete jobID (subs h) else <[jobID := jobSubs]> (subs h))
            (history h) (nextID h) (subscriberBuffer h) (wrap64 (subscribers h - 1))
            (eventsTotal h) (dropsTotal h) (closed h) (chans h) once
        else mkHub (subs h) (history h) (nextID h) (subscriberBuffer h) (subscribers h)
               (eventsTotal h) (dropsTotal h) (closed h) (chans h) once
    | None => mkHub (subs h) (history h) (nextID h) (subscriberBuffer h) (subscribers h)
                (eventsTotal h) (dropsTotal h) (closed h) (chans h) once
    end.

Definition recordHistoryLocked (h : Hub) (jobID : Z) (ev : Event) : gmap Z (list Event) :=
  let hist := default [] (history h !! jobID) ++ [ev] in
  let hist :=
    if (subscriberBuffer h <? Z.of_nat (length hist))%Z
    then drop (length hist - Z.to_nat (subscriberBuffer h)) hist else hist in
  <[jobID := hist]> (history h).

(** One iteration of the delivery loop: a non-blocking send. *)
Definition deliver (cap : Z) (ev : Event) (st : option (gmap Z chan * Z)) (id : Z)
  : option (gmap Z chan * Z) :=
  match st with
  | None => None
  | Some (cs, drops) =>
      match cs !! id with
      | None => Some (cs, drops)
      | Some c =>
          if chClosed c then None
          else if room cap c then Some (<[id := push ev c]> cs, drops)
          else Some (<[id := mkChan (buf c) (chClosed c) (consumed c) (S (lost c))]> cs,
                     wrap64 (drops + 1))
      end
  end.

(** [range h.subs[jobID]]: the subscribers of the job, in map order. *)
Definition job_subs (h : Hub) (jobID : Z) : list Z :=
  (map_to_list (default ∅ (subs h !! jobID))).*1.

Definition Publish (h : Hub) (jobID : Z) (ev : Event) : option Hub :=
  if closed h then Some h
  else
    let hist := recordHistoryLocked h jobID ev in
    match foldl (deliver (subscriberBuffer h) ev) (Some (chans h, dropsTotal h)) (job_subs h jobID) with
    | None => None
    | Some (cs, drops) =>
        Some (mkHub (subs h) hist (nextID h) (subscriberBuffer h) (subscribers h)
                (wrap64 (eventsTotal h + 1)) drops (closed h) cs (unsubscribed h))
    end.

(** A handler receives from its channel (a closed, drained channel gives nothing). *)
Definition recv (h : Hub) (id : Z) : Hub :=
  match chans h !! id with
  | Some (mkChan (ev :: rest) cl got l) =>
      mkHub (subs h) (history h) (nextID h) (subscriberBuffer h) (subscribers h) (eventsTotal h)
        (dropsTotal h) (closed h) (<[id := mkChan rest cl (got ++ [ev]) l]> (chans h)) (unsubscribed h)
  | _ => h
  end.

Definition Ready (h : Hub) : option error :=
  if closed h then Some (ESentinel ErrHubClosed) else None.

(** [Close]: the compare-and-swap of the flag, then the drain under the mutex. *)
Definition close_flag (h : Hub) : Hub * bool :=
  if closed h then (h, false)
  else (mkHub (subs h) (history h) (nextID h) (subscriberBuffer h) (subscribers h) (eventsTotal h)
          (dropsTotal h) true (chans h) (unsubscribed h), true).

Definition sub_ids (h : Hub) : list Z :=
  map_to_list (subs h) ≫= (λ jm : Z * gmap Z unit, (map_to_list jm.2).*1).

Definition close_chan (st : option (gmap Z chan)) (id : Z) : option (gmap Z chan) :=
  match st with
  | None => None
  | Some cs =>
      match cs !! id with
      | None => Some cs
      | Some c =>
          if chClosed c then None
          else Some (<[id := mkChan (buf c) true (consumed c) (lost c)]> cs)
      end
  end.

Definition close_drain (h : Hub) : option Hub :=
  match foldl close_chan (Some (chans h)) (sub_ids h) with
  | None => None
  | Some cs =>
      Some (mkHub ∅ (history h) (nextID h) (subscriberBuffer h) 0 (eventsTotal h)
              (dropsTotal h) (closed h) cs (unsubscribed h))
  end.

Definition Close (h : Hub) : option Hub :=
  let '(h, won) := close_flag h in
  if won then close_drain h else Some h.

(** ** [WriteSSE]

    [Marshal] is [json.Marshal]; [werr n] is what the [n]-th write to the
    response reports.  The result is what reached the writer. *)
Definition WriteSSE (Marshal : EventData → res error string) (werr : nat → option error)
    (event : Event) : string * option error :=
  let nl := String (Ascii.ascii_of_nat 10) EmptyString in
  let body (n : nat) (written : string) :=
    match Marshal (Data event) with
    | Err e => (written, Some e)
    | Ok data =>
        match werr n with
        | Some e => (written, Some e)
        | None => (String.append written
                     (String.append "data: " (String.append data (String.append nl nl))), None)
        end
    end in
  if streqb (evType event) "" then body 0 ""
  else
    match werr 0 with
    | Some e => (EmptyString, Some e)
    | None => body 1 (String.append "event: " (String.append (evType event) nl))
    end.

(** ** Delivery loops *)
Definition deliver1 (cap : Z) (ev : Event) (c : chan) : chan :=
  if room cap c then push ev c else mkChan (buf c) (chClosed c) (consumed c) (S (lost c)).
Definition close1 (c : chan) : chan := mkChan (buf c) true (consumed c) (lost c).

Definition update_on (l : list Z) (f : chan → chan) (cs : gmap Z chan) : gmap Z chan :=
  map_imap (λ id c, Some (if decide (id ∈ l) then f c else c)) cs.

Lemma lookup_update_on l f cs id :
  update_on l f cs !! id = (λ c, if decide (id ∈ l) then f c else c) <$> cs !! id.
Proof. unfold update_on. rewrite map_lookup_imap. by destruct (cs !! id). Qed.

Lemma update_on_nil f cs : update_on [] f cs = cs.
Proof. apply map_eq. intros id. rewrite lookup_update_on. by destruct (cs !! id). Qed.

Lemma update_on_cons id l f cs c :
  id ∉ l → cs !! id = Some c → update_on l f (<[id := f c]> cs) = update_on (id :: l) f cs.
Proof.
  intros Hid Hc. apply map_eq. intros k. rewrite !lookup_update_on lookup_insert.
  destruct (decide (id = k)) as [<-|Hne].
  - rewrite Hc /= decide_False // decide_True //. by left.
  - destruct (cs !! k); simpl; [|done]. f_equal.
    destruct (decide (k ∈ l)); [rewrite decide_True //; by right|].
    rewrite decide_False //. rewrite elem_of_cons. intuition congruence.
Qed.

(** The channels of [l] exist and are open. *)
Definition all_open (l : list Z) (cs : gmap Z chan) : Prop :=
  ∀ id, id ∈ l → ∃ c, cs !! id = Some c ∧ chClosed c = false.

Lemma all_open_insert id l c cs : id ∉ l → all_open (id :: l) cs → all_open l (<[id := c]> cs).
Proof.
  intros Hid Ho k Hk. rewrite lookup_insert_ne; [congruence|]. apply Ho. by right.
Qed.

Lemma deliver_fold cap ev l : ∀ cs d,
  NoDup l → all_open l cs →
  ∃ d', foldl (deliver cap ev) (Some (cs, d)) l = Some (update_on l (deliver1 cap ev) cs, d').
Proof.
  induction l as [|id l IH]; intros cs d Hnd Ho; cbn [foldl].
  { exists d. by rewrite update_on_nil. }
  apply list.NoDup_cons in Hnd as [Hid Hnd].
  destruct (Ho id) as (c & Hc & Hcl); [by left|].
  rewrite -(update_on_cons _ _ _ _ _ Hid Hc).
  assert (deliver cap ev (Some (cs, d)) id =
    Some (<[id := deliver1 cap ev c]> cs, if room cap c then d else wrap64 (d + 1))) as ->.
  { unfold deliver, deliver1. rewrite Hc. destruct c as [b cl co lo]. simpl in *. subst cl.
    by destruct (room cap _). }
  apply IH; [done|]. by apply all_open_insert.
Qed.

Lemma close_fold l : ∀ cs,
  NoDup l → all_open l cs → foldl close_chan (Some cs) l = Some (update_on l close1 cs).
Proof.
  induction l as [|id l IH]; intros cs Hnd Ho; cbn [foldl]; [by rewrite update_on_nil|].
  apply list.NoDup_cons in Hnd as [Hid Hnd].
  destruct (Ho id) as (c & Hc & Hcl); [by left|].
  rewrite -(update_on_cons _ _ _ _ _ Hid Hc).
  assert (close_chan (Some cs) id = Some (<[id := close1 c]> cs)) as ->.
  { unfold close_chan. by rewrite Hc Hcl. }
  apply IH; [done|]. by apply all_open_insert.
Qed.

Lemma replay_room cap evs : ∀ c,
  (Z.of_nat (length (buf c) + length evs) <= cap)%Z →
  replay cap evs c = Some (mkChan (buf c ++ evs) (chClosed c) (consumed c) (lost c)).
Proof.
  induction evs as [|ev evs IH]; intros c Hlen; simpl in *.
  - rewrite app_nil_r. by destruct c.
  - unfold room. destruct (Z.ltb_spec (Z.of_nat (length (buf c))) cap); [|lia].
    rewrite IH; unfold push; simpl; [rewrite length_app /=; lia|]. by rewrite -app_assoc.
Qed.

(** ** The invariant *)
Definition registered (h : Hub) (job id : Z) : Prop :=
  ∃ m, subs h !! job = Some m ∧ is_Some (m !! id).

Definition sub_count (s : gmap Z (gmap Z unit)) : nat :=
  map_fold (λ _ m n, size m + n) 0 s.

(** The events kept for late subscribers: the last [subscriberBuffer] ones. *)
Definition last_events (cap : Z) (l : list Event) : list Event :=
  drop (length l - Z.to_nat cap) l.

(** What a subscriber of [job] has been given, relative to the published events. *)
Definition chan_ok (cap : Z) (pub : list Event) (c : chan) : Prop :=
  chClosed c = false ∧ (Z.of_nat (length (buf c)) <= cap)%Z ∧
  (consumed c ++ buf c) `sublist_of` pub ∧
  (lost c = 0 → (consumed c ++ buf c) `suffix_of` pub).

Record hub_inv (log : gmap Z (list Event)) (h : Hub) : Prop := {
  hi_buffer : (0 < subscriberBuffer h)%Z;
  hi_history : ∀ job, default [] (history h !! job) =
                 last_events (subscriberBuffer h) (default [] (log !! job));
  hi_chan : ∀ job id, registered h job id →
      (id <= nextID h)%Z ∧
      ∃ c, chans h !! id = Some c ∧ chan_ok (subscriberBuffer h) (default [] (log !! job)) c;
  hi_disjoint : ∀ job job' id, registered h job id → registered h job' id → job = job';
  hi_next : (0 <= nextID h < 2 ^ 63)%Z;
  hi_count : subscribers h = Z.of_nat (sub_count (subs h));
  hi_bound : (Z.of_nat (sub_count (subs h)) <= nextID h)%Z;
}.

Lemma last_events_length cap l :
  (0 < cap)%Z → (Z.of_nat (length (last_events cap l)) <= cap)%Z.
Proof. intros. unfold last_events. rewrite length_drop. lia. Qed.

Lemma last_events_suffix cap l : last_events cap l `suffix_of` l.
Proof. exists (take (length l - Z.to_nat cap) l). unfold last_events. by rewrite take_drop. Qed.

Lemma last_events_snoc cap l ev :
  (0 < cap)%Z →
  let hist := last_events cap l ++ [ev] in
  (if (cap <? Z.of_nat (length hist))%Z then drop (length hist - Z.to_nat cap) hist else hist)
  = last_events cap (l ++ [ev]).
Proof.
  intros Hcap hist. unfold hist, last_events. rewrite !length_app length_drop /=.
  case_match eqn:E; reflect_bools.
  - rewrite !drop_app_le ?length_drop; [lia..|]. rewrite drop_drop. do 2 f_equal. lia.
  - replace (length l - Z.to_nat cap) with 0 by lia.
    replace (length l + 1 - Z.to_nat cap) with 0 by lia. done.
Qed.

(** ** Each operation keeps the invariant *)
Lemma sub_count_lookup s job m :
  s !! job = Some m → sub_count s = size m + sub_count (delete job s).
Proof.
  intros Hm. unfold sub_count.
  apply (map_fold_delete_L (λ (_ : Z) (m : gmap Z unit) n, size m + n)); [|done]. intros; lia.
Qed.

Lemma sub_count_insert s job m :
  sub_count (<[job := m]> s) = size m + sub_count (delete job s).
Proof.
  rewrite (sub_count_lookup _ job m) ?lookup_insert_eq //. by rewrite delete_insert_eq.
Qed.

Lemma sub_count_delete_None s job : s !! job = None → sub_count (delete job s) = sub_count s.
Proof. intros. by rewrite delete_id. Qed.

Lemma chan_ok_deliver cap pub ev c :
  chan_ok cap pub c → chan_ok cap (pub ++ [ev]) (deliver1 cap ev c).
Proof.
  intros (Hcl & Hlen & Hsub & Hsuf). unfold deliver1, room, chan_ok.
  destruct (Z.ltb_spec (Z.of_nat (length (buf c))) cap); simpl; split_and!; try done.
  - rewrite length_app /=. lia.
  - rewrite app_assoc. by apply sublist_app.
  - intros Hl. rewrite app_assoc. by apply suffix_app, Hsuf.
  - by apply sublist_inserts_r.
Qed.

Lemma registered_job_subs h job id : id ∈ job_subs h job ↔ registered h job id.
Proof.
  unfold job_subs, registered. rewrite list_elem_of_fmap. split.
  - intros ([id' []] & -> & Hin%elem_of_map_to_list).
    destruct (subs h !! job) as [m|]; simpl in *; [by eauto|by rewrite lookup_empty in Hin].
  - intros (m & -> & [[] Hm]). exists (id, tt). by rewrite elem_of_map_to_list.
Qed.

Lemma registered_sub_ids h id : id ∈ sub_ids h ↔ ∃ job, registered h job id.
Proof.
  unfold sub_ids, registered. rewrite list_elem_of_bind. split.
  - intros ([job m] & Hin & Hm%elem_of_map_to_list). simpl in Hin.
    apply list_elem_of_fmap in Hin as ([id' []] & -> & Hin%elem_of_map_to_list). simpl. eauto.
  - intros (job & m & Hm & [[] Hid]). exists (job, m). rewrite elem_of_map_to_list. split; [|done].
    apply list_elem_of_fmap. exists (id, tt). by rewrite elem_of_map_to_list.
Qed.

Lemma sub_ids_NoDup log h : hub_inv log h → NoDup (sub_ids h).
Proof.
  intros Hi. unfold sub_ids. apply NoDup_bind; [| |apply NoDup_map_to_list].
  - intros [j1 m1] [j2 m2] id H1%elem_of_map_to_list H2%elem_of_map_to_list; simpl.
    intros ([i1 []] & -> & Hi1%elem_of_map_to_list)%list_elem_of_fmap
           ([i2 []] & Heq & Hi2%elem_of_map_to_list)%list_elem_of_fmap.
    simpl in Heq. subst i2.
    assert (j1 = j2) as -> by (apply (hi_disjoint log h Hi j1 j2 i1); unfold registered; eauto).
    congruence.
  - intros [j m] _. apply NoDup_fst_map_to_list.
Qed.

Lemma Publish_inv log h job ev :
  hub_inv log h →
  ∃ h', Publish h job ev = Some h' ∧ nextID h' = nextID h ∧
    hub_inv (if closed h then log else <[job := default [] (log !! job) ++ [ev]]> log) h'.
Proof.
  intros Hi. unfold Publish. destruct (closed h); [eauto|].
  destruct (deliver_fold (subscriberBuffer h) ev (job_subs h job) (chans h) (dropsTotal h))
    as [d' Hfold].
  { apply NoDup_fst_map_to_list. }
  { intros id Hid%registered_job_subs. destruct (hi_chan log h Hi _ _ Hid) as (_ & c & ? & [? _]). eauto. }
  rewrite Hfold. eexists. split_and!; [done..|].
  destruct Hi as [Hb Hh Hc Hd Hn Hcnt Hbd]. split; simpl; try done.
  - intros job'. unfold recordHistoryLocked. rewrite !lookup_insert.
    destruct (decide (job = job')) as [<-|]; [|done]. simpl. rewrite Hh. by apply last_events_snoc.
  - intros job' id Hreg. destruct (Hc job' id Hreg) as (? & c & Hch & Hok). split; [done|].
    rewrite lookup_update_on Hch /= lookup_insert. eexists. split; [done|].
    destruct (decide (job = job')) as [<-|Hne]; simpl.
    + rewrite decide_True; [by apply registered_job_subs|]. by apply chan_ok_deliver.
    + rewrite decide_False; [|done]. intros Hin%registered_job_subs. by apply Hne, (Hd _ _ id).
Qed.

Lemma Subscribe_inv log h job :
  hub_inv log h → (nextID h + 1 < 2 ^ 63)%Z →
  ∃ h' r, Subscribe h job = Some (h', r) ∧ (nextID h' <= nextID h + 1)%Z ∧ hub_inv log h'.
Proof.
  intros Hi Hmax. unfold Subscribe. destruct (closed h).
  { exists h. eexists. split_and!; [done|lia|done]. }
  pose proof (hi_next log h Hi) as Hn0. rewrite wrapu64_id; [lia|].
  rewrite replay_room.
  { simpl. rewrite (hi_history log h Hi). apply last_events_length, Hi. }
  eexists _, _. split_and!; [done|simpl; lia|].
  destruct Hi as [Hb Hh Hc Hd Hn Hcnt Hbd].
  set (m := default ∅ (subs h !! job)).
  assert (∀ job' id, registered h job' id → (id <= nextID h)%Z) as Hle.
  { intros job' id [? _]%Hc. done. }
  assert (m !! (nextID h + 1)%Z = None) as Hfresh.
  { apply eq_None_not_Some. intros Hs. unfold m in Hs.
    destruct (subs h !! job) as [m'|] eqn:Hm; simpl in Hs; [|by rewrite lookup_empty in Hs; destruct Hs].
    pose proof (Hle job (nextID h + 1)%Z ltac:(by exists m')). lia. }
  assert (sub_count (<[job := <[(nextID h + 1)%Z := tt]> m]> (subs h)) = S (sub_count (subs h))) as Hcount.
  { rewrite sub_count_insert map_size_insert_None //. unfold m in *.
    destruct (subs h !! job) as [m'|] eqn:Hm; simpl.
    - by rewrite (sub_count_lookup _ _ _ Hm).
    - by rewrite map_size_empty sub_count_delete_None. }
  assert (∀ job' id, registered (mkHub (<[job:=<[(nextID h + 1)%Z:=tt]> m]> (subs h)) (history h)
      (nextID h + 1) (subscriberBuffer h) (wrap64 (subscribers h + 1)) (eventsTotal h)
      (dropsTotal h) (closed h) (chans h) (unsubscribed h)) job' id →
      (job' = job ∧ id = (nextID h + 1)%Z) ∨ registered h job' id) as Hreg.
  { intros job' id (m' & Hm' & Hid). simpl in Hm'. rewrite lookup_insert in Hm'.
    destruct (decide (job = job')) as [<-|]; [|right; by exists m'].
    injection Hm' as <-. rewrite lookup_insert in Hid.
    destruct (decide ((nextID h + 1)%Z = id)) as [<-|]; [by left|]. right. unfold m in Hid.
    destruct (subs h !! job) as [m'|] eqn:Hm; simpl in Hid; [by exists m'|].
    rewrite lookup_empty in Hid. by destruct Hid. }
  split; simpl; try done; try lia.
  - intros job' id [[-> ->]|Hr]%Hreg.
    + split; [lia|]. rewrite lookup_insert_eq. eexists. split; [done|].
      unfold chan_ok. simpl. rewrite Hh.
      split_and!; [done|by apply last_events_length|apply sublist_drop|intros _; apply suffix_drop].
    + destruct (Hc _ _ Hr) as (? & c & ? & ?). split; [lia|].
      rewrite lookup_insert_ne; [lia|]. eauto.
  - intros j1 j2 id [[-> ->]|H1]%Hreg [[-> H2]|H2]%Hreg; try done.
    + apply Hle in H2. lia.
    + subst. apply Hle in H1. lia.
    + by eapply Hd.
  - rewrite Hcount Hcnt wrap64_id; [unfold int64_ok, int_min, int_max; lia|]. lia.
Qed.

(** An operation that only forgets registrations and keeps every channel. *)
Lemma hub_inv_fewer log h s n un :
  hub_inv log h →
  (∀ job m, s !! job = Some m → ∃ m', subs h !! job = Some m' ∧ ∀ id, is_Some (m !! id) → is_Some (m' !! id)) →
  n = Z.of_nat (sub_count s) → sub_count s <= sub_count (subs h) →
  hub_inv log (mkHub s (history h) (nextID h) (subscriberBuffer h) n (eventsTotal h)
                 (dropsTotal h) (closed h) (chans h) un).
Proof.
  intros [Hb Hh Hc Hd Hn Hcnt Hbd] Hsub Hcount Hle.
  assert (∀ job id, registered (mkHub s (history h) (nextID h) (subscriberBuffer h) n
     (eventsTotal h) (dropsTotal h) (closed h) (chans h) un) job id → registered h job id) as Hreg.
  { intros job id (m & Hm & Hid). destruct (Hsub _ _ Hm) as (m' & ? & ?). exists m'. eauto. }
  split; simpl; try done; try lia; eauto.
Qed.

Lemma unsubscribe_inv log h job id : hub_inv log h → hub_inv log (unsubscribe h job id).
Proof.
  intros Hi. unfold unsubscribe. destruct (decide (id ∈ unsubscribed h)); [done|].
  assert (hub_inv log (mkHub (subs h) (history h) (nextID h) (subscriberBuffer h) (subscribers h)
    (eventsTotal h) (dropsTotal h) (closed h) (chans h) ({[id]} ∪ unsubscribed h))) as Hsame.
  { apply hub_inv_fewer; [done|eauto|apply Hi|done]. }
  destruct (subs h !! job) as [m|] eqn:Hm; [|done].
  destruct (decide (is_Some (m !! id))) as [[[] Hid]|]; [|done].
  set (s' := if decide (delete id m = ∅) then _ else _).
  assert (S (sub_count s') = sub_count (subs h)) as Hcount.
  { rewrite (sub_count_lookup _ _ _ Hm). assert (S (size (delete id m)) = size m) as <-.
    { rewrite map_size_delete Hid. assert (size m ≠ 0); [|lia].
      apply map_size_ne_0_lookup. eauto. }
    unfold s'. destruct (decide (delete id m = ∅)) as [->|].
    - by rewrite map_size_empty.
    - by rewrite sub_count_insert. }
  apply hub_inv_fewer; [done| |rewrite (hi_count log h Hi)|lia].
  - intros job' m'. unfold s'. destruct (decide (delete id m = ∅)).
    + intros [_ ?]%lookup_delete_Some. eauto.
    + rewrite lookup_insert. destruct (decide (job = job')) as [<-|]; [|eauto]. intros [= <-].
      exists m. split; [done|]. intros id' [x [_ ?]%lookup_delete_Some]. eauto.
  - pose proof (hi_bound log h Hi). pose proof (hi_next log h Hi). rewrite wrap64_id; [|lia].
    unfold int64_ok, int_min, int_max. lia.
Qed.

Lemma recv_inv log h id : hub_inv log h → hub_inv log (recv h id) ∧ nextID (recv h id) = nextID h.
Proof.
  intros Hi. unfold recv. destruct (chans h !! id) as [[[|ev rest] cl got l]|] eqn:Hch; try done.
  split; [|done]. destruct Hi as [Hb Hh Hc Hd Hn Hcnt Hbd]. split; simpl; try done.
  intros job id' Hreg. destruct (Hc job id' Hreg) as (? & c & Hc' & Hok). split; [done|].
  rewrite lookup_insert. destruct (decide (id = id')) as [<-|]; [|eauto].
  eexists. split; [done|]. rewrite Hch in Hc'. injection Hc' as <-.
  destruct Hok as (? & ? & ? & ?). unfold chan_ok. simpl in *. rewrite -app_assoc /=.
  split_and!; [done|lia|done|done].
Qed.

Lemma close_drain_inv log h :
  hub_inv log h → ∃ h', close_drain h = Some h' ∧ nextID h' = nextID h ∧ hub_inv log h'.
Proof.
  intros Hi. unfold close_drain. rewrite close_fold.
  { by eapply sub_ids_NoDup. }
  { intros id [job Hreg]%registered_sub_ids.
    destruct (hi_chan log h Hi _ _ Hreg) as (_ & c & ? & [? _]). eauto. }
  eexists. split_and!; [done..|]. destruct Hi as [Hb Hh Hc Hd Hn Hcnt Hbd].
  split; simpl; try done; try lia.
  - intros job id (m & Hm & _). simpl in Hm. by rewrite lookup_empty in Hm.
  - intros job job' id (m & Hm & _). simpl in Hm. by rewrite lookup_empty in Hm.
  - rewrite (_ : sub_count ∅ = 0) //. lia.
Qed.

Lemma sub_count_ids h : sub_count (subs h) = length (sub_ids h).
Proof.
  unfold sub_count, sub_ids. rewrite map_fold_foldr.
  induction (map_to_list (subs h)) as [|[job m] l IH]; [done|].
  simpl. by rewrite length_app length_fmap length_map_to_list IH.
Qed.

(** ** Arbitrary sequences of operations

    The two halves of [Close] are separate operations, since other calls may
    run between the flag and the drain.  [log] records the events published
    while the hub was open. *)
Inductive hop : Type :=
| HSubscribe (job : Z)
| HUnsubscribe (job id : Z)
| HPublish (job : Z) (ev : Event)
| HRecv (id : Z)
| HCloseFlag
| HCloseDrain.

Definition run_hop (st : option (gmap Z (list Event) * Hub)) (o : hop)
  : option (gmap Z (list Event) * Hub) :=
  match st with
  | None => None
  | Some (log, h) =>
      match o with
      | HSubscribe job => (λ hr, (log, hr.1)) <$> Subscribe h job
      | HUnsubscribe job id => Some (log, unsubscribe h job id)
      | HPublish job ev =>
          pair (if closed h then log else <[job := default [] (log !! job) ++ [ev]]> log)
            <$> Publish h job ev
      | HRecv id => Some (log, recv h id)
      | HCloseFlag => Some (log, (close_flag h).1)
      | HCloseDrain => pair log <$> close_drain h
      end
  end.

Lemma run_hop_inv log h o :
  hub_inv log h → (nextID h + 1 < 2 ^ 63)%Z →
  ∃ log' h', run_hop (Some (log, h)) o = Some (log', h') ∧
    (nextID h' <= nextID h + 1)%Z ∧ hub_inv log' h'.
Proof.
  intros Hi Hmax. destruct o as [job|job id|job ev|id| |]; simpl.
  - destruct (Subscribe_inv log h job Hi Hmax) as (h' & r & -> & ? & ?). simpl. eauto.
  - eexists _, _. split_and!; [done| |by apply unsubscribe_inv].
    unfold unsubscribe. repeat case_match; simpl; lia.
  - destruct (Publish_inv log h job ev Hi) as (h' & -> & Hn & ?). simpl.
    eexists _, _. split_and!; [done|lia|done].
  - destruct (recv_inv log h id Hi). eexists _, _. split_and!; [done|lia|done].
  - eexists _, _. split_and!; [done|unfold close_flag; case_match; simpl; lia|].
    unfold close_flag. destruct (closed h); [done|]. simpl.
    destruct Hi. by split.
  - destruct (close_drain_inv log h Hi) as (h' & -> & Hn & ?). simpl.
    eexists _, _. split_and!; [done|lia|done].
Qed.

Lemma run_hops_inv ops : ∀ log h,
  hub_inv log h → (nextID h + Z.of_nat (length ops) < 2 ^ 63)%Z →
  ∃ log' h', foldl run_hop (Some (log, h)) ops = Some (log', h') ∧ hub_inv log' h'.
Proof.
  induction ops as [|o ops IH]; intros log h Hi Hmax; [by eexists _, _|].
  cbn [foldl length] in *.
  destruct (run_hop_inv log h o Hi ltac:(lia)) as (log' & h' & -> & ? & ?). apply IH; [done|lia].
Qed.

Lemma NewHub_inv b h : NewHub b = Some h → hub_inv ∅ h ∧ nextID h = 0%Z.
Proof.
  unfold NewHub. case_match eqn:E; [done|]. intros [= <-]. reflect_bools. split; [|done].
  split; simpl; try done.
  - intros job id (m & Hm & _). simpl in Hm. by rewrite lookup_empty in Hm.
  - intros job job' id (m & Hm & _). simpl in Hm. by rewrite lookup_empty in Hm.
Qed.

(** (C21) The hub never deadlocks and never panics: in every sequence of fewer
    than 2^63 calls (subscribe, unsubscribe, publish, receive, the two halves
    of close), replaying the history into a new subscriber's channel never
    blocks under the mutex and no send hits a closed channel; afterwards the
    subscriber gauge is exactly the number of registered subscribers and the
    stored history fits the buffer. *)
Theorem hub_never_stuck b h0 ops :
  NewHub b = Some h0 → (Z.of_nat (length ops) < 2 ^ 63)%Z →
  ∃ log h, foldl run_hop (Some (∅, h0)) ops = Some (log, h) ∧
    subscribers h = Z.of_nat (length (sub_ids h)) ∧
    ∀ job, (Z.of_nat (length (default [] (history h !! job))) <= subscriberBuffer h)%Z.
Proof.
  intros [Hi Hn]%NewHub_inv Hmax. destruct (run_hops_inv ops ∅ h0 Hi) as (log & h & -> & Hi').
  { lia. }
  exists log, h. split_and!; [done| |].
  - rewrite (hi_count log h Hi') sub_count_ids //.
  - intros job. rewrite (hi_history log h Hi'). apply last_events_length, Hi'.
Qed.

(** (C22) Delivery: a registered subscriber has been given (received or still
    buffered) published events of its job only, in publication order; if none
    was dropped for it, they are a gap-free suffix of everything published for
    that job. *)
Theorem hub_delivery b h0 ops log h job id c :
  NewHub b = Some h0 → (Z.of_nat (length ops) < 2 ^ 63)%Z →
  foldl run_hop (Some (∅, h0)) ops = Some (log, h) →
  registered h job id → chans h !! id = Some c →
  (consumed c ++ buf c) `sublist_of` default [] (log !! job) ∧
  (lost c = 0 → (consumed c ++ buf c) `suffix_of` default [] (log !! job)) ∧
  (Z.of_nat (length (buf c)) <= subscriberBuffer h)%Z.
Proof.
  intros [Hi Hn]%NewHub_inv Hmax Hrun Hreg Hc.
  destruct (run_hops_inv ops ∅ h0 Hi) as (log' & h' & Hrun' & Hi'); [lia|].
  rewrite Hrun in Hrun'. injection Hrun' as <- <-.
  destruct (hi_chan log h Hi' _ _ Hreg) as (_ & c' & Hc' & ? & ? & ? & ?).
  rewrite Hc in Hc'. injection Hc' as <-. done.
Qed.

Definition ex_ev (t : string) : Event := mkEvent t 7 0 DataNil.
Definition ex_hub : Hub := mkHub ∅ ∅ 0 2 0 0 0 false ∅ ∅.
Definition ex_hops : list hop :=
  [HPublish 7 (ex_ev "queued"); HPublish 7 (ex_ev "running"); HSubscribe 7; HRecv 1;
   HPublish 7 (ex_ev "succeeded")].
Definition ex_final : option (gmap Z (list Event) * Hub) := foldl run_hop (Some (∅, ex_hub)) ex_hops.

Lemma hub_never_stuck_witness :
  NewHub 2 = Some ex_hub ∧
  ∃ log h, foldl run_hop (Some (∅, ex_hub)) (ex_hops ++ [HCloseFlag; HCloseDrain]) = Some (log, h) ∧
    subscribers h = Z.of_nat (length (sub_ids h)) ∧
    ∀ job, (Z.of_nat (length (default [] (history h !! job))) <= subscriberBuffer h)%Z.
Proof.
  split; [reflexivity|]. apply (hub_never_stuck 2); [reflexivity|vm_compute; reflexivity].
Defined.

Lemma hub_delivery_witness :
  ∃ log h c, ex_final = Some (log, h) ∧ chans h !! 1%Z = Some c ∧ lost c = 0 ∧
    consumed c ++ buf c = [ex_ev "queued"; ex_ev "running"; ex_ev "succeeded"] ∧
    (consumed c ++ buf c) `suffix_of` default [] (log !! 7%Z).
Proof.
  destruct ex_final as [[log h]|] eqn:E; [|vm_compute in E; discriminate E].
  pose proof E as E2. vm_compute in E2. injection E2 as _ Eh.
  assert (∃ c, chans h !! 1%Z = Some c ∧ lost c = 0 ∧
    consumed c ++ buf c = [ex_ev "queued"; ex_ev "running"; ex_ev "succeeded"]) as (c & Hc & Hl & Hb).
  { rewrite -Eh. eexists. split; [vm_compute; reflexivity|]. split; reflexivity. }
  exists log, h, c. split; [reflexivity|]. split; [exact Hc|]. split; [exact Hl|]. split; [exact Hb|].
  apply (hub_delivery 2 ex_hub ex_hops log h 7 1 c); [reflexivity|vm_compute; reflexivity|exact E| |
    exact Hc|exact Hl].
  rewrite -Eh. eexists. split; [vm_compute; reflexivity|]. eexists. vm_compute. reflexivity.
Defined.
