(* ===== verification/WorkerPool.v ===== *)
(** * The worker pool

    Models [internal/workerpool/workerpool.go].  [Lifecycle] is the start/stop
    state machine: generations of workers live in a store because callers of
    [Stop] keep pointers to them across lock releases.  [Worker] is what one
    worker does with a work item, composed of the services and the hub. *)
From S2P Require Import Prelude.
From S2P Require Import GoErrors.
From S2P Require Import Entity.
From S2P Require Import JobRepo.
From S2P Require Import MemoryJobRepo.
From S2P Require Import UserRepo.
From S2P Require Import Services.
From S2P Require Import Queue.
From S2P Require Import Stream.

Record StopOutcome := mkStopOutcome {
  WorkersStopped : bool;
  RepairAttempted : bool;
  RepairedActiveJobs : Z;
  RepairErr : option error;
}.
Definition zero_outcome : StopOutcome := mkStopOutcome false false 0 None.
Definition StopOutcome_Err (o : StopOutcome) : option error := RepairErr o.

Definition defaultStopRepairTimeout : Z := (2 * 10 ^ 9)%Z.

(** ** Start and stop *)
Module Lifecycle.

(** [genOutcome] is set by [stopOnce]; [genCancelled] is the generation's context. *)
Record workerGeneration := mkGen {
  genCancelled : bool;
  genDone : bool;
  remaining : Z;
  genOutcome : option StopOutcome;
}.

Record WorkerPool := mkWorkerPool {
  generation : option nat;
  stopping : bool;
  lastOutcome : StopOutcome;
  hasOutcome : bool;
  gens : list workerGeneration;
}.

Definition NewWorkerPool : WorkerPool := mkWorkerPool None false zero_outcome false [].

Definition gen_done (p : WorkerPool) (g : nat) : bool :=
  match gens p !! g with Some gen => genDone gen | None => false end.

Definition upd_gen (f : workerGeneration → workerGeneration) (g : nat) (p : WorkerPool) : WorkerPool :=
  mkWorkerPool (generation p) (stopping p) (lastOutcome p) (hasOutcome p) (alter f g (gens p)).

Definition settleStoppedLocked (p : WorkerPool) : WorkerPool :=
  match generation p with
  | None => p
  | Some g =>
      if gen_done p g then
        if stopping p then p
        else mkWorkerPool None false (lastOutcome p) (hasOutcome p) (gens p)
      else p
  end.

Definition Start (p : WorkerPool) (workers : Z) : WorkerPool * option error :=
  let p := settleStoppedLocked p in
  match generation p with
  | Some _ => if stopping p then (p, Some (ESentinel ErrPoolStopping)) else (p, None)
  | None =>
      let gen := mkGen false (workers <=? 0)%Z workers None in
      (mkWorkerPool (Some (length (gens p))) false zero_outcome false (gens p ++ [gen]), None)
  end.

(** The first critical section of [Stop]: it returns at once, or waits for a
    generation, as its first stopper or not. *)
Inductive stop_entry : Type :=
| StopReturns (e : option error)
| StopWaits (g : nat) (firstStop : bool).

Definition stop_enter (p : WorkerPool) : WorkerPool * stop_entry :=
  match generation p with
  | None => (p, StopReturns (if hasOutcome p then StopOutcome_Err (lastOutcome p) else None))
  | Some g =>
      (mkWorkerPool (generation p) true (lastOutcome p) (hasOutcome p) (gens p),
       StopWaits g (negb (stopping p)))
  end.

Definition cancel_gen (g : nat) (p : WorkerPool) : WorkerPool :=
  upd_gen (λ gen, mkGen true (genDone gen) (remaining gen) (genOutcome gen)) g p.

Definition closeDone (gen : workerGeneration) : workerGeneration :=
  mkGen (genCancelled gen) true (remaining gen) (genOutcome gen).

Definition workerDone (g : nat) (p : WorkerPool) : WorkerPool :=
  upd_gen (λ gen,
    let gen := mkGen (genCancelled gen) (genDone gen) (remaining gen - 1) (genOutcome gen) in
    if (remaining gen =? 0)%Z then closeDone gen else gen) g p.

(** [completeStop]: the repair under [stopOnce], then the second critical section. *)
Definition stop_repair (repair : StopOutcome) (g : nat) (p : WorkerPool) : WorkerPool :=
  upd_gen (λ gen,
    match genOutcome gen with
    | Some _ => gen
    | None => mkGen (genCancelled gen) (genDone gen) (remaining gen) (Some repair)
    end) g p.

Definition gen_outcome (p : WorkerPool) (g : nat) : StopOutcome :=
  match gens p !! g with Some gen => default zero_outcome (genOutcome gen) | None => zero_outcome end.

Definition stop_clear (g : nat) (p : WorkerPool) : WorkerPool * option error :=
  (if decide (generation p = Some g)
   then mkWorkerPool None false (gen_outcome p g) true (gens p)
   else p, StopOutcome_Err (gen_outcome p g)).

Definition completeStop (repair : StopOutcome) (g : nat) (p : WorkerPool) : WorkerPool * option error :=
  stop_clear g (stop_repair repair g p).

Definition IsRunning (p : WorkerPool) : bool :=
  match generation p with
  | None => false
  | Some g => if stopping p then false else negb (gen_done p g)
  end.

Definition CheckRunning (p : WorkerPool) : option error :=
  if negb (IsRunning p) then Some (ESentinel ErrPoolNotRunning) else None.

Definition LastStopOutcome (p : WorkerPool) : StopOutcome * bool := (lastOutcome p, hasOutcome p).

(** *** Interleavings of starts, stops and worker exits

    [ps_stops] holds, for each pending [Stop] call, the generation it waits for
    and whether its repair step is behind it. *)
Record pstate := mkPstate { ps_pool : WorkerPool; ps_stops : gmap nat (nat * bool) }.

Definition ps_init : pstate := mkPstate NewWorkerPool ∅.

Inductive pool_step : pstate → pstate → Prop :=
| p_start p st workers : pool_step (mkPstate p st) (mkPstate (Start p workers).1 st)
| p_stop_return p st e :
    (stop_enter p).2 = StopReturns e → pool_step (mkPstate p st) (mkPstate (stop_enter p).1 st)
| p_stop_wait p st pid g first :
    (stop_enter p).2 = StopWaits g first → st !! pid = None →
    pool_step (mkPstate p st) (mkPstate (stop_enter p).1 (<[pid := (g, false)]> st))
| p_cancel p st g : pool_step (mkPstate p st) (mkPstate (cancel_gen g p) st)
| p_worker_exit p st g gen :
    gens p !! g = Some gen → (0 < remaining gen)%Z →
    pool_step (mkPstate p st) (mkPstate (workerDone g p) st)
| p_repair p st pid g o :
    st !! pid = Some (g, false) → gen_done p g = true →
    pool_step (mkPstate p st) (mkPstate (stop_repair o g p) (<[pid := (g, true)]> st))
| p_clear p st pid g :
    st !! pid = Some (g, true) →
    pool_step (mkPstate p st) (mkPstate (stop_clear g p).1 (delete pid st))
| p_stop_timeout p st pid g :
    st !! pid = Some (g, false) → pool_step (mkPstate p st) (mkPstate p (delete pid st)).

Definition alive (p : WorkerPool) (g : nat) : Prop :=
  ∃ gen, gens p !! g = Some gen ∧ (0 < remaining gen)%Z.

(** The invariant: [done] is closed exactly when no worker is left, a repair
    outcome is only there after that, and only the current generation can have
    live workers. *)
Record pool_inv (s : pstate) : Prop := {
  pi_done : ∀ g gen, gens (ps_pool s) !! g = Some gen →
              (genDone gen = true ↔ (remaining gen <= 0)%Z);
  pi_outcome : ∀ g gen, gens (ps_pool s) !! g = Some gen → is_Some (genOutcome gen) →
              genDone gen = true;
  pi_current : ∀ g, alive (ps_pool s) g → generation (ps_pool s) = Some g;
  pi_repaired : ∀ pid g, ps_stops s !! pid = Some (g, true) → gen_done (ps_pool s) g = true;
}.

Lemma pool_inv_init : pool_inv ps_init.
Proof.
  split; simpl; try done. intros g (gen & Hg & _). done.
Qed.

Lemma alive_not_done s g : pool_inv s → gen_done (ps_pool s) g = true → ¬ alive (ps_pool s) g.
Proof.
  intros Hi Hd (gen & Hg & Hr). unfold gen_done in Hd. rewrite Hg in Hd.
  apply (pi_done s Hi _ _ Hg) in Hd. lia.
Qed.

(** Changing the pool's registers, and forgetting a generation that is done. *)
Lemma pool_inv_registers p st st' cur stp lo ho :
  pool_inv (mkPstate p st) →
  (cur = generation p ∨ ∃ g, generation p = Some g ∧ gen_done p g = true) →
  (∀ pid g, st' !! pid = Some (g, true) → gen_done p g = true) →
  pool_inv (mkPstate (mkWorkerPool cur stp lo ho (gens p)) st').
Proof.
  intros Hi Hcur Hst. pose proof Hi as [Hd Ho Hc Hr]. split; simpl in *; try done.
  intros g Hal. destruct Hcur as [->|(g' & Hg' & Hdone)]; [by apply Hc|].
  pose proof (Hc g Hal) as Hg. exfalso. apply (alive_not_done _ g Hi); simpl; [congruence|done].
Qed.

(** Updating one generation. *)
Lemma pool_inv_upd p st st' f g :
  pool_inv (mkPstate p st) →
  (∀ gen, gens p !! g = Some gen →
     (genDone (f gen) = true ↔ (remaining (f gen) <= 0)%Z) ∧
     (is_Some (genOutcome (f gen)) → genDone (f gen) = true) ∧
     (remaining (f gen) <= remaining gen)%Z ∧ (genDone gen = true → genDone (f gen) = true)) →
  (∀ pid g, st' !! pid = Some (g, true) → gen_done p g = true) →
  pool_inv (mkPstate (upd_gen f g p) st').
Proof.
  intros [Hd Ho Hc Hr] Hf Hst. split; unfold upd_gen, alive, gen_done in *; simpl in *.
  - intros g' gen'. rewrite list_lookup_alter_Some. intros [(-> & gen & Hg & ->)|[_ Hg]]; [|eauto].
    by apply Hf.
  - intros g' gen'. rewrite list_lookup_alter_Some. intros [(-> & gen & Hg & ->)|[_ Hg]]; [|eauto].
    by apply Hf.
  - intros g' (gen' & Hg' & Hr'). apply Hc.
    apply list_lookup_alter_Some in Hg' as [(-> & gen & Hg & ->)|[_ Hg]]; [|eauto].
    exists gen. destruct (Hf _ Hg) as (_ & _ & ? & _). split; [done|lia].
  - intros pid g' Hp%Hst. destruct (decide (g = g')) as [<-|].
    + rewrite list_lookup_alter_eq. destruct (gens p !! g) as [gen|] eqn:Hg; simpl; [|done].
      by apply Hf.
    + by rewrite list_lookup_alter_ne.
Qed.

Lemma pool_inv_start p st workers :
  pool_inv (mkPstate p st) → pool_inv (mkPstate (Start p workers).1 st).
Proof.
  intros Hi.
  assert (pool_inv (mkPstate (settleStoppedLocked p) st)) as Hs.
  { unfold settleStoppedLocked. destruct (generation p) as [g|] eqn:Hg; [|done].
    destruct (gen_done p g) eqn:Hd; [|done]. destruct (stopping p); [done|].
    apply (pool_inv_registers p st); [done|right; eauto|apply Hi]. }
  unfold Start. destruct (generation (settleStoppedLocked p)) as [g|] eqn:Hg.
  { destruct (stopping _); done. }
  destruct Hs as [Hd Ho Hc Hr]. simpl in *.
  assert (∀ g gen, (gens (settleStoppedLocked p) ++ [mkGen false (workers <=? 0)%Z workers None]) !! g
      = Some gen → gens (settleStoppedLocked p) !! g = Some gen ∨
      (g = length (gens (settleStoppedLocked p)) ∧ gen = mkGen false (workers <=? 0)%Z workers None))
    as Happ.
  { intros g gen [?|[? [Hz <-]%list_lookup_singleton_Some]]%lookup_app_Some; [by left|right].
    split; [lia|done]. }
  split; simpl.
  - intros g gen [Hl|[-> ->]]%Happ; [eauto|]. simpl. by rewrite Z.leb_le.
  - intros g gen [Hl|[-> ->]]%Happ; [eauto|]. simpl. by intros [].
  - intros g (gen & Hgen & Hrem). apply Happ in Hgen as [Hl|[-> _]]; [|done].
    rewrite Hg in Hc. by discriminate (Hc g ltac:(by exists gen)).
  - intros pid g Hp%Hr. unfold gen_done in *. simpl.
    destruct (gens (settleStoppedLocked p) !! g) as [gen|] eqn:Hl; [|done].
    by rewrite (lookup_app_l_Some _ _ _ _ Hl).
Qed.

Lemma pool_inv_step s s' : pool_inv s → pool_step s s' → pool_inv s'.
Proof.
  intros Hi Hs.
  destruct Hs as [p st w|p st e He|p st pid g f He Hp|p st g|p st g gen Hg Hr|p st pid g o Hp Hd
                 |p st pid g Hp|p st pid g Hp].
  - by apply pool_inv_start.
  - unfold stop_enter in *. destruct (generation p); done.
  - unfold stop_enter in *. destruct (generation p) as [g'|] eqn:Hg; [|done]. simpl.
    rewrite -Hg. apply (pool_inv_registers p st); [done|by left|].
    intros pid' g2. rewrite lookup_insert. case_decide; [done|apply Hi].
  - apply (pool_inv_upd p st); [done| |apply Hi]. intros gen Hg. simpl.
    split_and!; [by eapply (pi_done _ Hi)|by eapply (pi_outcome _ Hi)|lia|done].
  - apply (pool_inv_upd p st); [done| |apply Hi]. intros gen' Hg'.
    assert (gen' = gen) as -> by congruence. simpl.
    pose proof (pi_done _ Hi _ _ Hg) as Hdone. pose proof (pi_outcome _ Hi _ _ Hg) as Hout. simpl in *.
    destruct (Z.eqb_spec (remaining gen - 1) 0); simpl;
      (split_and!; [|intros Ho%Hout|lia|intros Ho]); try apply Hdone in Ho; try done; try lia.
    split; [intros ?%Hdone|]; lia.
  - apply (pool_inv_upd p st); [done| |].
    + intros gen Hg. unfold gen_done in Hd. rewrite Hg in Hd.
      pose proof (pi_done _ Hi _ _ Hg) as Hdone. simpl in Hdone.
      destruct (genOutcome gen) eqn:Ho; simpl; split_and!; done || lia.
    + intros pid' g'. rewrite lookup_insert. case_decide; [by intros [= <-]|apply Hi].
  - unfold stop_clear. simpl.
    assert (∀ pid' g', delete pid st !! pid' = Some (g', true) → gen_done p g' = true) as Hst.
    { intros pid' g' [_ ?]%lookup_delete_Some. by eapply (pi_repaired _ Hi). }
    destruct (decide (generation p = Some g)) as [Hg|].
    + apply (pool_inv_registers p st); [done|right|done]. exists g. split; [done|].
      by apply (pi_repaired _ Hi _ _ Hp).
    + destruct p. by apply (pool_inv_registers _ st _ _ _ _ _ Hi); [left|].
  - destruct Hi as [? ? ? Hr]. split; simpl in *; try done.
    intros pid' g' [_ ?]%lookup_delete_Some. eauto.
Qed.

Lemma pool_inv_reachable s : rtc pool_step ps_init s → pool_inv s.
Proof.
  intros Hs. remember ps_init as s0 eqn:E.
  assert (pool_inv s0) as Hi by (subst; apply pool_inv_init). clear E.
  induction Hs; eauto using pool_inv_step.
Qed.

(** (C23) However starts, stops and worker exits interleave, at most one
    generation of workers is alive, and it is the one the pool knows: a restart
    never overlaps the workers of an earlier run. *)
Theorem pool_single_generation s g g' :
  rtc pool_step ps_init s → alive (ps_pool s) g → alive (ps_pool s) g' →
  g = g' ∧ generation (ps_pool s) = Some g.
Proof.
  intros Hi%pool_inv_reachable Hg%(pi_current s Hi) Hg'%(pi_current s Hi).
  split; congruence.
Qed.

(** An outcome, once recorded, stays. *)
Lemma gen_outcome_step s s' g gen o :
  pool_step s s' → gens (ps_pool s) !! g = Some gen → genOutcome gen = Some o →
  ∃ gen', gens (ps_pool s') !! g = Some gen' ∧ genOutcome gen' = Some o.
Proof.
  assert (∀ f p k, gens p !! g = Some gen → genOutcome (f gen) = genOutcome gen →
    genOutcome gen = Some o → ∃ gen', gens (upd_gen f k p) !! g = Some gen' ∧ genOutcome gen' = Some o)
    as Hupd.
  { intros f p k Hg Hf Ho. unfold upd_gen. simpl. rewrite list_lookup_alter.
    destruct (decide (k = g)) as [->|]; rewrite Hg; simpl; eexists; (split; [done|congruence]). }
  intros Hs Hg Ho.
  destruct Hs as [p st w|p st e He|p st pid g2 f He Hp|p st g2|p st g2 gen2 Hg2 Hr|p st pid g2 o2 Hp Hd
                 |p st pid g2 Hp|p st pid g2 Hp]; simpl in *.
  - unfold Start, settleStoppedLocked. repeat case_match; simpl; eauto;
      (eexists; split; [by apply lookup_app_l_Some|done]).
  - unfold stop_enter. case_match; simpl; eauto.
  - unfold stop_enter. case_match; simpl; eauto.
  - by apply Hupd.
  - apply Hupd; [done| |done]. simpl. by case_match.
  - apply Hupd; [done| |done]. by rewrite Ho.
  - unfold stop_clear. simpl. case_match; simpl; eauto.
  - eauto.
Qed.

(** (C24) The shutdown repair of a generation runs only after all its workers
    have exited and at most once: when an outcome is recorded none of its
    workers is alive, and in every continuation the outcome stays what it was
    (so all [Stop] callers report the same result) and no worker of that
    generation ever runs again. *)
Theorem stop_repair_once_after_workers s s' g gen o :
  rtc pool_step ps_init s → gens (ps_pool s) !! g = Some gen → genOutcome gen = Some o →
  rtc pool_step s s' →
  ∃ gen', gens (ps_pool s') !! g = Some gen' ∧ genOutcome gen' = Some o ∧ ¬ alive (ps_pool s') g.
Proof.
  intros Hinit Hg Ho Hs.
  assert (∃ gen', gens (ps_pool s') !! g = Some gen' ∧ genOutcome gen' = Some o) as (gen' & Hg' & Ho').
  { clear Hinit. revert gen Hg Ho. induction Hs as [|s s1 s' Hst Hs IH]; [eauto|]. intros gen Hg Ho.
    destruct (gen_outcome_step _ _ _ _ _ Hst Hg Ho) as (gen1 & ? & ?). eauto. }
  exists gen'. split_and!; [done|done|]. intros (gen2 & Hg2 & Hr).
  assert (gen2 = gen') as -> by congruence.
  assert (rtc pool_step ps_init s') as Hi%pool_inv_reachable by (by etrans).
  assert (genDone gen' = true) as Hd by (eapply (pi_outcome _ Hi); [done|by eexists]).
  apply (pi_done _ Hi _ _ Hg') in Hd. lia.
Qed.

(** A run: start two workers, stop, both exit, repair. *)
Definition ex_repair : StopOutcome := mkStopOutcome true true 3 None.

Lemma ex_stop_run :
  ∃ s, rtc pool_step ps_init s ∧
    gens (ps_pool s) = [mkGen true true 0 (Some ex_repair)] ∧ generation (ps_pool s) = None.
Proof.
  eexists. split.
  { eapply rtc_l; [apply (p_start _ _ 2)|]. cbn.
    eapply rtc_l; [apply (p_stop_wait _ _ 0 0 true); reflexivity|]. cbn.
    eapply rtc_l; [apply (p_cancel _ _ 0)|]. cbn.
    eapply rtc_l; [eapply (p_worker_exit _ _ 0); [reflexivity|vm_compute; reflexivity]|]. cbn.
    eapply rtc_l; [eapply (p_worker_exit _ _ 0); [reflexivity|vm_compute; reflexivity]|]. cbn.
    eapply rtc_l; [apply (p_repair _ _ 0 0 ex_repair); reflexivity|]. cbn.
    eapply rtc_l; [apply (p_clear _ _ 0 0); reflexivity|]. apply rtc_refl. }
  by split.
Qed.

Lemma stop_repair_once_after_workers_witness :
  ∃ s gen', rtc pool_step ps_init s ∧ gens (ps_pool (mkPstate (Start (ps_pool s) 4).1 (ps_stops s))) !! 0 = Some gen' ∧
    genOutcome gen' = Some ex_repair.
Proof.
  destruct ex_stop_run as ([p st] & Hs & Hg & Hgen). exists (mkPstate p st).
  destruct (stop_repair_once_after_workers (mkPstate p st) (mkPstate (Start p 4).1 st) 0
    (mkGen true true 0 (Some ex_repair)) ex_repair Hs) as (gen' & H1 & H2 & _).
  - rewrite Hg. reflexivity.
  - reflexivity.
  - apply rtc_once, (p_start p st 4).
  - exists gen'. split; [exact Hs|]. split; [exact H1|exact H2].
Defined.

Lemma pool_single_generation_witness :
  ∃ s, rtc pool_step ps_init s ∧ alive (ps_pool s) 0 ∧ 0 = 0 ∧ generation (ps_pool s) = Some 0.
Proof.
  assert (rtc pool_step ps_init (mkPstate (Start NewWorkerPool 2).1 ∅)) as Hs
    by (apply rtc_once, (p_start NewWorkerPool ∅ 2)).
  assert (alive (Start NewWorkerPool 2).1 0) as Ha by (eexists; split; [reflexivity|vm_compute; reflexivity]).
  exists (mkPstate (Start NewWorkerPool 2).1 ∅). split; [exact Hs|]. split; [exact Ha|].
  exact (pool_single_generation _ 0 0 Hs Ha Ha).
Defined.

End Lifecycle.

(** ** What a worker does with an item *)
Module Worker.

(** [errors.As] targets. *)
Definition as_validation (e : error) : option (list InvalidParam) :=
  match e with EValidationError ps => Some ps | _ => None end.

Definition toJobInvalidParams (ps : list InvalidParam) : list JobInvalidParam :=
  foldl (λ out v, out ++ [mkJobInvalidParam (Name v) (Reason v)]) [] ps.

Definition ToJobProblem (err : error) : JobProblem :=
  if (errors_Is err ContextCanceled || errors_Is err ContextDeadlineExceeded)%bool
  then JobService.ShutdownJobProblem
  else
    match errors_As as_validation err with
    | Some ps => mkJobProblem "" "validation failed" 422 "validation failed" "" "" (toJobInvalidParams ps)
    | None =>
        if errors_Is err ErrConflict then mkJobProblem "" "conflict" 409 "conflict" "" "" []
        else if errors_Is err ErrForbidden then mkJobProblem "" "forbidden" 403 "forbidden" "" "" []
        else mkJobProblem "" "internal server error" 500 "internal server error" "" "" []
    end.

(** A context as far as the repair code looks at it. *)
Record context := mkContext { deadline : option Z; ctxErr : option error }.

(** [context.WithDeadline(context.WithoutCancel(ctx), d)]: cancellation of the
    parent is dropped, its deadline only caps the new one. *)
Definition newRepairContext (repairTimeout now : Z) (ctx : context) : context :=
  let timeout := if (repairTimeout <=? 0)%Z then defaultStopRepairTimeout else repairTimeout in
  let d := (now + timeout)%Z in
  let d := match deadline ctx with
           | Some parent => if (parent <? d)%Z then parent else d
           | None => d
           end in
  mkContext (Some d) (if (d <=? now)%Z then Some (ESentinel ContextDeadlineExceeded) else None).

(** The metrics interface [metrics.JobsObserver], as counters. *)
Record observer := mkObserver {
  obsRunning : Z; obsSucceeded : Z; obsFailed : Z; obsProcessed : Z }.

Inductive loop_ctl : Type := LoopContinue | LoopReturn.

Section worker.
  Context {SJ SU : Type} `{!JobRepository SJ} `{!UserRepository SU}.

Record world := mkWorld { w_jobs : SJ; w_users : SU; w_hub : Hub; w_obs : observer }.

(** What a worker meets while it processes one item: whether its context is
    cancelled when the item arrives, what the storages answer, what other
    goroutines do inside and between the service calls, and the clock.  The
    number is the position of the call in the loop body. *)
Record worker_env := mkWorkerEnv {
  we_cancelled : bool;
  we_get : nat → repo_env;
  we_apply : nat → repo_env;
  we_exists : user_env;
  we_save : user_env;
  we_job_mid : nat → SJ → SJ;
  we_user_mid : SU → SU;
  we_between : nat → world → world;
  we_clock : nat → Z;
}.

Definition set_jobs (s : SJ) (w : world) : world := mkWorld s (w_users w) (w_hub w) (w_obs w).
Definition set_users (u : SU) (w : world) : world := mkWorld (w_jobs w) u (w_hub w) (w_obs w).
Definition set_hub (h : Hub) (w : world) : world := mkWorld (w_jobs w) (w_users w) h (w_obs w).
Definition set_obs (f : observer → observer) (w : world) : world :=
  mkWorld (w_jobs w) (w_users w) (w_hub w) (f (w_obs w)).

Definition IncRunning (o : observer) : observer :=
  mkObserver (obsRunning o + 1) (obsSucceeded o) (obsFailed o) (obsProcessed o).
Definition IncSucceeded (o : observer) : observer :=
  mkObserver (obsRunning o) (obsSucceeded o + 1) (obsFailed o) (obsProcessed o).
Definition IncFailed (o : observer) : observer :=
  mkObserver (obsRunning o) (obsSucceeded o) (obsFailed o + 1) (obsProcessed o).
Definition ObserveProcessing (o : observer) : observer :=
  mkObserver (obsRunning o) (obsSucceeded o) (obsFailed o) (obsProcessed o + 1).

(** [None] is a panic or a deadlock in the hub. *)
Definition publish (id : Z) (ev : Event) (w : world) : option world :=
  (λ h, set_hub h w) <$> Publish (w_hub w) id ev.

Definition markJobFailed (e : worker_env) (n : nat) (w : world) (id : Z) (problem : JobProblem)
  : option (world * option error) :=
  match JobService.SetFailed (we_get e n) (we_apply e n) (we_job_mid e n) (w_jobs w) id problem with
  | (s, Some err) => Some (set_jobs s w, Some err)
  | (s, None) =>
      match publish id (mkEvent JobFailed id (we_clock e n) (DataJobProblem problem)) (set_jobs s w) with
      | None => None
      | Some w => Some (w, None)
      end
  end.

(** After the job was set running: create the user and record the result. *)
Definition run_payload (e : worker_env) (w : world) (item : WorkItem) : option (world * loop_ctl) :=
  match UserService.CreateUser (we_exists e) (we_save e) (we_user_mid e) (w_users w) (Payload item) with
  | (u, Err userErr) =>
      match markJobFailed e 3 (we_between e 2 (set_users u w)) (JobID item) (ToJobProblem userErr) with
      | None => None
      | Some (w, Some _) => Some (w, LoopContinue)
      | Some (w, None) => Some (set_obs (λ o, ObserveProcessing (IncFailed o)) w, LoopContinue)
      end
  | (u, Ok user) =>
      let res := mkJobResult (dID user) in
      let w := we_between e 2 (set_users u w) in
      match JobService.SetSucceeded (we_get e 4) (we_apply e 4) (we_job_mid e 4) (w_jobs w)
              (JobID item) res with
      | (s, Some _) => Some (set_jobs s w, LoopContinue)
      | (s, None) =>
          match publish (JobID item) (mkEvent JobSucceeded (JobID item) (we_clock e 4) (DataJobResult res))
                  (set_obs IncSucceeded (set_jobs s w)) with
          | None => None
          | Some w => Some (set_obs ObserveProcessing w, LoopContinue)
          end
      end
  end.

(** The [case item := <-ch] branch of the loop. *)
Definition process_item (e : worker_env) (w : world) (item : WorkItem) : option (world * loop_ctl) :=
  if we_cancelled e then
    match markJobFailed e 0 w (JobID item) JobService.ShutdownJobProblem with
    | None => None
    | Some (w, _) => Some (w, LoopReturn)
    end
  else
    match JobService.SetRunning (we_get e 1) (we_apply e 1) (we_job_mid e 1) (w_jobs w) (JobID item) with
    | (s, Some _) => Some (set_jobs s w, LoopContinue)
    | (s, None) =>
        match publish (JobID item) (mkEvent JobRunning (JobID item) (we_clock e 1) DataNil)
                (set_obs IncRunning (set_jobs s w)) with
        | None => None
        | Some w => run_payload e (we_between e 1 w) item
        end
    end.

(** What the worker's [select] yields, one element per iteration. *)
Inductive loop_event : Type :=
| CtxDone
| ChanClosed
| GotItem (e : worker_env) (item : WorkItem).

(** The loop over the first selections it makes; [true] when it has returned. *)
Fixpoint workerLoop (evs : list loop_event) (w : world) : option (world * bool) :=
  match evs with
  | [] => Some (w, false)
  | CtxDone :: _ | ChanClosed :: _ => Some (w, true)
  | GotItem e item :: evs =>
      match process_item e w item with
      | None => None
      | Some (w, LoopReturn) => Some (w, true)
      | Some (w, LoopContinue) => workerLoop evs w
      end
  end.

Definition repairActiveOnShutdown (env : repo_env) (s : SJ) : SJ * StopOutcome :=
  match JobService.FailActiveOnShutdown env s with
  | (s, (_, Some e)) => (s, mkStopOutcome true true 0 (Some e))
  | (s, (count, None)) => (s, mkStopOutcome true true count None)
  end.
End worker.
Arguments world : clear implicits.
Arguments worker_env SJ SU {_ _}.
Arguments loop_event SJ SU {_ _}.

(** The repair context survives cancellation of the worker's context: it
    has a deadline no later than the caller's own and at most the repair
    timeout away (two seconds when none is configured), and it is live whenever
    the caller's deadline has not passed, even if the caller was cancelled. *)
Theorem newRepairContext_bounded repairTimeout now ctx :
  let ctx' := newRepairContext repairTimeout now ctx in
  ∃ d, deadline ctx' = Some d ∧
    (d <= now + (if (0 <? repairTimeout)%Z then repairTimeout else 2 * 10 ^ 9))%Z ∧
    (∀ p, deadline ctx = Some p → d <= p)%Z ∧
    ((∀ p, deadline ctx = Some p → now < p)%Z → ctxErr ctx' = None).
Proof.
  unfold newRepairContext, defaultStopRepairTimeout. cbv zeta.
  set (t := if (repairTimeout <=? 0)%Z then _ else _).
  assert (0 < t ∧ t = if (0 <? repairTimeout) then repairTimeout else 2 * 10 ^ 9)%Z as [Ht <-].
  { unfold t. destruct (Z.leb_spec repairTimeout 0), (Z.ltb_spec 0 repairTimeout); lia. }
  clearbody t. cbn [deadline ctxErr]. eexists. split; [done|].
  destruct (deadline ctx) as [p|]; [destruct (Z.ltb_spec p (now + t)%Z)|];
    (split_and!; [lia|intros p' Hp'; simplify_eq; try lia|]); intros Hp;
    try specialize (Hp _ eq_refl); case_match; reflect_bools; done || lia.
Qed.

(** *** One item over the in-memory storages *)
Section memory.
Context (fold : string → string).
#[local] Instance users_repo : UserRepository Memory.MemoryUserRepository :=
  Memory.memory_UserRepository fold.
#[local] Instance users_laws : UserRepositoryLaws Memory.MemoryUserRepository :=
  Memory.memory_users_laws fold.

(** An undisturbed worker. *)
Definition calm (clock : nat → Z) : worker_env MemoryJobRepository Memory.MemoryUserRepository :=
  mkWorkerEnv false (λ _, tt) (λ _, tt) tt tt (λ _ s, s) (λ u, u) (λ _ w, w) clock.

(** Without interference the service's pre-check changes nothing. *)
Lemma transition_memory s id i f :
  (JobTransitionFor i).2 = true →
  JobService.transition JobService.no_env (λ s, s) s id i (λ s, MemoryJobRepo.transition s id i f)
  = (mkMemoryJobRepository (cas (jobs s) id i f).1 (MemoryJobRepo.nextID s), (cas (jobs s) id i f).2).
Proof.
  intros Hi. rewrite -(transition_cas s id i f Hi).
  unfold JobService.transition, MemoryJobRepo.transition. simpl. unfold MemoryJobRepo.GetByID.
  destruct (jobs s !! id) as [j|] eqn:Hj; [|done]. rewrite cloneJob_id.
  destruct (JobTransitionFor i) as [spec ok] eqn:Hs. simpl in Hi. subst ok. simpl.
  destruct (CanTransitionJob (Status j) i); done.
Qed.

Lemma calm_SetRunning s id :
  JobService.SetRunning JobService.no_env JobService.no_env (λ s, s) s id =
    (mkMemoryJobRepository (cas (jobs s) id JobTransitionStart apply_running).1 (MemoryJobRepo.nextID s),
     (cas (jobs s) id JobTransitionStart apply_running).2).
Proof. by apply transition_memory. Qed.
Lemma calm_SetSucceeded s id r :
  JobService.SetSucceeded JobService.no_env JobService.no_env (λ s, s) s id r =
    (mkMemoryJobRepository (cas (jobs s) id JobTransitionSucceed (apply_succeeded r)).1 (MemoryJobRepo.nextID s),
     (cas (jobs s) id JobTransitionSucceed (apply_succeeded r)).2).
Proof. by apply transition_memory. Qed.
Lemma calm_SetFailed s id p :
  JobService.SetFailed JobService.no_env JobService.no_env (λ s, s) s id p =
    (mkMemoryJobRepository (cas (jobs s) id JobTransitionFail (apply_failed p)).1 (MemoryJobRepo.nextID s),
     (cas (jobs s) id JobTransitionFail (apply_failed p)).2).
Proof. rewrite -(cloneJobProblem_id p). by apply transition_memory. Qed.

Definition conflict_problem : JobProblem := mkJobProblem "" "conflict" 409 "conflict" "" "" [].

(** The user a successful item creates. *)
Definition created (u : Memory.MemoryUserRepository) (i : CreateUserInput) : User :=
  mkUser (Memory.nextID u) (inName i) (inAge i) (inEmail i) 1.

Lemma CreateUser_calm u i :
  Memory.memory_users_ok fold u → (Memory.nextID u < int_max)%Z →
  UserService.CreateUser (S := Memory.MemoryUserRepository) tt tt (λ u, u) u i =
    if Memory.ExistsByEmail fold u (inEmail i)
    then (u, Err (EWrap "email already exists" (ESentinel ErrConflict)))
    else (Memory.mkMemoryUserRepository (<[Memory.nextID u := created u i]> (Memory.users u))
            (Memory.nextID u + 1),
          Ok (mkUserDTO (Memory.nextID u) (inName i) (inEmail i))).
Proof.
  intros Hok Hroom. unfold UserService.CreateUser. simpl.
  destruct (Memory.ExistsByEmail fold u (inEmail i)) eqn:He; [done|].
  rewrite Memory.Save_new //. rewrite -Memory.ExistsByEmail_taken /=. congruence.
Qed.

(** Two events of a job published one after the other: what the history and the
    channels of an open hub owe to the log. *)
Lemma publish_two log h id ev1 ev2 : hub_inv log h →
  ∃ h1 h2, Publish h id ev1 = Some h1 ∧ Publish h1 id ev2 = Some h2 ∧
    hub_inv (if closed h then log else <[id := default [] (log !! id) ++ [ev1; ev2]]> log) h2.
Proof.
  intros Hh. destruct (Publish_inv log h id ev1 Hh) as (h1 & Hp1 & _ & Hh1).
  destruct (Publish_inv _ h1 id ev2 Hh1) as (h2 & Hp2 & _ & Hh2).
  exists h1, h2. split_and!; [done|done|].
  assert (closed h1 = closed h) as Hc1.
  { unfold Publish in Hp1. destruct (closed h) eqn:E; [by simplify_eq|].
    destruct (foldl _ _ _) as [[? ?]|]; simplify_eq/=. done. }
  rewrite Hc1 in Hh2. destruct (closed h); [done|].
  by rewrite lookup_insert_eq insert_insert_eq /= -app_assoc in Hh2.
Qed.

(** (C31) An undisturbed worker finishes every queued job it takes, without
    blocking: if the address is free the user is created and the job succeeds
    with that user's id; otherwise no user is stored and the job fails with the
    409 conflict problem.  No other job changes.  The worker publishes that the
    job runs and then its result - the same user id or problem - and nothing
    else: these two events, in this order, are what the history and the
    subscribers of an open hub gain.  The metrics count one job run, one
    processed, and one succeeded or failed. *)
Theorem process_item_terminal clock log w item j :
  jobs (w_jobs w) !! JobID item = Some j → Status j = JobQueued →
  hub_inv log (w_hub w) → Memory.memory_users_ok fold (w_users w) →
  (Memory.nextID (w_users w) < int_max)%Z →
  let id := JobID item in
  ∃ w' result, process_item (calm clock) w item = Some (w', LoopContinue) ∧
    (∀ id', id' ≠ id → jobs (w_jobs w') !! id' = jobs (w_jobs w) !! id') ∧
    (let running := mkEvent "running" id (clock 1) DataNil in
     (∃ h1, Publish (w_hub w) id running = Some h1 ∧ Publish h1 id result = Some (w_hub w')) ∧
     hub_inv (if closed (w_hub w) then log
              else <[id := default [] (log !! id) ++ [running; result]]> log) (w_hub w')) ∧
    let o := w_obs w in
    if Memory.ExistsByEmail fold (w_users w) (inEmail (Payload item)) then
      jobs (w_jobs w') !! id = Some (apply_failed conflict_problem j) ∧
      result = mkEvent "failed" id (clock 3) (DataJobProblem conflict_problem) ∧
      w_users w' = w_users w ∧
      w_obs w' = mkObserver (obsRunning o + 1) (obsSucceeded o) (obsFailed o + 1) (obsProcessed o + 1)
    else
      let user := Memory.nextID (w_users w) in
      jobs (w_jobs w') !! id = Some (apply_succeeded (mkJobResult user) j) ∧
      result = mkEvent "succeeded" id (clock 4) (DataJobResult (mkJobResult user)) ∧
      Memory.GetByID (w_users w') user = Ok (created (w_users w) (Payload item)) ∧
      w_obs w' = mkObserver (obsRunning o + 1) (obsSucceeded o + 1) (obsFailed o) (obsProcessed o + 1).
Proof.
  intros Hj Hq Hhub Husers Hroom id. unfold process_item, run_payload, markJobFailed, publish.
  cbn [we_cancelled calm we_get we_apply we_exists we_save we_job_mid we_user_mid we_between we_clock].
  rewrite calm_SetRunning (cas_allowed _ _ _ _ _ Hj) ?Hq //=. fold id.
  set (running := mkEvent JobRunning id (clock 1) DataNil).
  destruct (Memory.ExistsByEmail fold (w_users w) (inEmail (Payload item))) eqn:He.
  - set (result := mkEvent JobFailed id (clock 3) (DataJobProblem conflict_problem)).
    destruct (publish_two log (w_hub w) id running result Hhub) as (h1 & h2 & Hp1 & Hp2 & Hinv).
    rewrite Hp1 /= CreateUser_calm // He.
    rewrite calm_SetFailed (cas_allowed _ _ _ _ (apply_running j)) ?lookup_insert_eq //=.
    change (mkEvent JobFailed _ _ _) with result. rewrite Hp2 /=. eexists _, result. split_and!; [done| |by eauto|done| |done..]; simpl.
    + intros id' Hne. by rewrite !lookup_insert_ne.
    + by rewrite lookup_insert_eq.
  - set (result := mkEvent JobSucceeded id (clock 4) (DataJobResult (mkJobResult (Memory.nextID (w_users w))))).
    destruct (publish_two log (w_hub w) id running result Hhub) as (h1 & h2 & Hp1 & Hp2 & Hinv).
    rewrite Hp1 /= CreateUser_calm // He.
    rewrite calm_SetSucceeded (cas_allowed _ _ _ _ (apply_running j)) ?lookup_insert_eq //=.
    change (mkEvent JobSucceeded _ _ _) with result. rewrite Hp2 /=. eexists _, result. split_and!; [done| |by eauto|done| |done| |done]; simpl.
    + intros id' Hne. by rewrite !lookup_insert_ne.
    + by rewrite lookup_insert_eq.
    + unfold Memory.GetByID. simpl. by rewrite lookup_insert_eq.
Qed.
End memory.

Definition ex_world : world MemoryJobRepository Memory.MemoryUserRepository :=
  mkWorld JobService.race_repo Memory.NewMemoryUserRepository ex_hub (mkObserver 0 0 0 0).
Definition ex_work : WorkItem := mkWorkItem 1 (mkCreateUserInput "Ann" 30 "ann@x.io").

Lemma process_item_terminal_witness :
  ∃ w', process_item (calm Memory.ex_fold (λ _, 0%Z)) ex_world ex_work = Some (w', LoopContinue) ∧
    jobs (w_jobs w') !! 1%Z =
      Some (apply_succeeded (mkJobResult 1) (mkJob 1 JobQueued None None 7)) ∧
    Memory.GetByID (w_users w') 1 = Ok (mkUser 1 "Ann" 30 "ann@x.io" 1) ∧
    history (w_hub w') !! 1%Z =
      Some [mkEvent "running" 1 0 DataNil; mkEvent "succeeded" 1 0 (DataJobResult (mkJobResult 1))].
Proof.
  destruct (process_item_terminal Memory.ex_fold (λ _, 0%Z) ∅ ex_world ex_work
    (mkJob 1 JobQueued None None 7)) as (w' & result & Hw & _ & [_ Hh] & Hj & Hr & Hu & _).
  - vm_compute. reflexivity.
  - reflexivity.
  - apply (NewHub_inv 2 ex_hub eq_refl).
  - split; [|vm_compute; intuition congruence|].
    + intros i u Hu. vm_compute in Hu. discriminate Hu.
    + intros i k u v Hu. vm_compute in Hu. discriminate Hu.
  - vm_compute. reflexivity.
  - exists w'. split; [exact Hw|]. split; [exact Hj|]. split; [exact Hu|].
    assert (Hs := f_equal (λ x, from_option (λ p : world _ _ * loop_ctl, Some (history (w_hub p.1) !! 1%Z)) None x) Hw).
    vm_compute in Hs. injection Hs as Hs. symmetry. exact Hs.
Defined.

End Worker.
