(* ===== verification/GoStrings.v ===== *)
(** * Go string operations

    The parts of [strings] and [strconv] the service uses, on Rocq strings read
    as byte sequences (a Go string is a byte sequence, normally UTF-8).

    Case mapping: the Unicode tables are restricted to the ASCII letters and to
    the non-ASCII letters whose mapping is an ASCII letter (the Kelvin sign,
    dotted capital and dotless small I, and long s); all other non-ASCII letters are left alone.
    No other letter maps to ASCII, so comparing the result with an ASCII
    constant, which is all the service does with it, is exact. *)
From Stdlib Require Import Ascii.
From S2P Require Import Prelude.

Definition bytes := list ascii.
Definition to_bytes (s : string) : bytes := String.list_ascii_of_string s.
Definition of_bytes (b : bytes) : string := String.string_of_list_ascii b.
Definition code (c : ascii) : N := N_of_ascii c.
Definition chr (n : N) : ascii := ascii_of_N n.
Definition ceqb (a b : ascii) : bool := Ascii.eqb a b.

Lemma to_of_bytes b : to_bytes (of_bytes b) = b.
Proof. apply String.list_ascii_of_string_of_list_ascii. Qed.
Lemma of_to_bytes s : of_bytes (to_bytes s) = s.
Proof. apply String.string_of_list_ascii_of_string. Qed.

(** ** Prefixes *)
Fixpoint strip_prefix (p b : bytes) : option bytes :=
  match p, b with
  | [], _ => Some b
  | x :: p, y :: b => if ceqb x y then strip_prefix p b else None
  | _ :: _, [] => None
  end.

Lemma strip_prefix_Some p b r : strip_prefix p b = Some r ↔ b = p ++ r.
Proof.
  revert b. induction p as [|x p IH]; intros b; simpl; [naive_solver|].
  destruct b as [|y b]; [naive_solver|]. unfold ceqb.
  destruct (Ascii.eqb_spec x y) as [->|]; [rewrite IH; naive_solver|naive_solver].
Qed.

Definition HasPrefix (s p : string) : bool :=
  match strip_prefix (to_bytes p) (to_bytes s) with Some _ => true | None => false end.
Definition HasSuffix (s p : string) : bool :=
  match strip_prefix (rev (to_bytes p)) (rev (to_bytes s)) with Some _ => true | None => false end.
Definition TrimPrefix (s p : string) : string :=
  match strip_prefix (to_bytes p) (to_bytes s) with Some r => of_bytes r | None => s end.

(** ** [TrimSpace]

    The encodings of the runes [unicode.IsSpace] accepts. *)
Definition space_runes : list bytes :=
  map (map chr)
    ([[9]; [10]; [11]; [12]; [13]; [32]; [194; 133]; [194; 160]; [225; 154; 128];
      [226; 128; 168]; [226; 128; 169]; [226; 128; 175]; [226; 129; 159]; [227; 128; 128]]%N
     ++ map (λ k, [226; 128; 128 + k]%N) [0; 1; 2; 3; 4; 5; 6; 7; 8; 9; 10]%N).

Fixpoint strip_any (ps : list bytes) (b : bytes) : option bytes :=
  match ps with
  | [] => None
  | p :: ps => match strip_prefix p b with Some r => Some r | None => strip_any ps b end
  end.

(** Strips leading members of [ps]; the fuel is the length of the input, and
    every member is non-empty. *)
Fixpoint trim_left (ps : list bytes) (fuel : nat) (b : bytes) : bytes :=
  match fuel with
  | O => b
  | S fuel => match strip_any ps b with Some r => trim_left ps fuel r | None => b end
  end.

Definition trim_bytes (b : bytes) : bytes :=
  let b := trim_left space_runes (length b) b in
  rev (trim_left (map (@rev _) space_runes) (length b) (rev b)).

Definition TrimSpace (s : string) : string := of_bytes (trim_bytes (to_bytes s)).

Lemma strip_any_None ps b : strip_any ps b = None ↔ ∀ p, p ∈ ps → strip_prefix p b = None.
Proof.
  induction ps as [|p ps IH]; simpl.
  - split; [intros _ p ?%elem_of_nil|]; done.
  - destruct (strip_prefix p b) eqn:E.
    + split; [done|]. intros H. rewrite (H p) in E; [left|done].
    + rewrite IH. split; [intros H q [->|?]%elem_of_cons; auto|intros H q ?; apply H; by right].
Qed.

Lemma strip_any_Some ps b r : strip_any ps b = Some r → ∃ p, p ∈ ps ∧ b = p ++ r.
Proof.
  induction ps as [|p ps IH]; simpl; [done|]. destruct (strip_prefix p b) as [r'|] eqn:E.
  - intros [= ->]. apply strip_prefix_Some in E. exists p. split; [left|done].
  - intros (q & ? & ?)%IH. exists q. split; [by right|done].
Qed.

(** Nothing is left to strip, and what was stripped is a prefix. *)
Lemma trim_left_spec ps fuel b :
  (∀ p, p ∈ ps → p ≠ []) → length b <= fuel →
  strip_any ps (trim_left ps fuel b) = None ∧ ∃ pre, b = pre ++ trim_left ps fuel b.
Proof.
  intros Hps. revert b. induction fuel as [|fuel IH]; intros b Hlen.
  - destruct b; [|simpl in Hlen; lia]. simpl. split; [|by exists []].
    apply strip_any_None. intros p Hp. destruct p; [by destruct (Hps [])|done].
  - simpl. destruct (strip_any ps b) as [r|] eqn:E; [|split; [done|by exists []]].
    apply strip_any_Some in E as (p & Hp & ->). apply Hps in Hp as Hne.
    destruct (IH r) as [? [pre Hpre]].
    { rewrite length_app in Hlen. destruct p; [done|simpl in *; lia]. }
    split; [done|]. exists (p ++ pre). by rewrite -app_assoc -Hpre.
Qed.

Lemma trim_left_id ps fuel b : strip_any ps b = None → trim_left ps fuel b = b.
Proof. intros H. destruct fuel; simpl; by rewrite ?H. Qed.

(** ** Case *)
Definition is_upper (c : ascii) : bool := ((65 <=? code c)%N && (code c <=? 90)%N)%bool.
Definition is_lower (c : ascii) : bool := ((97 <=? code c)%N && (code c <=? 122)%N)%bool.
Definition lower (c : ascii) : ascii := if is_upper c then chr (code c + 32) else c.
Definition upper (c : ascii) : ascii := if is_lower c then chr (code c - 32) else c.

(** U+212A is E2 84 AA, U+0130 is C4 B0, U+017F is C5 BF. *)
Fixpoint lower_bytes (b : bytes) : bytes :=
  match b with
  | [] => []
  | x :: rest =>
      match rest with
      | y :: ((z :: rest') as rest1) =>
          if (ceqb x (chr 226) && ceqb y (chr 132) && ceqb z (chr 170))%bool
          then chr 107 :: lower_bytes rest'
          else if (ceqb x (chr 196) && ceqb y (chr 176))%bool
          then chr 105 :: lower_bytes rest1
          else lower x :: lower_bytes rest
      | [y] => if (ceqb x (chr 196) && ceqb y (chr 176))%bool then [chr 105]
               else lower x :: lower_bytes rest
      | [] => [lower x]
      end
  end.
Definition ToLower (s : string) : string := of_bytes (lower_bytes (to_bytes s)).

Fixpoint fold_bytes (b : bytes) : bytes :=
  match b with
  | [] => []
  | x :: rest =>
      match rest with
      | y :: ((z :: rest') as rest1) =>
          if (ceqb x (chr 226) && ceqb y (chr 132) && ceqb z (chr 170))%bool
          then chr 107 :: fold_bytes rest'
          else if (ceqb x (chr 197) && ceqb y (chr 191))%bool
          then chr 115 :: fold_bytes rest1
          else lower x :: fold_bytes rest
      | [y] => if (ceqb x (chr 197) && ceqb y (chr 191))%bool then [chr 115]
               else lower x :: fold_bytes rest
      | [] => [lower x]
      end
  end.
Definition EqualFold (a b : string) : bool :=
  streqb (of_bytes (fold_bytes (to_bytes a))) (of_bytes (fold_bytes (to_bytes b))).

(** U+017F maps to S and U+0131 (C4 B1) to I. *)
Fixpoint upper_bytes (b : bytes) : bytes :=
  match b with
  | [] => []
  | x :: rest =>
      match rest with
      | y :: rest' =>
          if (ceqb x (chr 197) && ceqb y (chr 191))%bool then chr 83 :: upper_bytes rest'
          else if (ceqb x (chr 196) && ceqb y (chr 177))%bool then chr 73 :: upper_bytes rest'
          else upper x :: upper_bytes rest
      | [] => [upper x]
      end
  end.
Definition ToUpper (s : string) : string := of_bytes (upper_bytes (to_bytes s)).

Definition Join (l : list string) (sep : string) : string := String.concat sep l.

(** ** Splitting and searching *)
Fixpoint split_bytes (sep : ascii) (b : bytes) : list bytes :=
  match b with
  | [] => [[]]
  | c :: b =>
      if ceqb c sep then [] :: split_bytes sep b
      else match split_bytes sep b with
           | [] => [[c]]
           | p :: ps => (c :: p) :: ps
           end
  end.
(** [strings.Split(s, sep)] for a one-byte separator. *)
Definition Split (s : string) (sep : ascii) : list string := map of_bytes (split_bytes sep (to_bytes s)).

Fixpoint IndexByte_from (i : Z) (b : bytes) (c : ascii) : Z :=
  match b with
  | [] => (-1)%Z
  | x :: b => if ceqb x c then i else IndexByte_from (i + 1)%Z b c
  end.
Definition IndexByte (s : string) (c : ascii) : Z := IndexByte_from 0 (to_bytes s) c.
Definition LastIndexByte (s : string) (c : ascii) : Z :=
  let i := IndexByte_from 0 (rev (to_bytes s)) c in
  if (i <? 0)%Z then (-1)%Z else (Z.of_nat (String.length s) - 1 - i)%Z.

Definition ContainsByte (s : string) (c : ascii) : bool := (0 <=? IndexByte s c)%Z.

(** [s[i:]] and [s[:i]] for an index in range. *)
Definition slice_from (s : string) (i : Z) : string := of_bytes (drop (Z.to_nat i) (to_bytes s)).
Definition slice_to (s : string) (i : Z) : string := of_bytes (take (Z.to_nat i) (to_bytes s)).

(** [strings.Fields] for ASCII white space (header values). *)
Fixpoint fields_bytes (b acc : bytes) : list bytes :=
  match b with
  | [] => match acc with [] => [] | _ => [rev acc] end
  | c :: b =>
      if existsb (ceqb c) (map chr [9; 10; 11; 12; 13; 32]%N)
      then match acc with [] => fields_bytes b [] | _ => rev acc :: fields_bytes b [] end
      else fields_bytes b (c :: acc)
  end.
Definition Fields (s : string) : list string := map of_bytes (fields_bytes (to_bytes s) []).

(** ** Decimal integers *)
Definition digit (c : ascii) : option Z :=
  if ((48 <=? code c)%N && (code c <=? 57)%N)%bool then Some (Z.of_N (code c) - 48)%Z else None.

Fixpoint digits_acc (b : bytes) (acc : Z) : option Z :=
  match b with
  | [] => Some acc
  | c :: b => match digit c with Some d => digits_acc b (10 * acc + d)%Z | None => None end
  end.

(** [strconv.Atoi]/[ParseInt(s, 10, 64)]: an optional sign, at least one digit,
    and the value in range; any failure is an error. *)
Definition Atoi (s : string) : option Z :=
  let '(neg, b) :=
    match to_bytes s with
    | c :: b => if ceqb c "-"%char then (true, b)
                else if ceqb c "+"%char then (false, b) else (false, c :: b)
    | [] => (false, [])
    end in
  match b with
  | [] => None
  | _ =>
      match digits_acc b 0 with
      | None => None
      | Some n => let v := if (neg : bool) then (- n)%Z else n in
                  if decide (int64_ok v) then Some v else None
      end
  end.

(** [strconv.Itoa]/[FormatInt(n, 10)]. *)
Fixpoint digits_of (fuel : nat) (n : Z) (acc : bytes) : bytes :=
  match fuel with
  | O => acc
  | S fuel =>
      let acc := chr (Z.to_N (n mod 10) + 48) :: acc in
      if (n <? 10)%Z then acc else digits_of fuel (n / 10) acc
  end.
(** Twenty digits are enough for 64-bit values. *)
Definition Itoa (n : Z) : string :=
  of_bytes (if (n <? 0)%Z then "-"%char :: digits_of 20 (- n) [] else digits_of 20 n []).

Lemma digit_chr d : (0 <= d < 10)%Z → digit (chr (Z.to_N d + 48)) = Some d.
Proof.
  intros Hd. assert (d = 0 ∨ d = 1 ∨ d = 2 ∨ d = 3 ∨ d = 4 ∨ d = 5 ∨ d = 6 ∨ d = 7 ∨ d = 8 ∨ d = 9)%Z
    as Hcases by lia.
  repeat destruct Hcases as [->|Hcases]; subst; reflexivity.
Qed.

Definition all_digits (b : bytes) : Prop := Forall (λ c, is_Some (digit c)) b.

Lemma digits_of_spec fuel : ∀ n acc,
  (0 <= n < 10 ^ Z.of_nat fuel)%Z → fuel ≠ 0 → all_digits acc →
  digits_of fuel n acc ≠ [] ∧ all_digits (digits_of fuel n acc) ∧
  digits_acc (digits_of fuel n acc) 0 = digits_acc acc n.
Proof.
  induction fuel as [|fuel IH]; intros n acc Hn Hf Hacc; [done|].
  pose proof (Z.mod_pos_bound n 10 ltac:(lia)) as Hmod. cbn [digits_of].
  assert (all_digits (chr (Z.to_N (n mod 10) + 48) :: acc)) as Hacc'.
  { apply list.Forall_cons. split; [by rewrite digit_chr|done]. }
  destruct (Z.ltb_spec n 10).
  - split_and!; [done|done|]. cbn [digits_acc].
    rewrite digit_chr // Z.mod_small; [lia|]. f_equal.
  - rewrite Nat2Z.inj_succ Z.pow_succ_r in Hn; [lia|].
    destruct (IH (n / 10)%Z (chr (Z.to_N (n mod 10) + 48) :: acc)) as (? & ? & Hk); try done.
    { split; [apply Z.div_pos; lia|]. apply Z.div_lt_upper_bound; lia. }
    { intros ->. simpl in Hn. lia. }
    split_and!; [done|done|]. rewrite Hk. cbn [digits_acc]. rewrite digit_chr //. f_equal.
    pose proof (Z.div_mod n 10 ltac:(lia)). lia.
Qed.

Lemma digit_not_sign c : is_Some (digit c) → ceqb c "-"%char = false ∧ ceqb c "+"%char = false.
Proof.
  intros Hd. unfold ceqb. split; apply Ascii.eqb_neq; intros ->; by destruct Hd.
Qed.

(** Formatting and parsing are inverse on every 64-bit integer. *)
Lemma Atoi_Itoa n : int64_ok n → Atoi (Itoa n) = Some n.
Proof.
  intros Hn. pose proof Hn as Hr. unfold int64_ok, int_min, int_max in Hr.
  unfold Atoi, Itoa. rewrite to_of_bytes. destruct (Z.ltb_spec n 0).
  - destruct (digits_of_spec 20 (- n) []) as (Hne & _ & Hv); [simpl; lia|done|constructor|].
    cbn [ceqb]. rewrite (_ : ceqb "-" "-" = true) //.
    destruct (digits_of 20 (- n) []) as [|c b] eqn:E; [done|]. rewrite Hv. cbn [digits_acc].
    rewrite Z.opp_involutive decide_True //.
  - destruct (digits_of_spec 20 n []) as (Hne & Hd & Hv); [simpl; lia|done|constructor|].
    destruct (digits_of 20 n []) as [|c b] eqn:E; [done|].
    apply list.Forall_cons in Hd as [Hc _]. destruct (digit_not_sign c Hc) as [-> ->].
    rewrite Hv. cbn [digits_acc]. by rewrite decide_True.
Qed.

(** [strconv.Quote] (the verb [%q]): quotes and backslashes are escaped, the
    control characters by their Go escapes; non-ASCII text is kept. *)
Definition hex_digit (n : N) : ascii := if (n <? 10)%N then chr (48 + n) else chr (87 + n).
Definition quote_char (c : ascii) : bytes :=
  let bs := chr 92 in
  let n := code c in
  if (n =? 34)%N then [bs; c]
  else if (n =? 92)%N then [bs; c]
  else if (n =? 7)%N then [bs; "a"%char]
  else if (n =? 8)%N then [bs; "b"%char]
  else if (n =? 9)%N then [bs; "t"%char]
  else if (n =? 10)%N then [bs; "n"%char]
  else if (n =? 11)%N then [bs; "v"%char]
  else if (n =? 12)%N then [bs; "f"%char]
  else if (n =? 13)%N then [bs; "r"%char]
  else if ((n <? 32)%N || (n =? 127)%N)%bool
  then [bs; "x"%char; hex_digit (n / 16); hex_digit (n mod 16)]
  else [c].
Definition Quote (s : string) : string :=
  of_bytes (chr 34 :: ((to_bytes s ≫= quote_char) ++ [chr 34])).

(** ** Facts about searching *)
Lemma ceqb_eq a b : ceqb a b = true ↔ a = b.
Proof. apply Ascii.eqb_eq. Qed.
Lemma ceqb_neq a b : ceqb a b = false ↔ a ≠ b.
Proof. apply Ascii.eqb_neq. Qed.
Lemma ceqb_refl a : ceqb a a = true.
Proof. by apply ceqb_eq. Qed.

Lemma IndexByte_from_cases b c : ∀ i,
  (IndexByte_from i b c = (-1)%Z ∧ c ∉ b) ∨
  ∃ pre post, b = pre ++ c :: post ∧ c ∉ pre ∧ IndexByte_from i b c = (i + Z.of_nat (length pre))%Z.
Proof.
  induction b as [|x b IH]; intros i; simpl.
  - left. split; [done|apply not_elem_of_nil].
  - destruct (ceqb x c) eqn:E.
    + apply ceqb_eq in E as ->. right. exists [], b. split_and!; [done|apply not_elem_of_nil|simpl; lia].
    + apply ceqb_neq in E. destruct (IH (i + 1)%Z) as [[-> ?]|(pre & post & -> & ? & ->)].
      * left. split; [done|]. rewrite elem_of_cons. intuition congruence.
      * right. exists (x :: pre), post. split_and!; [done| |simpl; lia].
        rewrite elem_of_cons. intuition congruence.
Qed.

Lemma IndexByte_from_found b c pre post i :
  b = pre ++ c :: post → c ∉ pre → IndexByte_from i b c = (i + Z.of_nat (length pre))%Z.
Proof.
  intros ->. revert i. induction pre as [|x pre IH]; intros i Hn; simpl.
  - rewrite ceqb_refl. lia.
  - apply not_elem_of_cons in Hn as [Hx Hn]. rewrite (proj2 (ceqb_neq x c) (not_eq_sym Hx)) IH //. lia.
Qed.

Lemma IndexByte_from_absent b c i : c ∉ b → IndexByte_from i b c = (-1)%Z.
Proof.
  intros Hn. destruct (IndexByte_from_cases b c i) as [[? _]|(pre & post & -> & _)]; [done|].
  destruct Hn. set_solver.
Qed.

Lemma length_to_bytes s : length (to_bytes s) = String.length s.
Proof. unfold to_bytes. induction s; simpl; congruence. Qed.

Lemma of_bytes_nil b : streqb (of_bytes b) "" = true ↔ b = [].
Proof.
  rewrite streqb_eq. split; [|by intros ->]. intros H. rewrite -(to_of_bytes b) H. done.
Qed.

(** ** Trimming leaves text without outer white space alone *)
Lemma trim_bytes_id b :
  strip_any space_runes b = None → strip_any (map (@rev _) space_runes) (rev b) = None →
  trim_bytes b = b.
Proof. intros H1 H2. unfold trim_bytes. by rewrite !trim_left_id ?rev_involutive ?H2. Qed.

(** Text without outer white space. *)
Definition trimmed (b : bytes) : Prop :=
  strip_any space_runes b = None ∧ strip_any (map (@rev _) space_runes) (rev b) = None.

Lemma space_runes_nonempty p : p ∈ space_runes → p ≠ [].
Proof.
  intros Hp. apply list_elem_of_In in Hp.
  assert (Forall (λ p, p ≠ []) space_runes) as Hf by (repeat constructor; discriminate).
  rewrite list.Forall_forall in Hf. apply Hf. by apply list_elem_of_In.
Qed.

Lemma rev_space_runes_nonempty p : p ∈ map (@rev _) space_runes → p ≠ [].
Proof.
  intros Hp. apply list_elem_of_In, in_map_iff in Hp as (q & <- & Hq%list_elem_of_In).
  intros E. apply (space_runes_nonempty q Hq). by rewrite -(rev_involutive q) E.
Qed.

Lemma strip_any_prefix_None ps b post :
  strip_any ps (b ++ post) = None → strip_any ps b = None.
Proof.
  intros Hn. apply strip_any_None. intros p Hp. apply (proj1 (strip_any_None _ _)) with (p := p) in Hn; [|done].
  destruct (strip_prefix p b) as [r|] eqn:E; [|done]. apply strip_prefix_Some in E as ->.
  rewrite -app_assoc in Hn.
  assert (strip_prefix p (p ++ r ++ post) = Some (r ++ post)) as Hs by by apply strip_prefix_Some.
  congruence.
Qed.

(** Trimming cuts a piece out of the text, leaves no outer white space, and
    does nothing the second time. *)
Lemma trim_bytes_spec b : trimmed (trim_bytes b) ∧ ∃ pre post, b = pre ++ trim_bytes b ++ post.
Proof.
  unfold trimmed, trim_bytes. set (b1 := trim_left space_runes (length b) b).
  destruct (trim_left_spec space_runes (length b) b) as [H1 [pre Hpre]];
    [apply space_runes_nonempty|done|]. fold b1 in H1, Hpre.
  set (b2 := trim_left _ _ (rev b1)).
  destruct (trim_left_spec (map (@rev _) space_runes) (length b1) (rev b1)) as [H2 [post Hpost]];
    [apply rev_space_runes_nonempty|by rewrite length_rev|]. fold b2 in H2, Hpost.
  assert (b1 = rev b2 ++ rev post) as E1.
  { by rewrite -(rev_involutive b1) Hpost rev_app_distr. }
  rewrite rev_involutive. split; [split; [|done]|].
  - apply (strip_any_prefix_None _ _ (rev post)). by rewrite -E1.
  - exists pre, (rev post). by rewrite -E1.
Qed.

Lemma trim_bytes_trimmed b : trimmed b → trim_bytes b = b.
Proof. intros [??]. by apply trim_bytes_id. Qed.

Lemma TrimSpace_idemp s : TrimSpace (TrimSpace s) = TrimSpace s.
Proof.
  unfold TrimSpace. rewrite to_of_bytes trim_bytes_trimmed //. apply trim_bytes_spec.
Qed.

Lemma trim_bytes_elem c b : c ∈ trim_bytes b → c ∈ b.
Proof. destruct (trim_bytes_spec b) as [_ (pre & post & Hb)]. intros. rewrite Hb. set_solver. Qed.

(** ** Splitting at a separator *)
Lemma split_bytes_no_sep sep b : sep ∉ b → split_bytes sep b = [b].
Proof.
  induction b as [|c b IH]; [done|]. intros [Hc Hb]%not_elem_of_cons. simpl.
  rewrite (proj2 (ceqb_neq c sep) (not_eq_sym Hc)) IH //.
Qed.

Lemma split_bytes_app sep b1 b2 :
  sep ∉ b1 → split_bytes sep (b1 ++ sep :: b2) = b1 :: split_bytes sep b2.
Proof.
  induction b1 as [|c b IH]; intros Hn; simpl; [by rewrite ceqb_refl|].
  apply not_elem_of_cons in Hn as [Hc Hb].
  rewrite (proj2 (ceqb_neq c sep) (not_eq_sym Hc)) IH //.
Qed.

Lemma split_bytes_pieces sep b : split_bytes sep b ≠ [] ∧ Forall (λ p, sep ∉ p) (split_bytes sep b).
Proof.
  induction b as [|c b [Hne IH]]; simpl.
  - split; [done|]. constructor; [apply not_elem_of_nil|constructor].
  - destruct (ceqb c sep) eqn:E.
    + split; [done|]. constructor; [apply not_elem_of_nil|done].
    + apply ceqb_neq in E. destruct (split_bytes sep b) as [|p ps]; [done|]. split; [done|].
      apply list.Forall_cons in IH as [Hp Hps]. constructor; [|done]. set_solver.
Qed.

(** ** Further conversions the configuration uses *)

(** [strconv.ParseBool]. *)
Definition ParseBool (s : string) : option bool :=
  if existsb (streqb s) ["1"; "t"; "T"; "TRUE"; "true"; "True"] then Some true
  else if existsb (streqb s) ["0"; "f"; "F"; "FALSE"; "false"; "False"] then Some false
  else None.

(** [strings.TrimRight(s, c)] and [strings.ReplaceAll(s, c, "")] for one byte. *)
Fixpoint drop_while (f : ascii → bool) (b : bytes) : bytes :=
  match b with
  | [] => []
  | c :: b' => if f c then drop_while f b' else b
  end.
Definition TrimRightByte (s : string) (c : ascii) : string :=
  of_bytes (rev (drop_while (ceqb c) (rev (to_bytes s)))).
Definition RemoveByte (s : string) (c : ascii) : string :=
  of_bytes (List.filter (λ x, negb (ceqb c x)) (to_bytes s)).

(** [net.SplitHostPort]: host and port, or an error. *)
Definition SplitHostPort (hostport : string) : option (string * string) :=
  let i := LastIndexByte hostport ":"%char in
  if (i <? 0)%Z then None
  else
    let tail host j k :=
      if (0 <=? IndexByte (slice_from hostport j) "["%char)%Z then None
      else if (0 <=? IndexByte (slice_from hostport k) "]"%char)%Z then None
      else Some (host, slice_from hostport (i + 1)) in
    if HasPrefix hostport "[" then
      let e := IndexByte hostport "]"%char in
      if ((e <? 0) || negb (e + 1 =? i))%Z%bool then None
      else tail (slice_from (slice_to hostport e) 1) 1%Z (e + 1)%Z
    else
      let host := slice_to hostport i in
      if (0 <=? IndexByte host ":"%char)%Z then None else tail host 0%Z 0%Z.

(** [http.CanonicalHeaderKey]: a valid header name has its first letter and the
    letters after hyphens in upper case, the others in lower case. *)
Definition header_byte (c : ascii) : bool :=
  let n := code c in
  (is_upper c || is_lower c || ((48 <=? n) && (n <=? 57)) ||
   existsb (N.eqb n) [33; 35; 36; 37; 38; 39; 42; 43; 45; 46; 94; 95; 96; 124; 126])%N%bool.
Fixpoint canonical_bytes (up : bool) (b : bytes) : bytes :=
  match b with
  | [] => []
  | c :: b => (if up then upper c else lower c) :: canonical_bytes (ceqb c "-"%char) b
  end.
Definition CanonicalHeaderKey (s : string) : string :=
  if forallb header_byte (to_bytes s) then of_bytes (canonical_bytes true (to_bytes s)) else s.

Lemma to_bytes_app a b : to_bytes (a +:+ b) = to_bytes a ++ to_bytes b.
Proof. unfold to_bytes. induction a as [|c a IH]; [done|]. exact (f_equal (cons c) IH). Qed.

Lemma to_bytes_inj a b : to_bytes a = to_bytes b → a = b.
Proof. intros E. by rewrite -(of_to_bytes a) E of_to_bytes. Qed.

Lemma split_bytes_Join sep l :
  l ≠ [] → Forall (λ s, sep ∉ to_bytes s) l →
  split_bytes sep (to_bytes (Join l (of_bytes [sep]))) = map to_bytes l.
Proof.
  intros Hne. unfold Join. induction l as [|s l IH]; [done|]. intros [Hs Hl]%list.Forall_cons.
  destruct l as [|s' l]; [simpl; by apply split_bytes_no_sep|].
  cbn [String.concat]. rewrite !to_bytes_app to_of_bytes /=.
  rewrite split_bytes_app // IH //.
Qed.

(** No white-space rune contains a byte of this kind, so text around it can be
    trimmed on each side alone. *)
Definition solid (c : ascii) : Prop := Forall (λ p, c ∉ p) space_runes.

Lemma prefix_split {A} (p a b : list A) c rest :
  p ++ rest = a ++ c :: b → c ∉ p → ∃ r, a = p ++ r.
Proof.
  revert a. induction p as [|x p IH]; intros a E Hn; [by exists a|].
  apply not_elem_of_cons in Hn as [Hx Hn]. destruct a as [|y a]; simpl in E.
  - injection E as ->. done.
  - injection E as -> E. destruct (IH a E Hn) as [r ->]. by exists r.
Qed.

Lemma strip_any_solid ps a b c :
  Forall (λ p, c ∉ p) ps → strip_any ps a = None → strip_any ps (a ++ c :: b) = None.
Proof.
  intros Hc Ha. apply strip_any_None. intros p Hp.
  rewrite list.Forall_forall in Hc. specialize (Hc p Hp).
  destruct (strip_prefix p (a ++ c :: b)) as [rest|] eqn:E; [|done].
  apply strip_prefix_Some in E. destruct (prefix_split p a b c rest (eq_sym E) Hc) as [r ->].
  apply (proj1 (strip_any_None _ _)) with (p := p) in Ha; [|done].
  by rewrite (proj2 (strip_prefix_Some p (p ++ r) r) eq_refl) in Ha.
Qed.

Lemma rev_mid {A} (a b : list A) c : rev (a ++ c :: b) = rev b ++ c :: rev a.
Proof. by rewrite rev_app_distr /= -app_assoc. Qed.

Lemma trimmed_around a b c :
  solid c → strip_any space_runes a = None →
  strip_any (map (@rev _) space_runes) (rev b) = None → trimmed (a ++ c :: b).
Proof.
  intros Hc Ha Hb. split; [by apply strip_any_solid|].
  rewrite rev_mid. apply strip_any_solid; [|done].
  apply List.Forall_map. eapply List.Forall_impl; [|exact Hc]. intros p Hp.
  by rewrite elem_of_rev.
Qed.

Lemma trimmed_suffix a b c : trimmed (a ++ c :: b) →
  strip_any (map (@rev _) space_runes) (rev b) = None.
Proof.
  intros [_ H]. rewrite rev_mid in H. by eapply strip_any_prefix_None.
Qed.

(** Cutting a string at the first occurrence of a byte. *)
Lemma IndexByte_cut s c pre post :
  to_bytes s = pre ++ c :: post → c ∉ pre →
  IndexByte s c = Z.of_nat (length pre) ∧
  slice_to s (Z.of_nat (length pre)) = of_bytes pre ∧
  slice_from s (Z.of_nat (length pre) + 1) = of_bytes post.
Proof.
  intros E Hn. unfold IndexByte, slice_to, slice_from.
  rewrite (IndexByte_from_found _ c pre post 0 E Hn) E. split_and!; [lia| |].
  - by rewrite Nat2Z.id take_app_length.
  - replace (Z.to_nat (Z.of_nat (length pre) + 1)) with (length pre + 1) by lia.
    rewrite -drop_drop drop_app_length. done.
Qed.

Lemma IndexByte_nonneg s c : (0 <= IndexByte s c)%Z →
  ∃ pre post, to_bytes s = pre ++ c :: post ∧ c ∉ pre ∧ IndexByte s c = Z.of_nat (length pre).
Proof.
  unfold IndexByte. destruct (IndexByte_from_cases (to_bytes s) c 0) as [[-> _]|(pre & post & E & Hn & ->)];
    [lia|]. intros _. by exists pre, post.
Qed.

(** ** Host and port *)
Lemma LastIndexByte_found s c pre post :
  to_bytes s = pre ++ c :: post → c ∉ post → LastIndexByte s c = Z.of_nat (length pre).
Proof.
  intros E Hn. unfold LastIndexByte. rewrite E rev_mid.
  rewrite (IndexByte_from_found _ c (rev post) (rev pre) 0 eq_refl); [by rewrite elem_of_rev|].
  rewrite -length_to_bytes E length_app length_rev /=.
  destruct (Z.ltb_spec (0 + Z.of_nat (length post)) 0); lia.
Qed.

Lemma LastIndexByte_nonneg s c : (0 <= LastIndexByte s c)%Z →
  ∃ pre post, to_bytes s = pre ++ c :: post ∧ c ∉ post ∧ LastIndexByte s c = Z.of_nat (length pre).
Proof.
  intros H. assert (∃ pre post, to_bytes s = pre ++ c :: post ∧ c ∉ post) as (pre & post & E & Hn).
  { unfold LastIndexByte in H. destruct (IndexByte_from_cases (rev (to_bytes s)) c 0)
      as [[Hi _]|(p & q & E & Hp & _)]; [rewrite Hi in H; simpl in H; lia|].
    exists (rev q), (rev p). split; [|by rewrite elem_of_rev].
    by rewrite -(rev_involutive (to_bytes s)) E rev_mid. }
  exists pre, post. split_and!; [done|done|by eapply LastIndexByte_found].
Qed.

Lemma IndexByte_absent s c : (0 <=? IndexByte s c)%Z = false ↔ c ∉ to_bytes s.
Proof.
  unfold IndexByte. rewrite Z.leb_gt.
  destruct (IndexByte_from_cases (to_bytes s) c 0) as [[-> ?]|(pre & post & E & ? & ->)];
    [split; [done|lia]|]. split; [lia|]. rewrite E. set_solver.
Qed.

Lemma slice_at s pre rest : to_bytes s = pre ++ rest →
  slice_from s (Z.of_nat (length pre)) = of_bytes rest ∧ slice_to s (Z.of_nat (length pre)) = of_bytes pre.
Proof.
  intros E. unfold slice_from, slice_to. by rewrite E Nat2Z.id drop_app_length take_app_length.
Qed.

Lemma slice_from_at s pre rest i :
  to_bytes s = pre ++ to_bytes rest → i = Z.of_nat (length pre) → slice_from s i = rest.
Proof. intros E ->. rewrite (proj1 (slice_at _ _ _ E)). apply of_to_bytes. Qed.

(** [net.JoinHostPort]. *)
Definition JoinHostPort (host port : string) : string :=
  if (0 <=? IndexByte host ":"%char)%Z then "[" +:+ host +:+ "]:" +:+ port else host +:+ ":" +:+ port.

(** Text that can stand for a host and a port. *)
Record host_port (h p : string) : Prop := {
  hp_port : ":"%char ∉ to_bytes p;
  hp_open : "["%char ∉ to_bytes h ++ to_bytes p;
  hp_close : "]"%char ∉ to_bytes h ++ to_bytes p;
}.

Lemma HasPrefix_cons s c r : to_bytes s = c :: r → HasPrefix s (of_bytes [c]) = true.
Proof.
  intros E. unfold HasPrefix. rewrite to_of_bytes E.
  by rewrite (proj2 (strip_prefix_Some [c] (c :: r) r) eq_refl).
Qed.

Lemma HasPrefix_absent s c : c ∉ to_bytes s → HasPrefix s (of_bytes [c]) = false.
Proof.
  intros Hn. unfold HasPrefix. rewrite to_of_bytes.
  destruct (strip_prefix [c] (to_bytes s)) as [r|] eqn:E; [|done].
  apply strip_prefix_Some in E. rewrite E in Hn. set_solver.
Qed.

Lemma SplitHostPort_Join h p : host_port h p → SplitHostPort (JoinHostPort h p) = Some (h, p).
Proof.
  intros [Hp Ho Hc]. unfold JoinHostPort. destruct (0 <=? IndexByte h ":"%char)%Z eqn:Hcol.
  - assert (to_bytes ("[" +:+ h +:+ "]:" +:+ p) = ("["%char :: to_bytes h ++ ["]"%char]) ++ ":"%char :: to_bytes p) as E.
    { rewrite !to_bytes_app /= -app_assoc. done. }
    unfold SplitHostPort. rewrite (LastIndexByte_found _ _ _ _ E Hp).
    destruct (Z.ltb_spec (Z.of_nat (length ("["%char :: to_bytes h ++ ["]"%char]))) 0); [lia|].
    rewrite (HasPrefix_cons _ "["%char (to_bytes h ++ "]"%char :: ":"%char :: to_bytes p));
      [by rewrite E /= -app_assoc|].
    assert (to_bytes ("[" +:+ h +:+ "]:" +:+ p) = ("["%char :: to_bytes h) ++ "]"%char :: ":"%char :: to_bytes p) as E2.
    { by rewrite E /= -app_assoc. }
    destruct (IndexByte_cut _ _ _ _ E2) as (-> & Hto & _); [set_solver|].
    destruct (Z.ltb_spec (Z.of_nat (length ("["%char :: to_bytes h))) 0); [lia|].
    assert ((Z.of_nat (length ("["%char :: to_bytes h)) + 1 =?
             Z.of_nat (length ("["%char :: to_bytes h ++ ["]"%char])))%Z = true) as ->.
    { apply Z.eqb_eq. cbn [length]. rewrite length_app. cbn [length]. lia. }
    cbn [negb orb]. rewrite Hto.
    assert (slice_from ("[" +:+ h +:+ "]:" +:+ p) 1 = of_bytes (to_bytes h ++ "]"%char :: ":"%char :: to_bytes p)) as ->.
    { apply (slice_at _ ["["%char]). by rewrite E2. }
    rewrite (proj2 (IndexByte_absent _ _)); [rewrite to_of_bytes; set_solver|].
    assert (slice_from ("[" +:+ h +:+ "]:" +:+ p) (Z.of_nat (length ("["%char :: to_bytes h)) + 1) =
            of_bytes (":"%char :: to_bytes p)) as ->.
    { rewrite -(proj1 (slice_at _ ("["%char :: to_bytes h ++ ["]"%char]) _ E)). f_equal.
      cbn [length]. rewrite length_app. cbn [length]. lia. }
    rewrite (proj2 (IndexByte_absent _ _)); [rewrite to_of_bytes; set_solver|].
    f_equal. f_equal.
    + unfold slice_from. rewrite to_of_bytes /=. apply of_to_bytes.
    + apply (slice_from_at _ (("["%char :: to_bytes h ++ ["]"%char]) ++ [":"%char])).
      * by rewrite E -app_assoc.
      * rewrite [length (_ ++ [":"%char])]length_app. cbn [length]. lia.
  - apply IndexByte_absent in Hcol.
    assert (to_bytes (h +:+ ":" +:+ p) = to_bytes h ++ ":"%char :: to_bytes p) as E by by rewrite !to_bytes_app.
    unfold SplitHostPort. rewrite (LastIndexByte_found _ _ _ _ E Hp).
    destruct (Z.ltb_spec (Z.of_nat (length (to_bytes h))) 0); [lia|].
    rewrite (HasPrefix_absent _ "["%char); [rewrite E; set_solver|].
    destruct (slice_at _ _ _ E) as [_ ->]. rewrite of_to_bytes (proj2 (IndexByte_absent h _) Hcol).
    assert (slice_from (h +:+ ":" +:+ p) 0 = h +:+ ":" +:+ p) as -> by apply of_to_bytes.
    rewrite !(proj2 (IndexByte_absent (h +:+ ":" +:+ p) _)); [rewrite E; set_solver|rewrite E; set_solver|].
    f_equal. f_equal. apply (slice_from_at _ (to_bytes h ++ [":"%char])).
    + by rewrite E -app_assoc.
    + rewrite length_app. cbn [length]. lia.
Qed.

Lemma elem_slice_from s i c : c ∈ to_bytes (slice_from s i) → c ∈ to_bytes s.
Proof. unfold slice_from. rewrite to_of_bytes. apply subseteq_drop. Qed.
Lemma elem_slice_to s i c : c ∈ to_bytes (slice_to s i) → c ∈ to_bytes s.
Proof. unfold slice_to. rewrite to_of_bytes. apply subseteq_take. Qed.
Lemma elem_slice_later s i j c :
  (0 <= i <= j)%Z → c ∈ to_bytes (slice_from s j) → c ∈ to_bytes (slice_from s i).
Proof.
  intros Hij. unfold slice_from. rewrite !to_of_bytes.
  replace (Z.to_nat j) with (Z.to_nat i + Z.to_nat (j - i)) by lia.
  rewrite -drop_drop. apply subseteq_drop.
Qed.

Lemma SplitHostPort_host_port s h p : SplitHostPort s = Some (h, p) → host_port h p.
Proof.
  unfold SplitHostPort. destruct (Z.ltb_spec (LastIndexByte s ":"%char) 0) as [|Hi]; [done|].
  destruct (LastIndexByte_nonneg _ _ Hi) as (pre & post & E & Hpost & Ei). rewrite Ei.
  assert (to_bytes (slice_from s (Z.of_nat (length pre) + 1)) = post) as Hp.
  { rewrite -[RHS](to_of_bytes post). f_equal. apply (slice_from_at _ (pre ++ [":"%char])).
    - by rewrite to_of_bytes E -app_assoc.
    - rewrite length_app. cbn [length]. lia. }
  destruct (HasPrefix s "[").
  - destruct (Z.ltb_spec (IndexByte s "]"%char) 0) as [|He]; [done|]. cbn [orb].
    destruct (Z.eqb_spec (IndexByte s "]"%char + 1) (Z.of_nat (length pre))) as [Hei|]; [|done]. cbn [negb].
    destruct (IndexByte_nonneg _ _ He) as (q & t & Eq & Hq & Ee). rewrite Ee in Hei |- *.
    destruct (0 <=? IndexByte (slice_from s 1) "["%char)%Z eqn:Ho; [done|].
    destruct (0 <=? IndexByte _ "]"%char)%Z eqn:Hc; [done|]. intros [= <- <-].
    apply IndexByte_absent in Ho, Hc. split.
    + by rewrite Hp.
    + rewrite elem_of_app. intros [Hin|Hin].
      * apply Ho. unfold slice_from in Hin |- *. rewrite !to_of_bytes in Hin |- *.
        rewrite Eq in Hin |- *. rewrite Nat2Z.id take_app_length in Hin.
        destruct q; simpl in *; [by apply elem_of_nil in Hin|]. rewrite drop_0 in Hin |- *. set_solver.
      * apply Ho. eapply elem_slice_later; [|exact Hin]. lia.
    + rewrite elem_of_app. intros [Hin|Hin].
      * apply elem_slice_from in Hin. rewrite (proj2 (slice_at _ _ _ Eq)) to_of_bytes in Hin. done.
      * apply Hc. eapply elem_slice_later; [|exact Hin]. lia.
  - destruct (0 <=? IndexByte (slice_to s _) ":"%char)%Z; [done|].
    assert (slice_from s 0 = s) as -> by apply of_to_bytes.
    destruct (0 <=? IndexByte s "["%char)%Z eqn:Ho; [done|].
    destruct (0 <=? IndexByte s "]"%char)%Z eqn:Hc; [done|]. intros [= <- <-].
    apply IndexByte_absent in Ho, Hc. split.
    + by rewrite Hp.
    + rewrite elem_of_app. intros [?%elem_slice_to|?%elem_slice_from]; done.
    + rewrite elem_of_app. intros [?%elem_slice_to|?%elem_slice_from]; done.
Qed.

(** Printable ASCII without spaces is left alone by trimming. *)
Definition visible (c : ascii) : Prop := (33 <= code c <= 126)%N.

Lemma space_runes_invisible p : p ∈ space_runes → ∃ c, c ∈ p ∧ ¬ visible c.
Proof.
  intros Hp%list_elem_of_In.
  assert (forallb (existsb (λ c, (code c <? 33)%N || (126 <? code c)%N)%bool) space_runes = true) as Hf
    by (vm_compute; reflexivity).
  rewrite forallb_forall in Hf. apply Hf, existsb_exists in Hp as (c & Hc%list_elem_of_In & Hv).
  exists c. split; [done|]. unfold visible. apply orb_true_iff in Hv as [?%N.ltb_lt|?%N.ltb_lt]; lia.
Qed.

Lemma visible_trimmed b : Forall visible b → trimmed b.
Proof.
  intros Hb. rewrite list.Forall_forall in Hb.
  assert (∀ l ps, (∀ c, c ∈ l → c ∈ b) → (∀ p, p ∈ ps → ∃ c, c ∈ p ∧ ¬ visible c) →
    strip_any ps l = None) as Hs.
  { intros l ps Hl Hps. apply strip_any_None. intros p Hp. destruct (Hps p Hp) as (c & Hc & Hv).
    destruct (strip_prefix p l) as [r|] eqn:E; [|done]. apply strip_prefix_Some in E. subst l.
    destruct Hv. apply Hb, Hl. set_solver. }
  split; apply Hs.
  - done.
  - apply space_runes_invisible.
  - intros c. by rewrite elem_of_rev.
  - intros p Hp. apply list_elem_of_In, in_map_iff in Hp as (q & <- & Hq%list_elem_of_In).
    destruct (space_runes_invisible q Hq) as (c & Hc & ?). exists c. by rewrite elem_of_rev.
Qed.

Lemma app_sep_inj {A} (a b a' b' : list A) c :
  c ∉ a → c ∉ a' → a ++ c :: b = a' ++ c :: b' → a = a' ∧ b = b'.
Proof.
  revert a'. induction a as [|x a IH]; intros [|y a'] Ha Ha' E; simpl in E.
  - by injection E as ->.
  - injection E as <- _. by destruct (proj1 (not_elem_of_cons _ _ _) Ha').
  - injection E as -> _. by destruct (proj1 (not_elem_of_cons _ _ _) Ha).
  - apply not_elem_of_cons in Ha as [_ Ha]. apply not_elem_of_cons in Ha' as [_ Ha'].
    injection E as -> E. by destruct (IH a' Ha Ha' E) as [-> ->].
Qed.
