(* ===== verification/HttpErrors.v ===== *)
(** * From errors to HTTP problems

    Models [internal/httputils/errmap.go], [problem.go], [apphandler.go],
    [grpc_bridge_error.go] and [parse.go]: how every error a handler returns
    becomes a problem document, and how gRPC status errors are brought back into
    the service's own errors. *)
From S2P Require Import Prelude.
From S2P Require Import GoErrors.
From S2P Require Import GoStrings.
From S2P Require Import Entity.

Record Problem := mkProblem {
  prType : string;
  prTitle : string;
  prStatus : Z;
  prDetail : string;
  prInstance : string;
  prRequestID : string;
  prInvalidParams : list InvalidParam;
}.
Definition problem (status : Z) (detail : string) : Problem := mkProblem "" "" status detail "" "" [].

(** Headers are kept as name/value pairs in the order they are set. *)
Record MappedProblem := mkMappedProblem {
  mpProblem : Problem;
  mpHeaders : list (string * string);
  mpLog : bool;
}.
Definition plain (status : Z) (detail : string) : MappedProblem :=
  mkMappedProblem (problem status detail) [] false.
Definition unexpected : MappedProblem :=
  mkMappedProblem (problem 500 "internal server error") [] true.

(** ** [errors.As] targets *)
Definition as_bad_request (e : error) : option string :=
  match e with EBadRequestError d => Some d | _ => None end.
Definition as_method_not_allowed (e : error) : option string :=
  match e with EMethodNotAllowedError a => Some a | _ => None end.
Definition as_unauthorized (e : error) : option AuthNErrorKind :=
  match e with EUnauthorizedError k _ => Some k | _ => None end.
Definition as_forbidden (e : error) : option AuthZErrorKind :=
  match e with EForbiddenError k _ => Some k | _ => None end.
Definition as_validation (e : error) : option (list InvalidParam) :=
  match e with EValidationError ps => Some ps | _ => None end.
Definition as_max_bytes (e : error) : option Z :=
  match e with EMaxBytesError l => Some l | _ => None end.
Definition as_json_request (e : error) : option string :=
  match e with EJSONRequestError _ f _ _ => Some f | _ => None end.
Definition as_rate_limit (e : error) : option Z :=
  match e with ERateLimitError d => Some d | _ => None end.

(** ** [MapError], in the order of the code *)

(** Rate limiting: both divisions are by [time.Second], in nanoseconds. *)
Definition second : Z := (10 ^ 9)%Z.
Definition retry_after_secs (d : Z) : Z :=
  let secsDur := (wrap64 (wrap64 (d + second) - 1) ÷ second)%Z in
  let secs := (secsDur ÷ second)%Z in
  if (secs <? 1)%Z then 1%Z else secs.

(** Step 5 and later: domain, queue, profile, negotiation, limits. *)
Definition map_late (err : error) : MappedProblem :=
  if errors_Is err ErrNotFound then plain 404 "not found"
  else if errors_Is err ErrConflict then plain 409 "conflict"
  else if errors_Is err ErrForbidden then plain 403 "forbidden"
  else if errors_Is err ErrQueueFull then plain 503 "queue is full"
  else if errors_Is err ErrQueueStopped then plain 503 "queue is stopped"
  else if errors_Is err ErrJobNotFound then plain 404 "not found"
  else if errors_Is err ErrTimeout then plain 503 "profile service timeout"
  else if errors_Is err ErrCanceled then plain 408 "request canceled"
  else if errors_Is err ErrUpstream5xx then plain 502 "profile service error"
  else if errors_Is err ErrUpstream4xx then plain 502 "profile service returned 4xx"
  else if errors_Is err ErrBadResponse then plain 502 "profile service bad response"
  else if errors_Is err ErrNotAcceptable then
    plain 406 "unsupported Accept header; supported: application/json, application/protobuf"
  else if errors_Is err ErrProtobufUnavailable then plain 500 "protobuf response is not available"
  else if errors_Is err ErrNetwork then plain 503 "profile service unavailable"
  else if errors_Is err ErrParse then plain 502 "profile service parse error"
  else
    match errors_As as_rate_limit err with
    | Some d => mkMappedProblem (problem 429 "too many requests")
                  [("Retry-After", Itoa (retry_after_secs d))] false
    | None =>
        if errors_Is err ErrBulkheadRejected then plain 503 "bulkhead rejected"
        else unexpected
    end.

(** Step 4: JSON decoding. *)
Definition map_json (err : error) : MappedProblem :=
  let field_detail (base : string) (with_field : string) :=
    match errors_As as_json_request err with
    | Some f => if streqb f "" then base else String.append with_field (Quote f)
    | None => base
    end in
  if errors_Is err ErrJSONEmptyBody then plain 400 "request body must not be empty"
  else if errors_Is err ErrJSONBadSyntax then plain 400 "malformed JSON"
  else if errors_Is err ErrJSONUnknownField then plain 400 (field_detail "unknown field" "unknown field ")
  else if errors_Is err ErrJSONTypeMismatch then
    plain 400 (field_detail "invalid JSON type" "invalid JSON type for field ")
  else if errors_Is err ErrJSONTrailingData then
    plain 400 "request body must contain a single JSON value"
  else if errors_Is err ErrJSONDecodeFailure then plain 400 "invalid request body"
  else map_late err.

(** The gRPC bridge, body size, content type, streaming. *)
Definition map_transport (err : error) : MappedProblem :=
  if errors_Is err ErrGRPCBridgeUnavailable then plain 503 "grpc bridge unavailable"
  else if errors_Is err ErrGRPCBridgeTimeout then plain 504 "grpc bridge timeout"
  else if errors_Is err ErrGRPCBridgeCanceled then plain 408 "request canceled"
  else
    match errors_As as_max_bytes err with
    | Some _ => plain 413 "request body too large"
    | None =>
        if errors_Is err ErrUnsupportedMediaType then plain 415 "Content-Type must be application/json"
        else if errors_Is err ErrStreamingUnsupported then plain 500 "streaming is not supported"
        else if errors_Is err ErrHubClosed then plain 503 "stream hub is closed"
        else map_json err
    end.

Definition WWWAuthenticateValue : string := "Bearer".

(** The typed HTTP errors come first; [None] is a nil error. *)
Definition MapError (err : option error) : MappedProblem :=
  match err with
  | None => unexpected
  | Some err =>
      match errors_As as_bad_request err with
      | Some detail => plain 400 detail
      | None =>
      match errors_As as_method_not_allowed err with
      | Some allow =>
          mkMappedProblem (problem 405 "method not allowed")
            (if streqb allow "" then [] else [("Allow", allow)]) false
      | None =>
      match errors_As as_unauthorized err with
      | Some _ => mkMappedProblem (problem 401 "unauthorized")
                    [("WWW-Authenticate", WWWAuthenticateValue)] false
      | None =>
      match errors_As as_forbidden err with
      | Some _ => plain 403 "forbidden"
      | None =>
      match errors_As as_validation err with
      | Some ps => mkMappedProblem (mkProblem "" "" 422 "validation failed" "" "" ps) [] false
      | None => map_transport err
      end end end end end
  end.

(** ** The gRPC bridge *)
Definition codeCanceled : Z := 1.
Definition codeInvalidArgument : Z := 3.
Definition codeDeadlineExceeded : Z := 4.
Definition codeNotFound : Z := 5.
Definition codePermissionDenied : Z := 7.
Definition codeInternal : Z := 13.
Definition codeUnavailable : Z := 14.
Definition codeUnauthenticated : Z := 16.

(** [status.FromError]: the status in the error's tree; for a status wrapped in
    another error the message is the whole error's text ([errstr]). *)
Definition as_status (e : error) : option (Z * string) :=
  match e with EStatusError c m => Some (c, m) | _ => None end.
Definition FromError (errstr : error → string) (err : error) : option (Z * string) :=
  match err with
  | EStatusError c m => Some (c, m)
  | _ => match errors_As as_status err with Some (c, _) => Some (c, errstr err) | None => None end
  end.

Definition MapGRPCBridgeError (errstr : error → string) (err : error) : error :=
  if errors_Is err ContextCanceled then ESentinel ErrGRPCBridgeCanceled
  else if errors_Is err ContextDeadlineExceeded then ESentinel ErrGRPCBridgeTimeout
  else
    match FromError errstr err with
    | None => err
    | Some (c, msg) =>
        if (c =? codeInvalidArgument)%Z then EBadRequestError msg
        else if (c =? codeNotFound)%Z then ESentinel ErrJobNotFound
        else if (c =? codePermissionDenied)%Z then EForbiddenError AuthZForbidden None
        else if (c =? codeUnauthenticated)%Z then EUnauthorizedError AuthNInvalid None
        else if (c =? codeCanceled)%Z then ESentinel ErrGRPCBridgeCanceled
        else if (c =? codeDeadlineExceeded)%Z then ESentinel ErrGRPCBridgeTimeout
        else if (c =? codeUnavailable)%Z then ESentinel ErrGRPCBridgeUnavailable
        else err
    end.

Definition ParsePositiveInt (s : string) : Z * bool :=
  match Atoi s with
  | None => (0%Z, false)
  | Some n => if (n <=? 0)%Z then (0%Z, false) else (n, true)
  end.

(** ** Writing a problem

    The response as far as a handler writes it: canonical header names to
    values, the status of the first [WriteHeader], the document. *)
Inductive body : Type :=
| NoBody
| ProblemBody (p : Problem)
| BytesBody (b : string).

Record response := mkResponse {
  rsHeader : gmap string (list string);
  rsStatus : option Z;
  rsBody : body;
}.

Definition header_get (h : gmap string (list string)) (k : string) : string :=
  match h !! k with Some (v :: _) => v | _ => EmptyString end.

Definition HeaderName : string := "X-Request-Id".

(** What the handler knows about the request. *)
Record request := mkRequest { rqPath : string; rqRequestID : option string }.

(** [http.StatusText] on the statuses the mapping uses. *)
Definition StatusText (c : Z) : string :=
  if (c =? 400)%Z then "Bad Request" else if (c =? 401)%Z then "Unauthorized"
  else if (c =? 403)%Z then "Forbidden" else if (c =? 404)%Z then "Not Found"
  else if (c =? 405)%Z then "Method Not Allowed" else if (c =? 406)%Z then "Not Acceptable"
  else if (c =? 408)%Z then "Request Timeout" else if (c =? 409)%Z then "Conflict"
  else if (c =? 413)%Z then "Request Entity Too Large" else if (c =? 415)%Z then "Unsupported Media Type"
  else if (c =? 422)%Z then "Unprocessable Entity" else if (c =? 429)%Z then "Too Many Requests"
  else if (c =? 500)%Z then "Internal Server Error" else if (c =? 502)%Z then "Bad Gateway"
  else if (c =? 503)%Z then "Service Unavailable" else if (c =? 504)%Z then "Gateway Timeout"
  else EmptyString.

Definition WriteProblem (w : response) (r : request) (p : Problem) : response :=
  let ty := if streqb (prType p) "" then "about:blank" else prType p in
  let status := if (prStatus p =? 0)%Z then 500%Z else prStatus p in
  let title := if streqb (prTitle p) "" then StatusText status else prTitle p in
  let inst := if streqb (prInstance p) "" then rqPath r else prInstance p in
  let rid := if streqb (prRequestID p) "" then default "" (rqRequestID r) else prRequestID p in
  let h := if (negb (streqb rid "") && streqb (header_get (rsHeader w) HeaderName) "")%bool
           then <[HeaderName := [rid]]> (rsHeader w) else rsHeader w in
  let h := <["Content-Type" := ["application/problem+json; charset=utf-8"]]> h in
  mkResponse h (Some (default status (rsStatus w)))
    (ProblemBody (mkProblem ty title status (prDetail p) inst rid (prInvalidParams p))).

(** [AppHandler.ServeHTTP]: the handler's response and its error.  The mapped
    headers replace the ones the handler set. *)
Definition ServeHTTP (w : response) (r : request) (herr : option error) : response :=
  match herr with
  | None => w
  | Some err =>
      let mp := MapError (Some err) in
      let h := foldl (λ h kv, <[kv.1 := [kv.2]]> h) (rsHeader w) (mpHeaders mp) in
      WriteProblem (mkResponse h (rsStatus w) (rsBody w)) r (mpProblem mp)
  end.

(** ** The mapping sees through wrapping *)
Lemma errors_As_EWrap {A} (p : error → option A) m e :
  p (EWrap m e) = None → errors_As p (EWrap m e) = errors_As p e.
Proof. intros Hp. rewrite errors_As_unfold Hp /=. by destruct (errors_As p e). Qed.

Lemma map_late_EWrap m e : map_late (EWrap m e) = map_late e.
Proof.
  unfold map_late. rewrite !errors_Is_EWrap (errors_As_EWrap as_rate_limit); reflexivity.
Qed.
Lemma map_json_EWrap m e : map_json (EWrap m e) = map_json e.
Proof.
  unfold map_json. rewrite !errors_Is_EWrap (errors_As_EWrap as_json_request) ?map_late_EWrap;
    reflexivity.
Qed.
Lemma map_transport_EWrap m e : map_transport (EWrap m e) = map_transport e.
Proof.
  unfold map_transport. rewrite !errors_Is_EWrap (errors_As_EWrap as_max_bytes) ?map_json_EWrap;
    reflexivity.
Qed.
Lemma MapError_EWrap m e : MapError (Some (EWrap m e)) = MapError (Some e).
Proof.
  unfold MapError.
  rewrite (errors_As_EWrap as_bad_request) ?(errors_As_EWrap as_method_not_allowed)
    ?(errors_As_EWrap as_unauthorized) ?(errors_As_EWrap as_forbidden)
    ?(errors_As_EWrap as_validation) ?map_transport_EWrap; reflexivity.
Qed.

(** Adding context with [%w] never changes the response: the problem of a
    wrapped error is the problem of the error itself, at any depth. *)
Theorem MapError_wrap_transparent ms e :
  MapError (Some (foldr EWrap e ms)) = MapError (Some e).
Proof.
  induction ms as [|msg ms IH]; [reflexivity|]. rewrite -IH. simpl foldr.
  apply MapError_EWrap.
Qed.

(** ** Unrecognised errors *)

(** The sentinels the mapping names. *)
Definition mapped_sentinel (s : sentinel) : bool :=
  existsb (λ t, bool_decide (s = t))
    [ErrNotFound; ErrConflict; ErrForbidden; ErrQueueFull; ErrQueueStopped; ErrJobNotFound;
     ErrTimeout; ErrCanceled; ErrUpstream5xx; ErrUpstream4xx; ErrBadResponse; ErrNotAcceptable;
     ErrProtobufUnavailable; ErrNetwork; ErrParse; ErrBulkheadRejected;
     ErrJSONEmptyBody; ErrJSONBadSyntax; ErrJSONUnknownField; ErrJSONTypeMismatch;
     ErrJSONTrailingData; ErrJSONDecodeFailure;
     ErrGRPCBridgeUnavailable; ErrGRPCBridgeTimeout; ErrGRPCBridgeCanceled;
     ErrUnsupportedMediaType; ErrStreamingUnsupported; ErrHubClosed].

(** A node of an error tree that the mapping reacts to. *)
Definition recognised (e : error) : bool :=
  match e with
  | ESentinel s => mapped_sentinel s
  | EBadRequestError _ | EMethodNotAllowedError _ | EUnauthorizedError _ _ | EForbiddenError _ _
  | EValidationError _ | EMaxBytesError _ | ERateLimitError _ => true
  | _ => false
  end.

Lemma errors_As_None {A} (p : error → option A) e :
  (∀ e', error_in e' e → p e' = None) → errors_As p e = None.
Proof.
  intros H. apply eq_None_not_Some. intros (e' & Hin & [a Ha])%errors_As_in.
  rewrite H in Ha; done.
Qed.

Lemma errors_Is_false e s : ¬ error_in (ESentinel s) e → errors_Is e s = false.
Proof. intros H. destruct (errors_Is e s) eqn:E; [|done]. by apply errors_Is_in in E. Qed.

Lemma MapError_unexpected e :
  (∀ e', error_in e' e → recognised e' = false) → MapError (Some e) = unexpected.
Proof.
  intros Hun.
  assert (∀ s, mapped_sentinel s = true → errors_Is e s = false) as Hs.
  { intros s Hs. apply errors_Is_false. intros Hin%Hun. simpl in Hin. congruence. }
  assert (∀ {A} (p : error → option A), (∀ e', recognised e' = false → p e' = None) →
    errors_As p e = None) as Hp.
  { intros A p Hp. apply errors_As_None. intros e' Hin. by apply Hp, Hun. }
  unfold MapError, map_transport, map_json, map_late.
  rewrite !Hs //. rewrite !Hp //; by intros [].
Qed.

(** Nothing leaks: an error in whose tree the mapping recognises no type
    and no sentinel is answered with the constant 500 problem (and logged),
    whatever its text, its causes and the driver or library errors inside. *)
Theorem MapError_unrecognised e :
  (∀ e', error_in e' e → recognised e' = false) → MapError (Some e) = unexpected.
Proof. apply MapError_unexpected. Qed.

(** ** Statuses *)
Definition status_of_sentinel (s : sentinel) : Z :=
  match s with
  | ErrUserNotFound | ErrJobNotFound => 404
  | ErrConflict => 409
  | ErrForbidden => 403
  | ErrQueueFull | ErrQueueStopped | ErrHubClosed | ErrBulkheadRejected => 503
  | ErrTimeout | ErrNetwork => 503
  | ErrCanceled => 408
  | ErrUpstream5xx | ErrUpstream4xx | ErrParse | ErrBadResponse => 502
  | ErrNotAcceptable => 406
  | ErrGRPCBridgeUnavailable => 503
  | ErrGRPCBridgeTimeout => 504
  | ErrGRPCBridgeCanceled => 408
  | ErrJSONEmptyBody | ErrJSONTrailingData | ErrJSONUnknownField
  | ErrJSONBadSyntax | ErrJSONTypeMismatch | ErrJSONDecodeFailure => 400
  | ErrUnsupportedMediaType => 415
  | _ => 500
  end.

Lemma MapError_sentinel s : prStatus (mpProblem (MapError (Some (ESentinel s)))) = status_of_sentinel s.
Proof. destruct s; reflexivity. Qed.

Lemma MapError_status_range e :
  prStatus (mpProblem (MapError e)) ∈
    [400; 401; 403; 404; 405; 406; 408; 409; 413; 415; 422; 429; 500; 502; 503; 504]%Z ∧
  (mpLog (MapError e) = true → MapError e = unexpected).
Proof.
  unfold MapError, map_transport, map_json, map_late, unexpected, plain, problem.
  repeat case_match; simpl; (split; [set_solver by lia|done]).
Qed.

(** Every sentinel of the service, however deeply wrapped, gets its
    documented status (404 for a missing user or job, 409 for a conflict, 503
    for a full or stopped queue, ...), a refused job transition is a 409, and
    the status is always one of sixteen; only the constant 500 answer is
    logged as unexpected. *)
Theorem MapError_statuses ms s jid from to intent e :
  prStatus (mpProblem (MapError (Some (foldr EWrap (ESentinel s) ms)))) = status_of_sentinel s ∧
  prStatus (mpProblem (MapError (Some (foldr EWrap (EJobTransitionConflictError jid from to intent) ms))))
    = 409%Z ∧
  prStatus (mpProblem (MapError e)) ∈
    [400; 401; 403; 404; 405; 406; 408; 409; 413; 415; 422; 429; 500; 502; 503; 504]%Z ∧
  (mpLog (MapError e) = true → MapError e = unexpected).
Proof.
  assert (∀ e, MapError (Some (foldr EWrap e ms)) = MapError (Some e)) as Hw.
  { intros e'. induction ms as [|msg ms IH]; [reflexivity|]. rewrite -IH. apply MapError_EWrap. }
  rewrite !Hw MapError_sentinel. split; [reflexivity|]. split; [reflexivity|].
  apply MapError_status_range.
Qed.

(** The [Retry-After] header of a rate-limited response is "1" for every
    delay up to 10^18 ns (over thirty years): the rounded-up number of seconds
    is divided by [time.Second] a second time. *)
Theorem retry_after_always_one d :
  (0 <= d <= 10 ^ 18)%Z →
  mpHeaders (MapError (Some (ERateLimitError d))) = [("Retry-After", "1")].
Proof.
  intros Hd.
  assert (retry_after_secs d = 1%Z) as Hsecs.
  { unfold retry_after_secs, second.
    rewrite !wrap64_id; [unfold int64_ok, int_min, int_max; lia..|].
    destruct (Z.ltb_spec ((d + 10 ^ 9 - 1) ÷ 10 ^ 9 ÷ 10 ^ 9) 1) as [|Hge]; [done|].
    assert ((d + 10 ^ 9 - 1) ÷ 10 ^ 9 ÷ 10 ^ 9 <= 1)%Z; [|lia].
    rewrite (Z.quot_div_nonneg (d + 10 ^ 9 - 1)); [lia..|].
    rewrite Z.quot_div_nonneg; [apply Z.div_pos; lia|lia|].
    apply Z.lt_succ_r, Z.div_lt_upper_bound; [lia|].
    apply Z.div_lt_upper_bound; lia. }
  assert (mpHeaders (MapError (Some (ERateLimitError d))) = [("Retry-After", Itoa (retry_after_secs d))])
    as -> by reflexivity.
  by rewrite Hsecs.
Qed.

Lemma retry_after_always_one_witness :
  mpHeaders (MapError (Some (ERateLimitError (60 * 10 ^ 9)))) = [("Retry-After", "1")].
Proof. apply retry_after_always_one. lia. Defined.

(** A failing handler that has not written anything yet is answered with a
    complete problem document: the response status is the document's, the
    content type is problem+json, and the request id of the request is in the
    document and in the response header. *)
Theorem ServeHTTP_problem h r err rid :
  h !! HeaderName = None → rqRequestID r = Some rid → rid ≠ EmptyString →
  let w := ServeHTTP (mkResponse h None NoBody) r (Some err) in
  ∃ p, rsBody w = ProblemBody p ∧
    prStatus p = prStatus (mpProblem (MapError (Some err))) ∧ rsStatus w = Some (prStatus p) ∧
    prTitle p = StatusText (prStatus p) ∧ prDetail p = prDetail (mpProblem (MapError (Some err))) ∧
    prInstance p = rqPath r ∧ prRequestID p = rid ∧
    rsHeader w !! "Content-Type" = Some ["application/problem+json; charset=utf-8"] ∧
    rsHeader w !! HeaderName = Some [rid].
Proof.
  intros Hh Hrid Hne. unfold ServeHTTP.
  destruct (MapError_status_range (Some err)) as [Hrange _].
  assert (∃ hs, mpHeaders (MapError (Some err)) = hs ∧
    Forall (λ kv, kv.1 ≠ HeaderName) hs) as (hs & -> & Hhs).
  { eexists. split; [done|].
    unfold MapError, map_transport, map_json, map_late, unexpected, plain.
    repeat case_match; simpl; repeat constructor; done. }
  assert (prType (mpProblem (MapError (Some err))) = "" ∧ prTitle (mpProblem (MapError (Some err))) = "" ∧
    prInstance (mpProblem (MapError (Some err))) = "" ∧ prRequestID (mpProblem (MapError (Some err))) = "")
    as (Hty & Hti & Hin & Hri).
  { unfold MapError, map_transport, map_json, map_late, unexpected, plain, problem.
    repeat case_match; done. }
  destruct (MapError (Some err)) as [p mh log]. simpl in *. rewrite Hty Hti Hin Hri Hrid /=.
  destruct (Z.eqb_spec (prStatus p) 0) as [E|_]; [rewrite E in Hrange; set_solver by lia|].
  assert (foldl (λ h kv, <[kv.1 := [kv.2]]> h) h hs !! HeaderName = None) as Hnone.
  { clear -Hh Hhs. revert h Hh. induction hs as [|[k v] hs IH]; intros h Hh; [done|].
    apply list.Forall_cons in Hhs as [Hk Hhs]. apply IH; [done|]. by rewrite lookup_insert_ne. }
  unfold header_get. rewrite Hnone /=.
  rewrite (proj2 (streqb_neq rid "")) //=.
  eexists. split_and!; try done; simpl.
  - by rewrite lookup_insert_eq.
  - by rewrite lookup_insert_ne // lookup_insert_eq.
Qed.

Lemma ServeHTTP_problem_witness :
  let r := mkRequest "/jobs/9" (Some "rid-1") in
  let w := ServeHTTP (mkResponse ∅ None NoBody) r (Some (EWrap "get" (ESentinel ErrJobNotFound))) in
  rsStatus w = Some 404%Z ∧ rsHeader w !! HeaderName = Some ["rid-1"].
Proof.
  intros r w. destruct (ServeHTTP_problem ∅ r (EWrap "get" (ESentinel ErrJobNotFound)) "rid-1")
    as (p & _ & Hs & Hst & _ & _ & _ & _ & _ & Hid); [apply lookup_empty|reflexivity|discriminate|].
  split; [|exact Hid]. unfold w. rewrite Hst Hs. reflexivity.
Defined.

(** [ParsePositiveInt] inverts [strconv.Itoa] on the positive 64-bit integers. *)
Lemma ParsePositiveInt_Itoa n :
  (0 < n <= int_max)%Z → ParsePositiveInt (Itoa n) = (n, true).
Proof.
  intros Hn. unfold ParsePositiveInt. rewrite Atoi_Itoa; [unfold int64_ok, int_min; lia|].
  destruct (Z.leb_spec n 0); [lia|done].
Qed.

Lemma MapError_unrecognised_witness :
  MapError (Some (EWrap "save user" (EPgError "08006"))) = unexpected.
Proof.
  apply MapError_unrecognised. intros e' Hin.
  inversion Hin as [|? c ? Hc Hin']; subst; [reflexivity|].
  simpl in Hc. apply list_elem_of_singleton in Hc as ->.
  inversion Hin' as [|? c ? Hc Hin'']; subst; [reflexivity|].
  simpl in Hc. apply elem_of_nil in Hc as [].
Defined.
