(* ===== verification/HttpUtils.v ===== *)
(** * HTTP request and response helpers

    Models [internal/httputils/utils.go] and [accept.go]: JSON request bodies,
    content negotiation, input validation, [Vary] and conditional requests.
    The JSON decoder, the encoders and [mime.ParseMediaType] are parameters. *)
From Stdlib Require Import Ascii.
From S2P Require Import Prelude.
From S2P Require Import GoErrors.
From S2P Require Import GoStrings.
From S2P Require Import Entity.
From S2P Require Import HttpErrors.

(** ** JSON bodies *)

(** The regular expression [rxUnknownField]: the library's fixed prefix, an
    opening quote, a non-empty name without quotes, a closing quote, the end. *)
Definition quote_c : ascii := chr 34.
Definition match_unknown_field (msg : string) : option string :=
  match strip_prefix (to_bytes "json: unknown field " ++ [quote_c]) (to_bytes msg) with
  | None => None
  | Some rest =>
      match rev rest with
      | c :: name =>
          if (ceqb c quote_c && negb (existsb (ceqb quote_c) name) &&
              negb (bool_decide (name = [])))%bool
          then Some (of_bytes (rev name)) else None
      | [] => None
      end
  end.

Definition as_syntax (e : error) : option Z :=
  match e with EJSONSyntaxError o => Some o | _ => None end.
Definition as_type_mismatch (e : error) : option string :=
  match e with EJSONUnmarshalTypeError f => Some f | _ => None end.

(** [first] and [second] are what the two [Decode] calls return, [errstr] is
    the text of an error.  Only the bare [io.EOF] ends the body. *)
Definition ParseJSON (errstr : error → string) (first second : option error) : option error :=
  match first with
  | Some err =>
      Some
        (if errors_Is err IoEOF then EJSONRequestError ErrJSONEmptyBody "" 0 (Some err)
         else
           match errors_As as_syntax err with
           | Some off => EJSONRequestError ErrJSONBadSyntax "" off (Some err)
           | None =>
               if errors_Is err IoErrUnexpectedEOF then EJSONRequestError ErrJSONBadSyntax "" 0 (Some err)
               else
                 match errors_As as_type_mismatch err with
                 | Some f => EJSONRequestError ErrJSONTypeMismatch f 0 (Some err)
                 | None =>
                     match match_unknown_field (errstr err) with
                     | Some f => EJSONRequestError ErrJSONUnknownField f 0 (Some err)
                     | None => EJSONRequestError ErrJSONDecodeFailure "" 0 (Some err)
                     end
                 end
           end)
  | None =>
      match second with
      | Some (ESentinel IoEOF) => None
      | _ => Some (EJSONRequestError ErrJSONTrailingData "" 0 second)
      end
  end.

(** ** Content negotiation *)
Definition MediaTypeJSON : string := "application/json".
Definition MediaTypeProtobuf : string := "application/protobuf".
Definition MediaTypeXProtobuf : string := "application/x-protobuf".

Section negotiation.
  (** The media type of a header element, lower-cased as the library returns
      it, or nothing when it does not parse. *)
  Context (ParseMediaType : string → option string).

(** The loop over the elements: protobuf wins at once. *)
Fixpoint accept_loop (parts : list string) (jsonOK parsedAny : bool) : string + (bool * bool) :=
  match parts with
  | [] => inr (jsonOK, parsedAny)
  | part :: parts =>
      let part := TrimSpace part in
      if streqb part "" then accept_loop parts jsonOK parsedAny
      else
        match ParseMediaType part with
        | None => accept_loop parts jsonOK parsedAny
        | Some mt =>
            let mt := ToLower mt in
            if (streqb mt MediaTypeProtobuf || streqb mt MediaTypeXProtobuf)%bool
            then inl MediaTypeProtobuf
            else if (streqb mt MediaTypeJSON || streqb mt "*/*" || streqb mt "application/*")%bool
            then accept_loop parts true true
            else accept_loop parts jsonOK true
        end
  end.

Definition AcceptHeader (accept : string) : res error string :=
  let accept := TrimSpace accept in
  if streqb accept "" then Ok MediaTypeJSON
  else
    match accept_loop (Split accept ","%char) false false with
    | inl ct => Ok ct
    | inr (true, _) => Ok MediaTypeJSON
    | inr (false, parsedAny) =>
        Err (EWrap (if parsedAny then Quote accept else String.append "invalid Accept " (Quote accept))
               (ESentinel ErrNotAcceptable))
    end.

Definition RequireJSONContentType (ct : string) : option error :=
  if streqb ct "" then Some (EWrap "missing Content-Type" (ESentinel ErrUnsupportedMediaType))
  else
    match ParseMediaType ct with
    | None => Some (EWrap "invalid Content-Type" (ESentinel ErrUnsupportedMediaType))
    | Some mt => if EqualFold mt "application/json" then None
                 else Some (EWrap mt (ESentinel ErrUnsupportedMediaType))
    end.
End negotiation.

(** ** Responses *)
Definition AddVary (h : gmap string (list string)) (token : string) : gmap string (list string) :=
  let existing := default [] (h !! "Vary") in
  if existsb (λ v, existsb (λ part, EqualFold (TrimSpace part) token) (Split v ","%char)) existing
  then h else <["Vary" := existing ++ [token]]> h.

Definition write_body (w : response) (ct : string) (status : Z) (b : string) (werr : option error)
    (what : string) : response * option error :=
  let w' := mkResponse (<["Content-Type" := [ct]]> (rsHeader w)) (Some (default status (rsStatus w)))
              (match werr with Some _ => rsBody w | None => BytesBody b end) in
  (w', EWrap what <$> werr).

(** [encoded] is the encoder's result, [werr] what the connection reports. *)
Definition WriteJSON (w : response) (status : Z) (encoded : res error string) (werr : option error)
  : response * option error :=
  match encoded with
  | Err e => (w, Some (EWrap "encode json" e))
  | Ok b => write_body w "application/json; charset=utf-8" status b werr "write response"
  end.

(** [None] is a nil message. *)
Definition WriteProtobuf (w : response) (status : Z) (msg : option (res error string))
    (werr : option error) : response * option error :=
  match msg with
  | None => (w, Some (ESentinel ErrProtobufUnavailable))
  | Some (Err e) => (w, Some (EWrap "marshal protobuf" e))
  | Some (Ok b) => write_body w MediaTypeProtobuf status b werr "write protobuf response body"
  end.

Definition WriteNegotiated (ParseMediaType : string → option string) (w : response) (accept : string)
    (status : Z) (json : res error string) (msg : option (res error string)) (werr : option error)
  : response * option error :=
  match AcceptHeader ParseMediaType accept with
  | Err e => (w, Some e)
  | Ok ct =>
      let w := mkResponse (AddVary (rsHeader w) "Accept") (rsStatus w) (rsBody w) in
      if streqb ct MediaTypeProtobuf then WriteProtobuf w status msg werr
      else if streqb ct MediaTypeJSON then WriteJSON w status json werr
      else (w, Some (ESentinel ErrNotAcceptable))
  end.

(** ** Validation *)
Record ErrorDetail := mkErrorDetail { edField : string; edRule : string }.
Definition mustNotBeEmpty : string := "must not be empty".

Definition isLikelyEmail (s : string) : bool :=
  if streqb s "" then false
  else
    let n := Z.of_nat (String.length s) in
    let at_ := IndexByte s "@"%char in
    if ((at_ <=? 0)%Z || (at_ =? n - 1)%Z)%bool then false
    else if negb (IndexByte (slice_from s (at_ + 1)) "@"%char =? -1)%Z then false
    else
      let local := slice_to s at_ in
      let domain := slice_from s (at_ + 1) in
      if (streqb local "" || streqb domain "")%bool then false
      else
        let dot := LastIndexByte domain "."%char in
        if ((dot <=? 0)%Z || (dot =? Z.of_nat (String.length domain) - 1)%Z)%bool then false
        else true.

Definition validate (age : Z) (name_field name email : string) : list ErrorDetail :=
  let ed := if (age <? 0)%Z then [mkErrorDetail "age" "must be >= 0"] else [] in
  let ed := if streqb (TrimSpace name) "" then ed ++ [mkErrorDetail name_field mustNotBeEmpty] else ed in
  let email := ToLower (TrimSpace email) in
  if streqb email "" then ed ++ [mkErrorDetail "email" mustNotBeEmpty]
  else if negb (isLikelyEmail email) then ed ++ [mkErrorDetail "email" "email must be valid"]
  else ed.

Definition ValidateCreateUserInput (i : CreateUserInput) : list ErrorDetail :=
  validate (inAge i) "name" (inName i) (inEmail i).
Definition ValidateCreateUserInputV2 (i : CreateUserInputV2) : list ErrorDetail :=
  validate (in2Age i) "full_name" (in2FullName i) (in2Email i).

Definition ToInvalidParams (details : list ErrorDetail) : list InvalidParam :=
  map (λ d, mkInvalidParam (edField d) (edRule d)) details.

(** ** Entity tags *)
Definition UserETag (userID version : Z) : string :=
  of_bytes (to_bytes "W/" ++ [quote_c] ++ to_bytes "u:" ++ to_bytes (Itoa userID) ++
            to_bytes ":v:" ++ to_bytes (Itoa version) ++ [quote_c]).

Definition normalize_bytes (v : bytes) : option bytes :=
  let v := trim_bytes v in
  match v with
  | [] => None
  | _ =>
      let v := match v with
               | c :: d :: rest =>
                   if ((ceqb c "W"%char || ceqb c "w"%char) && ceqb d "/"%char)%bool
                   then trim_bytes rest else v
               | _ => v
               end in
      match v, rev v with
      | c :: _ :: _, d :: _ => if (ceqb c quote_c && ceqb d quote_c)%bool then Some v else None
      | _, _ => None
      end
  end.
Definition normalizeETag (v : string) : option bytes := normalize_bytes (to_bytes v).

Definition add_part (out : list bytes) (cur : bytes) : list bytes :=
  let part := trim_bytes (rev cur) in
  match part with [] => out | _ => out ++ [part] end.

(** The scanning loop: [cur] is the reversed text since the last separator. *)
Fixpoint split_loop (b cur : bytes) (inQuote escape : bool) (out : list bytes) : list bytes :=
  match b with
  | [] => add_part out cur
  | c :: b =>
      if escape then split_loop b (c :: cur) inQuote false out
      else if (ceqb c (chr 92) && inQuote)%bool then split_loop b (c :: cur) inQuote true out
      else if ceqb c quote_c then split_loop b (c :: cur) (negb inQuote) false out
      else if (ceqb c ","%char && negb inQuote)%bool then split_loop b [] inQuote false (add_part out cur)
      else split_loop b (c :: cur) inQuote false out
  end.
Definition splitHeaderList (s : string) : list bytes := split_loop (to_bytes s) [] false false [].

Definition IfNoneMatchMatches (ifNoneMatch currentETag : string) : bool :=
  let v := TrimSpace ifNoneMatch in
  if streqb v "" then false
  else if streqb v "*" then true
  else
    match normalizeETag currentETag with
    | None => false
    | Some cur =>
        existsb (λ cand, match normalize_bytes cand with
                         | Some n => bool_decide (n = cur)
                         | None => false
                         end) (splitHeaderList v)
    end.

(** ** Decoding errors are client errors *)
Lemma errors_Is_json k f o c s :
  errors_Is (EJSONRequestError k f o (Some c)) s =
    (bool_decide (k = s) || errors_Is c s)%bool.
Proof.
  unfold errors_Is. rewrite errors_As_unfold /=. destruct (decide (k = s)) as [->|].
  - by rewrite bool_decide_eq_true_2.
  - rewrite bool_decide_eq_false_2 //=. by destruct (errors_As _ c).
Qed.

Lemma errors_As_json {A} (p : error → option A) k f o c :
  p (EJSONRequestError k f o (Some c)) = None → p (ESentinel k) = None →
  errors_As p (EJSONRequestError k f o (Some c)) = errors_As p c.
Proof. intros H1 H2. rewrite errors_As_unfold H1 /= H2. by destruct (errors_As p c). Qed.

Definition json_kind (k : sentinel) : bool :=
  existsb (λ t, bool_decide (k = t))
    [ErrJSONEmptyBody; ErrJSONBadSyntax; ErrJSONUnknownField; ErrJSONTypeMismatch;
     ErrJSONTrailingData; ErrJSONDecodeFailure].

(** Errors of the decoder and of the connection: the only node the mapping
    would react to is the body limit. *)
Definition decoder_error (e : error) : Prop :=
  ∀ e', error_in e' e → recognised e' = false ∨ is_Some (as_max_bytes e').

Lemma json_error_status k f o c :
  json_kind k = true → decoder_error c →
  prStatus (mpProblem (MapError (Some (EJSONRequestError k f o (Some c))))) =
    match errors_As as_max_bytes c with Some _ => 413%Z | None => 400%Z end.
Proof.
  intros Hk Hc.
  assert (∀ {A} (p : error → option A), (∀ e', recognised e' = false ∨ is_Some (as_max_bytes e') →
    p e' = None) → errors_As p c = None) as Hp.
  { intros A p Hp. apply errors_As_None. intros e' Hin. by apply Hp, Hc. }
  assert (∀ s, mapped_sentinel s = true → errors_Is c s = false) as Hs.
  { intros s Hm. apply errors_Is_false. intros [Hin|[? Hin]]%Hc; simpl in Hin; congruence. }
  unfold MapError.
  rewrite !errors_As_json // (Hp _ as_bad_request) ?(Hp _ as_method_not_allowed)
    ?(Hp _ as_unauthorized) ?(Hp _ as_forbidden) ?(Hp _ as_validation);
    [intros e' [H|[? H]]; destruct e'; simpl in *; congruence..|].
  unfold map_transport. rewrite !errors_Is_json !Hs // errors_As_json //.
  destruct (errors_As as_max_bytes c); [destruct k; done|].
  unfold map_json. rewrite !errors_Is_json !Hs // !orb_false_r.
  destruct k; try done; simpl; repeat case_match; done.
Qed.

(** A request body that does not decode is always the client's error: the
    problem is a 400, or a 413 exactly when the body limit was hit, whatever
    the decoder reported (empty body, bad syntax, wrong type, unknown field,
    trailing data, an interrupted connection). *)
Theorem ParseJSON_client_errors errstr first second err :
  (∀ e, first = Some e ∨ second = Some e → decoder_error e) →
  ParseJSON errstr first second = Some err →
  prStatus (mpProblem (MapError (Some err))) =
    match errors_As as_max_bytes err with Some _ => 413%Z | None => 400%Z end.
Proof.
  intros Hdec Hp.
  assert (∀ k f o c, json_kind k = true → decoder_error c →
    prStatus (mpProblem (MapError (Some (EJSONRequestError k f o (Some c))))) =
    match errors_As as_max_bytes (EJSONRequestError k f o (Some c)) with
    | Some _ => 413%Z | None => 400%Z end) as Hst.
  { intros. rewrite errors_As_json //. by apply json_error_status. }
  unfold ParseJSON in Hp. destruct first as [e1|].
  - assert (decoder_error e1) by auto.
    assert (∃ k f o, err = EJSONRequestError k f o (Some e1) ∧ json_kind k = true)
      as (k & f & o & -> & ?) by (injection Hp as <-; repeat case_match; eauto).
    by apply Hst.
  - assert (∀ e, second = Some e → decoder_error e) as Hd2 by auto.
    destruct second as [e2|]; [|by injection Hp as <-].
    assert (decoder_error e2) by auto.
    assert (err = EJSONRequestError ErrJSONTrailingData "" 0 (Some e2)) as ->
      by (destruct e2 as [[]| | | | | | | | | | | | | | | | | | | |]; congruence).
    by apply Hst.
Qed.

Lemma ParseJSON_client_errors_witness :
  prStatus (mpProblem (MapError (Some
    (EJSONRequestError ErrJSONDecodeFailure "" 0 (Some (EMaxBytesError 1024)))))) = 413%Z.
Proof.
  apply (ParseJSON_client_errors (λ _, "http: request body too large")
    (Some (EMaxBytesError 1024)) None); [|reflexivity].
  intros e [[= <-]|[=]] e' Hin. right.
  inversion Hin as [|? c ? Hc]; subst; [exists 1024%Z; reflexivity|].
  simpl in Hc. apply elem_of_nil in Hc as [].
Defined.

(** ** The shape of an accepted address *)
Definition likely_email (b : bytes) : Prop :=
  ∃ local host tld, b = local ++ "@"%char :: host ++ "."%char :: tld ∧
    local ≠ [] ∧ host ≠ [] ∧ tld ≠ [] ∧
    "@"%char ∉ local ∧ "@"%char ∉ host ∧ "@"%char ∉ tld ∧ "."%char ∉ tld.

Lemma slice_around (s : string) (pre post : bytes) (c : ascii) :
  to_bytes s = pre ++ c :: post →
  to_bytes (slice_to s (Z.of_nat (length pre))) = pre ∧
  to_bytes (slice_from s (Z.of_nat (length pre) + 1)) = post.
Proof.
  intros Hs. unfold slice_to, slice_from. rewrite !to_of_bytes Hs. split.
  - by rewrite Nat2Z.id take_app_length.
  - rewrite (_ : Z.to_nat (Z.of_nat (length pre) + 1) = length pre + 1); [lia|].
    rewrite -drop_drop drop_app_length. done.
Qed.

(** The last dot of [domain] is inside it. *)
Lemma last_dot_spec (domain : string) :
  ((LastIndexByte domain "."%char <=? 0)%Z ||
   (LastIndexByte domain "."%char =? Z.of_nat (String.length domain) - 1)%Z)%bool = false ↔
  ∃ host tld, to_bytes domain = host ++ "."%char :: tld ∧ host ≠ [] ∧ tld ≠ [] ∧ "."%char ∉ tld.
Proof.
  unfold LastIndexByte. rewrite -length_to_bytes. set (b := to_bytes domain).
  destruct (IndexByte_from_cases (rev b) "."%char 0) as [[-> Hn]|(pre & post & Hb & Hpre & ->)].
  - split; [done|]. intros (host & tld & Hb & _). destruct Hn. rewrite Hb rev_app_distr /=.
    set_solver.
  - assert (b = rev post ++ "."%char :: rev pre) as Hb'.
    { by rewrite -(rev_involutive b) Hb rev_app_distr /= -app_assoc. }
    assert (length b = length post + 1 + length pre) as Hlen.
    { rewrite Hb' length_app /= !length_rev. lia. }
    rewrite (proj2 (Z.ltb_ge _ 0)); [lia|]. rewrite orb_false_iff Z.leb_gt Z.eqb_neq. split.
    + intros [H1 H2]. exists (rev post), (rev pre). split_and!; [done| | |].
      * intros E. apply (f_equal length) in E. rewrite length_rev /= in E. lia.
      * intros E. apply (f_equal length) in E. rewrite length_rev /= in E. lia.
      * by rewrite elem_of_rev.
    + intros (host & tld & Hb2 & Hh & Ht & Hdot).
      assert (pre = rev tld) as ->.
      { assert (rev b = rev tld ++ "."%char :: rev host) as Hb3.
        { by rewrite Hb2 rev_app_distr /= -app_assoc. }
        rewrite Hb in Hb3.
        pose proof (IndexByte_from_found _ _ _ _ 0 Hb3 ltac:(by rewrite elem_of_rev)) as Hi1.
        pose proof (IndexByte_from_found _ _ _ _ 0 (eq_refl (pre ++ "."%char :: post)) Hpre) as Hi2.
        apply app_inj_1 in Hb3 as [? _]; [done|]. rewrite Hi2 in Hi1. lia. }
      destruct tld as [|x tld]; [done|]. destruct host as [|y host]; [done|].
      apply (f_equal length) in Hb2. rewrite length_app /= in Hb2.
      rewrite length_rev /= in Hlen |- *. lia.
Qed.

(** [isLikelyEmail] accepts exactly the strings with one [@], something
    before it, and a domain whose last dot is neither first nor last. *)
Theorem isLikelyEmail_spec s : isLikelyEmail s = true ↔ likely_email (to_bytes s).
Proof.
  unfold isLikelyEmail. rewrite -length_to_bytes.
  destruct (streqb s "") eqn:Hs.
  { apply streqb_eq in Hs as ->. split; [done|]. intros (l & h & t & Hb & _). by destruct l. }
  unfold IndexByte.
  destruct (IndexByte_from_cases (to_bytes s) "@"%char 0) as [[-> Hn]|(pre & post & Hb & Hpre & ->)].
  { split; [done|]. intros (l & h & t & Hb & _). destruct Hn. rewrite Hb.
    apply elem_of_app. right. left. }
  destruct (slice_around s pre post "@"%char Hb) as [Hto Hfrom]. rewrite Z.add_0_l.
  assert (likely_email (to_bytes s) ↔ pre ≠ [] ∧ "@"%char ∉ post ∧
    ∃ host tld, post = host ++ "."%char :: tld ∧ host ≠ [] ∧ tld ≠ [] ∧ "."%char ∉ tld) as ->.
  { rewrite Hb. split.
    - intros (l & h & t & He & Hl & Hh & Ht & H1 & H2 & H3 & H4).
      assert (pre = l ∧ "@"%char :: post = "@"%char :: h ++ "."%char :: t) as [-> [= ->]].
      { apply app_inj_1; [|done].
        pose proof (IndexByte_from_found _ _ _ _ 0 He H1) as Hi1.
        pose proof (IndexByte_from_found _ _ _ _ 0 (eq_refl (pre ++ "@"%char :: post)) Hpre) as Hi2.
        rewrite Hi2 in Hi1. lia. }
      split_and!; [done| |eauto 10].
      rewrite elem_of_app elem_of_cons. intros [?|[[=]|?]]; done.
    - intros (Hp & Hat & h & t & -> & Hh & Ht & Hdot). exists pre, h, t.
      rewrite elem_of_app elem_of_cons in Hat. split_and!; try done; intros ?; apply Hat; tauto. }
  destruct (_ || _)%bool eqn:Hpos.
  { apply orb_true_iff in Hpos as [Hz%Z.leb_le|Hz%Z.eqb_eq]; (split; [done|]).
    - intros [Hp _]. destruct pre; [done|simpl in Hz; lia].
    - intros (_ & _ & h & t & -> & ?). rewrite Hb !length_app /= length_app /= in Hz. lia. }
  apply orb_false_iff in Hpos as [Hz%Z.leb_gt Hz2%Z.eqb_neq].
  rewrite Hfrom. destruct (Z.eqb_spec (IndexByte_from 0 post "@"%char) (-1)) as [Hat|Hat]; simpl.
  2:{ split; [done|]. intros (_ & Hn & _). by apply (IndexByte_from_absent _ _ 0) in Hn. }
  assert ("@"%char ∉ post) as Hn.
  { destruct (IndexByte_from_cases post "@"%char 0) as [[_ ?]|(p & q & -> & _ & E)]; [done|lia]. }
  destruct (streqb (slice_to s _) "") eqn:El.
  { apply streqb_eq in El. rewrite El in Hto. simpl in Hto. subst pre. simpl in Hz. lia. }
  destruct (streqb (slice_from s _) "") eqn:Ed; simpl.
  { apply streqb_eq in Ed. rewrite Ed in Hfrom. simpl in Hfrom. subst post.
    rewrite Hb length_app /= in Hz2. lia. }
  assert (pre ≠ []) as Hpne by (intros ->; simpl in Hz; lia).
  pose proof (last_dot_spec (slice_from s (Z.of_nat (length pre) + 1))) as Hld. rewrite Hfrom in Hld.
  destruct (_ || _)%bool eqn:E2; [split; [done|]|split; [|done]].
  - intros (_ & _ & Hex). apply Hld in Hex. congruence.
  - intros _. split_and!; [done|done|]. by apply Hld.
Qed.

(** ** Conditional requests *)
Definition plain_char (c : ascii) : Prop := c ≠ quote_c ∧ c ≠ chr 92 ∧ c ≠ ":"%char.

Lemma digit_plain c : is_Some (digit c) → plain_char c.
Proof. intros Hd. split_and!; intros ->; by destruct Hd. Qed.

Lemma Itoa_plain n : int64_ok n → Forall plain_char (to_bytes (Itoa n)).
Proof.
  unfold int64_ok, int_min, int_max. intros Hn. unfold Itoa. rewrite to_of_bytes.
  destruct (Z.ltb_spec n 0).
  - destruct (digits_of_spec 20 (- n) []) as (_ & Hd & _); [simpl; lia|done|constructor|].
    apply list.Forall_cons. split; [by split_and!|]. eapply list.Forall_impl; [exact Hd|apply digit_plain].
  - destruct (digits_of_spec 20 n []) as (_ & Hd & _); [simpl; lia|done|constructor|].
    eapply list.Forall_impl; [exact Hd|apply digit_plain].
Qed.

Definition etag_body (userID version : Z) : bytes :=
  to_bytes "u:" ++ to_bytes (Itoa userID) ++ to_bytes ":v:" ++ to_bytes (Itoa version).
Definition etag_quoted (userID version : Z) : bytes :=
  quote_c :: etag_body userID version ++ [quote_c].

Lemma UserETag_bytes i v : to_bytes (UserETag i v) = "W"%char :: "/"%char :: etag_quoted i v.
Proof. unfold UserETag, etag_quoted, etag_body. rewrite to_of_bytes /= -!app_assoc. done. Qed.

Lemma trim_quoted b x :
  strip_any space_runes (b ++ quote_c :: x ++ [quote_c]) = None →
  trim_bytes (b ++ quote_c :: x ++ [quote_c]) = b ++ quote_c :: x ++ [quote_c].
Proof.
  intros H. apply trim_bytes_id; [done|].
  rewrite rev_app_distr /= rev_app_distr /=. reflexivity.
Qed.

Lemma normalize_UserETag i v : normalizeETag (UserETag i v) = Some (etag_quoted i v).
Proof.
  unfold normalizeETag, normalize_bytes. rewrite UserETag_bytes.
  pose proof (trim_quoted ["W"%char; "/"%char] (etag_body i v) eq_refl) as Ht. simpl in Ht.
  unfold etag_quoted. rewrite Ht. cbn -[trim_bytes quote_c app rev].
  rewrite (trim_quoted [] (etag_body i v) eq_refl) app_nil_l.
  destruct (etag_body i v ++ [quote_c]) as [|c l] eqn:E; [by destruct (etag_body i v)|].
  rewrite -E. cbn [rev]. rewrite rev_app_distr. cbn -[quote_c]. by rewrite ceqb_refl.
Qed.

Lemma split_loop_plain x : ∀ rest cur out,
  Forall (λ c, c ≠ quote_c ∧ c ≠ chr 92) x →
  split_loop (x ++ rest) cur true false out = split_loop rest (rev x ++ cur) true false out.
Proof.
  induction x as [|c x IH]; intros rest cur out Hx; [done|].
  apply list.Forall_cons in Hx as [[Hq Hb] Hx]. simpl.
  rewrite (proj2 (ceqb_neq c (chr 92)) Hb) (proj2 (ceqb_neq c quote_c) Hq) /= andb_false_r.
  rewrite IH // -app_assoc. done.
Qed.

Lemma etag_body_plain i v :
  int64_ok i → int64_ok v → Forall (λ c, c ≠ quote_c ∧ c ≠ chr 92) (etag_body i v).
Proof.
  intros Hi Hv. unfold etag_body. rewrite !list.Forall_app. split_and!.
  - repeat constructor; done.
  - eapply list.Forall_impl; [by apply Itoa_plain|]. intros c (? & ? & _). done.
  - repeat constructor; done.
  - eapply list.Forall_impl; [by apply Itoa_plain|]. intros c (? & ? & _). done.
Qed.

Lemma splitHeaderList_UserETag i v :
  int64_ok i → int64_ok v →
  splitHeaderList (UserETag i v) = [to_bytes (UserETag i v)].
Proof.
  intros Hi Hv. unfold splitHeaderList. rewrite UserETag_bytes. unfold etag_quoted.
  cbn -[trim_bytes app rev etag_body]. rewrite split_loop_plain; [by apply etag_body_plain|].
  cbn -[trim_bytes app rev etag_body]. unfold add_part.
  set (whole := rev (_ :: _)).
  assert (whole = ["W"%char; "/"%char] ++ quote_c :: etag_body i v ++ [quote_c]) as ->.
  { unfold whole. cbn [rev]. rewrite rev_app_distr rev_involutive /=. done. }
  rewrite (trim_quoted ["W"%char; "/"%char] (etag_body i v) eq_refl). done.
Qed.

(** The text before the first separator determines both parts. *)
Lemma etag_quoted_inj i v i' v' :
  int64_ok i → int64_ok v → int64_ok i' → int64_ok v' →
  etag_quoted i v = etag_quoted i' v' → i = i' ∧ v = v'.
Proof.
  intros Hi Hv Hi' Hv' E. unfold etag_quoted, etag_body in E. simpl in E.
  injection E as E. rewrite -!app_assoc /= in E.
  assert (∀ n, int64_ok n → ":"%char ∉ to_bytes (Itoa n) ∧ quote_c ∉ to_bytes (Itoa n)) as Hplain.
  { intros n Hn. pose proof (Itoa_plain n Hn) as Hp.
    split; intros Hin; eapply list.Forall_forall in Hp; [|done| |done]; by destruct Hp as (? & ? & ?). }
  apply app_sep_inj in E as [Ei Ev]; [|by apply Hplain..]. simpl in Ev. injection Ev as Ev.
  apply app_sep_inj in Ev as [Ev _]; [|by apply Hplain..].
  assert (∀ n n', int64_ok n → int64_ok n' → to_bytes (Itoa n) = to_bytes (Itoa n') → n = n') as Hinj.
  { intros n n' Hn Hn' En. apply (f_equal of_bytes) in En. rewrite !of_to_bytes in En.
    apply (f_equal Atoi) in En. rewrite !Atoi_Itoa // in En. congruence. }
  split; by apply Hinj.
Qed.

(** A tag matches another one sent as [If-None-Match] exactly when id and
    version agree, for all 64-bit ids and versions (format, quoting, list
    splitting and weak comparison included). *)
Lemma IfNoneMatch_UserETag i v i' v' :
  int64_ok i → int64_ok v → int64_ok i' → int64_ok v' →
  (IfNoneMatchMatches (UserETag i v) (UserETag i' v') = true ↔ i = i' ∧ v = v').
Proof.
  intros Hi Hv Hi' Hv'. unfold IfNoneMatchMatches, TrimSpace.
  pose proof (trim_quoted ["W"%char; "/"%char] (etag_body i v) eq_refl) as Ht. simpl in Ht.
  assert (of_bytes (trim_bytes (to_bytes (UserETag i v))) = UserETag i v) as ->.
  { rewrite UserETag_bytes. unfold etag_quoted. rewrite Ht. rewrite -(of_to_bytes (UserETag i v)).
    by rewrite UserETag_bytes. }
  assert (∃ x, UserETag i v = String "W" (String "/" x)) as [x Hx].
  { rewrite -(of_to_bytes (UserETag i v)) UserETag_bytes. simpl. by eexists. }
  rewrite (proj2 (streqb_neq (UserETag i v) "")); [rewrite Hx; done|].
  rewrite (proj2 (streqb_neq (UserETag i v) "*")); [rewrite Hx; done|].
  rewrite normalize_UserETag splitHeaderList_UserETag //. cbn [existsb].
  pose proof (normalize_UserETag i v) as Hn. unfold normalizeETag in Hn. rewrite Hn orb_false_r.
  rewrite bool_decide_eq_true. split; [by apply etag_quoted_inj|by intros [-> ->]].
Qed.
