(* ===== verification/Security.v ===== *)
(** * Authentication and the access policy

    Models [internal/security]: principals, the JWT verifier with its key
    rotation, the access matrix and the conversion of verifier errors.  The
    [golang-jwt] parser is a parameter; what the code relies on is that it
    accepts a token only under a key the key function returned for the token's
    header, with an allowed algorithm and a matching signature. *)
From S2P Require Import Prelude.
From S2P Require Import GoErrors.
From S2P Require Import GoStrings.

Definition Role := string.
Definition RoleAdmin : Role := "admin".
Definition RoleUser : Role := "user".

Record Principal := mkPrincipal { pUserID : Z; pRole : Role }.
#[export] Instance Principal_eq_dec : EqDecision Principal.
Proof. solve_decision. Defined.

(** ** The access matrix *)
Definition AccessLevel := Z.
Definition AccessPublic : AccessLevel := 0%Z.
Definition AccessAuthenticated : AccessLevel := 1%Z.
Definition AccessAdminOnly : AccessLevel := 2%Z.
Definition ResourceNone : Z := 0.
Definition ResourceSelfOnly : Z := 1.

Record RouteRule := mkRouteRule {
  Pattern : string;
  Methods : list string;
  Access : AccessLevel;
  ResourceConstraint : Z;
  Notes : string;
}.

Definition DefaultPolicy : list RouteRule :=
  [mkRouteRule "/livez" ["GET"] AccessPublic ResourceNone "";
   mkRouteRule "/readyz" ["GET"] AccessPublic ResourceNone "";
   mkRouteRule "/debug/" ["GET"] AccessAdminOnly ResourceNone "только когда HTTP_DEBUG=true";
   mkRouteRule "GET /api/v1/users" ["GET"] AccessAdminOnly ResourceNone "";
   mkRouteRule "POST /api/v1/users" ["POST"] AccessAdminOnly ResourceNone "";
   mkRouteRule "/api/v1/users" ["*"] AccessAdminOnly ResourceNone
     "fallback коллекции (хелпер для 405)";
   mkRouteRule "/api/v1/users/{id}" ["GET"] AccessAuthenticated ResourceSelfOnly "";
   mkRouteRule "/api/v1/users/{id}/export" ["GET"] AccessAuthenticated ResourceSelfOnly "";
   mkRouteRule "/api/v1/users/{id}/profile" ["GET"] AccessAuthenticated ResourceSelfOnly "";
   mkRouteRule "/api/v1/jobs/{id}/events" ["GET"] AccessAuthenticated ResourceNone "";
   mkRouteRule "/api/v1/jobs/{id}" ["GET"] AccessAdminOnly ResourceNone "";
   mkRouteRule "/api/v1/jobs/{id}/grpc" ["GET"] AccessAdminOnly ResourceNone "";
   mkRouteRule "GET /api/v2/users" ["GET"] AccessAdminOnly ResourceNone "";
   mkRouteRule "POST /api/v2/users" ["POST"] AccessAdminOnly ResourceNone "";
   mkRouteRule "/api/v2/users" ["*"] AccessAdminOnly ResourceNone
     "fallback коллекции (хелпер для 405)"].

Definition CanReadUser (p : Principal) (targetID : Z) : bool :=
  (streqb (pRole p) RoleAdmin || (pUserID p =? targetID)%Z)%bool.
Definition CanReadJob (p : Principal) (ownerID : Z) : bool :=
  (streqb (pRole p) RoleAdmin || (pUserID p =? ownerID)%Z)%bool.

(** ** Errors *)
Definition as_authn (e : error) : option AuthNErrorKind :=
  match e with EAuthNError k _ => Some k | _ => None end.
Definition as_authz (e : error) : option AuthZErrorKind :=
  match e with EForbiddenError k _ => Some k | _ => None end.

Definition AuthNKind (err : error) : option AuthNErrorKind := errors_As as_authn err.
Definition AuthZKind (err : error) : option AuthZErrorKind := errors_As as_authz err.

Definition NewUnauthorized (kind : AuthNErrorKind) (cause : option error) : error :=
  EUnauthorizedError kind cause.
Definition NewForbidden (kind : AuthZErrorKind) (cause : option error) : error :=
  EForbiddenError kind cause.

Definition UnauthorizedFromVerifyErr (err : option error) : error :=
  match err with
  | None => NewUnauthorized AuthNInvalid None
  | Some e =>
      match AuthNKind e with
      | Some kind => NewUnauthorized kind (Some e)
      | None => NewUnauthorized AuthNInvalid (Some e)
      end
  end.

(** ** The verifier *)
Record HMACKey := mkHMACKey { KID : string; Secret : string }.

(** The claims the code reads and the header fields its key function reads:
    [hdrKid] is absent, not a string, or a string. *)
Record jwtClaims := mkJwtClaims { Subject : string; claimRole : string }.
Inductive kid_field : Type := KidAbsent | KidNotString | KidString (kid : string).
Record jwtHeader := mkJwtHeader { hdrAlg : option string; hdrKid : kid_field }.

(** The parser options the constructor chooses. *)
Record parserOpts := mkParserOpts {
  ValidMethods : list string;
  Leeway : Z;
  ExpirationRequired : bool;
  Issuer : option string;
  Audience : option string;
}.

Record JWTVerifierHS256 := mkJWTVerifier {
  vOpts : parserOpts;
  allowedAlg : string;
  keys : list HMACKey;
  keysByKID : gmap string string;
}.

(** The loop over the keys. *)
Fixpoint collect_keys (ks : list HMACKey) (acc : gmap string string) : res error (gmap string string) :=
  match ks with
  | [] => Ok acc
  | k :: ks =>
      if streqb (KID k) "" then Err (EText "jwt verifier: kid is empty")
      else if streqb (Secret k) "" then Err (EText "jwt verifier: secret is empty for kid")
      else if decide (is_Some (acc !! KID k)) then Err (EText "jwt verifier: duplicate kid")
      else collect_keys ks (<[KID k := Secret k]> acc)
  end.

Definition NewJWTVerifierHS256 (alg issuer audience : string) (clockSkew : Z) (ks : list HMACKey)
  : res error JWTVerifierHS256 :=
  if negb (streqb alg "HS256") then Err (EText "jwt verifier: unsupported alg")
  else if (clockSkew <? 0)%Z then Err (EText "jwt verifier: clockSkew must be >= 0")
  else if bool_decide (ks = []) then Err (EText "jwt verifier: at least 1 key is required")
  else
    match collect_keys ks ∅ with
    | Err e => Err e
    | Ok byKID =>
        Ok (mkJWTVerifier
              (mkParserOpts [alg] clockSkew true
                 (if streqb issuer "" then None else Some issuer)
                 (if streqb audience "" then None else Some audience))
              alg ks byKID)
    end.

Definition principalFromClaims (c : jwtClaims) : res error Principal :=
  if streqb (Subject c) "" then Err (EAuthNError AuthNInvalid (Some (EText "missing sub")))
  else
    match Atoi (Subject c) with
    | None => Err (EAuthNError AuthNInvalid (Some (EText "invalid sub")))
    | Some uid =>
        if (uid <=? 0)%Z then Err (EAuthNError AuthNInvalid (Some (EText "invalid sub")))
        else if streqb (claimRole c) "" then Ok (mkPrincipal uid RoleUser)
        else if (streqb (claimRole c) RoleUser || streqb (claimRole c) RoleAdmin)%bool
        then Ok (mkPrincipal uid (claimRole c))
        else Err (EAuthNError AuthNInvalid (Some (EText "invalid role")))
    end.

Definition mapJWTParseError (err : error) : error :=
  if errors_Is err JwtErrTokenSignatureInvalid then EAuthNError AuthNInvalid (Some err)
  else if errors_Is err JwtErrTokenExpired then EAuthNError AuthNExpired (Some err)
  else if errors_Is err JwtErrTokenNotValidYet then EAuthNError AuthNNotYetValid (Some err)
  else EAuthNError AuthNInvalid (Some err).

Section verifier.
  (** [parser.ParseWithClaims]: the claims and the token's [Valid] flag. *)
  Context (ParseWithClaims : parserOpts → string → (jwtHeader → res error string) →
                             res error (jwtClaims * bool)).

Definition keyFuncByKID (v : JWTVerifierHS256) (t : jwtHeader) : res error string :=
  if negb (bool_decide (hdrAlg t = Some (allowedAlg v))) then Err (EText "unexpected alg")
  else
    match hdrKid t with
    | KidAbsent => Err (ESentinel errNoKID)
    | KidNotString => Err (EText "invalid kid header")
    | KidString kid =>
        if streqb kid "" then Err (EText "invalid kid header")
        else match keysByKID v !! kid with
             | None => Err (EText "unknown kid")
             | Some sec => Ok sec
             end
    end.

Definition keyFuncFixed (v : JWTVerifierHS256) (secret : string) (t : jwtHeader) : res error string :=
  if negb (bool_decide (hdrAlg t = Some (allowedAlg v))) then Err (EText "unexpected alg")
  else Ok secret.

Definition verify_with (v : JWTVerifierHS256) (tok : string) (kf : jwtHeader → res error string)
  : res error Principal :=
  match ParseWithClaims (vOpts v) tok kf with
  | Err e => Err e
  | Ok (claims, valid) =>
      if negb valid then Err (EText "token is not valid") else principalFromClaims claims
  end.

Definition tryVerifyByKID (v : JWTVerifierHS256) (tok : string) : res error Principal :=
  verify_with v tok (keyFuncByKID v).
Definition tryVerifyWithKey (v : JWTVerifierHS256) (tok secret : string) : res error Principal :=
  verify_with v tok (keyFuncFixed v secret).

(** The rotation loop: only a bad signature moves on to the next key. *)
Fixpoint verify_keys (v : JWTVerifierHS256) (tok : string) (ks : list HMACKey) (lastErr : option error)
  : res error Principal :=
  match ks with
  | [] => Err (EAuthNError AuthNInvalid (Some (default (ESentinel JwtErrTokenSignatureInvalid) lastErr)))
  | k :: ks =>
      match tryVerifyWithKey v tok (Secret k) with
      | Ok p => Ok p
      | Err err =>
          if errors_Is err JwtErrTokenSignatureInvalid then verify_keys v tok ks (Some err)
          else Err (mapJWTParseError err)
      end
  end.

Definition Verify (v : JWTVerifierHS256) (tok : string) : res error Principal :=
  match tryVerifyByKID v tok with
  | Ok p => Ok p
  | Err err =>
      if negb (errors_Is err errNoKID) then Err (mapJWTParseError err)
      else verify_keys v tok (keys v) None
  end.

(** *** Soundness

    [signed tok hdr sec c]: the token has header [hdr] and claims [c] and its
    MAC verifies under [sec]. *)
Context (signed : string → jwtHeader → string → jwtClaims → Prop).
Context (Parse_sound : ∀ o tok kf c b, ParseWithClaims o tok kf = Ok (c, b) →
  ∃ hdr sec, kf hdr = Ok sec ∧ signed tok hdr sec c ∧
    ∃ alg, hdrAlg hdr = Some alg ∧ alg ∈ ValidMethods o).

Lemma collect_keys_lookup ks : ∀ acc m kid sec,
  collect_keys ks acc = Ok m → m !! kid = Some sec →
  acc !! kid = Some sec ∨ ∃ k, k ∈ ks ∧ KID k = kid ∧ Secret k = sec.
Proof.
  induction ks as [|k ks IH]; intros acc m kid sec Hc Hm; simpl in Hc.
  - injection Hc as ->. by left.
  - repeat case_match; try done.
    destruct (IH _ _ _ _ Hc Hm) as [Ha|(k' & ? & ? & ?)].
    + rewrite lookup_insert in Ha. destruct (decide (KID k = kid)); [|by left].
      injection Ha as <-. right. exists k. split; [left|done].
    + right. exists k'. split; [by right|done].
Qed.

Lemma principalFromClaims_ok c p :
  principalFromClaims c = Ok p →
  Atoi (Subject c) = Some (pUserID p) ∧ (0 < pUserID p)%Z ∧ (pRole p = RoleUser ∨ pRole p = RoleAdmin) ∧
  (pRole p = RoleAdmin → claimRole c = RoleAdmin).
Proof.
  unfold principalFromClaims. intros Hp. repeat case_match; simplify_eq/=; reflect_bools;
    (split_and!; [done|lia| |]); try done; auto.
  apply orb_true_iff in H3 as [?%streqb_eq|?%streqb_eq]; auto.
Qed.

(** The principal comes from a token signed under [sec] with the pinned algorithm. *)
Definition authentic (tok : string) (sec : string) (hdr : jwtHeader) (p : Principal) : Prop :=
  hdrAlg hdr = Some "HS256" ∧ ∃ c, signed tok hdr sec c ∧ principalFromClaims c = Ok p.

Lemma verify_with_ok v tok kf p :
  verify_with v tok kf = Ok p → ValidMethods (vOpts v) = ["HS256"] →
  ∃ hdr sec, kf hdr = Ok sec ∧ authentic tok sec hdr p.
Proof.
  unfold verify_with. intros Hv Hm. destruct (ParseWithClaims _ _ _) as [[c b]|] eqn:E; [|done].
  destruct b; [|done]. simpl in Hv.
  apply Parse_sound in E as (hdr & sec & Hk & Hs & alg & Ha & Hin). rewrite Hm in Hin.
  apply list_elem_of_singleton in Hin as ->. exists hdr, sec. split; [done|]. split; eauto.
Qed.

(** (C25) No token is accepted without a configured key: when [Verify] returns a
    principal, the token is signed with HS256 under one of the keys the
    verifier was built with (the named one when the key id selected it), its
    subject is that positive user id, and an admin role is in its claims. *)
Theorem Verify_sound alg issuer audience skew ks v tok p :
  NewJWTVerifierHS256 alg issuer audience skew ks = Ok v → Verify v tok = Ok p →
  ∃ k hdr, k ∈ ks ∧ Secret k ≠ EmptyString ∧ authentic tok (Secret k) hdr p ∧
    (0 < pUserID p)%Z ∧ (pRole p = RoleUser ∨ pRole p = RoleAdmin).
Proof.
  intros Hnew Hv.
  assert (∀ sec hdr, authentic tok sec hdr p →
    (0 < pUserID p)%Z ∧ (pRole p = RoleUser ∨ pRole p = RoleAdmin)) as Hauth.
  { intros sec hdr (_ & c & _ & Hc). apply principalFromClaims_ok in Hc. tauto. }
  unfold NewJWTVerifierHS256 in Hnew.
  destruct (negb (streqb alg "HS256")) eqn:Halg; [done|].
  destruct (skew <? 0)%Z; [done|]. destruct (bool_decide (ks = [])); [done|].
  destruct (collect_keys ks ∅) as [byKID|] eqn:Hck; [|done]. injection Hnew as <-.
  apply negb_false_iff, streqb_eq in Halg as ->.
  assert (∀ k, k ∈ ks → Secret k ≠ EmptyString) as Hne.
  { clear -Hck. revert Hck. generalize (∅ : gmap string string).
    induction ks as [|k ks IH]; intros acc Hck k' Hk'; [by apply elem_of_nil in Hk'|].
    simpl in Hck. repeat case_match; try done. reflect_bools.
    apply elem_of_cons in Hk' as [->|?]; [done|by eapply IH]. }
  unfold Verify in Hv. destruct (tryVerifyByKID _ tok) as [p'|err] eqn:Hkid.
  - injection Hv as ->. apply verify_with_ok in Hkid as (hdr & sec & Hk & Ha); [|done].
    unfold keyFuncByKID in Hk. simpl in Hk. destruct (negb _); [done|].
    destruct (hdrKid hdr) as [| |kid]; try done. destruct (streqb kid ""); [done|].
    destruct (byKID !! kid) as [sec'|] eqn:Hl; [|done]. injection Hk as ->.
    destruct (collect_keys_lookup _ _ _ _ _ Hck Hl) as [Hx|(k & Hin & _ & <-)];
      [by rewrite lookup_empty in Hx|].
    exists k, hdr. split_and!; eauto; by eapply Hauth.
  - destruct (negb _); [done|]. simpl in Hv.
    assert (∀ ks' last, (∀ k, k ∈ ks' → k ∈ ks) → verify_keys (mkJWTVerifier
        (mkParserOpts ["HS256"] skew true (if streqb issuer "" then None else Some issuer)
           (if streqb audience "" then None else Some audience)) "HS256" ks byKID) tok ks' last = Ok p →
      ∃ k hdr, k ∈ ks ∧ authentic tok (Secret k) hdr p) as Hloop.
    { clear Hv. induction ks' as [|k ks' IH]; intros last Hsub Hv; [done|]. simpl in Hv.
      destruct (tryVerifyWithKey _ tok (Secret k)) as [p'|e] eqn:Ht.
      - injection Hv as ->. apply verify_with_ok in Ht as (hdr & sec & Hk & Ha); [|done].
        unfold keyFuncFixed in Hk. case_match; [done|]. injection Hk as <-.
        exists k, hdr. split; [apply Hsub; left|done].
      - case_match; [|done]. eapply IH; [|done]. intros k' ?. apply Hsub. by right. }
    destruct (Hloop ks None) as (k & hdr & Hin & Ha); [done|done|].
    exists k, hdr. split_and!; eauto; by eapply Hauth.
Qed.
End verifier.

(** A parser for one token, signed under one secret. *)
Definition ex_claims : jwtClaims := mkJwtClaims "42" "admin".
Definition ex_header : jwtHeader := mkJwtHeader (Some "HS256") KidAbsent.
Definition ex_Parse (o : parserOpts) (tok : string) (kf : jwtHeader → res error string)
  : res error (jwtClaims * bool) :=
  match kf ex_header with
  | Err e => Err (EWrap "unverifiable" e)
  | Ok sec =>
      if (streqb sec "s2" && existsb (streqb "HS256") (ValidMethods o))%bool then Ok (ex_claims, true)
      else Err (ESentinel JwtErrTokenSignatureInvalid)
  end.
Definition ex_signed (tok : string) (hdr : jwtHeader) (sec : string) (c : jwtClaims) : Prop :=
  hdr = ex_header ∧ sec = "s2" ∧ c = ex_claims.

Lemma ex_Parse_sound o tok kf c b :
  ex_Parse o tok kf = Ok (c, b) →
  ∃ hdr sec, kf hdr = Ok sec ∧ ex_signed tok hdr sec c ∧
    ∃ alg, hdrAlg hdr = Some alg ∧ alg ∈ ValidMethods o.
Proof.
  unfold ex_Parse. destruct (kf ex_header) as [sec|] eqn:Hk; [|done].
  destruct (streqb sec "s2") eqn:Es; [|done]. apply streqb_eq in Es as ->. simpl.
  destruct (existsb _ _) eqn:Ee; [|done]. intros [= <- _].
  exists ex_header, "s2". split; [done|]. split; [done|]. exists "HS256". split; [done|].
  apply existsb_exists in Ee as (x & ?%list_elem_of_In & <-%streqb_eq). done.
Qed.

(** A token without key id, after a rotation: the second key verifies it. *)
Lemma Verify_sound_witness :
  ∃ v, NewJWTVerifierHS256 "HS256" "" "" 0 [mkHMACKey "k1" "s1"; mkHMACKey "k2" "s2"] = Ok v ∧
    Verify ex_Parse v "tok" = Ok (mkPrincipal 42 RoleAdmin) ∧
    ∃ k hdr, k ∈ [mkHMACKey "k1" "s1"; mkHMACKey "k2" "s2"] ∧ Secret k ≠ EmptyString ∧
      authentic ex_signed "tok" (Secret k) hdr (mkPrincipal 42 RoleAdmin) ∧
      (0 < 42)%Z ∧ (RoleAdmin = RoleUser ∨ RoleAdmin = RoleAdmin).
Proof.
  destruct (NewJWTVerifierHS256 "HS256" "" "" 0 [mkHMACKey "k1" "s1"; mkHMACKey "k2" "s2"])
    as [v|] eqn:Ev; [|vm_compute in Ev; discriminate Ev].
  exists v. split; [reflexivity|].
  assert (Verify ex_Parse v "tok" = Ok (mkPrincipal 42 RoleAdmin)) as Hv.
  { vm_compute in Ev. injection Ev as <-. vm_compute. reflexivity. }
  split; [exact Hv|].
  exact (Verify_sound ex_Parse ex_signed ex_Parse_sound "HS256" "" "" 0
    [mkHMACKey "k1" "s1"; mkHMACKey "k2" "s2"] v "tok" (mkPrincipal 42 RoleAdmin) Ev Hv).
Defined.
