(* ===== verification/Middleware.v ===== *)
(** * HTTP middleware and the gRPC auth interceptor

    Models [internal/middleware] (authentication, authorisation, bulkhead, rate
    limiter, CORS, trusted proxies, security headers), [internal/requestid] and
    [internal/interceptors/auth.go].  A handler is a function of the request
    that produces a result; middleware wrap it.  [net.ParseIP],
    [net.SplitHostPort], the token verifier and the rate limiter are
    parameters. *)
From Stdlib Require Import Ascii.
From S2P Require Import Prelude.
From S2P Require Import GoErrors.
From S2P Require Import GoStrings.
From S2P Require Import HttpErrors.
From S2P Require Import HttpUtils.
From S2P Require Import Security.

(** ** Authentication and authorisation *)
Module Auth.

Record hreq := mkHreq {
  method : string;
  pattern : string;
  authorization : string;
  principal : option Principal;
}.

(** The process-wide counters. *)
Record counters := mkCounters { forbiddenTotal : Z; authnFailures : gmap string Z }.

Definition handler (A : Type) := hreq → counters → counters * res error A.

Definition authNKindOrOther (err : error) : AuthNErrorKind :=
  match AuthNKind err with Some k => k | None => "other" end.

Definition incAuthN (kind : AuthNErrorKind) (c : counters) : counters :=
  mkCounters (forbiddenTotal c) (<[kind := (default 0%Z (authnFailures c !! kind) + 1)%Z]> (authnFailures c)).

Definition parseBearerToken (hdr : string) : res error string :=
  let hdr := TrimSpace hdr in
  if streqb hdr "" then Err (NewUnauthorized AuthNMissing None)
  else
    match Fields hdr with
    | [scheme; tok] =>
        if negb (EqualFold scheme "Bearer") then Err (NewUnauthorized AuthNInvalid None)
        else
          let token := TrimSpace tok in
          if streqb token "" then Err (NewUnauthorized AuthNInvalid None) else Ok token
    | _ => Err (NewUnauthorized AuthNInvalid None)
    end.

Section chain.
  Context {A : Type} (Verify : string → res error Principal).

Definition Authenticate (next : handler A) : handler A := λ r c,
  if streqb (method r) "OPTIONS" then next r c
  else
    match parseBearerToken (authorization r) with
    | Err e => (incAuthN (authNKindOrOther e) c, Err e)
    | Ok token =>
        match Verify token with
        | Err e =>
            let uerr := UnauthorizedFromVerifyErr (Some e) in
            (incAuthN (authNKindOrOther uerr) c, Err uerr)
        | Ok p => next (mkHreq (method r) (pattern r) (authorization r) (Some p)) c
        end
    end.

Definition incForbidden (c : counters) : counters := mkCounters (forbiddenTotal c + 1) (authnFailures c).

Definition Authorize (rules : gmap string RouteRule) (next : handler A) : handler A := λ r c,
  if streqb (method r) "OPTIONS" then next r c
  else if streqb (pattern r) "" then
    (c, Err (EText "authorize: empty r.Pattern (Authorize must run after ServeMux)"))
  else
    match rules !! pattern r with
    | None => (incForbidden c, Err (NewForbidden AuthZNoPolicyRule None))
    | Some rule =>
        if (Access rule =? AccessPublic)%Z then next r c
        else if (Access rule =? AccessAuthenticated)%Z then
          match principal r with
          | None => (c, Err (EText "authorize: principal missing (Authenticate must run before Authorize)"))
          | Some _ => next r c
          end
        else if (Access rule =? AccessAdminOnly)%Z then
          match principal r with
          | None => (c, Err (EText "authorize: principal missing (Authenticate must run before Authorize)"))
          | Some p =>
              if negb (streqb (pRole p) RoleAdmin)
              then (incForbidden c, Err (NewForbidden AuthZAdminRequired None))
              else next r c
          end
        else (incForbidden c, Err (NewForbidden AuthZUnknownAccess None))
    end.
End chain.

(** The rule table; the first bad rule is an error. *)
Fixpoint collect_rules (policy : list RouteRule) (acc : gmap string RouteRule)
  : res error (gmap string RouteRule) :=
  match policy with
  | [] => Ok acc
  | rr :: policy =>
      if streqb (Pattern rr) "" then Err (EText "authorize api: empty rule pattern")
      else if decide (is_Some (acc !! Pattern rr)) then Err (EText "authorize api: duplicate rule pattern")
      else collect_rules policy (<[Pattern rr := rr]> acc)
  end.
Definition NewAuthorizeAPI (policy : list RouteRule) : res error (gmap string RouteRule) :=
  match policy with
  | [] => Err (EText "authorize api: policy is empty")
  | _ => collect_rules policy ∅
  end.

(** What the policy demands before a handler may see a request. *)
Definition access_granted (Verify : string → res error Principal) (rules : gmap string RouteRule)
    (r r' : hreq) : Prop :=
  ∃ rule token p, rules !! pattern r = Some rule ∧ method r' = method r ∧ pattern r' = pattern r ∧
    parseBearerToken (authorization r) = Ok token ∧ Verify token = Ok p ∧ principal r' = Some p ∧
    (Access rule = AccessAdminOnly → pRole p = RoleAdmin) ∧
    (Access rule = AccessPublic ∨ Access rule = AccessAuthenticated ∨ Access rule = AccessAdminOnly).

(** Errors of a token verifier: nothing in them has an HTTP meaning of its own. *)
Definition verifier_error (e : error) : Prop := ∀ e', error_in e' e → recognised e' = false.

Lemma unauthorized_status k cause :
  (∀ e, cause = Some e → verifier_error e) →
  prStatus (mpProblem (MapError (Some (EUnauthorizedError k cause)))) = 401%Z.
Proof.
  intros Hc. unfold MapError.
  assert (∀ {A} (p : error → option A), (∀ e', recognised e' = false → p e' = None) →
    p (EUnauthorizedError k cause) = None → errors_As p (EUnauthorizedError k cause) = None) as Hp.
  { intros A p Hp H0. rewrite errors_As_unfold H0 /=. destruct cause as [e|]; [simpl|done].
    rewrite errors_As_None //. intros e' Hin. apply Hp. by eapply Hc. }
  rewrite (Hp _ as_bad_request) ?(Hp _ as_method_not_allowed) //; by intros [].
Qed.

(** Complete mediation: behind [Authenticate] and [Authorize], any request
    other than a preflight reaches the handler only with a rule for its pattern
    in the policy, a bearer token the verifier accepts, that token's principal
    attached, and the admin role where the rule asks for it; otherwise the
    handler is not run and the answer is 401 or 403 (500 without a matched
    pattern).  The verifier's errors carry no HTTP meaning of their own. *)
Theorem auth_chain_complete_mediation {A} Verify rules (next : handler A) r c :
  (∀ tok e, Verify tok = Err e → verifier_error e) →
  method r ≠ "OPTIONS" →
  (∃ r', Authenticate Verify (Authorize rules next) r c = next r' c ∧ access_granted Verify rules r r') ∨
  (∃ c' e, (∀ next' : handler A, Authenticate Verify (Authorize rules next') r c = (c', Err e)) ∧
     prStatus (mpProblem (MapError (Some e))) ∈ [401; 403; 500]%Z).
Proof.
  intros Hverr Hm%streqb_neq. unfold Authenticate, Authorize. rewrite Hm /=.
  destruct (parseBearerToken (authorization r)) as [token|e] eqn:Htok.
  2:{ right. eexists _, _. split; [done|]. unfold parseBearerToken in Htok.
      repeat case_match; simplify_eq; left. }
  destruct (Verify token) as [p|e] eqn:Hv.
  2:{ right. eexists _, _. split; [done|]. unfold UnauthorizedFromVerifyErr.
      destruct (AuthNKind e); unfold NewUnauthorized; rewrite unauthorized_status;
        [intros ? [= <-]; by eapply Hverr|left|intros ? [= <-]; by eapply Hverr|left]. }
  destruct (streqb (pattern r) ""); [right; eexists _, _; split; [done|right; right; left]|].
  destruct (rules !! pattern r) as [rule|] eqn:Hr;
    [|right; eexists _, _; split; [done|right; left]].
  set (r' := mkHreq _ _ _ _).
  destruct (Z.eqb_spec (Access rule) AccessPublic) as [Ha|Ha];
    [|destruct (Z.eqb_spec (Access rule) AccessAuthenticated) as [Hb|Hb];
      [|destruct (Z.eqb_spec (Access rule) AccessAdminOnly) as [Hd|Hd]]].
  - left. exists r'. split; [done|]. exists rule, token, p.
    split_and!; auto. rewrite Ha. done.
  - left. exists r'. split; [done|]. exists rule, token, p. split_and!; auto. rewrite Hb. done.
  - destruct (streqb (pRole p) RoleAdmin) eqn:Hrole; simpl.
    + apply streqb_eq in Hrole. left. exists r'. split; [done|]. exists rule, token, p.
      split_and!; auto.
    + right. eexists _, _. split; [done|right; left].
  - right. eexists _, _. split; [done|right; left].
Qed.

Lemma auth_chain_complete_mediation_witness :
  let Verify (t : string) : res error Principal := Ok (mkPrincipal 5 RoleUser) in
  let rules := {[ "GET /api/v1/users" :=
    mkRouteRule "GET /api/v1/users" ["GET"] AccessAdminOnly ResourceNone "" ]} in
  let r := mkHreq "GET" "GET /api/v1/users" "Bearer abc" None in
  let next : handler nat := λ _ c, (c, Ok 0) in
  ∃ c' e, Authenticate Verify (Authorize rules next) r (mkCounters 0 ∅) = (c', Err e) ∧
    prStatus (mpProblem (MapError (Some e))) = 403%Z.
Proof.
  intros Verify rules r next.
  destruct (auth_chain_complete_mediation Verify rules next r (mkCounters 0 ∅))
    as [(r' & Hr & _)|(c' & e & Hr & _)].
  - intros tok e. discriminate.
  - discriminate.
  - exfalso. vm_compute in Hr. discriminate Hr.
  - exists c', e. specialize (Hr next). split; [exact Hr|].
    vm_compute in Hr. injection Hr as _ <-. vm_compute. reflexivity.
Defined.

(** The access matrix of the service is accepted, with one rule per pattern. *)
Lemma DefaultPolicy_accepted :
  ∃ rules, NewAuthorizeAPI DefaultPolicy = Ok rules ∧ size rules = length DefaultPolicy.
Proof.
  assert (match NewAuthorizeAPI DefaultPolicy with
    | Ok rules => (size rules =? length DefaultPolicy)%nat
    | Err _ => false end = true) as H by (vm_compute; reflexivity).
  destruct (NewAuthorizeAPI DefaultPolicy) as [rules|]; [|discriminate H].
  exists rules. split; [reflexivity|]. by apply Nat.eqb_eq.
Qed.

(** ** The gRPC interceptor *)

(** [md] is the [authorization] metadata, [None] without metadata. *)
Definition bearerTokenFromIncomingMetadata (md : option (list string)) : res error string :=
  match md with
  | None | Some [] => Err (NewUnauthorized AuthNMissing None)
  | Some [v] => parseBearerToken v
  | Some _ => Err (NewUnauthorized AuthNInvalid None)
  end.

Definition grpcUnauthenticated (err : error) : error :=
  match AuthNKind err with
  | Some kind =>
      if streqb kind AuthNMissing then EStatusError codeUnauthenticated "authentication required"
      else EStatusError codeUnauthenticated "invalid bearer token"
  | None => EStatusError codeUnauthenticated "invalid bearer token"
  end.

Definition UnaryAuthenticate {A} (Verify : string → res error Principal)
    (md : option (list string)) (h : Principal → res error A) : res error A :=
  match bearerTokenFromIncomingMetadata md with
  | Err e => Err (grpcUnauthenticated e)
  | Ok token =>
      match Verify token with
      | Err e => Err (grpcUnauthenticated (UnauthorizedFromVerifyErr (Some e)))
      | Ok p => h p
      end
  end.

Lemma parseBearerToken_Err hdr e :
  parseBearerToken hdr = Err e → ∃ k, e = EUnauthorizedError k None.
Proof. unfold parseBearerToken. intros. repeat case_match; simplify_eq; by eexists. Qed.

(** The kind of a missing or malformed bearer token is lost: the kind is
    looked up as an [AuthNError] but the parser returns an [UnauthorizedError]
    without cause, so the failure metric always says "other" and the gRPC
    interceptor always answers "invalid bearer token", even when no credentials
    were sent. *)
Theorem bearer_error_kind_lost hdr md e e' :
  parseBearerToken hdr = Err e → bearerTokenFromIncomingMetadata md = Err e' →
  authNKindOrOther e = "other" ∧
  grpcUnauthenticated e' = EStatusError codeUnauthenticated "invalid bearer token".
Proof.
  intros [k ->]%parseBearerToken_Err He'. split; [done|].
  assert (∃ k, e' = EUnauthorizedError k None) as [k' ->]; [|done].
  unfold bearerTokenFromIncomingMetadata in He'.
  repeat case_match; simplify_eq; eauto using parseBearerToken_Err.
Qed.

Lemma bearer_error_kind_lost_witness :
  parseBearerToken "" = Err (EUnauthorizedError AuthNMissing None) ∧
  authNKindOrOther (EUnauthorizedError AuthNMissing None) = "other" ∧
  grpcUnauthenticated (EUnauthorizedError AuthNMissing None) =
    EStatusError codeUnauthenticated "invalid bearer token".
Proof.
  split; [reflexivity|]. apply (bearer_error_kind_lost "" None); reflexivity.
Defined.

End Auth.

(** ** Bulkhead *)
Module Bulkhead.

(** The semaphore channel's fill, its capacity, and the gauges. *)
Record BulkheadAPI := mkBulkhead { sem : Z; maxParallel : Z; inFlight : Z; rejectionsTotal : Z }.

Definition NewBulkhead (max : Z) : option BulkheadAPI :=
  if (max <? 0)%Z then None else Some (mkBulkhead 0 max 0 0).

(** Entering: a non-blocking send on the semaphore. *)
Definition enter (b : BulkheadAPI) : BulkheadAPI * option error :=
  if (sem b <? maxParallel b)%Z
  then (mkBulkhead (sem b + 1) (maxParallel b) (inFlight b + 1) (rejectionsTotal b), None)
  else (mkBulkhead (sem b) (maxParallel b) (inFlight b) (rejectionsTotal b + 1),
        Some (ESentinel ErrBulkheadRejected)).

(** Leaving, also by a panic: the deferred calls in reverse order. *)
Definition leave (b : BulkheadAPI) : BulkheadAPI :=
  mkBulkhead (sem b - 1) (maxParallel b) (inFlight b - 1) (rejectionsTotal b).

(** The requests inside, by id, and the bulkhead. *)
Inductive bstep : gset nat * BulkheadAPI → gset nat * BulkheadAPI → Prop :=
| b_enter rs b rid :
    rid ∉ rs → (enter b).2 = None → bstep (rs, b) ({[rid]} ∪ rs, (enter b).1)
| b_reject rs b e : (enter b).2 = Some e → bstep (rs, b) (rs, (enter b).1)
| b_leave rs b rid : rid ∈ rs → bstep (rs, b) (rs ∖ {[rid]}, leave b).

Definition binv (s : gset nat * BulkheadAPI) : Prop :=
  let '(rs, b) := s in
  sem b = Z.of_nat (size rs) ∧ inFlight b = sem b ∧ (0 <= sem b <= maxParallel b)%Z.

Lemma binv_step s s' : binv s → bstep s s' → binv s'.
Proof.
  intros Hi Hs. destruct Hs as [rs b rid Hr He|rs b e He|rs b rid Hr]; unfold enter, leave, binv in *.
  - destruct (Z.ltb_spec (sem b) (maxParallel b)); [|done]. simpl.
    rewrite size_union ?size_singleton; [set_solver|]. lia.
  - destruct (Z.ltb_spec (sem b) (maxParallel b)); [done|]. simpl. done.
  - simpl. rewrite size_difference ?size_singleton; [set_solver|].
    assert (size rs ≠ 0); [|lia]. intros E%size_empty_inv. set_solver.
Qed.

(** At most [maxParallel] requests are inside the bulkhead at any time,
    the gauge is their exact number, and a request is rejected only when the
    bulkhead is full, however entries and exits interleave. *)
Theorem bulkhead_bounded max b0 rs b :
  NewBulkhead max = Some b0 → rtc bstep (∅, b0) (rs, b) →
  (Z.of_nat (size rs) <= max)%Z ∧ inFlight b = Z.of_nat (size rs) ∧
  (is_Some (enter b).2 ↔ Z.of_nat (size rs) = max).
Proof.
  unfold NewBulkhead. intros Hn Hs. destruct (Z.ltb_spec max 0); [done|]. injection Hn as <-.
  assert (∀ s s', rtc bstep s s' → binv s → binv s' ∧ maxParallel s'.2 = maxParallel s.2) as Hinv.
  { intros s s' Hr. induction Hr as [|s s1 s' Hst _ IH]; [done|]. intros Hi.
    destruct IH as [? ->]; [by eapply binv_step|]. split; [done|].
    destruct Hst; unfold enter; repeat case_match; done. }
  destruct (Hinv _ _ Hs) as [(H1 & H2 & H3) H4].
  { unfold binv. rewrite size_empty. cbn. lia. }
  simpl in *. split_and!; [lia|lia|]. unfold enter.
  destruct (Z.ltb_spec (sem b) (maxParallel b)); simpl; (split; [|try lia]).
  - by intros [].
  - lia.
  - intros _. by eexists.
Qed.

Definition one_request : gset nat := {[1]}.

Lemma bulkhead_bounded_witness :
  ∃ b, rtc bstep (∅, mkBulkhead 0 1 0 0) (one_request, b) ∧
    (Z.of_nat (size one_request) <= 1)%Z ∧ is_Some (enter b).2.
Proof.
  exists (mkBulkhead 1 1 1 0).
  assert (rtc bstep (∅, mkBulkhead 0 1 0 0) (one_request, mkBulkhead 1 1 1 0)) as Hs.
  { apply rtc_once. replace one_request with ({[1]} ∪ ∅ : gset nat) by (vm_compute; reflexivity).
    apply (b_enter ∅ (mkBulkhead 0 1 0 0) 1); [apply not_elem_of_empty|reflexivity]. }
  split; [exact Hs|].
  destruct (bulkhead_bounded 1 (mkBulkhead 0 1 0 0) one_request (mkBulkhead 1 1 1 0) eq_refl Hs)
    as (H1 & _ & H3). split; [exact H1|]. apply H3. vm_compute. reflexivity.
Defined.

End Bulkhead.

(** ** Rate limiter *)
Module RateLimit.

(** [Reserve] of the limiter: not granted, or granted after a delay in
    nanoseconds (never negative). *)
Inductive reservation : Type := NotOK | Granted (delay : Z).

(** The result, the metric, and whether the reservation is given back. *)
Definition Process (res : reservation) (total : Z) : option error * Z * bool :=
  match res with
  | NotOK => (Some (ERateLimitError 0), (total + 1)%Z, false)
  | Granted d =>
      if (d =? 0)%Z then (None, total, false)
      else if (0 <? d)%Z then (Some (ERateLimitError d), (total + 1)%Z, true)
      else (None, total, false)
  end.

End RateLimit.

(** ** CORS *)
Module CORS.

Record CORSConfig := mkCORSConfig {
  AllowedOrigins : list string;
  AllowedMethods : list string;
  AllowedHeaders : list string;
  AllowCredentials : bool;
  MaxAge : Z;
}.

Record CORSAPI := mkCORSAPI {
  allowAny : bool;
  allowedOrigins : gset string;
  allowedMethods : list string;
  allowedMethodsUp : gset string;
  allowedHeaders : list string;
  allowedHeadersLo : gset string;
  allowCredentials : bool;
  maxAgeSeconds : Z;
}.

Definition non_empty (l : list string) : list string := List.filter (λ s, negb (streqb s "")) l.

Definition NewCORS (cfg : CORSConfig) : CORSAPI :=
  mkCORSAPI (existsb (streqb "*") (AllowedOrigins cfg))
    (list_to_set (List.filter (λ o, negb (streqb o "*")) (AllowedOrigins cfg)))
    (AllowedMethods cfg)
    (list_to_set (non_empty (map (λ m, ToUpper (TrimSpace m)) (AllowedMethods cfg))))
    (AllowedHeaders cfg)
    (list_to_set (non_empty (map (λ h, ToLower (TrimSpace h)) (AllowedHeaders cfg))))
    (AllowCredentials cfg) (MaxAge cfg ÷ second).

Definition isOriginAllowed (c : CORSAPI) (origin : string) : bool :=
  (allowAny c || bool_decide (origin ∈ allowedOrigins c))%bool.
Definition isMethodAllowed (c : CORSAPI) (m : string) : bool := bool_decide (m ∈ allowedMethodsUp c).
Definition areRequestHeadersAllowed (c : CORSAPI) (acrh : string) : bool :=
  let acrh := TrimSpace acrh in
  if streqb acrh "" then true
  else forallb (λ p, let h := ToLower (TrimSpace p) in
                     (streqb h "" || bool_decide (h ∈ allowedHeadersLo c))%bool)
         (Split acrh ","%char).

Record cors_req := mkCorsReq {
  cMethod : string; cOrigin : string; cReqMethod : string; cReqHeaders : string; cBase : request }.

(** Either the next handler runs with these headers set, or this is the answer. *)
Inductive cors_out : Type :=
| CorsNext (h : gmap string (list string))
| CorsAnswer (w : response).

Definition denied (w : response) (r : cors_req) (detail : string) : cors_out :=
  CorsAnswer (WriteProblem w (cBase r) (problem 403 detail)).

Definition with_header (w : response) (h : gmap string (list string)) : response :=
  mkResponse h (rsStatus w) (rsBody w).

(** The preflight part, once the origin is accepted. *)
Definition preflight (c : CORSAPI) (w : response) (r : cors_req) : cors_out :=
  if negb (isMethodAllowed c (ToUpper (TrimSpace (cReqMethod r)))) then denied w r "cors method denied"
  else if negb (areRequestHeadersAllowed c (cReqHeaders r)) then denied w r "cors headers denied"
  else
    let h := <["Access-Control-Allow-Methods" := [Join (allowedMethods c) ", "]]> (rsHeader w) in
    let h := <["Access-Control-Allow-Headers" := [Join (allowedHeaders c) ", "]]> h in
    let h := if (0 <? maxAgeSeconds c)%Z
             then <["Access-Control-Max-Age" := [Itoa (maxAgeSeconds c)]]> h else h in
    let h := AddVary (AddVary h "Access-Control-Request-Method") "Access-Control-Request-Headers" in
    CorsAnswer (mkResponse h (Some (default 204%Z (rsStatus w))) (rsBody w)).

Definition CORS (c : CORSAPI) (w : response) (r : cors_req) : cors_out :=
  if streqb (cOrigin r) "" then CorsNext (rsHeader w)
  else if negb (isOriginAllowed c (cOrigin r)) then denied w r "cors origin denied"
  else
    let allowOrigin := if allowAny c then "*" else cOrigin r in
    let w := if allowAny c then w else with_header w (AddVary (rsHeader w) "Origin") in
    if (allowCredentials c && streqb allowOrigin "*")%bool
    then denied w r "cors credentials with wildcard origin is not allowed"
    else
      let h := <["Access-Control-Allow-Origin" := [allowOrigin]]> (rsHeader w) in
      let h := if allowCredentials c then <["Access-Control-Allow-Credentials" := ["true"]]> h else h in
      let w := with_header w h in
      if (streqb (cMethod r) "OPTIONS" && negb (streqb (cReqMethod r) ""))%bool then preflight c w r
      else CorsNext h.

Lemma NewCORS_any cfg : allowAny (NewCORS cfg) = true ↔ "*" ∈ AllowedOrigins cfg.
Proof.
  simpl. rewrite existsb_exists. setoid_rewrite streqb_eq. rewrite list_elem_of_In. naive_solver.
Qed.

Lemma NewCORS_allowed cfg o : isOriginAllowed (NewCORS cfg) o = true →
  o ∈ AllowedOrigins cfg ∨ "*" ∈ AllowedOrigins cfg.
Proof.
  unfold isOriginAllowed. intros [?%NewCORS_any|Hin%bool_decide_eq_true]%orb_true_iff; [by right|left].
  simpl in Hin. rewrite elem_of_list_to_set list_elem_of_In filter_In in Hin. apply list_elem_of_In, Hin.
Qed.

Lemma preflight_answer c w r : rsStatus w = None →
  ∃ w', preflight c w r = CorsAnswer w' ∧ (rsStatus w' = Some 403%Z ∨ rsStatus w' = Some 204%Z).
Proof.
  intros Hs. unfold preflight.
  destruct (isMethodAllowed _ _), (areRequestHeadersAllowed _ _);
    (eexists; split; [reflexivity|]); simpl; rewrite Hs; auto.
Qed.

(** Deny by default, and never credentials for everyone: a cross-origin
    request reaches the API only if its origin is configured (or any is
    allowed); the response then names exactly that origin, or "*" and in that
    case no credentials are allowed; a denied one is answered 403 without any
    CORS permission. *)
Theorem cors_deny_by_default cfg h r :
  cOrigin r ≠ EmptyString → h !! "Access-Control-Allow-Origin" = None →
  let c := NewCORS cfg in
  match CORS c (mkResponse h None NoBody) r with
  | CorsNext h' =>
      (cOrigin r ∈ AllowedOrigins cfg ∨ "*" ∈ AllowedOrigins cfg) ∧
      ((h' !! "Access-Control-Allow-Origin" = Some [cOrigin r] ∧ "*" ∉ AllowedOrigins cfg) ∨
       (h' !! "Access-Control-Allow-Origin" = Some ["*"] ∧ "*" ∈ AllowedOrigins cfg ∧
        AllowCredentials cfg = false))
  | CorsAnswer w =>
      (rsStatus w = Some 403%Z ∨ rsStatus w = Some 204%Z) ∧
      (cOrigin r ∉ AllowedOrigins cfg → "*" ∉ AllowedOrigins cfg →
       rsStatus w = Some 403%Z ∧ rsHeader w !! "Access-Control-Allow-Origin" = None)
  end.
Proof.
  intros Ho%streqb_neq Hh c. unfold CORS. rewrite Ho.
  pose proof (NewCORS_any cfg) as Hany. pose proof (NewCORS_allowed cfg (cOrigin r)) as Hor.
  fold c in Hany, Hor. assert (allowCredentials c = AllowCredentials cfg) as <- by done. clearbody c.
  destruct (isOriginAllowed c (cOrigin r)) eqn:Hallowed; simpl.
  2:{ split; [by left|]. intros _ _. split; [done|].
      rewrite lookup_insert_ne //. destruct (_ && _)%bool; [by rewrite lookup_insert_ne|done]. }
  specialize (Hor eq_refl).
  assert (∀ (st : option Z) (hd : gmap string (list string)), st = Some 403%Z ∨ st = Some 204%Z →
    (st = Some 403%Z ∨ st = Some 204%Z) ∧
    (cOrigin r ∉ AllowedOrigins cfg → "*" ∉ AllowedOrigins cfg →
     st = Some 403%Z ∧ hd !! "Access-Control-Allow-Origin" = None)) as Hans.
  { intros st hd Hw. split; [done|]. intros H1 H2. by destruct Hor. }
  destruct (_ && streqb _ "*")%bool eqn:Hstar; [apply Hans; left; by destruct (allowAny c)|].
  destruct (streqb (cMethod r) "OPTIONS" && _)%bool.
  { match goal with |- context [preflight c ?w r] =>
      destruct (preflight_answer c w r) as (w' & -> & Hw') end; [by simpl; destruct (allowAny c)|exact (Hans _ _ Hw')]. }
  split; [done|]. destruct (allowAny c) eqn:Ha, (allowCredentials c) eqn:Hc; simpl in *; try done;
    [right|left; rewrite lookup_insert_ne //|left]; rewrite lookup_insert_eq -Hany; by split_and?.
Qed.

Lemma cors_deny_by_default_witness :
  let cfg := mkCORSConfig ["https://app.example"] ["GET"] [] true 0 in
  let r := mkCorsReq "GET" "https://evil.example" "" "" (mkRequest "/api/v1/users" None) in
  match CORS (NewCORS cfg) (mkResponse ∅ None NoBody) r with
  | CorsNext _ => False
  | CorsAnswer w => rsStatus w = Some 403%Z ∧ rsHeader w !! "Access-Control-Allow-Origin" = None
  end.
Proof.
  intros cfg r.
  pose proof (cors_deny_by_default cfg ∅ r ltac:(discriminate) ltac:(apply lookup_empty)) as H.
  cbv zeta in H.
  assert ("*" ∉ AllowedOrigins cfg) as Hs
    by (simpl; rewrite list_elem_of_singleton; discriminate).
  assert (cOrigin r ∉ AllowedOrigins cfg) as Ho
    by (simpl; rewrite list_elem_of_singleton; discriminate).
  destruct (CORS (NewCORS cfg) (mkResponse ∅ None NoBody) r) as [h'|w].
  - destruct H as [[H|H] _]; [exact (Ho H)|exact (Hs H)].
  - destruct H as [_ H]. exact (H Ho Hs).
Defined.

End CORS.

(** ** Trusted proxies *)
Module Proxy.
Section proxy.
  (** [net.ParseIP], membership in a parsed network and [net.SplitHostPort]
      (the host part, or an error). *)
  Context {IP : Type} (ParseIP : string → option IP) (SplitHostPort : string → option string).

Record ProxyAPI := mkProxyAPI { trustedNets : list (IP → bool); trustXFF : bool; trustXFP : bool }.

(** [RequestInfo] and the parts of the request it is computed from. *)
Record RequestInfo := mkRequestInfo { ClientIP : string; Scheme : string }.
Record conn := mkConn { RemoteAddr : string; overTLS : bool; XFP : string; XFF : string; RID : string }.

Definition isTrustedProxy (p : ProxyAPI) (ipStr : string) : bool :=
  match ParseIP ipStr with
  | None => false
  | Some ip => existsb (λ n, n ip) (trustedNets p)
  end.

Definition parseRemoteIP (addr : string) : string :=
  if streqb addr "" then EmptyString
  else
    match SplitHostPort addr with
    | Some host => host
    | None => match ParseIP addr with Some _ => addr | None => EmptyString end
    end.

Fixpoint first_ip (parts : list string) : string :=
  match parts with
  | [] => EmptyString
  | p :: parts =>
      let s := TrimSpace p in
      if streqb s "" then first_ip parts
      else
        let s := match SplitHostPort s with Some host => host | None => s end in
        match ParseIP s with Some _ => s | None => first_ip parts end
  end.
Definition firstIPFromXFF (xff : string) : string := first_ip (Split xff ","%char).

Definition TrustProxy (p : ProxyAPI) (r : conn) : RequestInfo :=
  let remoteIP := parseRemoteIP (RemoteAddr r) in
  let scheme := if overTLS r then "https" else "http" in
  if (negb (streqb remoteIP "") && isTrustedProxy p remoteIP)%bool then
    let xfp := ToLower (TrimSpace (XFP r)) in
    let scheme := if (trustXFP p && (streqb xfp "http" || streqb xfp "https"))%bool then xfp else scheme in
    let ip := if streqb (XFF r) "" then EmptyString else firstIPFromXFF (XFF r) in
    mkRequestInfo (if (trustXFF p && negb (streqb ip ""))%bool then ip else remoteIP) scheme
  else mkRequestInfo remoteIP scheme.

(** The request id header that is left for the request-id middleware. *)
Definition SanitizeRequestIDHeader (p : ProxyAPI) (r : conn) : string :=
  let remoteIP := parseRemoteIP (RemoteAddr r) in
  if (streqb remoteIP "" || negb (isTrustedProxy p remoteIP))%bool then EmptyString else RID r.

Lemma first_ip_parses parts :
  first_ip parts ≠ EmptyString → is_Some (ParseIP (first_ip parts)).
Proof.
  induction parts as [|p parts IH]; simpl; [done|].
  destruct (streqb (TrimSpace p) ""); [done|].
  destruct (ParseIP (match SplitHostPort (TrimSpace p) with Some h => h | None => TrimSpace p end)) eqn:E;
    [rewrite E; by eexists|done].
Qed.

(** (C38) Forwarding headers cannot be spoofed: for a peer outside the trusted
    networks the client address, the scheme and the request id do not depend on
    any forwarding header; for a trusted one the scheme is http or https and
    the client address is the peer's own or a parseable address. *)
Theorem forwarded_headers_not_spoofable p r xfp xff rid :
  let r' := mkConn (RemoteAddr r) (overTLS r) xfp xff rid in
  (isTrustedProxy p (parseRemoteIP (RemoteAddr r)) = false →
   TrustProxy p r' = TrustProxy p r ∧ SanitizeRequestIDHeader p r' = EmptyString) ∧
  (Scheme (TrustProxy p r) = "http" ∨ Scheme (TrustProxy p r) = "https") ∧
  (ClientIP (TrustProxy p r) = parseRemoteIP (RemoteAddr r) ∨
   is_Some (ParseIP (ClientIP (TrustProxy p r)))).
Proof.
  simpl. split_and!.
  - intros Ht. unfold TrustProxy, SanitizeRequestIDHeader. simpl. rewrite Ht /= andb_false_r orb_true_r.
    done.
  - unfold TrustProxy. destruct (_ && _)%bool; simpl; [|destruct (overTLS r); auto].
    destruct (trustXFP p); simpl; [|destruct (overTLS r); auto].
    destruct (streqb _ "http") eqn:E1; simpl; [apply streqb_eq in E1; auto|].
    destruct (streqb _ "https") eqn:E2; [apply streqb_eq in E2; auto|destruct (overTLS r); auto].
  - unfold TrustProxy. destruct (_ && _)%bool; simpl; [|by left].
    destruct (trustXFF p); simpl; [|by left].
    destruct (streqb (if streqb (XFF r) "" then _ else _) "") eqn:E; simpl; [by left|].
    apply streqb_neq in E. right. destruct (streqb (XFF r) ""); [done|]. by apply first_ip_parses.
Qed.
End proxy.

Lemma forwarded_headers_not_spoofable_example :
  let ParseIP (s : string) : option unit := if streqb s "10.0.0.1" then Some tt else None in
  let SplitHostPort (s : string) : option string := None in
  let p := mkProxyAPI [] true true in
  let r := mkConn "10.0.0.1" false "https" "1.2.3.4" "spoofed" in
  TrustProxy ParseIP SplitHostPort p r = mkRequestInfo "10.0.0.1" "http" ∧
  SanitizeRequestIDHeader ParseIP SplitHostPort p r = EmptyString.
Proof. by vm_compute. Qed.
End Proxy.

(** ** Security headers *)
Module SecurityHeaders.

Record HSTSConfig := mkHSTS { hstsEnable : bool; hstsMaxAge : Z }.
Record SecurityHeadersConfig := mkSecurityHeadersConfig {
  Enable : bool; ReferrerPolicy : string; HSTS : HSTSConfig }.

(** [info] is the scheme the proxy middleware recorded, if it ran. *)
Definition SecurityHeaders (cfg : SecurityHeadersConfig) (info : option string) (tls : bool)
    (h : gmap string (list string)) : gmap string (list string) :=
  if Enable cfg then
    let h := <["X-Content-Type-Options" := ["nosniff"]]> h in
    let h := if streqb (ReferrerPolicy cfg) "" then h
             else <["Referrer-Policy" := [ReferrerPolicy cfg]]> h in
    let h := <["X-Frame-Options" := ["DENY"]]> h in
    if (hstsEnable (HSTS cfg) && (0 <? hstsMaxAge (HSTS cfg))%Z)%bool then
      let isHTTPS := match info with Some scheme => streqb scheme "https" | None => tls end in
      if isHTTPS then
        <["Strict-Transport-Security" :=
            [String.append "max-age=" (Itoa (hstsMaxAge (HSTS cfg) ÷ second))]]> h
      else h
    else h
  else h.

End SecurityHeaders.

(** ** Request ids *)
Module RequestID.

Definition sanitizeRequestID (s : string) : option string :=
  let s := TrimSpace s in
  if (streqb s "" || (128 <? Z.of_nat (String.length s))%Z)%bool then None
  else if existsb (λ b, ((code b <? 33)%N || (126 <? code b)%N)%bool) (to_bytes s) then None
  else Some s.

(** [fresh] is a new id, used when the client sent none that is acceptable. *)
Definition RequestIDMiddleware (fresh hdr : string) : string :=
  match sanitizeRequestID hdr with Some rid => rid | None => fresh end.

(** A request id taken from the client is at most 128 printable ASCII
    bytes without spaces or control characters, so echoing it into a response
    header or a log line cannot inject anything. *)
Theorem sanitized_request_id s rid :
  sanitizeRequestID s = Some rid →
  (1 <= String.length rid <= 128)%nat ∧
  Forall (λ b, (33 <= code b <= 126)%N) (to_bytes rid).
Proof.
  unfold sanitizeRequestID. intros H.
  destruct (streqb (TrimSpace s) "") eqn:He; [done|].
  destruct (Z.ltb_spec 128 (Z.of_nat (String.length (TrimSpace s)))); [done|]. simpl in H.
  destruct (existsb _ _) eqn:Hb; [done|]. injection H as <-. split.
  - destruct (TrimSpace s) eqn:E; [done|]. simpl in *. lia.
  - apply list.Forall_forall. intros b Hin%list_elem_of_In.
    assert (((code b <? 33)%N || (126 <? code b)%N)%bool = false) as Hf.
    { destruct (_ || _)%bool eqn:E; [|done]. exfalso.
      assert (existsb (λ b, ((code b <? 33)%N || (126 <? code b)%N)%bool) (to_bytes (TrimSpace s)) = true)
        by (apply existsb_exists; eauto). congruence. }
    apply orb_false_iff in Hf as [?%N.ltb_ge ?%N.ltb_ge]. lia.
Qed.

Lemma sanitized_request_id_witness :
  sanitizeRequestID " abc-1 " = Some "abc-1" ∧ (1 <= String.length "abc-1" <= 128)%nat.
Proof.
  assert (sanitizeRequestID " abc-1 " = Some "abc-1") as H by (vm_compute; reflexivity).
  split; [exact H|]. exact (proj1 (sanitized_request_id _ _ H)).
Defined.

End RequestID.
