(* ===== verification/Outbound.v ===== *)
(** * The outbound profile client

    Models [internal/outbound/profile.go] (one HTTP exchange),
    [profile_retry.go] (retries with exponential backoff and jitter),
    [profile/errors.go] and the error helpers of [logging.go].  Time, the random
    source, the context and the exchange itself are arguments, one value per
    attempt. *)
From S2P Require Import Prelude.
From S2P Require Import GoErrors.
From S2P Require Import Services.
From S2P Require Import HttpErrors.

(** ** Errors *)
Definition KindLabel (err : error) : string :=
  if errors_Is err ErrTimeout then "timeout"
  else if errors_Is err ErrCanceled then "canceled"
  else if errors_Is err ErrNetwork then "network"
  else if errors_Is err ErrUpstream5xx then "5xx"
  else if errors_Is err ErrUpstream4xx then "4xx"
  else if errors_Is err ErrParse then "parse"
  else if errors_Is err ErrBadResponse then "bad_response"
  else "unknown".

Definition as_profile (e : error) : option Z :=
  match e with EProfileError _ status _ => Some status | _ => None end.

Definition profileErrorStatus (err : option error) : Z :=
  match err with
  | None => 200
  | Some e =>
      match errors_As as_profile e with
      | Some st => if (st =? 0)%Z then 0%Z else st
      | None => 0%Z
      end
  end.

(** ** One exchange *)
Definition Profile := UserProfileService.Profile.

Definition as_timeout (e : error) : option unit :=
  match e with ETimeoutNetError _ => Some tt | _ => None end.
Definition isTimeout (err : error) : bool :=
  match errors_As as_timeout err with Some _ => true | None => false end.

(** What the transport gives back: an error, or a status and the decoded body. *)
Inductive exchange : Type :=
| NoBaseURL
| BadRequest (e : error)
| DoFailed (e : error)
| Responded (code : Z) (decoded : res error Profile).

Definition ClientFetchProfile (x : exchange) : res error Profile :=
  match x with
  | NoBaseURL => Err (EProfileError ErrBadResponse 0 (Some (EText "base url is nil")))
  | BadRequest e => Err (EProfileError ErrBadResponse 0 (Some e))
  | DoFailed e =>
      if errors_Is e ContextCanceled then Err (EProfileError ErrCanceled 0 (Some e))
      else if (errors_Is e ContextDeadlineExceeded || isTimeout e)%bool
      then Err (EProfileError ErrTimeout 0 (Some e))
      else Err (EProfileError ErrNetwork 0 (Some e))
  | Responded code decoded =>
      if negb (code =? 200)%Z then
        if (500 <=? code)%Z then Err (EProfileError ErrUpstream5xx code None)
        else if ((400 <=? code)%Z && (code <=? 499)%Z)%bool
        then Err (EProfileError ErrUpstream4xx code None)
        else Err (EProfileError ErrBadResponse code None)
      else
        match decoded with
        | Err e => Err (EProfileError ErrParse code (Some e))
        | Ok p => Ok p
        end
  end.

(** ** Retries *)
Record RetryingProfileClient := mkRetrying { maxAttempts : Z; baseDelay : Z; maxDelay : Z }.

Definition NewRetryingProfileClient (attempts base max : Z) : RetryingProfileClient :=
  mkRetrying (if (attempts <? 1)%Z then 1%Z else attempts)
    (if (base <? 0)%Z then 0%Z else base) (if (max <? 0)%Z then 0%Z else max).

Definition isRetryableProfileError (err : error) : bool :=
  (errors_Is err ErrTimeout || errors_Is err ErrNetwork || errors_Is err ErrUpstream5xx)%bool.

Definition ctxToProfileError (err : error) : error :=
  if errors_Is err ContextCanceled then EProfileError ErrCanceled 0 (Some err)
  else EProfileError ErrTimeout 0 (Some err).

(** The doubling loop; [None] is its early return of zero. *)
Fixpoint double_loop (n : nat) (delay : Z) : option Z :=
  match n with
  | O => Some delay
  | S n => if (delay <=? 0)%Z then None else double_loop n (wrap64 (delay * 2))
  end.

(** The bound of the jitter for an attempt (numbered from 1). *)
Definition backoff_cap (c : RetryingProfileClient) (attempt : Z) : Z :=
  match double_loop (Z.to_nat (attempt - 1)) (baseDelay c) with
  | None => 0%Z
  | Some delay =>
      let delay := if ((0 <? maxDelay c)%Z && (maxDelay c <? delay)%Z)%bool then maxDelay c else delay in
      if (delay <=? 0)%Z then 0%Z else delay
  end.

(** [rng n] is [Int63n(n)], which panics ([None]) unless [n] is positive. *)
Definition backoffWithJitter (rng : Z → Z) (c : RetryingProfileClient) (attempt : Z) : option Z :=
  let cap := backoff_cap c attempt in
  if (cap =? 0)%Z then Some 0%Z
  else
    let n := wrap64 (cap + 1) in
    if (n <=? 0)%Z then None else Some (rng n).

(** What an attempt meets: the context before it, the exchange, the random
    source, the time left before the deadline (if any) and what the sleep
    returns. *)
Record attempt_env := mkAttemptEnv {
  ae_ctx : option error;
  ae_call : res error Profile;
  ae_rng : Z → Z;
  ae_until : option Z;
  ae_sleep : option error;
}.

Definition hasTimeForDelay (until : option Z) (d : Z) : bool :=
  match until with None => true | Some u => (d <? u)%Z end.

(** The loop with [fuel] attempts left; the result carries the number of calls
    made so far.  [None] is a panic of the random source. *)
Fixpoint fetch_loop (c : RetryingProfileClient) (env : Z → attempt_env) (fuel : nat) (attempt : Z)
    (calls : Z) (lastErr : option error) : option (Z * (option error + Profile)) :=
  match fuel with
  | O => Some (calls, inl lastErr)
  | S fuel =>
      let e := env attempt in
      match ae_ctx e with
      | Some err => Some (calls, inl (Some (ctxToProfileError err)))
      | None =>
          match ae_call e with
          | Ok p => Some ((calls + 1)%Z, inr p)
          | Err err =>
              if (attempt =? maxAttempts c)%Z then Some ((calls + 1)%Z, inl (Some err))
              else if negb (isRetryableProfileError err) then Some ((calls + 1)%Z, inl (Some err))
              else
                match backoffWithJitter (ae_rng e) c attempt with
                | None => None
                | Some delay =>
                    if (0 <? delay)%Z then
                      if negb (hasTimeForDelay (ae_until e) delay)
                      then Some ((calls + 1)%Z, inl (Some err))
                      else
                        match ae_sleep e with
                        | Some serr => Some ((calls + 1)%Z, inl (Some (ctxToProfileError serr)))
                        | None => fetch_loop c env fuel (attempt + 1) (calls + 1) (Some err)
                        end
                    else fetch_loop c env fuel (attempt + 1) (calls + 1) (Some err)
                end
          end
      end
  end.

Definition FetchProfile (c : RetryingProfileClient) (env : Z → attempt_env)
  : option (Z * (option error + Profile)) :=
  fetch_loop c env (Z.to_nat (maxAttempts c)) 1 0 None.

(** ** The backoff bound *)
Lemma wrap64_cong z : ∃ k, wrap64 z = (z + k * 2 ^ 64)%Z.
Proof.
  unfold wrap64. pose proof (Z.div_mod (z + 2 ^ 63) (2 ^ 64) ltac:(lia)) as H.
  exists (- ((z + 2 ^ 63) / 2 ^ 64))%Z. lia.
Qed.

Lemma wrap64_period z k : wrap64 (z + k * 2 ^ 64) = wrap64 z.
Proof.
  unfold wrap64. rewrite (_ : z + k * 2 ^ 64 + 2 ^ 63 = z + 2 ^ 63 + k * 2 ^ 64)%Z; [lia|].
  by rewrite Z.mod_add.
Qed.

Lemma wrap64_mul_l a b : wrap64 (wrap64 a * b) = wrap64 (a * b).
Proof.
  destruct (wrap64_cong a) as [k ->].
  rewrite (_ : (a + k * 2 ^ 64) * b = a * b + (k * b) * 2 ^ 64)%Z; [lia|]. apply wrap64_period.
Qed.

Lemma double_loop_value n : ∀ d d',
  int64_ok d → double_loop n d = Some d' → d' = wrap64 (d * 2 ^ Z.of_nat n).
Proof.
  induction n as [|n IH]; intros d d' Hd Hl; simpl in Hl.
  - injection Hl as <-. rewrite Z.mul_1_r wrap64_id //.
  - destruct (d <=? 0)%Z; [done|]. apply IH in Hl as ->; [|apply wrap64_ok].
    rewrite wrap64_mul_l. f_equal. rewrite Nat2Z.inj_succ Z.pow_succ_r; lia.
Qed.

Lemma double_loop_exact n : ∀ d,
  (0 < d)%Z → (d * 2 ^ Z.of_nat n <= int_max)%Z → double_loop n d = Some (d * 2 ^ Z.of_nat n)%Z.
Proof.
  induction n as [|n IH]; intros d Hd Hmax; simpl.
  - by rewrite Z.mul_1_r.
  - destruct (Z.leb_spec d 0); [lia|].
    rewrite Nat2Z.inj_succ Z.pow_succ_r in Hmax |- *; [lia..|].
    assert (0 < 2 ^ Z.of_nat n)%Z by (apply Z.pow_pos_nonneg; lia).
    rewrite wrap64_id; [unfold int64_ok, int_min; unfold int_max in *; nia|].
    rewrite IH; [lia|nia|]. f_equal. lia.
Qed.

(** (C39) Backoff: as long as the doubled delay fits in 64 bits the jitter bound
    is base * 2^(attempt-1) capped by the configured maximum; but the cap is
    applied only after the doubling, so once the product overflows it is lost:
    from attempt 65 on the bound is zero for every configuration and the client
    retries without any pause. *)
Theorem backoff_cap_spec c attempt :
  int64_ok (baseDelay c) → (1 <= attempt)%Z →
  ((0 < baseDelay c)%Z → (baseDelay c * 2 ^ (attempt - 1) <= int_max)%Z →
   backoff_cap c attempt =
     if (0 <? maxDelay c)%Z then Z.min (baseDelay c * 2 ^ (attempt - 1)) (maxDelay c)
     else (baseDelay c * 2 ^ (attempt - 1))%Z) ∧
  ((65 <= attempt)%Z → backoff_cap c attempt = 0%Z).
Proof.
  intros Hb Ha. unfold backoff_cap. split.
  - intros Hpos Hmax. rewrite double_loop_exact; [done|by rewrite Z2Nat.id; [lia|]|].
    rewrite Z2Nat.id; [lia|].
    assert (0 < 2 ^ (attempt - 1))%Z by (apply Z.pow_pos_nonneg; lia).
    destruct (Z.ltb_spec 0 (maxDelay c)); simpl.
    + destruct (Z.ltb_spec (maxDelay c) (baseDelay c * 2 ^ (attempt - 1))).
      * rewrite Z.min_r; [lia|]. destruct (Z.leb_spec (maxDelay c) 0); lia.
      * rewrite Z.min_l; [lia|].
        destruct (Z.leb_spec (baseDelay c * 2 ^ (attempt - 1)) 0); nia.
    + destruct (Z.leb_spec (baseDelay c * 2 ^ (attempt - 1)) 0); nia.
  - intros H65. destruct (double_loop _ _) as [d|] eqn:E; [|done].
    apply double_loop_value in E as ->; [|done].
    rewrite Z2Nat.id; [lia|].
    assert (wrap64 (baseDelay c * 2 ^ (attempt - 1)) = 0%Z) as ->.
    { rewrite (_ : attempt - 1 = attempt - 65 + 64)%Z; [lia|]. rewrite Z.pow_add_r; [lia..|].
      rewrite Z.mul_assoc -(Z.add_0_l (_ * 2 ^ 64)) wrap64_period. done. }
    destruct (Z.ltb_spec (maxDelay c) 0), (Z.ltb_spec 0 (maxDelay c)); simpl; done || lia.
Qed.

Lemma backoff_cap_spec_witness :
  let c := mkRetrying 100 (10 ^ 8) (10 ^ 9) in
  backoff_cap c 3 = (4 * 10 ^ 8)%Z ∧ backoff_cap c 70 = 0%Z.
Proof.
  intros c. split.
  - rewrite (proj1 (backoff_cap_spec c 3 ltac:(split; vm_compute; congruence) ltac:(lia)));
      vm_compute; congruence.
  - apply (proj2 (backoff_cap_spec c 70 ltac:(split; vm_compute; congruence) ltac:(lia))). lia.
Defined.

(** ** The retry loop *)

(** The calls numbered [lo..hi] all failed with retryable errors. *)
Definition all_retryable (env : Z → attempt_env) (lo hi : Z) : Prop :=
  ∀ k, (lo <= k <= hi)%Z → ∃ e, ae_call (env k) = Err e ∧ isRetryableProfileError e = true.

(** An error the context reported before a call or during a pause. *)
Definition ctx_profile_error (env : Z → attempt_env) (e : error) : Prop :=
  ∃ k err, (ae_ctx (env k) = Some err ∨ ae_sleep (env k) = Some err) ∧ e = ctxToProfileError err.

(** What the loop can return when it starts at [attempt] after [attempt - 1] calls. *)
Definition fetch_result (c : RetryingProfileClient) (env : Z → attempt_env) (attempt : Z)
    (out : Z * (option error + Profile)) : Prop :=
  let '(calls, r) := out in
  (attempt - 1 <= calls <= maxAttempts c)%Z ∧
  match r with
  | inr p => (attempt <= calls)%Z ∧ ae_call (env calls) = Ok p ∧ all_retryable env attempt (calls - 1)
  | inl (Some e) => ae_call (env calls) = Err e ∨ ctx_profile_error env e
  | inl None => False
  end.

Lemma all_retryable_cons env k hi e :
  ae_call (env k) = Err e → isRetryableProfileError e = true →
  all_retryable env (k + 1) hi → all_retryable env k hi.
Proof.
  intros Hk Hr Hall k' Hk'. destruct (decide (k' = k)) as [->|]; [eauto|apply Hall; lia].
Qed.

Lemma fetch_loop_result c env fuel : ∀ attempt lastErr,
  (1 <= attempt)%Z → (Z.of_nat fuel = maxAttempts c - attempt + 1)%Z →
  (fuel = 0 → ∃ e, lastErr = Some e ∧ ae_call (env (attempt - 1)%Z) = Err e) →
  ∀ out, fetch_loop c env fuel attempt (attempt - 1) lastErr = Some out →
  fetch_result c env attempt out.
Proof.
  induction fuel as [|fuel IH]; intros attempt lastErr Ha Hf H0 out Hout; simpl in Hout.
  { destruct H0 as (e & -> & He); [done|]. injection Hout as <-. split; [lia|by left]. }
  clear H0. rewrite Z.sub_add in Hout.
  destruct (ae_ctx (env attempt)) as [err|] eqn:Hctx.
  { injection Hout as <-. split; [lia|]. right. by exists attempt, err; eauto. }
  destruct (ae_call (env attempt)) as [p|err] eqn:Hcall.
  { injection Hout as <-. split; [lia|]. split_and!; [lia|done|]. intros k ?. lia. }
  destruct (Z.eqb_spec attempt (maxAttempts c)).
  { injection Hout as <-. split; [lia|by left]. }
  destruct (isRetryableProfileError err) eqn:Hretry; simpl in Hout.
  2:{ injection Hout as <-. split; [lia|by left]. }
  assert (fetch_loop c env fuel (attempt + 1) attempt (Some err) = Some out →
    fetch_result c env attempt out) as Hnext.
  { intros Hl. specialize (IH (attempt + 1)%Z (Some err)). rewrite Z.add_simpl_r in IH.
    specialize (IH ltac:(lia) ltac:(lia) ltac:(eauto) out Hl).
    destruct out as [calls [[e|]|p]]; simpl in *; [split; [lia|apply IH]|by destruct IH|].
    destruct IH as (? & ? & ? & ?). split_and!; [lia|lia|lia|done|].
    by eapply all_retryable_cons. }
  destruct (backoffWithJitter _ _ _) as [delay|]; [|done].
  destruct (0 <? delay)%Z; [|by apply Hnext].
  destruct (hasTimeForDelay _ _); simpl in Hout; [|injection Hout as <-; split; [lia|by left]].
  destruct (ae_sleep (env attempt)) as [serr|] eqn:Hsleep; [|by apply Hnext].
  injection Hout as <-. split; [lia|]. right. by exists attempt, serr; eauto.
Qed.

(** With a maximal delay below the largest duration [Int63n] is never called
    with a bound that wrapped round to a non-positive number. *)
Lemma backoff_no_panic rng c attempt :
  (0 < maxDelay c < int_max)%Z → is_Some (backoffWithJitter rng c attempt).
Proof.
  intros Hm. unfold backoffWithJitter.
  assert (0 <= backoff_cap c attempt < int_max)%Z as Hc.
  { unfold backoff_cap. destruct (double_loop _ _) as [d|]; [|unfold int_max; lia].
    destruct (Z.ltb_spec 0 (maxDelay c)), (Z.ltb_spec (maxDelay c) d); simpl;
      destruct (Z.leb_spec (maxDelay c) 0); try destruct (Z.leb_spec d 0); lia. }
  destruct (_ =? 0)%Z; [done|]. rewrite wrap64_id; [|].
  { unfold int64_ok, int_min. unfold int_max in *. lia. }
  destruct (Z.leb_spec (backoff_cap c attempt + 1) 0); [lia|done].
Qed.

Lemma fetch_loop_total c env : (0 < maxDelay c < int_max)%Z →
  ∀ fuel attempt calls lastErr, is_Some (fetch_loop c env fuel attempt calls lastErr).
Proof.
  intros Hm. induction fuel as [|fuel IH]; intros attempt calls lastErr; simpl; [done|].
  destruct (ae_ctx _); [done|]. destruct (ae_call _); [done|].
  destruct (_ =? _)%Z; [done|]. destruct (negb _); [done|].
  destruct (backoff_no_panic (ae_rng (env attempt)) c attempt Hm) as [d ->].
  destruct (0 <? d)%Z; [|apply IH]. destruct (negb _); [done|]. by destruct (ae_sleep _).
Qed.

Lemma fetch_total attempts base max env :
  let c := NewRetryingProfileClient attempts base max in
  (0 < max < int_max)%Z →
  ∃ out, FetchProfile c env = Some out ∧ (1 <= maxAttempts c)%Z ∧ fetch_result c env 1 out.
Proof.
  intros c Hmax. assert (1 <= maxAttempts c)%Z as Hm.
  { unfold c. simpl. destruct (Z.ltb_spec attempts 1); lia. }
  destruct (fetch_loop_total c env ltac:(unfold c; simpl; destruct (Z.ltb_spec max 0); lia)
    (Z.to_nat (maxAttempts c)) 1 0 None) as [out Hout].
  exists out. split_and!; [done|done|].
  apply (fetch_loop_result c env (Z.to_nat (maxAttempts c)) 1 None); [lia|lia|lia|done].
Qed.

(** Retries: with a positive maximal delay the client always returns; it
    makes at most the configured number of calls, succeeds with the first
    successful call, and only after retryable failures; otherwise it reports the
    error of the last call it made or the context's own timeout or
    cancellation, never an empty error. *)
Theorem FetchProfile_bounded attempts base max env :
  let c := NewRetryingProfileClient attempts base max in
  (0 < max < int_max)%Z →
  ∃ out, FetchProfile c env = Some out ∧ (1 <= maxAttempts c)%Z ∧ fetch_result c env 1 out.
Proof. apply fetch_total. Qed.

Definition ex_profile : Profile := UserProfileService.mkProfile 7 "bio" "city".
(** A network failure, then a 503, then success; sleeps return at once. *)
Definition ex_env (k : Z) : attempt_env :=
  mkAttemptEnv None
    (if (k =? 1)%Z then ClientFetchProfile (DoFailed (EText "connection refused"))
     else if (k =? 2)%Z then ClientFetchProfile (Responded 503 (Ok ex_profile))
     else Ok ex_profile)
    (λ n, (n - 1)%Z) None None.

Lemma FetchProfile_bounded_witness :
  let c := NewRetryingProfileClient 5 (10 ^ 8) (10 ^ 9) in
  FetchProfile c ex_env = Some (3%Z, inr ex_profile) ∧ all_retryable ex_env 1 2.
Proof.
  intros c. assert (FetchProfile c ex_env = Some (3%Z, inr ex_profile)) as H by (vm_compute; reflexivity).
  split; [exact H|].
  destruct (FetchProfile_bounded 5 (10 ^ 8) (10 ^ 9) ex_env ltac:(unfold int_max; lia))
    as (out & Hout & _ & Hr).
  assert (out = (3%Z, inr ex_profile)) as -> by (fold c in Hout; rewrite H in Hout; congruence).
  destruct Hr as (_ & _ & _ & Hall). exact Hall.
Defined.

(** ** What the HTTP layer makes of it *)

(** The seven kinds of the profile client's error. *)
Definition profile_kinds : list sentinel :=
  [ErrTimeout; ErrCanceled; ErrNetwork; ErrUpstream5xx; ErrUpstream4xx; ErrParse; ErrBadResponse].

Section profile_error.
Context (k : sentinel) (st : Z) (c : option error).
Hypothesis Hc : ∀ e0, c = Some e0 → ∀ e', error_in e' e0 → recognised e' = false.

Lemma profile_As_None {A} (p : error → option A) :
  (∀ e', recognised e' = false → p e' = None) →
  p (ESentinel k) = None → p (EProfileError k st c) = None →
  errors_As p (EProfileError k st c) = None.
Proof using Hc.
  intros Hp H1 H2. rewrite errors_As_unfold H2 /= H1. destruct c as [e0|]; [simpl|done].
  rewrite errors_As_None //. intros e' Hin. by eapply Hp, Hc.
Qed.

Lemma profile_Is s :
  mapped_sentinel s = true → errors_Is (EProfileError k st c) s = bool_decide (k = s).
Proof using Hc.
  intros Hm. unfold errors_Is. rewrite errors_As_unfold /=.
  destruct (decide (k = s)) as [->|]; [by rewrite bool_decide_eq_true_2|].
  rewrite bool_decide_eq_false_2 //. destruct c as [e0|]; [simpl|done].
  rewrite errors_As_None //. intros e' Hin. pose proof (Hc e0 eq_refl e' Hin) as Hr.
  destruct e'; try done. simpl in *. case_decide; [subst; congruence|done].
Qed.

Lemma profile_error_status :
  k ∈ profile_kinds →
  prStatus (mpProblem (MapError (Some (EProfileError k st c)))) ∈ [408; 502; 503]%Z.
Proof using Hc.
  intros Hk. unfold MapError, map_transport, map_json, map_late.
  rewrite (profile_As_None as_bad_request) // ?(profile_As_None as_method_not_allowed) //
    ?(profile_As_None as_unauthorized) // ?(profile_As_None as_forbidden) //
    ?(profile_As_None as_validation) // ?(profile_As_None as_max_bytes) //
    ?(profile_As_None as_rate_limit) //; try (intros []; done).
  rewrite !profile_Is //. unfold profile_kinds in Hk.
  repeat (apply elem_of_cons in Hk as [->|Hk]; [vm_compute; set_solver|]).
  by apply elem_of_nil in Hk.
Qed.
End profile_error.

(** Every failure of the profile exchange is reported to the HTTP client
    as a gateway problem (502), an unavailable or timed-out dependency (503) or
    a cancelled request (408), never as an internal error, provided the
    transport's own errors have no HTTP meaning. *)
Theorem profile_errors_status x e :
  (∀ e0, match x with BadRequest e1 | DoFailed e1 => e0 = e1
                 | Responded _ (Err e1) => e0 = e1 | _ => False end →
         ∀ e', error_in e' e0 → recognised e' = false) →
  ClientFetchProfile x = Err e →
  prStatus (mpProblem (MapError (Some e))) ∈ [408; 502; 503]%Z.
Proof.
  intros Hun Hx.
  assert (∃ k st c, e = EProfileError k st c ∧ k ∈ profile_kinds ∧
    ∀ e0, c = Some e0 → ∀ e', error_in e' e0 → recognised e' = false) as (k & st & c & -> & Hk & Hc).
  { destruct x as [|e1|e1|code [p|e1]]; simpl in Hx; repeat case_match; simplify_eq;
      (do 3 eexists; split_and!; [done|unfold profile_kinds; set_solver|]);
      intros e0 [= <-]; try (by apply (Hun e1)).
    intros e' Hin. inversion Hin as [|? ? ? Hc]; subst; [done|]. by apply elem_of_nil in Hc. }
  by apply profile_error_status.
Qed.

Lemma profile_errors_status_witness :
  prStatus (mpProblem (MapError (Some (EProfileError ErrUpstream5xx 503 None)))) ∈ [408; 502; 503]%Z.
Proof.
  apply (profile_errors_status (Responded 503 (Ok ex_profile))); [|reflexivity].
  intros e0 [].
Defined.
