(* ===== verification/GrpcServer.v ===== *)
(** * The gRPC server runtime

    Models the life cycle of [internal/transport/grpcserver/runtime.go]: the
    mutex-guarded state, the goroutine that serves, the goroutine that stops
    gracefully, and any number of concurrent [Shutdown] calls.  The gRPC
    library appears only through the moments at which [Serve] and
    [GracefulStop] return, which the step relation leaves open, and through
    the error [Serve] returns, which is arbitrary. *)
From S2P Require Import Prelude.
From S2P Require Import GoErrors.

Module Runtime.

Inductive runtimeState : Type :=
| runtimeStateNew | runtimeStateRunning | runtimeStateStopping | runtimeStateStopped.
#[export] Instance runtimeState_eq_dec : EqDecision runtimeState.
Proof. solve_decision. Defined.

(** The serving goroutine and the goroutine of [shutdownOnce]. *)
Inductive serve_state : Type := NotServing | Serving | Served.
Inductive graceful_state : Type := NotSpawned | Stopping | GracefulDone.

Record Runtime := mkRuntime {
  state : runtimeState;
  err : option error;
  done : bool;               (* the channel closed under doneOnce *)
  serving : serve_state;
  graceful : graceful_state; (* GracefulDone: gracefulDone is closed *)
  srvStopped : bool;         (* server.Stop was called *)
  forced : bool;             (* forceStopOnce was used *)
}.

(** What [NewRuntimeWithConfig] builds. *)
Definition NewRuntime : Runtime := mkRuntime runtimeStateNew None false NotServing NotSpawned false false.

Definition Start (r : option Runtime) : option Runtime * option error :=
  match r with
  | None => (None, Some (ESentinel ErrGRPCServerRuntimeRequired))
  | Some rt =>
      if decide (state rt ≠ runtimeStateNew)
      then (Some rt, Some (ESentinel ErrGRPCServerAlreadyStarted))
      else (Some (mkRuntime runtimeStateRunning (err rt) (done rt) Serving (graceful rt)
                    (srvStopped rt) (forced rt)), None)
  end.

(** The locked part of [beginShutdown] and what the caller goes on with. *)
Inductive begin_result : Type := CloseUnstarted | NeedsGracefulStop | NothingToStop.

Definition beginShutdown (rt : Runtime) : Runtime * begin_result :=
  match state rt with
  | runtimeStateNew =>
      (mkRuntime runtimeStateStopped (err rt) (done rt) (serving rt) (graceful rt) (srvStopped rt) (forced rt),
       CloseUnstarted)
  | runtimeStateRunning =>
      (mkRuntime runtimeStateStopping (err rt) (done rt) (serving rt) (graceful rt) (srvStopped rt) (forced rt),
       NeedsGracefulStop)
  | runtimeStateStopping => (rt, NeedsGracefulStop)
  | runtimeStateStopped => (rt, NothingToStop)
  end.

(** The unlocked tail of [beginShutdown] for a server that never ran: stop it,
    close the listener, close [done]. *)
Definition close_unstarted (rt : Runtime) : Runtime :=
  mkRuntime (state rt) (err rt) true (serving rt) (graceful rt) true (forced rt).

(** [shutdownOnce.Do(...)]: the first caller spawns the goroutine. *)
Definition spawn_graceful (rt : Runtime) : Runtime :=
  match graceful rt with
  | NotSpawned => mkRuntime (state rt) (err rt) (done rt) (serving rt) Stopping (srvStopped rt) (forced rt)
  | _ => rt
  end.

(** [GracefulStop] returns and the goroutine closes [gracefulDone]. *)
Definition graceful_returns (rt : Runtime) : Runtime :=
  mkRuntime (state rt) (err rt) (done rt) (serving rt) GracefulDone (srvStopped rt) (forced rt).

(** [forceStopOnce.Do(r.server.Stop)]. *)
Definition force_stop (rt : Runtime) : Runtime :=
  mkRuntime (state rt) (err rt) (done rt) (serving rt) (graceful rt) true true.

(** The new state and whether the failure is fatal (then [stop] is called). *)
Definition finishServe (rt : Runtime) (serr : option error) : Runtime * bool :=
  let fatal :=
    match serr with
    | None => false
    | Some e => (bool_decide (state rt = runtimeStateRunning) && negb (errors_Is e GrpcErrServerStopped))%bool
    end in
  (mkRuntime runtimeStateStopped (if fatal then serr else err rt) true Served (graceful rt)
     (srvStopped rt) (forced rt), fatal).

Definition Ready (r : option Runtime) : option error :=
  match r with
  | None => Some (ESentinel ErrGRPCServerNotRunning)
  | Some rt =>
      if decide (state rt ≠ runtimeStateRunning) then Some (ESentinel ErrGRPCServerNotRunning) else None
  end.

(** Whether a receive from [Done()] goes through. *)
Definition Done (r : option Runtime) : bool :=
  match r with None => true | Some rt => done rt end.

Definition Err (r : option Runtime) : option error :=
  match r with None => Some (ESentinel ErrGRPCServerRuntimeRequired) | Some rt => err rt end.

(** ** Concurrent shutdown calls

    Where a call of [Shutdown] is. *)
Inductive phase : Type :=
| Closing                    (* tail of beginShutdown for an unstarted server *)
| Spawning                   (* before shutdownOnce.Do *)
| Selecting                  (* in the select *)
| ForcedWait (e : error)     (* forced stop done, waits for gracefulDone *)
| Joining (e : option error) (* waits for done *)
| Returned (e : option error).

Record rstate := mkRstate { rt : Runtime; calls : list phase }.
Definition rinit : rstate := mkRstate NewRuntime [].

Definition enter_phase (b : begin_result) : phase :=
  match b with
  | CloseUnstarted => Closing
  | NeedsGracefulStop => Spawning
  | NothingToStop => Returned None
  end.

(** Calls from outside: a start, a new shutdown. *)
Inductive call_step : rstate → rstate → Prop :=
| c_start r cs r' e : Start (Some r) = (Some r', e) → call_step (mkRstate r cs) (mkRstate r' cs)
| c_shutdown r cs :
    call_step (mkRstate r cs)
      (mkRstate (beginShutdown r).1 (cs ++ [enter_phase (beginShutdown r).2])).

(** What the goroutines and the pending calls do. *)
Inductive run_step : rstate → rstate → Prop :=
| r_serve_returns r cs serr :
    serving r = Serving → run_step (mkRstate r cs) (mkRstate (finishServe r serr).1 cs)
| r_graceful_returns r cs :
    graceful r = Stopping → run_step (mkRstate r cs) (mkRstate (graceful_returns r) cs)
| r_close r cs t :
    cs !! t = Some Closing → run_step (mkRstate r cs) (mkRstate (close_unstarted r) (<[t := Returned None]> cs))
| r_spawn r cs t :
    cs !! t = Some Spawning → run_step (mkRstate r cs) (mkRstate (spawn_graceful r) (<[t := Selecting]> cs))
| r_select_graceful r cs t :
    cs !! t = Some Selecting → graceful r = GracefulDone →
    run_step (mkRstate r cs) (mkRstate r (<[t := Joining None]> cs))
| r_select_ctx r cs t e :
    cs !! t = Some Selecting → run_step (mkRstate r cs) (mkRstate (force_stop r) (<[t := ForcedWait e]> cs))
| r_forced r cs t e :
    cs !! t = Some (ForcedWait e) → graceful r = GracefulDone →
    run_step (mkRstate r cs) (mkRstate r (<[t := Joining (Some e)]> cs))
| r_join r cs t e :
    cs !! t = Some (Joining e) → done r = true →
    run_step (mkRstate r cs) (mkRstate r (<[t := Returned e]> cs)).

Definition rstep (s s' : rstate) : Prop := call_step s s' ∨ run_step s s'.

(** ** The invariant *)

(** What the runtime's own fields say about each other. *)
Definition runtime_ok (r : Runtime) (closing : Prop) : Prop :=
  match state r with
  | runtimeStateNew => serving r = NotServing ∧ done r = false ∧ err r = None
  | runtimeStateRunning | runtimeStateStopping => serving r = Serving ∧ done r = false ∧ err r = None
  | runtimeStateStopped =>
      (serving r = Served ∧ done r = true) ∨ (serving r = NotServing ∧ (done r = true ∨ closing))
  end.

(** What the position of a call says about the runtime. *)
Definition phase_ok (r : Runtime) (p : phase) : Prop :=
  match p with
  | Closing | Returned _ => state r = runtimeStateStopped
  | Spawning => serving r ≠ NotServing
  | Selecting | ForcedWait _ => serving r ≠ NotServing ∧ graceful r ≠ NotSpawned
  | Joining _ => serving r ≠ NotServing ∧ graceful r = GracefulDone
  end ∧ state r ≠ runtimeStateNew ∧ state r ≠ runtimeStateRunning.

Definition rinv (s : rstate) : Prop :=
  runtime_ok (rt s) (Closing ∈ calls s) ∧ Forall (phase_ok (rt s)) (calls s).

Lemma runtime_ok_mono r (P Q : Prop) : (P → Q) → runtime_ok r P → runtime_ok r Q.
Proof. unfold runtime_ok. destruct (state r); tauto. Qed.

(** A call moves on and the runtime changes to [r']. *)
Lemma rinv_move r r' cs t p p' :
  rinv (mkRstate r cs) → cs !! t = Some p →
  runtime_ok r' (Closing ∈ <[t := p']> cs) →
  (∀ q, phase_ok r q → phase_ok r' q) → phase_ok r' p' →
  rinv (mkRstate r' (<[t := p']> cs)).
Proof.
  intros [_ Hcs] Ht Hr Hmono Hp'. split; [done|]. simpl in *.
  apply Forall_insert; [|done]. eapply list.Forall_impl; [done|]. apply Hmono.
Qed.

Lemma closing_insert (cs : list phase) t p p' :
  cs !! t = Some p → p ≠ Closing → Closing ∈ cs → Closing ∈ <[t := p']> cs.
Proof.
  intros Ht Hp [i Hi]%list_elem_of_lookup. apply list_elem_of_lookup. exists i.
  rewrite list_lookup_insert_ne; [congruence|done].
Qed.

Lemma rinv_call s s' : rinv s → call_step s s' → rinv s'.
Proof.
  intros [Hr Hcs] Hstep. destruct Hstep as [r cs r' e Hs|r cs]; simpl in *.
  - unfold Start in Hs. destruct (decide _) as [|Hnew]; simplify_eq; [done|].
    apply dec_stable in Hnew. unfold runtime_ok in Hr. rewrite Hnew in Hr. destruct Hr as (?&?&?).
    split; [done|]. simpl. destruct cs as [|p cs]; [constructor|].
    apply list.Forall_cons in Hcs as [Hp _]. by destruct Hp as [_ []].
  - unfold beginShutdown. unfold runtime_ok in Hr.
    destruct (state r) eqn:Hst; split; simpl; unfold runtime_ok; rewrite ?Hst /=.
    all: try (apply Forall_app; split; [|apply Forall_singleton]).
    all: try (destruct Hr as (? & ? & ?)).
    + right. split; [done|]. right. set_solver.
    + destruct cs as [|p cs]; [constructor|]. apply list.Forall_cons in Hcs as [Hp _].
      by destruct Hp as [_ []].
    + unfold phase_ok. by rewrite /=.
    + done.
    + destruct cs as [|p cs]; [constructor|]. apply list.Forall_cons in Hcs as [Hp _].
      by destruct Hp as [_ []].
    + unfold phase_ok. simpl. split; [congruence|done].
    + done.
    + done.
    + unfold phase_ok. rewrite Hst. split; [congruence|done].
    + set_solver.
    + done.
    + unfold phase_ok. by rewrite Hst.
Qed.

Lemma rinv_run s s' : rinv s → run_step s s' → rinv s'.
Proof.
  intros Hinv Hstep. pose proof Hinv as [Hr Hcs].
  destruct Hstep as [r cs serr Hs|r cs Hg|r cs t Ht|r cs t Ht|r cs t Ht Hg|r cs t e Ht|r cs t e Ht Hg|r cs t e Ht Hd];
    simpl in *; try (pose proof (Forall_lookup_1 _ _ _ _ Hcs Ht) as Hp).
  - split; [by left|]. eapply list.Forall_impl; [done|]. intros []; unfold phase_ok; naive_solver.
  - split; [done|]. eapply list.Forall_impl; [done|]. intros []; unfold phase_ok; simpl; naive_solver.
  - eapply rinv_move; [done..| | |].
    + unfold runtime_ok, phase_ok in *. simpl. destruct Hp as [Hp _]. rewrite Hp in Hr |- *. tauto.
    + by intros [].
    + done.
  - eapply rinv_move; [done..| | |].
    + unfold spawn_graceful. destruct (graceful r);
        (eapply (runtime_ok_mono _ (Closing ∈ cs)); [by apply (closing_insert _ _ Spawning)|done]).
    + unfold spawn_graceful. intros []; destruct (graceful r) eqn:Hg; unfold phase_ok; simpl;
        rewrite ?Hg; naive_solver.
    + unfold spawn_graceful. destruct (graceful r) eqn:Hg; unfold phase_ok in *; simpl;
        rewrite ?Hg; naive_solver.
  - eapply rinv_move; [done..| |done|].
    + eapply runtime_ok_mono; [by apply (closing_insert _ _ Selecting)|done].
    + unfold phase_ok in *. naive_solver.
  - eapply rinv_move; [done..| | |].
    + eapply (runtime_ok_mono _ (Closing ∈ cs)); [by apply (closing_insert _ _ Selecting)|done].
    + by intros [].
    + unfold phase_ok in *. naive_solver.
  - eapply rinv_move; [done..| |done|].
    + eapply runtime_ok_mono; [by apply (closing_insert _ _ (ForcedWait e))|done].
    + unfold phase_ok in *. naive_solver.
  - eapply rinv_move; [done..| |done|].
    + eapply runtime_ok_mono; [by apply (closing_insert _ _ (Joining e))|done].
    + destruct Hp as [_ Hne]. split; [|done]. unfold runtime_ok in Hr.
      destruct (state r); [by destruct Hne|by destruct Hne| |done].
      destruct Hr as (_ & Hnd & _). congruence.
Qed.

Lemma rinv_reachable s : rtc rstep rinit s → rinv s.
Proof.
  intros Hr. cut (rinv rinit); [|by split; [|constructor]]. induction Hr as [|s1 s2 s3 Hs _ IH]; [done|].
  intros Hi. apply IH. destruct Hs; eauto using rinv_call, rinv_run.
Qed.

(** ** Shutdown is final *)
Lemma stopped_stable s s' :
  rinv s → rtc rstep s s' → state (rt s) = runtimeStateStopped → state (rt s') = runtimeStateStopped.
Proof.
  intros Hinv Hr. induction Hr as [|s1 s2 s3 Hs _ IH]; [done|]. intros Hst. apply IH.
  - destruct Hs; eauto using rinv_call, rinv_run.
  - destruct Hs as [Hs|Hs]; destruct Hs; simpl in *; try done.
    + unfold Start in *. rewrite Hst in H. by simplify_eq/=.
    + unfold beginShutdown. by rewrite Hst.
    + unfold spawn_graceful. by destruct (graceful r).
Qed.

Lemma stopped_not_serving s : rinv s → state (rt s) = runtimeStateStopped → serving (rt s) ≠ Serving.
Proof.
  intros [Hr _] Hst. unfold runtime_ok in Hr. rewrite Hst in Hr.
  by destruct Hr as [[-> _]|[-> _]].
Qed.

(** Shutdown is final: once any call of [Shutdown] has returned, in
    whatever way it interleaved with a start, with other calls and with the
    server's own failure, the server is no longer serving, and in every later
    state it is still stopped, reports itself not ready, and refuses to start
    again. *)
Theorem shutdown_final s s' t e :
  rtc rstep rinit s → calls s !! t = Some (Returned e) → rtc rstep s s' →
  serving (rt s') ≠ Serving ∧
  Ready (Some (rt s')) = Some (ESentinel ErrGRPCServerNotRunning) ∧
  Start (Some (rt s')) = (Some (rt s'), Some (ESentinel ErrGRPCServerAlreadyStarted)).
Proof.
  intros Hs Ht Hs'. pose proof (rinv_reachable _ Hs) as Hinv.
  destruct (Forall_lookup_1 _ _ _ _ (proj2 Hinv) Ht) as [Hst _].
  pose proof (stopped_stable _ _ Hinv Hs' Hst) as Hst'.
  assert (rinv s') as Hinv' by (apply rinv_reachable; by etrans).
  split_and!; [by apply stopped_not_serving| |]; simpl; by rewrite decide_True; [rewrite Hst'|].
Qed.

(** ** Shutdown returns *)
Definition phase_weight (p : phase) : nat :=
  match p with
  | Spawning => 4 | Selecting => 3 | ForcedWait _ => 2 | Closing | Joining _ => 1 | Returned _ => 0
  end.
Definition serve_weight (v : serve_state) : nat := match v with Serving => 1 | _ => 0 end.
Definition graceful_weight (g : graceful_state) : nat :=
  match g with NotSpawned => 2 | Stopping => 1 | GracefulDone => 0 end.
Definition weight (s : rstate) : nat :=
  serve_weight (serving (rt s)) + graceful_weight (graceful (rt s)) +
  sum_list_with phase_weight (calls s).

Lemma weight_insert cs t p p' :
  cs !! t = Some p →
  sum_list_with phase_weight (<[t := p']> cs) + phase_weight p =
  sum_list_with phase_weight cs + phase_weight p'.
Proof.
  revert t. induction cs as [|q cs IH]; intros [|t] Ht; simplify_eq/=; [lia|].
  specialize (IH t Ht). lia.
Qed.

Lemma run_step_weight s s' : run_step s s' → weight s' < weight s.
Proof.
  intros Hs. destruct Hs as [r cs serr Hs|r cs Hg|r cs t Ht|r cs t Ht|r cs t Ht Hg|r cs t e Ht|r cs t e Ht Hg|r cs t e Ht Hd];
    unfold weight; simpl;
    try match goal with |- context [<[_ := ?p']> _] => pose proof (weight_insert _ _ _ p' Ht) as Hw; simpl in Hw end;
    rewrite ?Hs ?Hg /=; try lia.
  unfold spawn_graceful. destruct (graceful r) eqn:Hg; simpl; rewrite ?Hg /=; lia.
Qed.

Lemma run_steps_bounded n s s' : nsteps run_step n s s' → n + weight s' <= weight s.
Proof.
  induction 1 as [|n s1 s2 s3 Hs _ IH]; [done|]. apply run_step_weight in Hs. lia.
Qed.

(** Some step is possible as long as a call is pending. *)
Lemma pending_progress s t p :
  rinv s → calls s !! t = Some p → (∀ e, p ≠ Returned e) → ∃ s', run_step s s'.
Proof.
  intros [Hr Hcs] Ht Hne. pose proof (Forall_lookup_1 _ _ _ _ Hcs Ht) as Hp.
  destruct s as [r cs]; simpl in *. destruct p as [| | |e|e|e]; simpl in Hp.
  - eexists. by eapply r_close.
  - eexists. by eapply r_spawn.
  - eexists. by eapply (r_select_ctx _ _ _ (ESentinel ContextDeadlineExceeded)).
  - destruct Hp as [[_ Hg] _]. destruct (graceful r) eqn:E; [done| |].
    + eexists. by eapply r_graceful_returns.
    + eexists. by eapply r_forced.
  - destruct Hp as [[Hsv _] [Hnew Hrun]]. unfold runtime_ok in Hr.
    destruct (state r); [done|done| |].
    + eexists. eapply (r_serve_returns _ _ None). tauto.
    + eexists. eapply r_join; [done|]. tauto.
  - by destruct (Hne e).
Qed.

(** (C26) Shutdown returns: in every reachable state, whatever the pending calls
    do, the goroutines and calls can take only boundedly many steps before new
    calls arrive, and when none of them can move any more every call of
    [Shutdown] has returned.  So no interleaving deadlocks, provided the gRPC
    library lets [GracefulStop] and [Serve] return. *)
Theorem shutdown_returns s :
  rtc rstep rinit s →
  (∀ n s', nsteps run_step n s s' → n <= weight s) ∧
  (∀ s', rtc run_step s s' → (∀ s2, ¬ run_step s' s2) →
   ∀ t p, calls s' !! t = Some p → ∃ e, p = Returned e).
Proof.
  intros Hs. split.
  - intros n s' Hn%run_steps_bounded. lia.
  - intros s' Hr Hstuck t p Ht.
    assert (rinv s') as Hinv.
    { apply rinv_reachable. etrans; [done|]. eapply rtc_subrel; [|done]. intros ??. by right. }
    destruct p as [| | |e|e|e]; [..|by eexists];
      (destruct (pending_progress s' t _ Hinv Ht) as [s2 Hs2]; [done|]; by destruct (Hstuck s2)).
Qed.

(** ** A run: start, two concurrent shutdowns, the first one timing out *)
Definition ex_pending : rstate :=
  mkRstate (mkRuntime runtimeStateStopping None false Serving NotSpawned false false) [Spawning; Spawning].

Lemma ex_pending_reachable : rtc rstep rinit ex_pending.
Proof.
  eapply rtc_l; [left; by eapply (c_start NewRuntime [])|].
  eapply rtc_l; [left; apply c_shutdown|]. eapply rtc_l; [left; apply c_shutdown|]. apply rtc_refl.
Qed.

Definition deadline_error : error := ESentinel ContextDeadlineExceeded.
Definition ex_stopped : rstate :=
  mkRstate (mkRuntime runtimeStateStopped None true Served GracefulDone true true)
    [Returned (Some deadline_error); Spawning].

Lemma ex_stopped_run : rtc run_step ex_pending ex_stopped.
Proof.
  eapply rtc_l; [by eapply (r_spawn _ _ 0)|]. eapply rtc_l; [by eapply (r_select_ctx _ _ 0 deadline_error)|].
  eapply rtc_l; [by eapply r_graceful_returns|]. eapply rtc_l; [by eapply (r_forced _ _ 0)|].
  eapply rtc_l; [by eapply (r_serve_returns _ _ None)|]. eapply rtc_l; [by eapply (r_join _ _ 0)|].
  apply rtc_refl.
Qed.

Lemma ex_stopped_reachable : rtc rstep rinit ex_stopped.
Proof.
  etrans; [apply ex_pending_reachable|].
  eapply rtc_subrel; [|apply ex_stopped_run]. intros ??. by right.
Qed.

Lemma shutdown_final_witness :
  Ready (Some (rt ex_stopped)) = Some (ESentinel ErrGRPCServerNotRunning).
Proof.
  apply (shutdown_final ex_stopped ex_stopped 0 (Some deadline_error)
    ex_stopped_reachable eq_refl (rtc_refl _ _)).
Defined.

Lemma shutdown_returns_witness :
  weight ex_pending = 11 ∧ (∀ n s', nsteps run_step n ex_pending s' → n <= 11).
Proof.
  split; [reflexivity|]. exact (proj1 (shutdown_returns ex_pending ex_pending_reachable)).
Defined.

End Runtime.
