(* ===== verification/Server.v ===== *)
(** * The API server: start-up, supervision and shutdown

    Models [internal/api/server.go]: [Run] with every early return, [cleanup]
    and the classification of shutdown outcomes, over the models of the worker
    pool, the queue, the event hub and the gRPC runtime.  What the listeners,
    the HTTP servers and the clock decide is an argument of each operation. *)
From S2P Require Import Prelude.
From S2P Require Import GoErrors.
From S2P Require Import Entity.
From S2P Require Import Queue.
From S2P Require Import Stream.
From S2P Require Import WorkerPool.
From S2P Require Import GrpcServer.

(** ** Shutdown errors *)
Definition newComponentShutdownError (component : string) (outcome : shutdownOutcome) (err : option error)
  : error := EComponentShutdownError component outcome err.

Definition as_component (e : error) : option shutdownOutcome :=
  match e with EComponentShutdownError _ o _ => Some o | _ => None end.

(** The recursion of [hasShutdownOutcome]; the sentinel children of the JSON,
    profile and conflict errors cannot be component errors. *)
Fixpoint has_outcome (o : shutdownOutcome) (e : error) : bool :=
  let any := fix any (es : list error) : bool :=
    match es with [] => false | e :: es => if has_outcome o e then true else any es end in
  let cause (c : option error) : bool := match c with Some c => has_outcome o c | None => false end in
  if match errors_As as_component e with Some o' => bool_decide (o' = o) | None => false end then true
  else
    match e with
    | EWrap _ e => has_outcome o e
    | EJoin es => any es
    | EUnauthorizedError _ c | EAuthNError _ c | EForbiddenError _ c
    | EComponentShutdownError _ _ c | EJSONRequestError _ _ _ c | EProfileError _ _ c => cause c
    | _ => false
    end.

Definition hasShutdownOutcome (err : option error) (o : shutdownOutcome) : bool :=
  match err with None => false | Some e => has_outcome o e end.

Definition overallShutdownOutcome (runErr cleanupErr : option error) : shutdownOutcome :=
  match runErr, cleanupErr with
  | None, None => shutdownOutcomeGraceful
  | _, _ =>
      if hasShutdownOutcome cleanupErr shutdownOutcomeForced then shutdownOutcomeForced
      else if hasShutdownOutcome cleanupErr shutdownOutcomeTimedOut then shutdownOutcomeTimedOut
      else shutdownOutcomeFailed
  end.

(** ** Stopping one component

    What [Shutdown] and, where it is called, [Close] of an HTTP server report. *)
Record http_outcome := mkHttpOutcome { ho_shutdown : option error; ho_close : option error }.

(** The error of the forced close, unless it only says that the server is closed. *)
Definition close_error (x : http_outcome) : option error :=
  match ho_close x with
  | Some ce => if errors_Is ce HttpErrServerClosed then None else Some ce
  | None => None
  end.

Definition shutdownServer (name : string) (x : http_outcome) : option error :=
  match ho_shutdown x with
  | None => None
  | Some err =>
      if errors_Is err HttpErrServerClosed then None
      else
        let outcome := if errors_Is err ContextDeadlineExceeded then shutdownOutcomeForced
                       else shutdownOutcomeFailed in
        match close_error x with
        | Some ce =>
            errors_Join [Some (newComponentShutdownError name outcome (Some err));
                         Some (newComponentShutdownError name shutdownOutcomeFailed (Some ce))]
        | None => Some (newComponentShutdownError name outcome (Some err))
        end
  end.

(** The two servers are stopped concurrently; [https_first] says whose error
    reached the channel first. *)
Definition shutdownHTTPServers (http : http_outcome) (https : option http_outcome) (https_first : bool)
  : list error :=
  let e1 := option_list (shutdownServer "http" http) in
  let e2 := match https with Some x => option_list (shutdownServer "https" x) | None => [] end in
  if https_first then e2 ++ e1 else e1 ++ e2.

(** The interface value the server holds: nil, or a (possibly nil) runtime. *)
Inductive grpc_iface : Type := NilInterface | Iface (r : option Runtime.Runtime).

(** What [runtime.Shutdown] reports; a nil runtime reports nil. *)
Definition shutdownGRPC (r : option Runtime.Runtime) (reported : option error) : option error :=
  match (match r with None => None | Some _ => reported end) with
  | None => None
  | Some err =>
      Some (newComponentShutdownError "grpc"
        (if errors_Is err ContextDeadlineExceeded then shutdownOutcomeForced else shutdownOutcomeFailed)
        (Some err))
  end.

(** [WorkerPool.Stop] as one caller sees it: the workers that end while it
    waits, whether its context ends first, and the outcome of the repair. *)
Record stop_env := mkStopEnv {
  se_ended : list nat;           (* generations of the workers that end meanwhile *)
  se_ctx : option error;         (* None: the done channel was ready first *)
  se_repair : StopOutcome;
}.

Definition Stop (p : Lifecycle.WorkerPool) (e : stop_env) : Lifecycle.WorkerPool * option error :=
  match Lifecycle.stop_enter p with
  | (p, Lifecycle.StopReturns r) => (p, r)
  | (p, Lifecycle.StopWaits g firstStop) =>
      let p := if firstStop then Lifecycle.cancel_gen g p else p in
      let p := foldl (λ p g, Lifecycle.workerDone g p) p (se_ended e) in
      match se_ctx e with
      | None => Lifecycle.completeStop (se_repair e) g p
      | Some err => (p, Some err)
      end
  end.

Definition shutdownWorkerPool (p : Lifecycle.WorkerPool) (e : stop_env)
  : Lifecycle.WorkerPool * option error :=
  let '(p, r) := Stop p e in
  (p, (λ err, newComponentShutdownError "workerpool"
         (if errors_Is err ContextDeadlineExceeded then shutdownOutcomeTimedOut else shutdownOutcomeFailed)
         (Some err)) <$> r).

(** ** The server *)

(** What the server does to its components, in order. *)
Inductive action : Type :=
| SetReady | SetNotReady | QueueStopAccepting | StopHTTP | StopGRPC | StopPool | CloseHub.

Record APIServer := mkServer {
  readiness : bool;
  pool : Lifecycle.WorkerPool;
  queue : Queue;
  grpcRuntime : grpc_iface;
  eventHub : option Hub;
  openHTTP : bool;    (* the listeners the server has open *)
  openHTTPS : bool;
  trace : list action;
}.

Definition NewAPIServer (p : Lifecycle.WorkerPool) (q : Queue) (g : grpc_iface) (h : option Hub) : APIServer :=
  mkServer false p q g h false false [].

(** What the components report while [cleanup] runs. *)
Record cleanup_env := mkCleanupEnv {
  ce_http : http_outcome;
  ce_https : option http_outcome;
  ce_https_first : bool;
  ce_grpc : option error;
  ce_pool : stop_env;
  ce_hub : Hub → Hub; (* what handlers and workers do with the hub before it is closed *)
}.

Definition grpc_stops (g : grpc_iface) : list action := match g with NilInterface => [] | Iface _ => [StopGRPC] end.
Definition grpc_error (g : grpc_iface) (reported : option error) : list error :=
  match g with NilInterface => [] | Iface r => option_list (shutdownGRPC r reported) end.

Definition hub_stops (h : option Hub) : list action := match h with None => [] | Some _ => [CloseHub] end.

(** [None] only when the hub would panic or block. *)
Definition cleanup (e : cleanup_env) (s : APIServer) : option (APIServer * option error) :=
  let httpErrs := shutdownHTTPServers (ce_http e) (ce_https e) (ce_https_first e) in
  let grpcErrs := grpc_error (grpcRuntime s) (ce_grpc e) in
  let '(p, poolErr) := shutdownWorkerPool (pool s) (ce_pool e) in
  let tr := trace s ++ [SetNotReady; QueueStopAccepting; StopHTTP] ++ grpc_stops (grpcRuntime s) ++ [StopPool] in
  let errs := httpErrs ++ grpcErrs ++ option_list poolErr in
  let finish (h : option Hub) (tr : list action) :=
    Some (mkServer false p (StopAccepting (queue s)) (grpcRuntime s) h false false tr,
          match errs with [] => None | _ => errors_Join (Some <$> errs) end) in
  match eventHub s with
  | None => finish None tr
  | Some h => match Close (ce_hub e h) with None => None | Some h => finish (Some h) (tr ++ [CloseHub]) end
  end.

(** What ended the supervision. *)
Inductive trigger : Type :=
| CtxDone
| ServerError (name : string) (err : error)
| GrpcDone.

Record run_env := mkRunEnv {
  re_tls : bool;
  re_workers : Z;
  re_listen : option error;
  re_cert : option error;
  re_listen_tls : option error;
  re_start_stop : stop_env;           (* the Stop after a failed gRPC start *)
  re_serving : APIServer → APIServer; (* what happens while the servers serve *)
  re_trigger : trigger;
  re_cleanup : cleanup_env;
}.

Definition with_listeners (http https : bool) (s : APIServer) : APIServer :=
  mkServer (readiness s) (pool s) (queue s) (grpcRuntime s) (eventHub s) http https (trace s).

Definition grpc_start (g : grpc_iface) : grpc_iface * option error :=
  match g with
  | NilInterface => (NilInterface, None)
  | Iface r => let '(r, e) := Runtime.Start r in (Iface r, e)
  end.

Definition run_error (s : APIServer) (t : trigger) : option error :=
  match t with
  | CtxDone => None
  | ServerError name err => Some (EWrap (String.append name " server failed") err)
  | GrpcDone =>
      match grpcRuntime s with
      | NilInterface => None
      | Iface r => EWrap "grpc server failed" <$> Runtime.Err r
      end
  end.

(** From the worker pool's start on; the listeners are open. *)
Definition run_started (e : run_env) (s : APIServer) : option (APIServer * option error) :=
  match Lifecycle.Start (pool s) (re_workers e) with
  | (p, Some err) =>
      Some (mkServer (readiness s) p (queue s) (grpcRuntime s) (eventHub s) false false (trace s), Some err)
  | (p, None) =>
      match grpc_start (grpcRuntime s) with
      | (g, Some err) =>
          let p := (Stop p (re_start_stop e)).1 in
          Some (mkServer (readiness s) p (queue s) g (eventHub s) false false (trace s), Some err)
      | (g, None) =>
          let s := mkServer true p (queue s) g (eventHub s) (openHTTP s) (openHTTPS s)
                     (trace s ++ [SetReady]) in
          let s := re_serving e s in
          match cleanup (re_cleanup e) s with
          | None => None
          | Some (s', cleanupErr) => Some (s', errors_Join [run_error s (re_trigger e); cleanupErr])
          end
      end
  end.

Definition Run (e : run_env) (s : APIServer) : option (APIServer * option error) :=
  match re_listen e with
  | Some err => Some (s, Some err)
  | None =>
      if re_tls e then
        match re_cert e with
        | Some err => Some (with_listeners false false s, Some err)
        | None =>
            match re_listen_tls e with
            | Some err => Some (with_listeners false false s, Some err)
            | None => run_started e (with_listeners true true s)
            end
        end
      else run_started e (with_listeners true false s)
  end.

(** ** Outcomes *)
Lemma has_outcome_unfold o e :
  has_outcome o e =
    ((match errors_As as_component e with Some o' => bool_decide (o' = o) | None => false end)
     || existsb (has_outcome o) (Unwrap e))%bool.
Proof.
  destruct e as [| |? e0|es| | |? [c'|]|? [c'|]|? [c'|]| |? ? ? [c'|]| | |
                 |? ? [c'|]|? ? [c'|]| | | | |];
    unfold has_outcome; fold has_outcome; cbn [Unwrap existsb option_list];
    case_match; simpl; by rewrite ?orb_false_r.
Qed.

(** An outcome is found exactly when it occurs in the tree. *)
Lemma has_outcome_in e o :
  has_outcome o e = true ↔ ∃ component err, error_in (EComponentShutdownError component o err) e.
Proof.
  induction e as [e IH] using error_ind_Unwrap. rewrite has_outcome_unfold orb_true_iff. split.
  - intros [Has|Hex].
    + destruct (errors_As as_component e) as [o'|] eqn:E; [|done]. apply bool_decide_eq_true in Has as ->.
      apply errors_As_first in E as (e' & Hin & He'). destruct e'; simplify_eq/=. eauto.
    + apply existsb_exists in Hex as (c & Hc%list_elem_of_In & Ho). apply IH in Ho as (n & err & Hin); [|done].
      eauto using error_in.
  - intros (n & err & Hin). inversion Hin as [|? c ? Hc Hin']; subst.
    + left. rewrite errors_As_unfold /=. by apply bool_decide_eq_true.
    + right. apply existsb_exists. exists c. split; [by apply list_elem_of_In|]. apply IH; eauto.
Qed.

(** The search for a shutdown outcome is complete: although [errors.As]
    stops at the first component error, [hasShutdownOutcome] finds an outcome
    exactly when some component error of that outcome occurs anywhere in the
    error tree. *)
Theorem hasShutdownOutcome_complete e o :
  hasShutdownOutcome (Some e) o = true ↔
  ∃ component err, error_in (EComponentShutdownError component o err) e.
Proof. apply has_outcome_in. Qed.

(** ** What cleanup leaves behind *)
Lemma workers_end_flags l : ∀ p,
  Lifecycle.generation (foldl (λ p g, Lifecycle.workerDone g p) p l) = Lifecycle.generation p ∧
  Lifecycle.stopping (foldl (λ p g, Lifecycle.workerDone g p) p l) = Lifecycle.stopping p.
Proof. induction l as [|g l IH]; intros p; simpl; [done|]. by destruct (IH (Lifecycle.workerDone g p)) as [-> ->]. Qed.

Lemma Stop_not_running p e : Lifecycle.IsRunning (Stop p e).1 = false.
Proof.
  unfold Stop, Lifecycle.stop_enter. destruct (Lifecycle.generation p) as [g|] eqn:Hg.
  2:{ simpl. unfold Lifecycle.IsRunning. by rewrite Hg. }
  set (p1 := Lifecycle.mkWorkerPool _ _ _ _ _).
  set (p2 := if negb _ then _ else _).
  assert (Lifecycle.stopping p2 = true) as Hs by (unfold p2; by destruct (negb _)).
  set (p3 := foldl _ _ _).
  assert (Lifecycle.stopping p3 = true) as Hs3 by (by rewrite (proj2 (workers_end_flags (se_ended e) p2))).
  destruct (se_ctx e) as [err|]; simpl.
  - unfold Lifecycle.IsRunning. rewrite Hs3. by destruct (Lifecycle.generation p3).
  - unfold Lifecycle.IsRunning. destruct (decide _); simpl; [done|].
    rewrite Hs3. by destruct (Lifecycle.generation p3).
Qed.

Lemma Close_ok log h :
  hub_inv log h → closed h = false →
  ∃ h', Close h = Some h' ∧ closed h' = true ∧ subs h' = ∅.
Proof.
  intros Hi Hc. unfold Close, close_flag. rewrite Hc.
  set (h1 := mkHub _ _ _ _ _ _ _ _ _ _).
  assert (hub_inv log h1) as Hi1 by (destruct Hi; by split).
  destruct (close_drain_inv log h1 Hi1) as (h' & Hd & _). exists h'. rewrite Hd. split; [done|].
  unfold close_drain in Hd. destruct (foldl _ _ _); by simplify_eq/=.
Qed.

(** The server's hub, when it is closed, is in a state its operations reach. *)
Definition hub_ready (e : cleanup_env) (s : APIServer) : Prop :=
  ∀ h, eventHub s = Some h → closed (ce_hub e h) = false ∧ ∃ log, hub_inv log (ce_hub e h).

Lemma cleanup_returns e s :
  hub_ready e s →
  ∃ s' err, cleanup e s = Some (s', err) ∧
    readiness s' = false ∧ openHTTP s' = false ∧ openHTTPS s' = false ∧
    queue s' = StopAccepting (queue s) ∧ Lifecycle.IsRunning (pool s') = false ∧
    (∀ h, eventHub s' = Some h → closed h = true ∧ subs h = ∅) ∧
    (err = None ↔ shutdownHTTPServers (ce_http e) (ce_https e) (ce_https_first e) = [] ∧
                  grpc_error (grpcRuntime s) (ce_grpc e) = [] ∧ (Stop (pool s) (ce_pool e)).2 = None) ∧
    trace s' = trace s ++ [SetNotReady; QueueStopAccepting; StopHTTP] ++ grpc_stops (grpcRuntime s) ++
               [StopPool] ++ hub_stops (eventHub s).
Proof.
  intros Hh. unfold cleanup, shutdownWorkerPool.
  pose proof (Stop_not_running (pool s) (ce_pool e)) as Hrun.
  destruct (Stop (pool s) (ce_pool e)) as [p perr]; simpl in *.
  set (errs := _ ++ _ ++ option_list _).
  assert (∀ r : option error, (r = match errs with [] => None | _ => errors_Join (Some <$> errs) end) →
    (r = None ↔ shutdownHTTPServers (ce_http e) (ce_https e) (ce_https_first e) = [] ∧
                grpc_error (grpcRuntime s) (ce_grpc e) = [] ∧ perr = None)) as Herr.
  { intros r ->. transitivity (errs = []).
    - destruct errs; [done|]. split; [|done]. unfold errors_Join. simpl. done.
    - unfold errs. rewrite !app_nil. destruct perr; simpl; naive_solver. }
  destruct (eventHub s) as [h|] eqn:Eh.
  - destruct (Hh h Eh) as [Hc [log Hi]]. destruct (Close_ok log _ Hi Hc) as (h' & -> & Hc' & Hs').
    eexists _, _. split_and!; try (by apply Herr); try done.
    + by intros ? [= <-].
    + simpl. by rewrite -!app_assoc /= -app_assoc.
  - eexists _, _. split_and!; try (by apply Herr); done.
Qed.

(** Cleanup is unconditional: whatever the HTTP servers, the gRPC runtime
    and the pool report, it runs to its end; afterwards the service is not
    ready, the queue refuses every item, the pool is not running, the hub is
    closed with no subscriber left, and the components were stopped in the
    order readiness, queue, HTTP, gRPC, pool, hub. *)
Theorem cleanup_unconditional e s :
  hub_ready e s →
  ∃ s' err, cleanup e s = Some (s', err) ∧
    readiness s' = false ∧ openHTTP s' = false ∧ openHTTPS s' = false ∧
    (∀ item, (Enqueue ctx_live (queue s') item).2 = Some (ESentinel ErrQueueStopped)) ∧
    Lifecycle.CheckRunning (pool s') = Some (ESentinel ErrPoolNotRunning) ∧
    (∀ h, eventHub s' = Some h → Ready h = Some (ESentinel ErrHubClosed) ∧ sub_ids h = []) ∧
    trace s' = trace s ++ [SetNotReady; QueueStopAccepting; StopHTTP] ++ grpc_stops (grpcRuntime s) ++
               [StopPool] ++ hub_stops (eventHub s).
Proof.
  intros Hh. destruct (cleanup_returns e s Hh) as (s' & err & Hc & Hr & H1 & H2 & Hq & Hp & Hhub & _ & Ht).
  exists s', err. split_and!; [done..| | | |done].
  - intros item. by rewrite Hq.
  - unfold Lifecycle.CheckRunning. by rewrite Hp.
  - intros h Eh. destruct (Hhub h Eh) as [Hcl Hs]. unfold Ready, sub_ids. rewrite Hcl Hs. done.
Qed.

(** ** The summary is truthful *)
Definition deadline_hit (x : http_outcome) : bool :=
  match ho_shutdown x with
  | Some e => (errors_Is e ContextDeadlineExceeded && negb (errors_Is e HttpErrServerClosed))%bool
  | None => false
  end.

(** A component had to be cut off at the shutdown deadline. *)
Definition cut_off (e : cleanup_env) (g : grpc_iface) : bool :=
  (deadline_hit (ce_http e)
   || match ce_https e with Some x => deadline_hit x | None => false end
   || match g, ce_grpc e with
      | Iface (Some _), Some err => errors_Is err ContextDeadlineExceeded
      | _, _ => false
      end)%bool.

Lemma deadline_hit_forced name x :
  deadline_hit x = true →
  ∃ e, shutdownServer name x = Some e ∧ has_outcome shutdownOutcomeForced e = true.
Proof.
  unfold deadline_hit, shutdownServer. destruct (ho_shutdown x) as [e|]; [|done].
  intros [-> ->%negb_true_iff]%andb_true_iff.
  destruct (close_error x) as [ce|]; (eexists; split; [done|]).
  - apply has_outcome_in. do 2 eexists. eapply error_in_child; [left|constructor].
  - apply has_outcome_in. do 2 eexists. constructor.
Qed.

Lemma cut_off_error e g :
  cut_off e g = true →
  ∃ err, err ∈ shutdownHTTPServers (ce_http e) (ce_https e) (ce_https_first e) ++ grpc_error g (ce_grpc e) ∧
    has_outcome shutdownOutcomeForced err = true.
Proof.
  unfold cut_off, shutdownHTTPServers. intros [[Hh|Hs]%orb_true_iff|Hg]%orb_true_iff.
  - destruct (deadline_hit_forced "http" _ Hh) as (err & -> & ?). exists err.
    split; [|done]. destruct (ce_https_first e); set_solver.
  - destruct (ce_https e) as [x|]; [|done]. destruct (deadline_hit_forced "https" _ Hs) as (err & -> & ?).
    exists err. split; [|done]. destruct (ce_https_first e); set_solver.
  - destruct g as [|[r|]]; try done. destruct (ce_grpc e) as [err|]; [|done].
    eexists. split; [apply elem_of_app; right; simpl; left|].
    rewrite Hg. apply has_outcome_in. do 2 eexists. constructor.
Qed.

Lemma errors_Join_Some e es : errors_Join (Some <$> e :: es) = Some (EJoin (e :: es)).
Proof.
  unfold errors_Join. rewrite (_ : omap id (Some <$> e :: es) = e :: es); [|done].
  induction (e :: es) as [|x l IH]; [done|]. by rewrite fmap_cons /= -{2}IH.
Qed.

(** (C33) The reported outcome is truthful: a run is summarised as graceful only
    if supervision ended without an error and every component stopped without
    one, and as forced whenever an HTTP server or the gRPC server was cut off
    at the deadline. *)
Theorem shutdown_outcome_truthful e s runErr s' err :
  hub_ready e s → cleanup e s = Some (s', err) →
  (overallShutdownOutcome runErr err = shutdownOutcomeGraceful ↔
   runErr = None ∧ shutdownHTTPServers (ce_http e) (ce_https e) (ce_https_first e) = [] ∧
   grpc_error (grpcRuntime s) (ce_grpc e) = [] ∧ (Stop (pool s) (ce_pool e)).2 = None) ∧
  (cut_off e (grpcRuntime s) = true → overallShutdownOutcome runErr err = shutdownOutcomeForced).
Proof.
  intros Hh Hc. split.
  - destruct (cleanup_returns e s Hh) as (s2 & err2 & Hc2 & _ & _ & _ & _ & _ & _ & Hiff & _).
    rewrite Hc in Hc2. injection Hc2 as <- <-. rewrite -Hiff. unfold overallShutdownOutcome.
    destruct runErr, err; try naive_solver;
      (split; [repeat destruct (hasShutdownOutcome _ _); done|naive_solver]).
  - intros (x & Hx & Ho)%cut_off_error. unfold cleanup in Hc.
    destruct (shutdownWorkerPool _ _) as [p perr].
    assert (err = match (shutdownHTTPServers (ce_http e) (ce_https e) (ce_https_first e) ++
      grpc_error (grpcRuntime s) (ce_grpc e) ++ option_list perr) with [] => None | _ => errors_Join (Some <$>
      (shutdownHTTPServers (ce_http e) (ce_https e) (ce_https_first e) ++
      grpc_error (grpcRuntime s) (ce_grpc e) ++ option_list perr)) end) as ->.
    { destruct (eventHub s); [destruct (Close _); [|done]|]; by simplify_eq. }
    rewrite app_assoc. set (errs := _ ++ _) in Hx |- *.
    assert (has_outcome shutdownOutcomeForced (EJoin (errs ++ option_list perr)) = true) as Hf.
    { rewrite has_outcome_unfold. apply orb_true_iff. right. apply existsb_exists.
      exists x. split; [|done]. apply list_elem_of_In, elem_of_app. by left. }
    unfold overallShutdownOutcome. destruct (errs ++ option_list perr) as [|y l] eqn:El.
    { apply app_nil in El as [El _]. rewrite El in Hx. by apply elem_of_nil in Hx. }
    rewrite errors_Join_Some. unfold hasShutdownOutcome. rewrite Hf. by destruct runErr.
Qed.

(** ** Start-up *)

(** [Run] releases what it acquired: on every path (a listener or the
    certificate that fails, a pool or a gRPC server that does not start, or a
    full run ended by a signal or a failure) it returns with both listeners
    closed, not ready, and the pool not running if the pool was started; a
    failure of a start-up step is what it returns, and the service was never
    marked ready then. *)
Theorem Run_releases e s :
  readiness s = false → openHTTP s = false → openHTTPS s = false → trace s = [] →
  Lifecycle.generation (pool s) = None →
  (∀ s1, hub_ready (re_cleanup e) (re_serving e s1)) →
  ∃ s' err, Run e s = Some (s', err) ∧
    readiness s' = false ∧ openHTTP s' = false ∧ openHTTPS s' = false ∧
    Lifecycle.IsRunning (pool s') = false ∧
    (∀ x, (re_listen e = Some x ∨
           re_listen e = None ∧ re_tls e = true ∧
             (re_cert e = Some x ∨ re_cert e = None ∧ re_listen_tls e = Some x)) →
     err = Some x ∧ trace s' = []).
Proof.
  intros Hr H1 H2 Ht Hg Hh.
  assert (Lifecycle.IsRunning (pool s) = false) as Hrun by (unfold Lifecycle.IsRunning; by rewrite Hg).
  assert (∀ b, ∃ s' err, run_started e (with_listeners true b s) = Some (s', err) ∧
    readiness s' = false ∧ openHTTP s' = false ∧ openHTTPS s' = false ∧
    Lifecycle.IsRunning (pool s') = false) as Hstart.
  { intros b. unfold run_started. simpl.
    destruct (Lifecycle.Start (pool s) (re_workers e)) as [p [err|]] eqn:Es.
    - eexists _, _. split_and!; [done..|]. simpl. unfold Lifecycle.Start, Lifecycle.settleStoppedLocked in Es.
      rewrite Hg /= in Es. rewrite Hg in Es. by simplify_eq.
    - destruct (grpc_start _) as [g [err|]].
      + eexists _, _. split_and!; [done..|]. apply Stop_not_running.
      + match goal with |- context [cleanup _ ?st] => destruct (cleanup_returns _ st (Hh _)) as
          (s' & err & -> & ? & ? & ? & _ & ? & _) end.
        eexists _, _. by split_and!. }
  unfold Run. destruct (re_listen e) as [x|] eqn:El.
  { eexists _, _. split_and!; [done..|]. intros y [[= ->]|[? _]]; done. }
  destruct (re_tls e) eqn:Etls.
  - destruct (re_cert e) as [x|] eqn:Ec; [|destruct (re_listen_tls e) as [x|] eqn:Et].
    + eexists _, _. split_and!; [done..|]. intros y [|(_ & _ & [[= ->]|[? _]])]; done.
    + eexists _, _. split_and!; [done..|]. intros y [|(_ & _ & [|[_ [= ->]]])]; done.
    + destruct (Hstart true) as (s' & err & ? & ? & ? & ? & ?). exists s', err.
      split_and!; [done..|]. intros y [|(_ & _ & [|[_ ?]])]; done.
  - destruct (Hstart false) as (s' & err & ? & ? & ? & ? & ?). exists s', err.
    split_and!; [done..|]. intros y [|(_ & ? & _)]; done.
Qed.

(** With the gRPC server disabled the process wires a nil runtime into a
    non-nil interface value: the nil check of [Run] does not recognise it, so
    the service never starts and reports a missing runtime instead. *)
Theorem Run_disabled_grpc_fails e s :
  grpcRuntime s = Iface None → re_listen e = None → re_tls e = false →
  Lifecycle.generation (pool s) = None →
  ∃ s', Run e s = Some (s', Some (ESentinel ErrGRPCServerRuntimeRequired)) ∧
    readiness s' = readiness s ∧ trace s' = trace s.
Proof.
  intros Hn Hl Ht Hg. unfold Run. rewrite Hl Ht. unfold run_started. simpl. rewrite Hn.
  unfold Lifecycle.Start, Lifecycle.settleStoppedLocked. rewrite Hg /= Hg. simpl. by eexists.
Qed.

(** ** A run whose HTTP server has to be cut off *)
Definition ex_server : APIServer :=
  NewAPIServer Lifecycle.NewWorkerPool (mkQueue [] 4 false 0) (Iface (Some Runtime.NewRuntime)) (Some ex_hub).
Definition ex_deadline : error := ESentinel ContextDeadlineExceeded.
Definition ex_cleanup : cleanup_env :=
  mkCleanupEnv (mkHttpOutcome (Some ex_deadline) None) None false None
    (mkStopEnv [0; 0] None (mkStopOutcome true true 1 None)) (λ h, h).
Definition ex_run : run_env :=
  mkRunEnv false 2 None None None (mkStopEnv [] None zero_outcome) (λ s, s) CtxDone ex_cleanup.

Lemma ex_hub_inv : hub_inv ∅ ex_hub.
Proof. by destruct (NewHub_inv 2 ex_hub eq_refl). Qed.

Lemma ex_hub_ready : hub_ready ex_cleanup ex_server.
Proof. intros h [= <-]. split; [done|]. exists ∅. apply ex_hub_inv. Qed.

Lemma cleanup_unconditional_witness :
  ∃ s' err, cleanup ex_cleanup ex_server = Some (s', err) ∧
    trace s' = [SetNotReady; QueueStopAccepting; StopHTTP; StopGRPC; StopPool; CloseHub].
Proof.
  destruct (cleanup_unconditional ex_cleanup ex_server ex_hub_ready)
    as (s' & err & Hc & _ & _ & _ & _ & _ & _ & Ht).
  exists s', err. split; [exact Hc|exact Ht].
Defined.

Lemma shutdown_outcome_truthful_witness :
  ∃ s' err, cleanup ex_cleanup ex_server = Some (s', err) ∧
    overallShutdownOutcome None err = shutdownOutcomeForced.
Proof.
  destruct (cleanup ex_cleanup ex_server) as [[s' err]|] eqn:E; [|vm_compute in E; discriminate].
  exists s', err. split; [reflexivity|].
  apply (shutdown_outcome_truthful ex_cleanup ex_server None s' err ex_hub_ready E). reflexivity.
Defined.

(** While serving, the hub is reset to a fresh one, as if every client left. *)
Definition ex_serving (s : APIServer) : APIServer :=
  mkServer (readiness s) (pool s) (queue s) (grpcRuntime s) (Some ex_hub) (openHTTP s) (openHTTPS s) (trace s).
Definition ex_run2 : run_env :=
  mkRunEnv false 2 None None None (mkStopEnv [] None zero_outcome) ex_serving CtxDone ex_cleanup.

Lemma Run_releases_witness :
  ∃ s' err, Run ex_run2 ex_server = Some (s', err) ∧ readiness s' = false ∧
    Lifecycle.IsRunning (pool s') = false.
Proof.
  destruct (Run_releases ex_run2 ex_server eq_refl eq_refl eq_refl eq_refl eq_refl)
    as (s' & err & Hr & Hready & _ & _ & Hp & _).
  - intros s1 h [= <-]. split; [reflexivity|]. exists ∅. apply ex_hub_inv.
  - exists s', err. split_and!; assumption.
Defined.

Definition ex_no_grpc : APIServer :=
  NewAPIServer Lifecycle.NewWorkerPool (mkQueue [] 4 false 0) (Iface None) (Some ex_hub).

Lemma Run_disabled_grpc_fails_witness :
  ∃ s', Run ex_run ex_no_grpc = Some (s', Some (ESentinel ErrGRPCServerRuntimeRequired)) ∧
    readiness s' = readiness ex_no_grpc ∧ trace s' = trace ex_no_grpc.
Proof. exact (Run_disabled_grpc_fails ex_run ex_no_grpc eq_refl eq_refl eq_refl eq_refl). Defined.
