(* ===== verification/Handlers.v ===== *)
(** * Request handlers

    Models [internal/transport/grpcserver/grpc_job_service.go] (module
    [JobGRPC]), [internal/routes/job_handler.go] (module [JobHandler]) and
    [internal/routes/users_handler.go] with its v2 variant (module
    [UsersHandler]).  Encoders, the gRPC client stub and what the connection
    reports are arguments; the services, the queue and the hub are the models of
    the other files. *)
From Stdlib Require Import Ascii.
From S2P Require Import Prelude.
From S2P Require Import GoErrors.
From S2P Require Import Entity.
From S2P Require Import JobRepo.
From S2P Require Import MemoryJobRepo.
From S2P Require Import UserRepo.
From S2P Require Import Services.
From S2P Require Import Queue.
From S2P Require Import Stream.
From S2P Require Import GoStrings.
From S2P Require Import HttpErrors.
From S2P Require Import HttpUtils.
From S2P Require Import Security.

(** ** The gRPC job service *)
Module JobGRPC.

(** The enumeration of the wire format. *)
Definition JOB_STATUS_UNSPECIFIED : Z := 0.
Definition JOB_STATUS_QUEUED : Z := 1.
Definition JOB_STATUS_RUNNING : Z := 2.
Definition JOB_STATUS_SUCCEEDED : Z := 3.
Definition JOB_STATUS_FAILED : Z := 4.

Record pbJob := mkPbJob { pbId : Z; pbStatus : Z }.

Definition mapJobStatus (s : JobStatus) : Z :=
  if streqb s JobQueued then JOB_STATUS_QUEUED
  else if streqb s JobRunning then JOB_STATUS_RUNNING
  else if streqb s JobSucceeded then JOB_STATUS_SUCCEEDED
  else if streqb s JobFailed then JOB_STATUS_FAILED
  else JOB_STATUS_UNSPECIFIED.

(** [principal] is what the auth interceptor left in the context, [None] as a
    request is a nil message. *)
Definition GetJob {S} `{!JobRepository S} (env : repo_env) (s : S) (principal : option Principal)
    (req : option Z) : res error pbJob :=
  match principal with
  | None => Err (EStatusError codeUnauthenticated "authentication required")
  | Some p =>
      match req with
      | None => Err (EStatusError codeInvalidArgument "request must not be nil")
      | Some id =>
          if (id <=? 0)%Z then Err (EStatusError codeInvalidArgument "job ID must be positive")
          else
            match JobService.GetByID env s id with
            | Err err =>
                Err (if errors_Is err ContextCanceled then EStatusError codeCanceled "request canceled"
                     else if errors_Is err ContextDeadlineExceeded
                     then EStatusError codeDeadlineExceeded "deadline exceeded"
                     else if errors_Is err ErrJobNotFound
                     then EStatusError codeNotFound
                            (String.append "job with ID " (String.append (Itoa id) " not found"))
                     else EStatusError codeInternal "internal error")
            | Ok job =>
                if negb (CanReadJob p (OwnerUserID job))
                then Err (EStatusError codePermissionDenied "permission denied")
                else Ok (mkPbJob (ID job) (mapJobStatus (Status job)))
            end
      end
  end.

End JobGRPC.

(** ** The HTTP job handlers *)
Module JobHandler.
Import JobGRPC.

Definition mapPBJobStatus (s : Z) : string :=
  if (s =? JOB_STATUS_QUEUED)%Z then "queued"
  else if (s =? JOB_STATUS_RUNNING)%Z then "running"
  else if (s =? JOB_STATUS_SUCCEEDED)%Z then "succeeded"
  else if (s =? JOB_STATUS_FAILED)%Z then "failed"
  else "unknown".

Record JobBridgeDTO := mkJobBridgeDTO { brID : Z; brStatus : string; brSource : string }.

Section handlers.
  Context {S : Type} `{!JobRepository S} (env : repo_env).
  (** JSON encoding of the two documents and what the connection reports. *)
  Context (enc_job : Job → res error string) (enc_bridge : JobBridgeDTO → res error string).
  Context (werr : option error).

(** The checks [GetByID] and [Events] start with. *)
Definition readable_job (s : S) (principal : option Principal) (id : Z) : res error Job :=
  match JobService.GetByID env s id with
  | Err err => Err err
  | Ok job =>
      match principal with
      | None => Err (NewUnauthorized AuthNMissing None)
      | Some p =>
          if negb (CanReadJob p (OwnerUserID job)) then Err (NewForbidden AuthZForbidden None) else Ok job
      end
  end.

Definition GetByID (s : S) (w : response) (principal : option Principal) (id : Z)
  : response * option error :=
  match readable_job s principal id with
  | Err err => (w, Some err)
  | Ok job => WriteJSON w 200 (enc_job job) werr
  end.

(** The metadata sent along, and the stub: a nil client is [None]. *)
Definition outgoing (reqID : option string) (authorization : string) : list (string * string) :=
  (match reqID with Some r => if streqb r "" then [] else [("request-id", r)] | None => [] end) ++
  (let a := TrimSpace authorization in if streqb a "" then [] else [("authorization", a)]).

Definition GetByIDViaGRPC (errstr : error → string)
    (client : option (list (string * string) → Z → res error pbJob))
    (w : response) (reqID : option string) (authorization : string) (id : Z) : response * option error :=
  match client with
  | None => (w, Some (ESentinel ErrGRPCBridgeUnavailable))
  | Some call =>
      match call (outgoing reqID authorization) id with
      | Err err => (w, Some (MapGRPCBridgeError errstr err))
      | Ok resp =>
          WriteJSON w 200 (enc_bridge (mkJobBridgeDTO (pbId resp) (mapPBJobStatus (pbStatus resp)) "grpc")) werr
      end
  end.
End handlers.

Definition sseCloseReason (err : option error) : string :=
  match err with
  | None => "context_done"
  | Some e =>
      if errors_Is e ContextCanceled then "client_closed"
      else if errors_Is e ContextDeadlineExceeded then "deadline_exceeded"
      else "context_done"
  end.

Definition as_timeout (e : error) : option unit :=
  match e with ETimeoutNetError _ => Some tt | _ => None end.
Definition sseErrorKind (e : error) : string :=
  if errors_Is e ContextCanceled then "context_canceled"
  else if errors_Is e ContextDeadlineExceeded then "deadline_exceeded"
  else match errors_As as_timeout e with Some _ => "timeout" | None => "write_error" end.

(** *** The event stream

    What each round of the [select] meets; [idle] is what other goroutines do
    with the hub before it. *)
Inductive select_case : Type :=
| SelDone (cause : option error)
| SelTick (result : option error)   (* setting the deadline, the heartbeat write, the flush *)
| SelEvent (result : option error). (* the same for the received event *)

Record round := mkRound { idle : Hub → Hub; sel : select_case }.

(** A frame on the wire. *)
Inductive frame : Type := Heartbeat | EventFrame (type_ : string) (data : EventData).

Inductive stream_end : Type :=
| StillOpen
| Ended (reason : string) (err : option error).

(** The hub, what was written, and how the loop ended; [None] when the chosen
    case was not ready: a receive from an open, empty channel. *)
Fixpoint events_loop (rounds : list round) (sub : Z) (h : Hub) (out : list frame)
  : option (Hub * list frame * stream_end) :=
  match rounds with
  | [] => Some (h, out, StillOpen)
  | r :: rounds =>
      let h := idle r h in
      match sel r with
      | SelDone cause => Some (h, out, Ended (sseCloseReason cause) None)
      | SelTick None => events_loop rounds sub h (out ++ [Heartbeat])
      | SelTick (Some err) => Some (h, out, Ended "write_failed" (Some err))
      | SelEvent result =>
          match chans h !! sub with
          | Some (mkChan (ev :: _) _ _ _) =>
              let h := recv h sub in
              match result with
              | None => events_loop rounds sub h (out ++ [EventFrame (evType ev) (Data ev)])
              | Some err => Some (h, out, Ended "write_failed" (Some err))
              end
          | Some (mkChan [] true _ _) => Some (h, out, Ended "subscription_closed" None)
          | _ => None
          end
      end
  end.

(** The headers of an event stream. *)
Definition sse_headers (w : response) : response :=
  mkResponse (<["Cache-Control" := ["no-cache"]]> (<["Content-Type" := ["text/event-stream"]]> (rsHeader w)))
    (rsStatus w) (rsBody w).

(** The handler: [flusher] says whether the writer can flush.  The last
    component is the returned error, or [None] while the handler is running. *)
Definition Events {S} `{!JobRepository S} (env : repo_env) (s : S) (w : response)
    (principal : option Principal) (flusher : bool) (rounds : list round) (h : Hub) (id : Z)
  : option (Hub * response * list frame * option (option error)) :=
  match readable_job env s principal id with
  | Err err => Some (h, w, [], Some (Some err))
  | Ok _ =>
      let w := sse_headers w in
      if negb flusher then Some (h, w, [], Some (Some (ESentinel ErrStreamingUnsupported)))
      else
        match Subscribe h id with
        | None => None
        | Some (h, Err err) => Some (h, w, [], Some (Some err))
        | Some (h, Ok sub) =>
            match events_loop rounds sub h [] with
            | None => None
            | Some (h, out, StillOpen) => Some (h, w, out, None)
            | Some (h, out, Ended _ err) => Some (unsubscribe h id sub, w, out, Some err)
            end
        end
  end.

(** *** Direct and bridged reads agree *)
Lemma mapPBJobStatus_mapJobStatus st : job_status_ok st → mapPBJobStatus (mapJobStatus st) = st.
Proof. by intros [->|[->|[->| ->]]]. Qed.

(** What the job storage reports: an unknown job, or a failure that means
    nothing to the HTTP layer. *)
Definition storage_error (err : error) : Prop :=
  err = ESentinel ErrJobNotFound ∨ ∀ e', error_in e' err → recognised e' = false.

Definition answer (err : error) : Z := prStatus (mpProblem (MapError (Some err))).

Lemma storage_error_answer err :
  storage_error err → answer err = if errors_Is err ErrJobNotFound then 404%Z else 500%Z.
Proof.
  intros [->|Hun]; [done|]. unfold answer. rewrite MapError_unexpected //.
  rewrite errors_Is_false //. by intros Hin%Hun.
Qed.

(** (C27) The bridge against the direct read.  For an authenticated caller and a
    transport that carries the call: a job he may read is the same document's
    worth on both paths - its id and its status; a job of another user is 403 on
    both; and when the storage fails the bridge answers 408 for a cancelled and 504
    for an expired context, 404 for an unknown job and 500 otherwise, where the
    direct read answers 404 for the unknown job and 500 for every other failure of
    the storage.  So the two differ exactly when the context of the request ended
    during the storage access. *)
Theorem bridge_agrees {S} `{!JobRepository S} (env : repo_env) (s : S) p id call errstr enc_job enc_bridge
    werr w reqID authorization :
  (0 < id)%Z →
  (∀ md, call md id = GetJob env s (Some p) (Some id)) →
  let direct := GetByID env enc_job werr s w (Some p) id in
  let bridged := GetByIDViaGRPC enc_bridge werr errstr (Some call) w reqID authorization id in
  match JobService.GetByID env s id with
  | Ok job =>
      if CanReadJob p (OwnerUserID job) then
        direct = WriteJSON w 200 (enc_job job) werr ∧
        (job_status_ok (Status job) →
         bridged = WriteJSON w 200 (enc_bridge (mkJobBridgeDTO (ID job) (Status job) "grpc")) werr)
      else
        ∃ err err', direct = (w, Some err) ∧ bridged = (w, Some err') ∧ answer err = 403%Z ∧ answer err' = 403%Z
  | Err err =>
      direct = (w, Some err) ∧
      (storage_error err → answer err = if errors_Is err ErrJobNotFound then 404%Z else 500%Z) ∧
      ∃ err', bridged = (w, Some err') ∧
        answer err' = if errors_Is err ContextCanceled then 408%Z
                      else if errors_Is err ContextDeadlineExceeded then 504%Z
                      else if errors_Is err ErrJobNotFound then 404%Z else 500%Z
  end.
Proof.
  intros Hid Hcall. unfold GetByID, GetByIDViaGRPC, readable_job. rewrite Hcall. unfold GetJob.
  destruct (Z.leb_spec id 0); [lia|].
  destruct (JobService.GetByID env s id) as [job|err] eqn:Eg.
  - destruct (CanReadJob p (OwnerUserID job)); simpl.
    + split; [done|]. intros Hok. by rewrite mapPBJobStatus_mapJobStatus.
    + eexists _, _. by split_and!.
  - split; [done|split; [apply storage_error_answer|]]. eexists. split; [done|].
    by destruct (errors_Is err ContextCanceled), (errors_Is err ContextDeadlineExceeded),
      (errors_Is err ErrJobNotFound).
Qed.

(** The gRPC read is mediated: a job is returned only to an authenticated
    caller who may read it, it is the stored job, and every refusal is a status
    error with the code of its reason. *)
Theorem GetJob_mediated {S} `{JobRepositoryLaws S} (env : repo_env) (s : S) principal req :
  repo_ok s →
  match GetJob env s principal req with
  | Ok pj =>
      ∃ p id job, principal = Some p ∧ req = Some id ∧ (0 < id)%Z ∧ repo_jobs s !! id = Some job ∧
        (pRole p = RoleAdmin ∨ OwnerUserID job = pUserID p) ∧
        pj = mkPbJob (ID job) (mapJobStatus (Status job))
  | Err err =>
      ∃ c m, err = EStatusError c m ∧
        (c = codeUnauthenticated ↔ principal = None) ∧
        (c = codeInvalidArgument → principal ≠ None ∧ ∀ id, req = Some id → (id <= 0)%Z)
  end.
Proof.
  intros Hok. unfold GetJob. destruct principal as [p|]; [|by do 2 eexists].
  destruct req as [id|]; [|do 2 eexists; split_and!; [done|split; done|done]].
  destruct (Z.leb_spec id 0) as [Hle|Hgt].
  { do 2 eexists. split_and!; [done|split; done|]. intros _. split; [done|]. by intros ? [= <-]. }
  destruct (JobService.GetByID env s id) as [job|err] eqn:Eg.
  - unfold CanReadJob. destruct (_ || _)%bool eqn:Ec; simpl.
    + exists p, id, job. split_and!; [done..| | |done].
      * by eapply GetByID_law.
      * apply orb_true_iff in Ec as [?|?]; reflect_bools; [by left|right; congruence].
    + do 2 eexists. split_and!; [done|split; done|done].
  - destruct (errors_Is err ContextCanceled), (errors_Is err ContextDeadlineExceeded),
      (errors_Is err ErrJobNotFound); (do 2 eexists; split_and!; [done|split; done|done]).
Qed.

(** *** What a subscriber's connection carries *)
Definition event_frames (out : list frame) : list (string * EventData) :=
  omap (λ f, match f with Heartbeat => None | EventFrame t d => Some (t, d) end) out.
Definition frame_of (ev : Event) : string * EventData := (evType ev, Data ev).

(** Other goroutines neither receive from the connection's channel nor run its
    unsubscription. *)
Definition respects (sub : Z) (f : Hub → Hub) : Prop :=
  ∀ h c, chans h !! sub = Some c → sub ∉ unsubscribed h →
    (∃ c', chans (f h) !! sub = Some c' ∧ consumed c' = consumed c) ∧ sub ∉ unsubscribed (f h).

(** The written events are the received ones, save the last one when its write failed. *)
Definition stream_result (got got' : list Event) (out out' : list frame) (e : stream_end) : Prop :=
  ∃ evs tl, got' = got ++ evs ++ tl ∧
    event_frames out' = event_frames out ++ (frame_of <$> evs) ∧
    (tl = [] ∨ ∃ ev err, tl = [ev] ∧ e = Ended "write_failed" (Some err)).

Lemma recv_ev h sub ev rest cl got l :
  chans h !! sub = Some (mkChan (ev :: rest) cl got l) →
  chans (recv h sub) !! sub = Some (mkChan rest cl (got ++ [ev]) l) ∧
  unsubscribed (recv h sub) = unsubscribed h.
Proof. intros Hc. unfold recv. rewrite Hc. simpl. by rewrite lookup_insert_eq. Qed.

Lemma events_loop_result sub rounds : ∀ h out h' out' e c,
  Forall (λ r, respects sub (idle r)) rounds →
  chans h !! sub = Some c → sub ∉ unsubscribed h →
  events_loop rounds sub h out = Some (h', out', e) →
  ∃ c', chans h' !! sub = Some c' ∧ sub ∉ unsubscribed h' ∧ stream_result (consumed c) (consumed c') out out' e.
Proof.
  induction rounds as [|r rounds IH]; intros h out h' out' e c Hrs Hc Hu Hl; simpl in Hl.
  { simplify_eq. exists c. split_and!; [done..|]. exists [], []. rewrite !app_nil_r. eauto. }
  apply list.Forall_cons in Hrs as [Hr Hrs]. destruct (Hr h c Hc Hu) as [(c1 & Hc1 & <-) Hu1].
  assert (∀ out1 e1, out1 = out → stream_result (consumed c1) (consumed c1) out out1 e1) as Hsame.
  { intros out1 e1 ->. exists [], []. rewrite !app_nil_r. eauto. }
  destruct (sel r) as [cause|[err|]|result].
  - simplify_eq. exists c1. split_and!; [done..|]. by apply Hsame.
  - simplify_eq. exists c1. split_and!; [done..|]. by apply Hsame.
  - destruct (IH _ _ _ _ _ _ Hrs Hc1 Hu1 Hl) as (c' & ? & ? & evs & tl & Hcons & Hf & Htl).
    exists c'. split_and!; [done..|]. exists evs, tl. split_and!; [done| |done].
    rewrite Hf /event_frames omap_app /= app_nil_r. done.
  - rewrite Hc1 in Hl. destruct c1 as [[|ev rest] cl got l]; [destruct cl; simplify_eq|].
    { eexists. split_and!; [done..|]. by apply Hsame. }
    destruct (recv_ev _ _ _ _ _ _ _ Hc1) as [Hc2 Hu2].
    destruct result as [err|].
    + simplify_eq. eexists. split_and!; [done|by rewrite Hu2|].
      exists [], [ev]. simpl. rewrite app_nil_r. split_and!; [done..|]. right. eauto.
    + destruct (IH _ _ _ _ _ _ Hrs Hc2 ltac:(by rewrite Hu2) Hl)
        as (c' & ? & ? & evs & tl & Hcons & Hf & Htl).
      exists c'. split_and!; [done..|]. exists (ev :: evs), tl. split_and!; [| |done].
      * rewrite Hcons /= -app_assoc. done.
      * rewrite Hf /event_frames omap_app /= -app_assoc. done.
Qed.

Lemma unsubscribe_not_registered h job sub :
  sub ∉ unsubscribed h → ¬ registered (unsubscribe h job sub) job sub.
Proof.
  intros Hu (m & Hm & [[] Hs]). unfold unsubscribe in Hm. rewrite decide_False // in Hm.
  destruct (subs h !! job) as [js|] eqn:Ej; [|simpl in Hm; congruence].
  destruct (decide (is_Some (js !! sub))) as [_|Hn]; simpl in Hm.
  - destruct (decide _).
    + by rewrite lookup_delete_eq in Hm.
    + rewrite lookup_insert_eq in Hm. simplify_eq. by rewrite lookup_delete_eq in Hs.
  - rewrite Ej in Hm. simplify_eq. by destruct Hn.
Qed.

Lemma replay_consumed cap evs : ∀ c c', replay cap evs c = Some c' → consumed c' = consumed c.
Proof.
  induction evs as [|ev evs IH]; intros c c'; simpl; [by intros [= ->]|].
  destruct (room _ _); [|done]. by intros ->%IH.
Qed.

(** The callers of a job's stream. *)
Definition permitted {S} `{!JobRepository S} (env : repo_env) (s : S) (principal : option Principal) (id : Z) : Prop :=
  ∃ p job, principal = Some p ∧ JobService.GetByID env s id = Ok job ∧ CanReadJob p (OwnerUserID job) = true.

Lemma readable_job_permitted {S} `{!JobRepository S} (env : repo_env) (s : S) principal id :
  (∃ job, readable_job env s principal id = Ok job) ↔ permitted env s principal id.
Proof.
  unfold readable_job, permitted. destruct (JobService.GetByID env s id) as [job|]; [|naive_solver].
  destruct principal as [p|]; [|naive_solver].
  destruct (CanReadJob p (OwnerUserID job)) eqn:E; simpl.
  - split; [intros _; by exists p, job|by eauto].
  - split; [by intros [? [=]]|]. intros (p' & job' & [= <-] & [= <-] & ?). congruence.
Qed.

Lemma Subscribe_Ok h id h1 sub : Subscribe h id = Some (h1, Ok sub) →
  sub = wrapu64 (nextID h + 1) ∧ closed h = false ∧ unsubscribed h1 = unsubscribed h ∧
  ∃ c, chans h1 !! sub = Some c ∧ consumed c = [].
Proof.
  unfold Subscribe. destruct (closed h); [done|].
  destruct (replay _ _ _) as [c0|] eqn:Erep; [|done]. intros [= <- <-]. split_and!; [done..|].
  exists c0. split; [apply lookup_insert_eq|]. by apply replay_consumed in Erep.
Qed.

Lemma Subscribe_Err h id h1 e : Subscribe h id = Some (h1, Err e) → h1 = h ∧ closed h = true.
Proof. unfold Subscribe. destruct (closed h); [intros [= <- _]; tauto|]. destruct (replay _ _ _); discriminate. Qed.

Lemma unsubscribe_chans h job sub : chans (unsubscribe h job sub) = chans h.
Proof. unfold unsubscribe. repeat case_match; try case_decide; done. Qed.

(** (C30) The event stream, of every caller.  A caller who may not read the job, a
    connection that cannot be flushed and a hub that is closed get an error: no
    frame is written and the hub is left as it was - nobody was subscribed.
    Otherwise the connection has its own subscription, new to the hub; what it
    carries, heartbeats aside, are the events that subscription received, each once
    and in order, the only one missing being an event whose own write failed - its
    error is then returned; and whenever the handler returns, with or without a
    frame written, its subscription is gone from the hub. *)
Theorem Events_stream {S} `{!JobRepository S} (env : repo_env) (s : S) w principal flusher rounds h id
    h' w' out err :
  let sub := wrapu64 (nextID h + 1) in
  Forall (λ r, respects sub (idle r)) rounds → sub ∉ unsubscribed h →
  Events env s w principal flusher rounds h id = Some (h', w', out, err) →
  ((¬ permitted env s principal id ∨ flusher = false ∨ closed h = true) ∧
     h' = h ∧ out = [] ∧ ∃ e, err = Some (Some e)) ∨
  (permitted env s principal id ∧ flusher = true ∧ closed h = false ∧
     (∃ h1, Subscribe h id = Some (h1, Ok sub)) ∧
     (∃ c evs tl, chans h' !! sub = Some c ∧ consumed c = evs ++ tl ∧ event_frames out = frame_of <$> evs ∧
       (tl = [] ∨ ∃ ev werr, tl = [ev] ∧ err = Some (Some werr))) ∧
     (is_Some err → ¬ registered h' id sub)).
Proof.
  intros sub Hrs Hu He. unfold Events in He.
  pose proof (readable_job_permitted env s principal id) as Hp.
  destruct (readable_job env s principal id) as [job|e].
  2:{ simplify_eq. left. rewrite -Hp. split; [left; by intros [??]|by eauto]. }
  destruct flusher; simpl in He; [|simplify_eq; left; split; eauto].
  destruct (Subscribe h id) as [[h1 [sub'|e]]|] eqn:Es; [|by apply Subscribe_Err in Es as [-> ?]; simplify_eq; left; split; eauto|done].
  pose proof (Subscribe_Ok _ _ _ _ Es) as (-> & Hcl & Hu1 & c0 & Hc0 & Hgot0). fold sub in He, Hc0, Es.
  right. split; [apply Hp; by eauto|]. do 2 (split; [done|]). split; [by eauto|].
  destruct (events_loop rounds sub h1 []) as [[[h2 out2] e2]|] eqn:El; [|done].
  destruct (events_loop_result sub rounds h1 [] h2 out2 e2 c0 Hrs Hc0 ltac:(by rewrite Hu1) El)
    as (c & Hc & Hu2 & evs & tl & Hgot & Hf & Htl). rewrite Hgot0 /= in Hgot.
  destruct e2 as [|reason e]; simplify_eq.
  - split; [exists c, evs, tl; split_and!; try done|by intros [??]].
    destruct Htl as [->|(ev & werr & _ & ?)]; [by left|done].
  - split; [|intros _; by apply unsubscribe_not_registered].
    exists c, evs, tl. rewrite unsubscribe_chans. split_and!; [done..|].
    destruct Htl as [->|(ev & werr & -> & [= _ ->])]; [by left|right; by eexists _, _].
Qed.

(** *** A stored job, its owner, and a stream of two events *)
Definition no_env : @repo_env _ memory_JobRepository := tt.
Definition ex_store : MemoryJobRepository :=
  (MemoryJobRepo.Save NewMemoryJobRepository (mkJob 0 JobQueued None None 7)).1.
Definition ex_owner : Principal := mkPrincipal 7 RoleUser.
Definition ex_call (_ : list (string * string)) (id : Z) : res error pbJob :=
  GetJob no_env ex_store (Some ex_owner) (Some id).
Definition ex_enc (b : JobBridgeDTO) : res error string := Ok (brStatus b).
Definition empty_response : response := mkResponse ∅ None NoBody.

Lemma bridge_agrees_witness :
  GetByIDViaGRPC ex_enc None (λ _, EmptyString) (Some ex_call) empty_response None "" 1 =
  WriteJSON empty_response 200 (Ok "queued") None.
Proof.
  refine (proj2 (bridge_agrees no_env ex_store ex_owner 1 ex_call (λ _, EmptyString) (λ _, Ok "") ex_enc None
    empty_response None "" _ _) _).
  - lia.
  - reflexivity.
  - left. reflexivity.
Defined.

Lemma GetJob_mediated_witness :
  ∃ p id job, Some ex_owner = Some p ∧ Some 1%Z = Some id ∧ (0 < id)%Z ∧
    repo_jobs ex_store !! id = Some job ∧
    (pRole p = RoleAdmin ∨ OwnerUserID job = pUserID p) ∧
    mkPbJob 1 JOB_STATUS_QUEUED = mkPbJob (ID job) (mapJobStatus (Status job)).
Proof. exact (GetJob_mediated no_env ex_store (Some ex_owner) (Some 1%Z) I). Defined.

Definition ex_publish (t : string) (h : Hub) : Hub :=
  default h (Publish h 1 (mkEvent t 1 0 DataNil)).
Definition ex_rounds : list round :=
  [mkRound (ex_publish JobRunning) (SelEvent None); mkRound id (SelTick None);
   mkRound (ex_publish JobSucceeded) (SelEvent None); mkRound id (SelDone (Some (ESentinel ContextCanceled)))].

Lemma deliver_keeps cap ev l sub : ∀ cs d cs' d' c,
  foldl (deliver cap ev) (Some (cs, d)) l = Some (cs', d') → cs !! sub = Some c →
  ∃ c', cs' !! sub = Some c' ∧ consumed c' = consumed c.
Proof.
  assert (∀ l, foldl (deliver cap ev) None l = None) as Hnone by (intros l'; by induction l').
  induction l as [|k l IH]; intros cs d cs' d' c Hf Hc; simpl in Hf; [simplify_eq; eauto|].
  destruct (cs !! k) as [ck|] eqn:Ek; [|by eapply IH].
  destruct (chClosed ck); [by rewrite Hnone in Hf|].
  destruct (room cap ck), (decide (k = sub)) as [->|];
    (eapply IH in Hf as (c' & ? & Hc'); [|by rewrite ?lookup_insert_eq ?lookup_insert_ne]);
    simplify_eq; exists c'; split; try done; by rewrite Hc'.
Qed.

Lemma publish_respects sub t : respects sub (ex_publish t).
Proof.
  intros h c Hc Hu. unfold ex_publish, Publish. destruct (closed h); simpl; [eauto|].
  destruct (foldl _ _ _) as [[cs d]|] eqn:E; simpl; [|eauto]. split; [|done].
  by eapply deliver_keeps.
Qed.

Lemma ex_rounds_respect sub : Forall (λ r, respects sub (idle r)) ex_rounds.
Proof.
  repeat (apply list.Forall_cons; split); [apply publish_respects| |apply publish_respects| |by apply list.Forall_nil];
    intros h c ? ?; eauto.
Qed.

Lemma Events_stream_witness :
  (∃ h' w' out err, Events no_env ex_store empty_response (Some ex_owner) true ex_rounds ex_hub 1 =
                     Some (h', w', out, err) ∧
    event_frames out = [(JobRunning, DataNil); (JobSucceeded, DataNil)] ∧ ¬ registered h' 1 1) ∧
  (∃ h' w' out err, Events no_env ex_store empty_response None true ex_rounds ex_hub 1 = Some (h', w', out, err) ∧
    h' = ex_hub ∧ out = []).
Proof.
  assert (1%Z ∉ unsubscribed ex_hub) as Hu by (vm_compute; intros Hin; discriminate Hin).
  split.
  - destruct (Events no_env ex_store empty_response (Some ex_owner) true ex_rounds ex_hub 1)
      as [[[[h' w'] out] err]|] eqn:E; [|vm_compute in E; discriminate].
    exists h', w', out, err. split; [reflexivity|].
    assert (event_frames out = [(JobRunning, DataNil); (JobSucceeded, DataNil)] ∧ err = Some None) as [Hf Herr].
    { vm_compute in E. injection E as <- <- <- <-. split; reflexivity. }
    split; [exact Hf|].
    destruct (Events_stream no_env ex_store empty_response (Some ex_owner) true ex_rounds ex_hub 1 h' w' out err)
      as [(_ & _ & Ho & _)|(_ & _ & _ & _ & _ & Hgone)].
    + apply ex_rounds_respect.
    + exact Hu.
    + exact E.
    + subst out. discriminate Hf.
    + apply Hgone. rewrite Herr. eauto.
  - destruct (Events no_env ex_store empty_response None true ex_rounds ex_hub 1)
      as [[[[h' w'] out] err]|] eqn:E; [|vm_compute in E; discriminate].
    exists h', w', out, err. split; [reflexivity|].
    destruct (Events_stream no_env ex_store empty_response None true ex_rounds ex_hub 1 h' w' out err)
      as [(_ & Hh & Ho & _)|((p & _ & [=] & _) & _)].
    + apply ex_rounds_respect.
    + exact Hu.
    + exact E.
    + split; assumption.
Defined.

End JobHandler.

(** ** The user handlers *)
Module UsersHandler.

Section handlers.
  Context {SJ SU : Type} `{!JobRepository SJ} `{!UserRepository SU}.

(** What the handlers share with the rest of the process; [queued] counts
    [jobsObserver.IncQueued]. *)
Record world := mkWorld {
  w_jobs : SJ; w_users : SU; w_hub : Hub; w_queue : Queue; w_queued : Z }.

Definition set_jobs (s : SJ) (w : world) : world := mkWorld s (w_users w) (w_hub w) (w_queue w) (w_queued w).
Definition set_users (u : SU) (w : world) : world := mkWorld (w_jobs w) u (w_hub w) (w_queue w) (w_queued w).
Definition set_queue (q : Queue) (w : world) : world := mkWorld (w_jobs w) (w_users w) (w_hub w) q (w_queued w).

(** The request as the creation handlers read it: the header, the query
    parameter, what the two [Decode] calls report, the decoded body, the
    authenticated caller. *)
Record create_req (I : Type) := mkCreateReq {
  contentType : string;
  async : string;
  decode1 : option error;
  decode2 : option error;
  input : I;
  caller : option Principal;
}.
Arguments mkCreateReq {I}.
Arguments contentType {I}.
Arguments async {I}.
Arguments decode1 {I}.
Arguments decode2 {I}.
Arguments input {I}.
Arguments caller {I}.

(** What the storages, the queue's context and the clock decide, and what other
    goroutines do between the handler's calls. *)
Record create_env := mkCreateEnv {
  ev_save : repo_env;
  ev_delete : repo_env;
  ev_exists : user_env;
  ev_store : user_env;
  ev_mid : SU → SU;
  ev_ctx : ctx_obs;
  ev_now : Z;
  ev_between : nat → world → world;
}.

Context (ParseMediaType : string → option string) (errstr : error → string).
Context (enc_job : Job → res error string) (enc_user : UserDTO → res error string).
Context (enc_user2 : UserDTOV2 → res error string) (werr : option error).

Definition publishQueuedJob (now : Z) (w : world) (jobID : Z) : option world :=
  (λ h, mkWorld (w_jobs w) (w_users w) h (w_queue w) (w_queued w + 1)) <$>
    Publish (w_hub w) jobID (mkEvent JobQueued jobID now DataNil).

(** The rollback runs under a context detached from the request's. *)
Definition deleteJobAfterFailedEnqueue (env : repo_env) (s : SJ) (id : Z) : SJ * option error :=
  JobService.Delete env s id.

Definition location (prefix : string) (id : Z) (w : response) : response :=
  mkResponse (<["Location" := [String.append prefix (Itoa id)]]> (rsHeader w)) (rsStatus w) (rsBody w).

(** The asynchronous branch after validation. *)
Definition create_async (e : create_env) (w : world) (resp : response) (p : option Principal)
    (payload : CreateUserInput) : option (world * (response * option error)) :=
  match p with
  | None => Some (w, (resp, Some (NewUnauthorized AuthNMissing None)))
  | Some p =>
      match JobService.Save (ev_save e) (w_jobs w) (mkJob 0 JobQueued None None (Security.pUserID p)) with
      | (s, (_, Some err)) => Some (set_jobs s w, (resp, Some err))
      | (s, (job, None)) =>
          match publishQueuedJob (ev_now e) (ev_between e 0 (set_jobs s w)) (ID job) with
          | None => None
          | Some w =>
              let w := ev_between e 1 w in
              match Enqueue (ev_ctx e) (w_queue w) (mkWorkItem (ID job) payload) with
              | (q, Some enqueueErr) =>
                  let w := ev_between e 2 (set_queue q w) in
                  match deleteJobAfterFailedEnqueue (ev_delete e) (w_jobs w) (ID job) with
                  | (s, Some deleteErr) =>
                      Some (set_jobs s w, (resp, errors_Join [Some enqueueErr; Some deleteErr]))
                  | (s, None) => Some (set_jobs s w, (resp, Some enqueueErr))
                  end
              | (q, None) =>
                  Some (set_queue q w,
                        WriteJSON (location "/api/v1/jobs/" (ID job) resp) 202 (enc_job job) werr)
              end
          end
      end
  end.

(** What both versions check first. *)
Definition check_body {I} (r : create_req I) (details : list ErrorDetail) : option error :=
  match ParseJSON errstr (decode1 r) (decode2 r) with
  | Some err => Some err
  | None =>
      match details with
      | [] => None
      | _ => Some (EValidationError (ToInvalidParams details))
      end
  end.

Definition Create (e : create_env) (w : world) (resp : response) (r : create_req CreateUserInput)
  : option (world * (response * option error)) :=
  match RequireJSONContentType ParseMediaType (contentType r) with
  | Some err => Some (w, (resp, Some err))
  | None =>
      match check_body r (ValidateCreateUserInput (input r)) with
      | Some err => Some (w, (resp, Some err))
      | None =>
          if streqb (async r) "1" then create_async e w resp (caller r) (input r)
          else
            match UserService.CreateUser (ev_exists e) (ev_store e) (ev_mid e) (w_users w) (input r) with
            | (u, Err err) => Some (set_users u w, (resp, Some err))
            | (u, Ok dto) =>
                Some (set_users u w, WriteJSON (location "/api/v1/users/" (dID dto) resp) 201 (enc_user dto) werr)
            end
      end
  end.

Definition CreateV2 (e : create_env) (w : world) (resp : response) (r : create_req CreateUserInputV2)
  : option (world * (response * option error)) :=
  match RequireJSONContentType ParseMediaType (contentType r) with
  | Some err => Some (w, (resp, Some err))
  | None =>
      match check_body r (ValidateCreateUserInputV2 (input r)) with
      | Some err => Some (w, (resp, Some err))
      | None =>
          let v1in := MapCreateV2ToV1 (input r) in
          if streqb (async r) "1" then create_async e w resp (caller r) v1in
          else
            match UserService.CreateUser (ev_exists e) (ev_store e) (ev_mid e) (w_users w) v1in with
            | (u, Err err) => Some (set_users u w, (resp, Some err))
            | (u, Ok created) =>
                Some (set_users u w, WriteJSON (location "/api/v2/users/" (dID created) resp) 201
                                       (enc_user2 (MapUserDTOToV2 created)) werr)
            end
      end
  end.

Definition CacheControlParams : string := "private, max-age=60".

Definition set_header (k v : string) (w : response) : response :=
  mkResponse (<[k := [v]]> (rsHeader w)) (rsStatus w) (rsBody w).

(** [enc_pb] is the protobuf encoding of the same user. *)
Definition GetByID (enc_pb : UserDTO → res error string) (env : user_env) (users : SU) (resp : response)
    (p : option Principal) (ifNoneMatch accept : string) (id : Z) : response * option error :=
  match p with
  | None => (resp, Some (NewUnauthorized AuthNMissing None))
  | Some p =>
      if negb (CanReadUser p id) then (resp, Some (NewForbidden AuthZForbidden None))
      else
        match UserService.GetByID env users id with
        | Err err => (resp, Some err)
        | Ok u =>
            let etag := UserETag (uID u) (uVersion u) in
            let resp := set_header "ETag" etag resp in
            if IfNoneMatchMatches ifNoneMatch etag then
              let resp := mkResponse (AddVary (rsHeader resp) "Accept") (rsStatus resp) (rsBody resp) in
              let resp := set_header "Cache-Control" CacheControlParams resp in
              (mkResponse (rsHeader resp) (Some (default 304%Z (rsStatus resp))) (rsBody resp), None)
            else
              let dto := mkUserDTO (uID u) (uName u) (uEmail u) in
              WriteNegotiated ParseMediaType (set_header "Cache-Control" CacheControlParams resp) accept 200
                (enc_user dto) (Some (enc_pb dto)) werr
        end
  end.

Definition GetByIDV2 (env : user_env) (users : SU) (resp : response) (p : option Principal) (id : Z)
  : response * option error :=
  match p with
  | None => (resp, Some (NewUnauthorized AuthNMissing None))
  | Some p =>
      if negb (CanReadUser p id) then (resp, Some (NewForbidden AuthZForbidden None))
      else
        match UserService.GetByID env users id with
        | Err err => (resp, Some err)
        | Ok u => WriteJSON resp 200 (enc_user (mkUserDTO (uID u) (uName u) (uEmail u))) werr
        end
  end.

(** [all] is what [GetAllUsers] returns. *)
Definition List (enc_list : list UserDTO → res error string) (all : res error (list User)) (resp : response)
  : response * option error :=
  match all with
  | Err err => (resp, Some err)
  | Ok users => WriteJSON resp 200 (enc_list (map (λ u, mkUserDTO (uID u) (uName u) (uEmail u)) users)) werr
  end.

Definition ListV2 (enc_list : list UserDTOV2 → res error string) (all : res error (list User)) (resp : response)
  : response * option error :=
  match all with
  | Err err => (resp, Some err)
  | Ok users => WriteJSON resp 200 (enc_list (MapUsersToV2 users)) werr
  end.
End handlers.

(** *** Asynchronous creation *)
Section async.
  Context {SU : Type} `{!UserRepository SU}.
  Context (enc_job : Job → res error string) (werr : option error).

(** (C28) Asynchronous creation is all or nothing: for an authenticated caller
    and an undisturbed process it either accepts the request, and then exactly
    one queued job owned by the caller was added, its work item is at the
    queue's tail and 202 with its location is written, or it refuses with the
    queue's error, and then the stored jobs and the queued items are what they
    were before.  In both cases the hub was told of the queued job. *)
Theorem async_all_or_nothing (e : create_env) (w : world) resp p payload log :
  memory_wf (w_jobs w) → (MemoryJobRepo.nextID (w_jobs w) < int_max)%Z → hub_inv log (w_hub w) →
  (∀ n w, ev_between e n w = w) →
  let id := MemoryJobRepo.nextID (w_jobs w) in
  let item := mkWorkItem id payload in
  ∃ w' resp' err, create_async enc_job werr e w resp (Some p) payload = Some (w', (resp', err)) ∧
    Publish (w_hub w) id (mkEvent JobQueued id (ev_now e) DataNil) = Some (w_hub w') ∧
    w_queue w' = (Enqueue (ev_ctx e) (w_queue w) item).1 ∧
    match (Enqueue (ev_ctx e) (w_queue w) item).2 with
    | None =>
        jobs (w_jobs w) !! id = None ∧
        jobs (w_jobs w') = <[id := mkJob id JobQueued None None (Security.pUserID p)]> (jobs (w_jobs w)) ∧
        ch (w_queue w') = ch (w_queue w) ++ [item] ∧
        (resp', err) = WriteJSON (location "/api/v1/jobs/" id resp) 202
                         (enc_job (mkJob id JobQueued None None (Security.pUserID p))) werr
    | Some qerr =>
        jobs (w_jobs w') = jobs (w_jobs w) ∧ ch (w_queue w') = ch (w_queue w) ∧
        resp' = resp ∧ err = Some qerr
    end.
Proof.
  intros Hwf Hmax Hi Hb id item.
  pose proof (Save_fresh (w_jobs w) (mkJob 0 JobQueued None None (Security.pUserID p)) Hwf Hmax eq_refl
    ltac:(by left)) as Hs. unfold create_async, JobService.Save. simpl.
  unfold MemoryJobRepo.Save in *. simpl in *. rewrite ->cloneJob_id in *. fold id in Hs |- *.
  destruct Hs as (Hfresh & _). rewrite !Hb. unfold publishQueuedJob. simpl.
  destruct (Publish_inv log (w_hub w) id (mkEvent JobQueued id (ev_now e) DataNil) Hi) as (h' & -> & _).
  simpl. rewrite !Hb. simpl. fold item.
  destruct (Enqueue_cases (ev_ctx e) (w_queue w) item) as [(-> & _ & _)|(Hch & _ & _ & [qerr Hq])]; simpl.
  - match goal with |- context [WriteJSON ?a ?b ?c ?d] => destruct (WriteJSON a b c d) as [resp' err] eqn:Ew end.
    eexists _, _, _. split; [done|]. split_and!; [done..|]. exact (eq_sym Ew).
  - destruct (Enqueue _ _ _) as [q r]; simpl in *. subst r. rewrite Hb /=.
    unfold deleteJobAfterFailedEnqueue, JobService.Delete. simpl. unfold MemoryJobRepo.Delete. simpl.
    rewrite lookup_insert_eq. eexists _, _, _. split_and!; [done..| |done|done|done].
    simpl. by rewrite delete_insert_id.
Qed.
End async.

(** *** Conditional reads *)
Lemma AddVary_lookup h t k : k ≠ "Vary" → AddVary h t !! k = h !! k.
Proof. intros Hk. unfold AddVary. destruct (existsb _ _); [done|]. by rewrite lookup_insert_ne. Qed.

Lemma WriteNegotiated_header pmt w accept st json msg werr k :
  k ≠ "Vary" → k ≠ "Content-Type" →
  rsHeader (WriteNegotiated pmt w accept st json msg werr).1 !! k = rsHeader w !! k.
Proof.
  intros Hv Hc. unfold WriteNegotiated. destruct (AcceptHeader pmt accept); [|done].
  destruct (streqb _ _); [|destruct (streqb _ _)]; unfold WriteProtobuf, WriteJSON, write_body;
    repeat case_match; simpl; rewrite ?lookup_insert_ne //; by apply AddVary_lookup.
Qed.

Lemma WriteNegotiated_status pmt w accept st json msg werr :
  rsStatus w = None →
  rsStatus (WriteNegotiated pmt w accept st json msg werr).1 ∈ [None; Some st].
Proof.
  intros Hs. unfold WriteNegotiated. destruct (AcceptHeader pmt accept); [|simpl; rewrite Hs; left].
  destruct (streqb _ _); [|destruct (streqb _ _)]; unfold WriteProtobuf, WriteJSON, write_body;
    repeat case_match; simpl; rewrite Hs; set_solver.
Qed.

(** (C37) Conditional GET, end to end: the response names the user's current
    entity tag, and a request that sends a tag back is answered 304 without a
    body exactly when that tag was issued for this user at its present version,
    for all 64-bit ids and versions. *)
Theorem conditional_get {SU} `{!UserRepository SU} pmt enc_user werr enc_pb (env : user_env) (users : SU)
    p id u i v accept :
  CanReadUser p id = true → UserService.GetByID env users id = Ok u →
  int64_ok (uID u) → int64_ok (uVersion u) → int64_ok i → int64_ok v →
  let out := GetByID pmt enc_user werr enc_pb env users JobHandler.empty_response (Some p)
               (UserETag i v) accept id in
  header_get (rsHeader out.1) "ETag" = UserETag (uID u) (uVersion u) ∧
  (rsStatus out.1 = Some 304%Z ↔ i = uID u ∧ v = uVersion u) ∧
  (rsStatus out.1 = Some 304%Z → rsBody out.1 = NoBody ∧ out.2 = None).
Proof.
  intros Hp Hu H1 H2 H3 H4. unfold GetByID. rewrite Hp Hu. cbn [negb]. cbv zeta.
  destruct (IfNoneMatchMatches _ _) eqn:Em.
  - apply IfNoneMatch_UserETag in Em as [-> ->]; [|done..]. simpl. split_and!; [|done|done].
    unfold header_get. rewrite lookup_insert_ne // AddVary_lookup // lookup_insert_eq.
  - assert (¬ (i = uID u ∧ v = uVersion u)) as Hne.
    { intros Heq%IfNoneMatch_UserETag; [congruence|done..]. }
    set (out := WriteNegotiated _ _ _ _ _ _ _).
    assert (rsStatus out.1 ≠ Some 304%Z) as Hs.
    { intros Hst. pose proof (WriteNegotiated_status pmt (set_header "Cache-Control" CacheControlParams
        (set_header "ETag" (UserETag (uID u) (uVersion u)) JobHandler.empty_response)) accept 200
        (enc_user (mkUserDTO (uID u) (uName u) (uEmail u))) (Some (enc_pb (mkUserDTO (uID u) (uName u) (uEmail u))))
        werr eq_refl) as Hin. fold out in Hin. rewrite Hst in Hin. set_solver. }
    split_and!; [|naive_solver|done].
    unfold header_get, out. rewrite WriteNegotiated_header //= lookup_insert_ne // lookup_insert_eq.
Qed.

(** *** One accepted and one refused request, one conditional read *)
#[local] Existing Instance Memory.memory_UserRepository.

Definition ex_users : Memory.MemoryUserRepository :=
  (Memory.Save (λ s, s) Memory.NewMemoryUserRepository (mkUser 0 "Ann" 30 "ann@x.io" 0)).1.
Definition ex_fold (s : string) : string := s.
Definition ex_uenv : @user_env _ (Memory.memory_UserRepository ex_fold) := tt.
Definition ex_world (cap : Z) : world :=
  mkWorld NewMemoryJobRepository ex_users ex_hub (mkQueue [] cap false 0) 0.
Definition ex_create_env : @create_env _ _ memory_JobRepository (Memory.memory_UserRepository ex_fold) :=
  mkCreateEnv JobHandler.no_env JobHandler.no_env ex_uenv ex_uenv id ctx_live 0 (λ _ w, w).
Definition ex_payload : CreateUserInput := mkCreateUserInput "Bob" 31 "bob@x.io".
Definition ex_enc_job (j : Job) : res error string := Ok (Status j).

(** A queue without room: the request is refused and nothing is stored. *)
Lemma async_all_or_nothing_witness :
  ∃ w' resp' err,
    create_async ex_enc_job None ex_create_env (ex_world 0) JobHandler.empty_response
      (Some JobHandler.ex_owner) ex_payload = Some (w', (resp', err)) ∧
    jobs (w_jobs w') = ∅ ∧ ch (w_queue w') = [] ∧ err = Some (ESentinel ErrQueueFull).
Proof.
  destruct (async_all_or_nothing ex_enc_job None ex_create_env (ex_world 0) JobHandler.empty_response
    JobHandler.ex_owner ex_payload ∅) as (w' & resp' & err & Hc & _ & _ & Hr).
  - apply NewMemoryJobRepository_wf.
  - vm_compute. reflexivity.
  - by destruct (NewHub_inv 2 ex_hub eq_refl).
  - reflexivity.
  - exists w', resp', err. split; [exact Hc|]. simpl in Hr. destruct Hr as (Hj & Hch & _ & He).
    split_and!; assumption.
Defined.

Lemma conditional_get_witness :
  let out := GetByID (λ _, None) (λ _, Ok EmptyString) None (λ _, Ok EmptyString) ex_uenv ex_users
               JobHandler.empty_response (Some (mkPrincipal 1 RoleUser)) (UserETag 1 1) "" 1 in
  rsStatus out.1 = Some 304%Z.
Proof.
  intros out.
  apply (conditional_get (λ _, None) (λ _, Ok EmptyString) None (λ _, Ok EmptyString) ex_uenv ex_users
    (mkPrincipal 1 RoleUser) 1 (mkUser 1 "Ann" 30 "ann@x.io" 1) 1 1 "");
    try reflexivity; split; vm_compute; congruence.
Defined.

End UsersHandler.
