(* ===== verification/ProfileHandler.v ===== *)
(** * Profile reads and exports

    Models [internal/routes/user_profile_handler.go] and the [Export] handlers
    of [internal/routes/users_handler.go] and [users_handler_v2.go], and
    composes the profile read with the user service, the retrying profile client
    and the HTTP error mapping. *)
From S2P Require Import Prelude.
From S2P Require Import GoErrors.
From S2P Require Import Entity.
From S2P Require Import UserRepo.
From S2P Require Import Services.
From S2P Require Import GoStrings.
From S2P Require Import HttpErrors.
From S2P Require Import HttpUtils.
From S2P Require Import Security.
From S2P Require Import Outbound.
From S2P Require Import Handlers.
Import UsersHandler.

(** ** Data *)
Record ProfileDTO := mkProfileDTO { pdBio : string; pdCity : string }.
Record UserProfileDTO := mkUserProfileDTO { upID : Z; upName : string; upEmail : string; upProfile : ProfileDTO }.
Record UserExport := mkUserExport { exID : Z; exName : string; exEmail : string; exAge : Z }.

(** ** Handlers *)
Section handlers.
  Context {SU : Type} `{!UserRepository SU}.
  Context (env : user_env) (ParseMediaType : string → option string).

(** The request id: the one of the context, else the header's. *)
Definition request_rid (ctx_rid : option string) (header_rid : string) : string :=
  match ctx_rid with Some rid => rid | None => header_rid end.

(** [enc_json] and [enc_pb] encode the same document, [werr] is what the
    connection reports. *)
Definition GetUserProfile (enc_json enc_pb : UserProfileDTO → res error string) (werr : option error)
    (FetchProfile : Z → string → res error Profile) (users : SU) (resp : response)
    (principal : option Principal) (ctx_rid : option string) (header_rid accept : string) (userId : Z)
  : response * option error :=
  match principal with
  | None => (resp, Some (NewUnauthorized AuthNMissing None))
  | Some principal =>
      if negb (CanReadUser principal userId) then (resp, Some (NewForbidden AuthZForbidden None))
      else
        match UserProfileService.GetUserWithProfile env FetchProfile users userId
                (request_rid ctx_rid header_rid) with
        | Err err => (resp, Some err)
        | Ok (u, p) =>
            let dto := mkUserProfileDTO (uID u) (uName u) (uEmail u)
                         (mkProfileDTO (UserProfileService.Bio p) (UserProfileService.City p)) in
            WriteNegotiated ParseMediaType resp accept 200 (enc_json dto) (Some (enc_pb dto)) werr
        end
  end.

(** [Marshal] is the JSON encoder; [ServeContent] is [http.ServeContent], which
    evaluates the request's ranges and preconditions for the named content. *)
Definition Export (Marshal : UserExport → res error string)
    (ServeContent : response → string → string → response) (users : SU) (resp : response)
    (principal : option Principal) (id : Z) : response * option error :=
  match principal with
  | None => (resp, Some (NewUnauthorized AuthNMissing None))
  | Some principal =>
      if negb (CanReadUser principal id) then (resp, Some (NewForbidden AuthZForbidden None))
      else
        match UserService.GetByID env users id with
        | Err err => (resp, Some err)
        | Ok u =>
            match Marshal (mkUserExport (uID u) (uName u) (uEmail u) (uAge u)) with
            | Err err => (resp, Some err)
            | Ok data =>
                let file := String.append "user-" (String.append (Itoa id) "-export.json") in
                let quoted := String (chr 34) (String.append file (String (chr 34) EmptyString)) in
                let resp := set_header "Content-Disposition"
                              (String.append "attachment; filename=" quoted) resp in
                let resp := set_header "Content-Type" "application/json" resp in
                (ServeContent resp file data, None)
            end
        end
  end.

(** The second version has a placeholder, which no route names. *)
Definition ExportV2 (resp : response) (id : Z) : response * option error := (resp, None).
End handlers.

(** ** The client the handler is given *)

(** The Go pair of a retrying call: without an error the profile is used. *)
Definition client_result (r : option error + Profile) : res error Profile :=
  match r with
  | inr p => Ok p
  | inl (Some e) => Err e
  | inl None => Ok (UserProfileService.mkProfile 0 "" "")
  end.

(** The errors a finished context reports. *)
Definition ctx_error (e : error) : Prop :=
  e = ESentinel ContextCanceled ∨ e = ESentinel ContextDeadlineExceeded.

(** The transport's own errors mean nothing to the HTTP layer. *)
Definition plain_exchange (x : exchange) : Prop :=
  ∀ e0, match x with BadRequest e1 | DoFailed e1 => e0 = e1
               | Responded _ (Err e1) => e0 = e1 | _ => False end →
        ∀ e', error_in e' e0 → recognised e' = false.

(** What the attempts of one read meet. *)
Definition upstream (env : Z → attempt_env) : Prop :=
  ∀ k, (∃ x, plain_exchange x ∧ ae_call (env k) = ClientFetchProfile x) ∧
       (∀ e, ae_ctx (env k) = Some e ∨ ae_sleep (env k) = Some e → ctx_error e).

Lemma ctx_error_answer e : ctx_error e → JobHandler.answer (ctxToProfileError e) ∈ [408; 502; 503]%Z.
Proof. intros [->| ->]; vm_compute; set_solver. Qed.

Lemma upstream_error env e k :
  upstream env → ae_call (env k) = Err e ∨ ctx_profile_error env e → JobHandler.answer e ∈ [408; 502; 503]%Z.
Proof.
  intros Hup [Hcall|(k' & err & Herr & ->)].
  - destruct (Hup k) as [(x & Hx & Hc) _]. rewrite Hc in Hcall. by apply (profile_errors_status x).
  - apply ctx_error_answer. by apply (Hup k').
Qed.

(** (C35) A profile read, end to end through the user service, the retrying
    client and the error mapping.  For a permitted caller and a stored user the
    read returns after at most the configured number of exchanges; either the
    first successful exchange is shown together with the stored user, or the
    caller is answered 408, 502 or 503 and nothing of the user is written, never
    an internal error.  A caller who may not read the user is refused with 401
    or 403, and neither the storage nor the profile service has any influence on
    what is written. *)
Theorem profile_read {SU} `{!UserRepository SU} (env : user_env) pmt ej ep werr attempts base max
    (aenv : Z → attempt_env) (users : SU) resp principal rid hdr accept id :
  (0 < max < int_max)%Z → int64_ok id → upstream aenv →
  let c := NewRetryingProfileClient attempts base max in
  ∃ calls r, FetchProfile c aenv = Some (calls, r) ∧ (calls <= maxAttempts c)%Z ∧
  let out := GetUserProfile env pmt ej ep werr (λ _ _, client_result r) users resp principal rid hdr accept id in
  match principal with
  | None => out = (resp, Some (NewUnauthorized AuthNMissing None))
  | Some p =>
      if CanReadUser p id then
        ∀ u, UserService.GetByID env users id = Ok u →
        (∃ prof, ae_call (aenv calls) = Ok prof ∧ all_retryable aenv 1 (calls - 1) ∧
           let dto := mkUserProfileDTO (uID u) (uName u) (uEmail u)
                        (mkProfileDTO (UserProfileService.Bio prof) (UserProfileService.City prof)) in
           out = WriteNegotiated pmt resp accept 200 (ej dto) (Some (ep dto)) werr) ∨
        (∃ e, out = (resp, Some e) ∧ JobHandler.answer e ∈ [408; 502; 503]%Z)
      else out = (resp, Some (NewForbidden AuthZForbidden None))
  end.
Proof.
  intros Hmax Hid Hup c.
  destruct (fetch_total attempts base max aenv Hmax) as ([calls r] & Hout & _ & Hr).
  exists calls, r. fold c in Hout, Hr. split_and!; [done|apply Hr|].
  unfold GetUserProfile. destruct principal as [p|]; [|done].
  destruct (CanReadUser p id); simpl; [|done]. intros u Hu.
  unfold UserProfileService.GetUserWithProfile. rewrite wrap64_id // Hu.
  destruct Hr as [_ Hr]. destruct r as [[e|]|prof]; simpl in *; [|done|].
  - right. exists e. split; [done|]. by eapply upstream_error.
  - left. exists prof. by destruct Hr as (_ & ? & ?).
Qed.

(** *** One read with a failed and a successful exchange *)
#[local] Existing Instance Memory.memory_UserRepository.

Definition ex_json (d : UserProfileDTO) : res error string := Ok (pdCity (upProfile d)).

Lemma ex_env_upstream : upstream ex_env.
Proof.
  intros k. split; [|by intros e [|]]. simpl.
  destruct (k =? 1)%Z; [|destruct (k =? 2)%Z].
  - exists (DoFailed (EText "connection refused")). split; [|done].
    intros e0 -> e' Hin. inversion Hin as [|? ? ? Hc]; subst; [done|]. by apply elem_of_nil in Hc.
  - exists (Responded 503 (Ok ex_profile)). by split; [intros e0 []|].
  - exists (Responded 200 (Ok ex_profile)). by split; [intros e0 []|].
Qed.

Lemma profile_read_witness :
  ∃ calls r, FetchProfile (NewRetryingProfileClient 5 (10 ^ 8) (10 ^ 9)) ex_env = Some (calls, r) ∧
    ae_call (ex_env calls) = Ok ex_profile ∧ all_retryable ex_env 1 (calls - 1).
Proof.
  destruct (profile_read ex_uenv (λ _, None) ex_json ex_json None 5 (10 ^ 8) (10 ^ 9) ex_env ex_users
    JobHandler.empty_response (Some (mkPrincipal 1 RoleUser)) None "rid" "" 1) as (calls & r & H & _ & Hout).
  - unfold int_max. lia.
  - split; vm_compute; congruence.
  - apply ex_env_upstream.
  - exists calls, r. split; [exact H|].
    specialize (Hout (mkUser 1 "Ann" 30 "ann@x.io" 1) eq_refl).
    assert (calls = 3%Z ∧ r = inr ex_profile) as [-> ->] by (vm_compute in H; injection H as <- <-; by split).
    destruct Hout as [(prof & Hc & Hr & _)|(e & He & _)].
    + split; [reflexivity|exact Hr].
    + exfalso. apply (f_equal snd) in He. vm_compute in He. discriminate He.
Defined.
