(* ===== verification/ConfigLoad.v ===== *)
(** * Configuration: [Load]

    Models [config.Load]: the environment variables are read in the order of
    the code and the first error ends the load.  Each part of the function is a
    definition that returns the part of the configuration it fills in; [Load]
    composes them and runs the final security check. *)
From Stdlib Require Import Ascii.
From S2P Require Import Prelude.
From S2P Require Import GoErrors.
From S2P Require Import GoStrings.
From S2P Require Import HttpErrors.
From S2P Require Import Middleware.
From S2P Require Import Config.
Import ResNotations.
Open Scope go_scope.

(** A check that returns only an error. *)
Definition check (e : option error) : res error unit :=
  match e with Some e => Err e | None => Ok tt end.

Section load.
  Context `{GoParsers} (env : string → option string).

Abbreviation str := (lookupStringNonEmpty env).
Abbreviation pos := (lookupIntPositive env).
Abbreviation nonneg := (lookupIntNonNegative env).
Abbreviation dur := (lookupDurationPositive env).
Abbreviation durnn := (lookupDurationNonNegative env).
Abbreviation flag := (lookupBool env).

Definition load_runtime (d : RuntimeConfig) : res error RuntimeConfig :=
  try e := str "APP_ENV" (Environment d) in
  let e := ToLower (TrimSpace e) in
  try _ := check (validateEnvironment e) in
  Ok (mkRuntimeConfig e).

Definition load_logging (d : LoggingConfig) : res error LoggingConfig :=
  try level := lookupLogLevel env "LOG_LEVEL" (Level d) in
  try format := lookupLogFormat env "LOG_FORMAT" (Format d) in
  try src := flag "LOG_ADD_SOURCE" (AddSource d) in
  Ok (mkLoggingConfig level format src).

Definition load_telemetry (d : TelemetryConfig) : res error TelemetryConfig :=
  try en := flag "TELEMETRY_ENABLED" (tel_Enabled d) in
  try t := dur "TELEMETRY_SHUTDOWN_TIMEOUT" (tel_ShutdownTimeout d) in
  Ok (mkTelemetryConfig en t).

(** The plain address and the TLS part. *)
Definition load_http_tls (d : HTTPConfig) : res error (string * TLSConfig) :=
  let t := http_TLS d in
  try addr := str "HTTP_ADDR" (http_Addr d) in
  try en := flag "HTTP_TLS_ENABLE" (tls_Enable t) in
  try minv := lookupTLSMinVersion env "HTTP_TLS_MIN_VERSION" (tls_MinVersion t) in
  if (en : bool) then
    try taddr := str "HTTP_TLS_ADDR" (tls_Addr t) in
    try keyf := str "HTTP_TLS_KEY_FILE" (tls_KeyFile t) in
    try certf := str "HTTP_TLS_CERT_FILE" (tls_CertFile t) in
    if streqb (TrimSpace certf) "" then Err (EText "HTTP_TLS_ENABLE=true requires HTTP_TLS_CERT_FILE")
    else if streqb (TrimSpace keyf) "" then Err (EText "HTTP_TLS_ENABLE=true requires HTTP_TLS_KEY_FILE")
    else Ok (addr, mkTLSConfig true taddr certf keyf minv)
  else Ok (addr, mkTLSConfig false (tls_Addr t) (tls_CertFile t) (tls_KeyFile t) minv).

Definition load_grpc_tls (addr : string) (en : bool) (t : GRPCTLSConfig) : res error GRPCTLSConfig :=
  if en then
    try certf := str "GRPC_TLS_CERT_FILE" (gtls_CertFile t) in
    try keyf := str "GRPC_TLS_KEY_FILE" (gtls_KeyFile t) in
    try ca := str "GRPC_TLS_CLIENT_CA_FILE" (gtls_ClientCAFile t) in
    try ccert := str "GRPC_TLS_CLIENT_CERT_FILE" (gtls_ClientCertFile t) in
    try ckey := str "GRPC_TLS_CLIENT_KEY_FILE" (gtls_ClientKeyFile t) in
    try sca := str "GRPC_TLS_SERVER_CA_FILE" (gtls_ServerCAFile t) in
    try name := str "GRPC_TLS_SERVER_NAME" (gtls_ServerName t) in
    Ok (mkGRPCTLSConfig true certf keyf ca ccert ckey sca name)
  else if negb (isLoopbackListenAddr addr)
  then Err (EText "GRPC_TLS_ENABLE=false requires loopback GRPC_ADDR")
  else Ok (mkGRPCTLSConfig false (gtls_CertFile t) (gtls_KeyFile t) (gtls_ClientCAFile t)
             (gtls_ClientCertFile t) (gtls_ClientKeyFile t) (gtls_ServerCAFile t) (gtls_ServerName t)).

Definition load_grpc (d : GRPCConfig) : res error GRPCConfig :=
  try en := flag "GRPC_ENABLE" (grpc_Enable d) in
  if (en : bool) then
    try addr := str "GRPC_ADDR" (grpc_Addr d) in
    try _ := splitListenAddr "GRPC_ADDR" addr in
    try refl := flag "GRPC_REFLECTION_ENABLE" (grpc_ReflectionEnable d) in
    try ten := flag "GRPC_TLS_ENABLE" (gtls_Enable (grpc_TLS d)) in
    if (refl && negb (isLoopbackListenAddr addr))%bool
    then Err (EText "GRPC_REFLECTION_ENABLE=true requires loopback GRPC_ADDR")
    else
      try t := load_grpc_tls addr ten (grpc_TLS d) in
      Ok (mkGRPCConfig true addr refl t)
  else Ok (mkGRPCConfig false (grpc_Addr d) (grpc_ReflectionEnable d) (grpc_TLS d)).

Definition load_streaming (d : StreamingConfig) : res error StreamingConfig :=
  try wt := dur "STREAMING_WRITE_TIMEOUT" (st_WriteTimeout d) in
  try sb := pos "STREAMING_SUBSCRIBER_BUFFER" (st_SubscriberBuffer d) in
  try hb := dur "STREAMING_SSE_HEARTBEAT" (st_SSEHeartbeat d) in
  Ok (mkStreamingConfig hb sb wt).

Definition load_http (addr : string) (t : TLSConfig) (d : HTTPConfig) : res error HTTPConfig :=
  try rh := dur "HTTP_READ_HEADER_TIMEOUT" (http_ReadHeaderTimeout d) in
  try rd := dur "HTTP_READ_TIMEOUT" (http_ReadTimeout d) in
  try wr := dur "HTTP_WRITE_TIMEOUT" (http_WriteTimeout d) in
  try idle := dur "HTTP_IDLE_TIMEOUT" (http_IdleTimeout d) in
  try sd := dur "HTTP_SHUTDOWN_TIMEOUT" (http_ShutdownTimeout d) in
  try dbg := flag "HTTP_DEBUG" (http_Debug d) in
  try mh := pos "HTTP_MAX_HEADER_BYTES" (http_MaxHeaderBytes d) in
  Ok (mkHTTPConfig addr rh rd wr idle sd mh dbg t).

Definition load_limits (p : WorkerPoolConfig) (l : RateLimiterConfig) (b : BulkheadConfig)
    : res error (WorkerPoolConfig * RateLimiterConfig * BulkheadConfig) :=
  try w := pos "WORKERS_COUNT" (Workers p) in
  try qs := pos "QUEUE_SIZE" (QueueSize p) in
  try rps := pos "RATE_LIMIT_RPS" (RPS l) in
  try burst := pos "RATE_LIMIT_BURST" (Burst l) in
  try mp := pos "BULKHEAD_MAX_PARALLEL" (MaxParallel b) in
  Ok (mkWorkerPoolConfig w qs, mkRateLimiterConfig rps burst, mkBulkheadConfig mp).

Definition load_db (d : DBConfig) : res error DBConfig :=
  try dsn := str "DB_DSN" (db_DSN d) in
  try sb := str "STORAGE_BACKEND" (db_StorageBackend d) in
  try mo := nonneg "DB_MAX_OPEN_CONNS" (db_MaxOpenConns d) in
  try mi := nonneg "DB_MAX_IDLE_CONNS" (db_MaxIdleConns d) in
  try ml := dur "DB_CONN_MAX_LIFETIME" (db_ConnMaxLifetime d) in
  try mit := dur "DB_CONN_MAX_IDLE_TIME" (db_ConnMaxIdleTime d) in
  try qt := dur "DB_QUERY_TIMEOUT" (db_QueryTimeout d) in
  try pt := dur "DB_PING_TIMEOUT" (db_PingTimeout d) in
  Ok (mkDBConfig dsn sb mo mi ml mit qt pt).

Definition load_outbound (d : OutboundConfig) : res error OutboundConfig :=
  let t := ob_Transport d in
  let r := ob_Retry d in
  let p := ob_Profile d in
  try ict := dur "OUTBOUND_TRANSPORT_IDLE_CONN_TIMEOUT" (tr_IdleConnTimeout t) in
  try mic := nonneg "OUTBOUND_TRANSPORT_MAX_IDLE_CONNS" (tr_MaxIdleConns t) in
  try mich := pos "OUTBOUND_TRANSPORT_MAX_IDLE_CONNS_PER_HOST" (tr_MaxIdleConnsPerHost t) in
  try mch := nonneg "OUTBOUND_TRANSPORT_MAX_CONNS_PER_HOST" (tr_MaxConnsPerHost t) in
  try tht := dur "OUTBOUND_TRANSPORT_TLS_HANDSHAKE_TIMEOUT" (tr_TLSHandshakeTimeout t) in
  try rht := dur "OUTBOUND_TRANSPORT_RESPONSE_HEADER_TIMEOUT" (tr_ResponseHeaderTimeout t) in
  try ma := pos "OUTBOUND_RETRY_MAX_ATTEMPTS" (MaxAttempts r) in
  try bd := dur "OUTBOUND_RETRY_BASE_DELAY" (BaseDelay r) in
  try md := dur "OUTBOUND_RETRY_MAX_DELAY" (MaxDelay r) in
  try base := lookupURLAbsoluteParsed env "OUTBOUND_PROFILE_BASE_URL" (url_String (pf_Base p)) in
  try pt := dur "OUTBOUND_PROFILE_TIMEOUT" (pf_Timeout p) in
  Ok (mkOutboundConfig (mkOutboundProfileConfig base pt)
        (mkOutboundTransportConfig ict mic mich mch tht rht) (mkOutboundRetryConfig ma bd md)).

Definition load_jwt (d : JWTConfig) : res error JWTConfig :=
  try alg := str "AUTH_JWT_ALLOWED_ALG" (AllowedAlg d) in
  try _ := check (validateJWTAlg alg) in
  try skew := durnn "AUTH_JWT_CLOCK_SKEW" (ClockSkew d) in
  try iss := str "AUTH_JWT_ISSUER" (Issuer d) in
  try aud := str "AUTH_JWT_AUDIENCE" (Audience d) in
  try raw := str "AUTH_JWT_KEYS" (joinJWTKeys (Keys d)) in
  try keys := parseJWTKeys "AUTH_JWT_KEYS" raw in
  Ok (mkJWTConfig alg iss aud skew keys).

(** A list-valued variable that keeps its default when unset. *)
Definition load_list {A} (key : string) (parse : string → string → res error A) (def : A) : res error A :=
  match env key with
  | None => Ok def
  | Some raw =>
      let raw := TrimSpace raw in
      if streqb raw "" then Err (but_empty key) else parse key raw
  end.

Definition load_cors (d : CORS.CORSConfig) : res error CORS.CORSConfig :=
  try origins := load_list "CORS_ALLOWED_ORIGINS" parseCORSOrigins (CORS.AllowedOrigins d) in
  try methods := load_list "CORS_ALLOWED_METHODS" parseHTTPMethodsCSV (CORS.AllowedMethods d) in
  try headers := load_list "CORS_ALLOWED_HEADERS" parseHTTPHeadersCSV (CORS.AllowedHeaders d) in
  try creds := flag "CORS_ALLOW_CREDENTIALS" (CORS.AllowCredentials d) in
  try age := durnn "CORS_MAX_AGE" (CORS.MaxAge d) in
  if (creds && containsString origins "*")%bool
  then Err (EText ("CORS_ALLOW_CREDENTIALS=true запрещает origin=" +:+ Quote "*" +:+ " (CORS_ALLOWED_ORIGINS)"))
  else Ok (CORS.mkCORSConfig origins methods headers creds age).

Definition load_proxy (d : ProxyConfig) : res error ProxyConfig :=
  try proxies := load_list "PROXY_TRUSTED_PROXIES" parseTrustedProxies (TrustedProxies d) in
  try xff := flag "PROXY_TRUST_XFF" (TrustXFF d) in
  try xfp := flag "PROXY_TRUST_XFP" (TrustXFP d) in
  Ok (mkProxyConfig proxies xff xfp).

Definition load_security_headers (d : SecurityHeaders.SecurityHeadersConfig)
    : res error SecurityHeaders.SecurityHeadersConfig :=
  let hsts := SecurityHeaders.HSTS d in
  try en := flag "SECURITY_HEADERS_ENABLE" (SecurityHeaders.Enable d) in
  try rp := str "SECURITY_HEADERS_REFERRER_POLICY" (SecurityHeaders.ReferrerPolicy d) in
  try _ := check (validateReferrerPolicy rp) in
  try hen := flag "SECURITY_HEADERS_HSTS_ENABLE" (SecurityHeaders.hstsEnable hsts) in
  try age := durnn "SECURITY_HEADERS_HSTS_MAX_AGE" (SecurityHeaders.hstsMaxAge hsts) in
  if (hen && (age <=? 0)%Z)%bool
  then Err (EText "SECURITY_HEADERS_HSTS_ENABLE=true требует SECURITY_HEADERS_HSTS_MAX_AGE > 0")
  else Ok (SecurityHeaders.mkSecurityHeadersConfig en rp (SecurityHeaders.mkHSTS hen age)).

Definition Load : res error Config :=
  let d := defaultConfig in
  try runtime := load_runtime (cfg_Runtime d) in
  try logging := load_logging (cfg_Logging d) in
  try telemetry := load_telemetry (cfg_Telemetry d) in
  try addr_tls := load_http_tls (cfg_HTTP d) in
  let '(addr, tls) := addr_tls in
  try grpc := load_grpc (cfg_GRPC d) in
  try streaming := load_streaming (cfg_Streaming d) in
  try http := load_http addr tls (cfg_HTTP d) in
  try limits := load_limits (cfg_Pool d) (cfg_Limiter d) (cfg_Bulkhead d) in
  let '(pool, limiter, bulkhead) := limits in
  try db := load_db (cfg_DB d) in
  try outbound := load_outbound (cfg_Outbound d) in
  try jwt := load_jwt (cfg_JWT d) in
  try cors := load_cors (cfg_CORS d) in
  try proxy := load_proxy (cfg_Proxy d) in
  try headers := load_security_headers (cfg_SecurityHeaders d) in
  let cfg := mkConfig runtime logging telemetry http db pool limiter bulkhead outbound jwt cors
               proxy headers grpc streaming in
  try _ := check (validateSecurityProfile cfg) in
  Ok cfg.
End load.

(** ** What a loaded configuration promises

    The contract between [config] and the components: each of them is built
    from a part of the configuration under these assumptions. *)
Definition positive (l : list Z) : Prop := Forall (λ z, (0 < z)%Z) l.
Definition blank (s : string) : Prop := TrimSpace s = EmptyString.

Definition origin_ok (o : string) : Prop :=
  o = "*" ∨ ∃ scheme host, (scheme = "http" ∨ scheme = "https") ∧ o = scheme +:+ "://" +:+ host.

Section contract.
  Context `{GoParsers}.

Definition http_ok (h : HTTPConfig) : Prop :=
  positive [http_ReadHeaderTimeout h; http_ReadTimeout h; http_WriteTimeout h; http_IdleTimeout h;
            http_ShutdownTimeout h; http_MaxHeaderBytes h] ∧
  http_Addr h ≠ EmptyString ∧
  (tls_MinVersion (http_TLS h) = VersionTLS12 ∨ tls_MinVersion (http_TLS h) = VersionTLS13) ∧
  (tls_Enable (http_TLS h) = true →
   tls_Addr (http_TLS h) ≠ EmptyString ∧ ¬ blank (tls_CertFile (http_TLS h)) ∧
   ¬ blank (tls_KeyFile (http_TLS h))).

(** A listener without mutual TLS, or with reflection, is on loopback. *)
Definition grpc_ok (g : GRPCConfig) : Prop :=
  grpc_Enable g = true →
  ¬ blank (grpc_Addr g) ∧
  (∃ host port, SplitHostPort (grpc_Addr g) = Some (host, port) ∧ ¬ blank port) ∧
  (gtls_Enable (grpc_TLS g) = false ∨ grpc_ReflectionEnable g = true →
   isLoopbackListenAddr (grpc_Addr g) = true).

Definition limits_ok (c : Config) : Prop :=
  positive [Workers (cfg_Pool c); QueueSize (cfg_Pool c); RPS (cfg_Limiter c); Burst (cfg_Limiter c);
            MaxParallel (cfg_Bulkhead c); st_SSEHeartbeat (cfg_Streaming c);
            st_SubscriberBuffer (cfg_Streaming c); st_WriteTimeout (cfg_Streaming c);
            tel_ShutdownTimeout (cfg_Telemetry c)].

Definition db_ok (d : DBConfig) : Prop :=
  positive [db_ConnMaxLifetime d; db_ConnMaxIdleTime d; db_QueryTimeout d; db_PingTimeout d] ∧
  (0 <= db_MaxOpenConns d)%Z ∧ (0 <= db_MaxIdleConns d)%Z ∧
  db_DSN d ≠ EmptyString ∧ db_StorageBackend d ≠ EmptyString.

Definition outbound_ok (o : OutboundConfig) : Prop :=
  positive [MaxAttempts (ob_Retry o); BaseDelay (ob_Retry o); MaxDelay (ob_Retry o);
            pf_Timeout (ob_Profile o); tr_IdleConnTimeout (ob_Transport o);
            tr_MaxIdleConnsPerHost (ob_Transport o); tr_TLSHandshakeTimeout (ob_Transport o);
            tr_ResponseHeaderTimeout (ob_Transport o)] ∧
  (0 <= tr_MaxIdleConns (ob_Transport o))%Z ∧ (0 <= tr_MaxConnsPerHost (ob_Transport o))%Z.

Definition jwt_ok (j : JWTConfig) : Prop :=
  AllowedAlg j = "HS256" ∧ (0 <= ClockSkew j)%Z ∧ Keys j ≠ [] ∧ NoDup (map jk_KID (Keys j)) ∧
  Forall (λ k, jk_KID k ≠ EmptyString ∧ ¬ blank (jk_Secret k)) (Keys j).

Definition cors_ok (c : CORS.CORSConfig) : Prop :=
  (CORS.AllowCredentials c = true → "*" ∉ CORS.AllowedOrigins c) ∧ (0 <= CORS.MaxAge c)%Z ∧
  Forall origin_ok (CORS.AllowedOrigins c) ∧ NoDup (CORS.AllowedOrigins c) ∧
  NoDup (CORS.AllowedMethods c) ∧ NoDup (CORS.AllowedHeaders c).

Definition headers_ok (s : SecurityHeaders.SecurityHeadersConfig) : Prop :=
  SecurityHeaders.ReferrerPolicy s ≠ EmptyString ∧ (0 <= SecurityHeaders.hstsMaxAge (SecurityHeaders.HSTS s))%Z ∧
  (SecurityHeaders.hstsEnable (SecurityHeaders.HSTS s) = true →
   (0 < SecurityHeaders.hstsMaxAge (SecurityHeaders.HSTS s))%Z).

(** Forwarding headers are believed only from named networks. *)
Definition proxy_ok (p : ProxyConfig) : Prop :=
  TrustXFF p = true ∨ TrustXFP p = true →
  TrustedProxies p ≠ [] ∧ Forall (λ n, Prefix_Bits n ≠ 0%Z) (TrustedProxies p).

(** The rules by environment. *)
Definition environment_ok (c : Config) : Prop :=
  let e := Environment (cfg_Runtime c) in
  e ∈ [EnvironmentDevelopment; EnvironmentTest; EnvironmentStaging; EnvironmentProduction] ∧
  (e ≠ EnvironmentDevelopment →
   Forall (λ k, isDevelopmentJWTSecret (jk_Secret k) = false) (Keys (cfg_JWT c))) ∧
  (e = EnvironmentStaging ∨ e = EnvironmentProduction →
   SecurityHeaders.Enable (cfg_SecurityHeaders c) = true ∧
   ¬ blank (Issuer (cfg_JWT c)) ∧ ¬ blank (Audience (cfg_JWT c)) ∧
   Forall (λ k, (32 <= String.length (jk_Secret k))%nat) (Keys (cfg_JWT c))).

Record config_ok (c : Config) : Prop := {
  co_environment : environment_ok c;
  co_logging : ∃ l, NewLogger true (cfg_Logging c) = Ok l;
  co_http : http_ok (cfg_HTTP c);
  co_grpc : grpc_ok (cfg_GRPC c);
  co_limits : limits_ok c;
  co_db : db_ok (cfg_DB c);
  co_outbound : outbound_ok (cfg_Outbound c);
  co_jwt : jwt_ok (cfg_JWT c);
  co_cors : cors_ok (cfg_CORS c);
  co_headers : headers_ok (cfg_SecurityHeaders c);
  co_proxy : proxy_ok (cfg_Proxy c);
}.
End contract.

(** ** What each look-up returns *)
Ltac inv_load H :=
  repeat match type of H with
  | res_bind _ _ = Ok _ => let x := fresh "x" in let Hx := fresh "Hx" in
      apply res_bind_Ok in H as (x & Hx & H)
  end.

Section lookups_ok.
  Context `{GoParsers} (env : string → option string).

Lemma lookupString_Ok key def v : lookupStringNonEmpty env key def = Ok v →
  (env key = None ∧ v = def) ∨ (TrimSpace v = v ∧ v ≠ EmptyString).
Proof.
  unfold lookupStringNonEmpty. destruct (env key) as [s|]; [|by intros [= ->]; left].
  destruct (streqb (TrimSpace s) "") eqn:E; [done|]. intros [= <-]. right.
  split; [apply TrimSpace_idemp|by apply streqb_neq].
Qed.

Lemma lookupString_nonempty key def v :
  def ≠ EmptyString → lookupStringNonEmpty env key def = Ok v → v ≠ EmptyString.
Proof. intros Hd [[_ ->]|[_ ?]]%lookupString_Ok; done. Qed.

Lemma lookupInt_pos key def n : (0 < def)%Z → lookupIntPositive env key def = Ok n → (0 < n)%Z.
Proof. unfold lookupIntPositive. intros. split_branches; lia. Qed.

Lemma lookupInt_nonneg key def n : (0 <= def)%Z → lookupIntNonNegative env key def = Ok n → (0 <= n)%Z.
Proof. unfold lookupIntNonNegative. intros. split_branches; lia. Qed.

Lemma lookupDuration_pos key def n : (0 < def)%Z → lookupDurationPositive env key def = Ok n → (0 < n)%Z.
Proof. unfold lookupDurationPositive. intros. split_branches; lia. Qed.

Lemma lookupDuration_nonneg key def n :
  (0 <= def)%Z → lookupDurationNonNegative env key def = Ok n → (0 <= n)%Z.
Proof. unfold lookupDurationNonNegative. intros. split_branches; lia. Qed.

Lemma check_Ok e u : check e = Ok u → e = None.
Proof. by destruct e. Qed.
End lookups_ok.

(** A field read by a look-up has the property of its look-up, the default
    having it by computation. *)
Ltac config_field :=
  lazymatch goal with
  | |- positive _ => repeat apply List.Forall_cons; cbv beta; first [apply List.Forall_nil | config_field]
  | H : lookupIntPositive _ _ _ = Ok ?x |- (0 < ?x)%Z => refine (lookupInt_pos _ _ _ _ _ H); reflexivity
  | H : lookupDurationPositive _ _ _ = Ok ?x |- (0 < ?x)%Z => refine (lookupDuration_pos _ _ _ _ _ H); reflexivity
  | H : lookupIntNonNegative _ _ _ = Ok ?x |- (0 <= ?x)%Z =>
      refine (lookupInt_nonneg _ _ _ _ _ H); discriminate
  | H : lookupDurationNonNegative _ _ _ = Ok ?x |- (0 <= ?x)%Z =>
      refine (lookupDuration_nonneg _ _ _ _ _ H); discriminate
  | H : lookupStringNonEmpty _ _ _ = Ok ?x |- ?x ≠ EmptyString =>
      refine (lookupString_nonempty _ _ _ _ _ H); discriminate
  end.

Section parts_ok.
  Context `{GoParsers} (env : string → option string).

Lemma load_runtime_ok r : load_runtime env (cfg_Runtime defaultConfig) = Ok r →
  Environment r ∈ [EnvironmentDevelopment; EnvironmentTest; EnvironmentStaging; EnvironmentProduction].
Proof.
  unfold load_runtime. intros Hl. inv_load Hl. injection Hl as <-. simpl.
  apply check_Ok in Hx0. unfold validateEnvironment in Hx0.
  destruct (existsb _ _) eqn:E; [|done]. apply existsb_exists in E as (y & Hy & ->%streqb_eq).
  by apply list_elem_of_In.
Qed.

Lemma load_logging_ok l : load_logging env (cfg_Logging defaultConfig) = Ok l →
  ∃ lg, NewLogger true l = Ok lg.
Proof.
  unfold load_logging. intros Hl. inv_load Hl. injection Hl as <-. unfold NewLogger. simpl.
  assert (∃ n, slogLevel x = Ok n) as [n ->].
  { unfold lookupLogLevel in Hx. destruct (env _) as [v|]; [|injection Hx as <-; by eexists].
    destruct (streqb _ _); [done|]. destruct (slogLevel (ToLower (TrimSpace v))) as [m|] eqn:E; [|done].
    injection Hx as <-. by exists m. }
  assert (isValidLogFormat x0 = true) as Hf.
  { unfold lookupLogFormat in Hx0. destruct (env _) as [v|]; [|by injection Hx0 as <-].
    destruct (streqb _ _); [done|]. destruct (isValidLogFormat (ToLower (TrimSpace v))) eqn:E; [|done].
    by injection Hx0 as <-. }
  unfold isValidLogFormat in Hf. cbv zeta in Hf.
  destruct (streqb _ LogFormatText); [by eexists|]. destruct (streqb _ LogFormatJSON); [by eexists|done].
Qed.

Lemma load_tls_ok addr t : load_http_tls env (cfg_HTTP defaultConfig) = Ok (addr, t) →
  addr ≠ EmptyString ∧ (tls_MinVersion t = VersionTLS12 ∨ tls_MinVersion t = VersionTLS13) ∧
  (tls_Enable t = true →
   tls_Addr t ≠ EmptyString ∧ ¬ blank (tls_CertFile t) ∧ ¬ blank (tls_KeyFile t)).
Proof.
  unfold load_http_tls. cbv zeta. intros Hl. inv_load Hl.
  assert (x1 = VersionTLS12 ∨ x1 = VersionTLS13) as Hv.
  { unfold lookupTLSMinVersion in Hx1. destruct (env _) as [v|]; [|injection Hx1 as <-; by left].
    cbv zeta in Hx1. destruct (existsb _ _) in Hx1; [injection Hx1 as <-; by left|].
    destruct (existsb _ _) in Hx1; [injection Hx1 as <-; by right|done]. }
  destruct x0; [|injection Hl as <- <-; split_and!; try done; try config_field].
  inv_load Hl. destruct (streqb (TrimSpace x3) "") eqn:E1; [done|].
  destruct (streqb (TrimSpace x2) "") eqn:E2; [done|]. injection Hl as <- <-. reflect_bools.
  split_and!; [config_field|done|]. intros _. split_and!; simpl; [config_field|done|done].
Qed.

Lemma load_http_ok addr t h :
  load_http_tls env (cfg_HTTP defaultConfig) = Ok (addr, t) →
  load_http env addr t (cfg_HTTP defaultConfig) = Ok h → http_ok h.
Proof.
  intros (Ha & Hv & Ht)%load_tls_ok. unfold load_http. intros Hl. inv_load Hl. injection Hl as <-.
  split; [|done]. simpl. config_field.
Qed.

Lemma load_grpc_ok g : load_grpc env (cfg_GRPC defaultConfig) = Ok g → grpc_ok g.
Proof.
  unfold load_grpc. intros Hl. inv_load Hl. destruct x; [|by injection Hl as <-].
  inv_load Hl. destruct (x1 && _)%bool eqn:Hr; [done|]. inv_load Hl. injection Hl as <-.
  intros _. simpl. split_and!.
  - unfold blank. apply lookupString_Ok in Hx0 as [[_ ->]|[-> ?]]; [by vm_compute|done].
  - unfold splitListenAddr in Hx1. destruct (SplitHostPort x) as [[host port]|]; [|done].
    destruct (streqb (TrimSpace port) "") eqn:E; [done|]. reflect_bools. eauto.
  - unfold load_grpc_tls in Hx4. intros Hc.
    destruct (isLoopbackListenAddr x) eqn:El; [done|]. simpl in *. rewrite andb_true_r in Hr. subst x1.
    destruct x2; [|done]. inv_load Hx4. injection Hx4 as <-. by destruct Hc.
Qed.

Lemma load_outbound_ok o : load_outbound env (cfg_Outbound defaultConfig) = Ok o → outbound_ok o.
Proof.
  unfold load_outbound. cbv zeta. intros Hl. inv_load Hl. injection Hl as <-.
  split_and!; simpl; try done; try config_field.
Qed.

Lemma load_db_ok d : load_db env (cfg_DB defaultConfig) = Ok d → db_ok d.
Proof.
  unfold load_db. intros Hl. inv_load Hl. injection Hl as <-. split_and!; simpl; try done; try config_field.
Qed.

Lemma load_jwt_ok j : load_jwt env (cfg_JWT defaultConfig) = Ok j → jwt_ok j.
Proof.
  unfold load_jwt. intros Hl. inv_load Hl. injection Hl as <-.
  apply parseJWTKeys_wf in Hx5 as (Hne & Hwf & Hnd). split_and!; simpl; try done; try config_field.
  - apply check_Ok in Hx0. unfold validateJWTAlg in Hx0.
    destruct (streqb (TrimSpace x) "HS256") eqn:E; [|done]. reflect_bools.
    apply lookupString_Ok in Hx as [[_ ->]|[<- _]]; done.
  - eapply List.Forall_impl; [|exact Hwf]. by intros k [].
Qed.
End parts_ok.

Section lists_ok.
  Context `{GoParsers} (env : string → option string).

Lemma load_list_Ok {A} key (parse : string → string → res error A) def v :
  load_list env key parse def = Ok v → v = def ∨ ∃ raw, parse key raw = Ok v.
Proof.
  unfold load_list. destruct (env key) as [raw|]; [|by intros [= ->]; left].
  destruct (streqb _ _); [done|]. eauto.
Qed.

Lemma dedupe_elem l x : x ∈ dedupePreserveOrder l ↔ x ∈ l.
Proof. unfold dedupePreserveOrder. rewrite dedupe_from_elem. set_solver. Qed.

Lemma normalizeOrigin_ok key raw o : normalizeOrigin key raw = Ok o → origin_ok o.
Proof.
  unfold normalizeOrigin. cbv zeta. destruct (streqb _ _); [done|].
  destruct (url_Parse _) as [u|]; [|done].
  destruct (streqb (u_Scheme u) "http") eqn:E1, (streqb (u_Scheme u) "https") eqn:E2; simpl; try done;
    (destruct (streqb (u_Host u) ""); [done|]; destruct (bool_decide _); [done|];
     destruct (_ || _)%bool; [done|]; intros [= <-]; right; reflect_bools).
  - congruence.
  - exists "http", (ToLower (u_Host u)). rewrite E1. split; [by left|done].
  - exists "https", (ToLower (u_Host u)). rewrite E2. split; [by right|done].
Qed.

Lemma parseCORSOrigins_ok key v out : parseCORSOrigins key v = Ok out →
  NoDup out ∧ Forall origin_ok out.
Proof.
  unfold parseCORSOrigins. destruct (splitCSVStrict key v) as [items|]; [|done].
  destruct (traverse _ items) as [o|] eqn:Ht; [|done]. intros [= <-].
  split; [apply dedupe_from_NoDup|]. apply list.Forall_forall. intros x Hx. rewrite dedupe_elem in Hx.
  apply traverse_Ok in Ht. apply list_elem_of_lookup in Hx as [i Hi].
  destruct (Forall2_lookup_r _ _ _ _ _ Ht Hi) as (it & _ & Hit).
  destruct (streqb it "*"); [injection Hit as <-; by left|by eapply normalizeOrigin_ok].
Qed.

Lemma parseHTTPMethodsCSV_NoDup key v out : parseHTTPMethodsCSV key v = Ok out → NoDup out.
Proof.
  unfold parseHTTPMethodsCSV. destruct (splitCSVStrict key v); [|done].
  destruct (traverse _ _); [|done]. intros [= <-]. apply dedupe_from_NoDup.
Qed.

Lemma parseHTTPHeadersCSV_NoDup key v out : parseHTTPHeadersCSV key v = Ok out → NoDup out.
Proof.
  unfold parseHTTPHeadersCSV. destruct (splitCSVStrict key v); [|done].
  destruct (traverse _ _); [|done]. intros [= <-]. apply dedupe_from_NoDup.
Qed.

Lemma load_cors_ok c : load_cors env (cfg_CORS defaultConfig) = Ok c → cors_ok c.
Proof.
  unfold load_cors. intros Hl. inv_load Hl.
  destruct (x2 && containsString x "*")%bool eqn:Hc; [done|]. injection Hl as <-.
  assert (NoDup x ∧ Forall origin_ok x) as [Hn Ho].
  { apply load_list_Ok in Hx as [->|[raw Hp]]; [split; constructor|by eapply parseCORSOrigins_ok]. }
  split_and!; simpl; try done; try config_field.
  - intros ->. simpl in Hc. rewrite -containsString_true Hc. done.
  - apply load_list_Ok in Hx0 as [->|[raw Hp]]; [|by eapply parseHTTPMethodsCSV_NoDup].
    apply (bool_decide_unpack _). by vm_compute.
  - apply load_list_Ok in Hx1 as [->|[raw Hp]]; [|by eapply parseHTTPHeadersCSV_NoDup].
    apply (bool_decide_unpack _). by vm_compute.
Qed.

Lemma load_headers_ok s :
  load_security_headers env (cfg_SecurityHeaders defaultConfig) = Ok s → headers_ok s.
Proof.
  unfold load_security_headers. cbv zeta. intros Hl. inv_load Hl.
  destruct (x2 && _)%bool eqn:Hc; [done|]. injection Hl as <-. split_and!; simpl; try config_field.
  intros ->. simpl in Hc. by apply Z.leb_gt.
Qed.

Lemma proxy_requirements_ok p : ValidateTrustedProxyRequirements p = None ↔ proxy_ok p.
Proof.
  unfold ValidateTrustedProxyRequirements, proxy_ok.
  set (f := λ proxy, if (Prefix_Bits proxy =? 0)%Z then _ else None).
  assert (∀ l, first_error f l = None ↔ Forall (λ n, Prefix_Bits n ≠ 0%Z) l) as Hf.
  { intros l. rewrite first_error_None !list.Forall_forall. unfold f.
    split; intros Hl x Hx; specialize (Hl x Hx); simpl in *; by destruct (Z.eqb_spec (Prefix_Bits x) 0). }
  destruct (TrustXFF p), (TrustXFP p); cbn [negb andb]; try (by split; [intros _ [?|?]|]);
    (destruct (TrustedProxies p) as [|n l]; [split; [done|by intros [? _]; auto]|]);
    cbv beta iota; rewrite Hf; (split; [done|]); (intros Hx; apply Hx; auto).
Qed.

Lemma security_profile_ok c :
  Environment (cfg_Runtime c) ∈
    [EnvironmentDevelopment; EnvironmentTest; EnvironmentStaging; EnvironmentProduction] →
  validateSecurityProfile c = None → environment_ok c ∧ proxy_ok (cfg_Proxy c).
Proof.
  unfold validateSecurityProfile. cbv zeta. intros He Hv.
  destruct (validateJWTEnvironment _ _) eqn:Hj; [done|].
  destruct (ValidateTrustedProxyRequirements _) eqn:Hp; [done|].
  apply proxy_requirements_ok in Hp. split; [|done]. split_and!; [done| |].
  - intros Hd%streqb_neq. unfold validateJWTEnvironment in Hj. rewrite Hd in Hj.
    apply first_error_None in Hj. eapply List.Forall_impl; [|exact Hj]. intros k. simpl.
    by destruct (isDevelopmentJWTSecret _).
  - intros Hprot. assert (isProtectedEnvironment (Environment (cfg_Runtime c)) = true) as Hpe.
    { unfold isProtectedEnvironment. destruct Hprot as [->| ->]; done. }
    rewrite Hpe /= in Hv. destruct (_ <? _)%Z; [done|].
    destruct (SecurityHeaders.Enable _); [|done]. simpl in Hv. unfold validateProtectedJWT in Hv.
    destruct (streqb (TrimSpace (Issuer _)) "") eqn:E1; [done|].
    destruct (streqb (TrimSpace (Audience _)) "") eqn:E2; [done|]. reflect_bools.
    apply first_error_None in Hv. split_and!; [done|done|done|].
    eapply List.Forall_impl; [|exact Hv]. intros k. simpl.
    destruct (Z.ltb_spec (Z.of_nat (String.length (jk_Secret k))) 32); [done|lia].
Qed.
End lists_ok.

Section load_ok.
  Context `{GoParsers} (env : string → option string).

Lemma load_limits_ok r : load_limits env (cfg_Pool defaultConfig) (cfg_Limiter defaultConfig)
    (cfg_Bulkhead defaultConfig) = Ok r →
  positive [Workers r.1.1; QueueSize r.1.1; RPS r.1.2; Burst r.1.2; MaxParallel r.2].
Proof. unfold load_limits. intros Hl. inv_load Hl. injection Hl as <-. simpl. config_field. Qed.

Lemma load_streaming_ok s : load_streaming env (cfg_Streaming defaultConfig) = Ok s →
  positive [st_SSEHeartbeat s; st_SubscriberBuffer s; st_WriteTimeout s].
Proof. unfold load_streaming. intros Hl. inv_load Hl. injection Hl as <-. simpl. config_field. Qed.

Lemma load_telemetry_ok t : load_telemetry env (cfg_Telemetry defaultConfig) = Ok t →
  positive [tel_ShutdownTimeout t].
Proof. unfold load_telemetry. intros Hl. inv_load Hl. injection Hl as <-. simpl. config_field. Qed.

Lemma Load_config_ok c : Load env = Ok c → config_ok c.
Proof.
  unfold Load. cbv zeta. intros Hl. inv_load Hl. destruct x2 as [addr tls]. inv_load Hl.
  destruct x5 as [[pool limiter] bulkhead]. inv_load Hl. injection Hl as <-.
  apply load_runtime_ok in Hx. apply load_logging_ok in Hx0. apply load_telemetry_ok in Hx1.
  pose proof (load_http_ok _ _ _ _ Hx2 Hx5). apply load_grpc_ok in Hx3.
  apply load_streaming_ok in Hx4. apply load_limits_ok in Hx6. apply load_db_ok in Hx7.
  apply load_outbound_ok in Hx8. apply load_jwt_ok in Hx9. apply load_cors_ok in Hx10.
  apply load_headers_ok in Hx12. apply check_Ok, security_profile_ok in Hx13 as [He Hp]; [|done].
  split; try done. exact (proj2 (Forall_app _ _ _) (conj Hx6 (proj2 (Forall_app _ _ _) (conj Hx4 Hx1)))).
Qed.

(** (C19) Type of a loaded configuration: whatever the environment, if [Load]
    returns a configuration it satisfies the contract the components rely on:
    every size, timeout and limit is positive (or non-negative where zero has a
    meaning), TLS has its files, a gRPC listener without mutual TLS or with
    reflection is on loopback, the JWT algorithm is HS256 with a non-empty ring
    of distinct non-blank keys, credentials never meet a wildcard origin, HSTS
    has a positive age, forwarding headers need named networks; outside
    development no known development secret is accepted, and staging and
    production need security headers, issuer, audience and 32-byte secrets. *)
Theorem Load_type c : Load env = Ok c → config_ok c.
Proof. apply Load_config_ok. Qed.
End load_ok.

(** ** A small implementation of the parsers, for examples *)
Definition ex_duration (s : string) : option Z :=
  if HasSuffix s "s" then option_map (λ n, n * second)%Z (Atoi (slice_to s (Z.of_nat (String.length s) - 1)))
  else None.
Definition ex_url (s : string) : option URL :=
  match strip_prefix (to_bytes "http://") (to_bytes s) with
  | Some host => Some (mkURL "http" (of_bytes host) None "" "" "")
  | None =>
      match strip_prefix (to_bytes "https://") (to_bytes s) with
      | Some host => Some (mkURL "https" (of_bytes host) None "" "" "")
      | None => None
      end
  end.
Definition ex_parsers : GoParsers := {|
  ParseDuration := ex_duration;
  url_Parse := ex_url;
  Addr := string;
  ParseAddr := λ s, if (streqb s "127.0.0.1" || streqb s "10.0.0.1")%bool then Some s else None;
  Addr_IsLoopback := λ s, streqb s "127.0.0.1";
  Addr_Is6 := λ _, false;
  Prefix := string * Z;
  ParsePrefix := λ s, if streqb s "10.0.0.0/8" then Some ("10.0.0.0", 8%Z) else None;
  PrefixFrom := λ a bits, (a, bits);
  Prefix_Masked := λ p, p;
  Prefix_String := λ p, p.1 +:+ "/" +:+ Itoa p.2;
  Prefix_Bits := λ p, p.2;
|}.

Definition ex_env_of (l : list (string * string)) (key : string) : option string :=
  snd <$> list_find (λ kv, kv.1 = key) l ≫= λ p, Some p.2.

Definition ex_production : string → option string := ex_env_of
  [("APP_ENV", " Production "); ("AUTH_JWT_KEYS", "k1:0123456789abcdef0123456789abcdef");
   ("AUTH_JWT_ISSUER", "iss"); ("AUTH_JWT_AUDIENCE", "aud"); ("QUEUE_SIZE", " 64 ");
   ("GRPC_ENABLE", "true"); ("GRPC_ADDR", "127.0.0.1:9090"); ("HTTP_READ_TIMEOUT", "20s");
   ("CORS_ALLOWED_ORIGINS", "https://App.example/,https://app.example"); ("CORS_ALLOW_CREDENTIALS", "1");
   ("PROXY_TRUST_XFF", "true"); ("PROXY_TRUSTED_PROXIES", "10.0.0.0/8, 10.0.0.1")].

(** Some of what was loaded. *)
Definition summary (r : res error (@Config ex_parsers)) : option (string * Z * list string) :=
  match r with
  | Ok c => Some (Environment (cfg_Runtime c), QueueSize (cfg_Pool c), CORS.AllowedOrigins (cfg_CORS c))
  | Err _ => None
  end.

Lemma Load_type_witness :
  ∃ c : @Config ex_parsers, config_ok c ∧
    summary (Ok c) = Some (EnvironmentProduction, 64%Z, ["https://app.example"]).
Proof.
  assert (summary (@Load ex_parsers ex_production) =
          Some (EnvironmentProduction, 64%Z, ["https://app.example"])) as Hs by (vm_compute; reflexivity).
  destruct (@Load ex_parsers ex_production) as [c|e] eqn:E; [|discriminate Hs].
  exists c. split; [exact (@Load_type ex_parsers ex_production c E)|exact Hs].
Defined.

(** With nothing set in the environment, the loaded configuration is the
    built-in default, provided the default base URL parses to itself. *)
Theorem Load_defaults `{GoParsers} :
  url_Parse "http://localhost:8090" = Some (mkURL "http" "localhost:8090" None "" "" "") →
  Load (λ _, None) = Ok defaultConfig.
Proof.
  intros Hu. unfold Load, load_outbound, lookupURLAbsoluteParsed. cbv zeta.
  change (TrimSpace (url_String (pf_Base (ob_Profile (cfg_Outbound defaultConfig)))))
    with "http://localhost:8090".
  change (TrimRightByte "http://localhost:8090" "/"%char) with "http://localhost:8090".
  change (streqb "http://localhost:8090" "") with false. rewrite Hu. reflexivity.
Qed.

Lemma Load_defaults_witness : @Load ex_parsers (λ _, None) = Ok defaultConfig.
Proof. apply (@Load_defaults ex_parsers). vm_compute. reflexivity. Defined.
