(* ===== verification/Router.v ===== *)
(** * Routing

    Models [internal/router] and [internal/health]: the part of
    [http.ServeMux] the service uses, the route tables, the middleware chain
    around every API handler, the not-found wrapper, the root and debug muxes
    and the readiness probe.  A path is the list of its escaped segments between
    slashes; the last one is empty when the path ends in a slash. *)
From Stdlib Require Import Ascii.
From S2P Require Import Prelude.
From S2P Require Import GoErrors.
From S2P Require Import GoStrings.
From S2P Require Import HttpErrors.
From S2P Require Import Security.
From S2P Require Import Middleware.

(** ** [http.ServeMux] *)
Module Mux.

(** The mux's [pathUnescape]: percent escapes are decoded; a segment with a
    malformed one is taken as it is. *)
Definition hex_value (c : ascii) : option N :=
  let n := code c in
  if ((48 <=? n) && (n <=? 57))%N%bool then Some (n - 48)%N
  else if ((65 <=? n) && (n <=? 70))%N%bool then Some (n - 55)%N
  else if ((97 <=? n) && (n <=? 102))%N%bool then Some (n - 87)%N
  else None.
Fixpoint unescape_bytes (b : bytes) : option bytes :=
  match b with
  | [] => Some []
  | c :: b' =>
      if ceqb c "%"%char then
        match b' with
        | h1 :: h2 :: b'' =>
            match hex_value h1, hex_value h2 with
            | Some x, Some y => cons (chr (16 * x + y)) <$> unescape_bytes b''
            | _, _ => None
            end
        | _ => None
        end
      else cons c <$> unescape_bytes b'
  end.
Definition pathUnescape (s : string) : string :=
  match unescape_bytes (to_bytes s) with Some b => of_bytes b | None => s end.

Inductive seg : Type := Lit (s : string) | Wild (name : string).

(** [multi]: the pattern ends in a slash and matches everything below. *)
Record pattern := mkPattern {
  pt_method : option string; pt_segs : list seg; pt_multi : bool; pt_string : string }.

Definition slashed (l : list string) : string := foldr (λ s acc, "/" +:+ s +:+ acc) EmptyString l.
Definition seg_string (s : seg) : string := match s with Lit l => l | Wild n => "{" +:+ n +:+ "}" end.
(** The pattern and its [String]. *)
Definition pat (m : option string) (segs : list seg) (multi : bool) : pattern :=
  mkPattern m segs multi
    ((match m with Some m => m +:+ " " | None => EmptyString end)
     +:+ slashed (map seg_string segs ++ if multi then [EmptyString] else [])).

(** The wildcard values of a match. *)
Fixpoint match_path (ps : list seg) (multi : bool) (path : list string) : option (list (string * string)) :=
  match ps, path with
  | [], [] => if multi then None else Some []
  | [], _ :: _ => if multi then Some [] else None
  | Lit l :: ps, s :: path => if streqb l (pathUnescape s) then match_path ps multi path else None
  | Wild n :: ps, s :: path =>
      if streqb s "" then None
      else match match_path ps multi path with Some b => Some ((n, pathUnescape s) :: b) | None => None end
  | _ :: _, [] => None
  end.

Fixpoint first_match {A} (m : option string) (pats : list (pattern * A)) (path : list string)
    : option (pattern * A * list (string * string)) :=
  match pats with
  | [] => None
  | (p, a) :: pats =>
      if decide (pt_method p = m)
      then match match_path (pt_segs p) (pt_multi p) path with
           | Some b => Some (p, a, b)
           | None => first_match m pats path
           end
      else first_match m pats path
  end.

(** The method's own patterns, those of GET for HEAD, then those without a
    method; tables list more specific paths first. *)
Definition match_method {A} (pats : list (pattern * A)) (method : string) (path : list string)
    : option (pattern * A * list (string * string)) :=
  match first_match (Some method) pats path with
  | Some r => Some r
  | None =>
      match (if streqb method "HEAD" then first_match (Some "GET") pats path else None) with
      | Some r => Some r
      | None => first_match None pats path
      end
  end.

(** [cleanPath] leaves the path alone. *)
Fixpoint clean (path : list string) : bool :=
  match path with
  | [] => true
  | [s] => negb (streqb s "." || streqb s "..")
  | s :: path => (negb (streqb s "" || streqb s "." || streqb s "..") && clean path)%bool
  end.

Definition ends_in_slash (path : list string) : bool :=
  match rev path with s :: _ => streqb s "" | [] => false end.

Inductive found (A : Type) : Type :=
| Handle (p : pattern) (a : A) (binds : list (string * string))
| Redirect (p : option pattern)
| NoHandler.
Arguments Handle {A}.
Arguments Redirect {A}.
Arguments NoHandler {A}.

(** [mux.Handler]: a handler with its pattern, a redirect to the clean or
    slash-terminated path, or the mux's own 404 or 405 answer. *)
Definition Handler {A} (pats : list (pattern * A)) (method : string) (path : list string) : found A :=
  let n := match_method pats method path in
  let inexact := match n with
                 | Some (p, _, _) => pt_multi p
                 | None => true
                 end in
  let slash := if (inexact && negb (ends_in_slash path))%bool
               then match match_method pats method (path ++ [EmptyString]) with
                    | Some (p, _, _) =>
                        if (pt_multi p && (length (pt_segs p) =? length path)%nat)%bool then Some p else None
                    | None => None
                    end
               else None in
  match slash with
  | Some p => Redirect (Some p)
  | None =>
      if (negb (streqb method "CONNECT") && negb (clean path))%bool
      then Redirect (match n with Some (p, _, _) => Some p | None => None end)
      else match n with
           | Some (p, a, b) => Handle p a b
           | None => NoHandler
           end
  end.

Definition PathValue (b : list (string * string)) (name : string) : string :=
  match list_find (λ kv, kv.1 = name) b with Some (_, kv) => kv.2 | None => EmptyString end.

Lemma first_match_in {A} m (pats : list (pattern * A)) path p a b :
  first_match m pats path = Some (p, a, b) →
  (p, a) ∈ pats ∧ pt_method p = m ∧ match_path (pt_segs p) (pt_multi p) path = Some b.
Proof.
  induction pats as [|[q a'] pats IH]; simpl; [done|].
  destruct (decide (pt_method q = m)) as [Hm|]; [|intros (?&?&?)%IH; split_and!; [by right|done|done]].
  destruct (match_path (pt_segs q) (pt_multi q) path) as [b0|] eqn:E.
  - intros ?; simplify_eq. split_and!; [by left|done|done].
  - intros (?&?&?)%IH. split_and!; [by right|done|done].
Qed.

(** A request runs a handler only under a pattern of the table that matches
    its path, and that names no method, its own, or GET for HEAD. *)
Lemma Handler_sound {A} (pats : list (pattern * A)) method path p a b :
  Handler pats method path = Handle p a b →
  (p, a) ∈ pats ∧ match_path (pt_segs p) (pt_multi p) path = Some b ∧
  (pt_method p = None ∨ pt_method p = Some method ∨ method = "HEAD" ∧ pt_method p = Some "GET").
Proof.
  unfold Handler. intros Hh.
  assert (match_method pats method path = Some (p, a, b)) as Hm.
  { destruct (match_method pats method path) as [[[p' a'] b']|]; repeat case_match; simplify_eq; done. }
  clear Hh. unfold match_method in Hm. destruct (first_match (Some method) pats path) as [[[p' a'] b']|] eqn:E.
  { injection Hm as -> -> ->. apply first_match_in in E as (?&?&?). auto. }
  clear E. destruct (streqb method "HEAD") eqn:Eh.
  - destruct (first_match (Some "GET") pats path) as [[[p' a'] b']|] eqn:E.
    + injection Hm as -> -> ->. apply first_match_in in E as (?&?&?). reflect_bools. split_and!; [done|done|by right; right].
    + apply first_match_in in Hm as (?&?&?). auto.
  - apply first_match_in in Hm as (?&?&?). auto.
Qed.

Lemma pathUnescape_plain s : "%"%char ∉ to_bytes s → pathUnescape s = s.
Proof.
  intros Hn. unfold pathUnescape.
  assert (unescape_bytes (to_bytes s) = Some (to_bytes s)) as ->; [|apply of_to_bytes].
  induction (to_bytes s) as [|c b IH]; [done|]. apply not_elem_of_cons in Hn as [Hc Hn].
  cbn [unescape_bytes]. rewrite (proj2 (ceqb_neq c _) (not_eq_sym Hc)) IH //.
Qed.
End Mux.

(** ** The API router *)
Module API.
Import Mux Auth.

(** The operations of the API interfaces a request can reach. *)
Inductive api_call : Type :=
| UsersList | UsersCreate | UsersV2List | UsersV2Create
| JobGetByID (id : Z) | JobGetByIDViaGRPC (id : Z) | JobEvents (id : Z)
| UserGetByID (id : Z) | GetUserProfile (id : Z) | UserExport (id : Z).

#[export] Instance api_call_eq_dec : EqDecision api_call.
Proof. solve_decision. Defined.

Definition mustBePositive : string := "id must be a positive integer".

(** The handlers by identifier: GET only, the identifier a positive integer. *)
Definition by_id (op : Z → api_call) (idStr : string) : handler api_call := λ r c,
  if streqb (method r) "GET" then
    let '(id, ok) := ParsePositiveInt idStr in
    if (ok : bool) then (c, Ok (op id)) else (c, Err (EBadRequestError mustBePositive))
  else (c, Err (EMethodNotAllowedError "GET")).

Definition run (op : api_call) : handler api_call := λ _ c, (c, Ok op).

(** The 405 helpers of the collections. *)
Definition usersFallback : handler api_call := λ r c,
  if streqb (method r) "GET" then (c, Ok UsersList)
  else if streqb (method r) "POST" then (c, Ok UsersCreate)
  else (c, Err (EMethodNotAllowedError "GET, POST")).
Definition usersV2Fallback : handler api_call := λ _ c, (c, Err (EMethodNotAllowedError "GET, POST")).

Definition v1 (l : list seg) : list seg := Lit "api" :: Lit "v1" :: l.
Definition v2 (l : list seg) : list seg := Lit "api" :: Lit "v2" :: l.

(** The table; a handler takes the path value [id].  The profile route exists
    only with a profile handler. *)
Definition NewRouter (usersProfile : bool) : list (Mux.pattern * (string → handler api_call)) :=
  [(pat (Some "GET") (v1 [Lit "users"]) false, λ _, run UsersList);
   (pat (Some "POST") (v1 [Lit "users"]) false, λ _, run UsersCreate);
   (pat (Some "GET") (v2 [Lit "users"]) false, λ _, run UsersV2List);
   (pat (Some "POST") (v2 [Lit "users"]) false, λ _, run UsersV2Create);
   (pat None (v1 [Lit "jobs"; Wild "id"]) false, by_id JobGetByID);
   (pat None (v1 [Lit "jobs"; Wild "id"; Lit "grpc"]) false, by_id JobGetByIDViaGRPC);
   (pat None (v1 [Lit "jobs"; Wild "id"; Lit "events"]) false, by_id JobEvents);
   (pat None (v1 [Lit "users"; Wild "id"]) false, by_id UserGetByID)] ++
  (if usersProfile
   then [(pat None (v1 [Lit "users"; Wild "id"; Lit "profile"]) false, by_id GetUserProfile)] else []) ++
  [(pat None (v1 [Lit "users"; Wild "id"; Lit "export"]) false, by_id UserExport);
   (pat None (v1 [Lit "users"]) false, λ _, usersFallback);
   (pat None (v2 [Lit "users"]) false, λ _, usersV2Fallback)].

(** The state the middleware around a handler share. *)
Record chain_state := mkChain {
  cs_bulkhead : Bulkhead.BulkheadAPI; cs_limited : Z; cs_counters : counters }.

(** [wrap]: bulkhead, rate limiter, authentication, authorisation; the slot of
    the bulkhead is given back when the rest returns. *)
Definition wrap (Verify : string → res error Principal) (rules : gmap string RouteRule)
    (resv : RateLimit.reservation) (h : handler api_call) (r : hreq) (s : chain_state)
    : chain_state * res error api_call :=
  match Bulkhead.enter (cs_bulkhead s) with
  | (b, Some e) => (mkChain b (cs_limited s) (cs_counters s), Err e)
  | (b, None) =>
      match RateLimit.Process resv (cs_limited s) with
      | (Some e, total, _) => (mkChain (Bulkhead.leave b) total (cs_counters s), Err e)
      | (None, total, _) =>
          let '(c, out) := Authenticate Verify (Authorize rules h) r (cs_counters s) in
          (mkChain (Bulkhead.leave b) total c, out)
      end
  end.

Inductive answer : Type :=
| NotFoundProblem
| RedirectAnswer
| HandlerAnswer (out : res error api_call).

(** [WithProblemNotFound] around the mux: a request without a pattern gets the
    404 problem, any other goes to the mux, which sets [r.Pattern]. *)
Definition ServeAPI (usersProfile : bool) (Verify : string → res error Principal)
    (rules : gmap string RouteRule) (resv : RateLimit.reservation)
    (m : string) (path : list string) (authz : string) (s : chain_state) : chain_state * answer :=
  match Mux.Handler (NewRouter usersProfile) m path with
  | NoHandler | Redirect None => (s, NotFoundProblem)
  | Redirect (Some _) => (s, RedirectAnswer)
  | Handle p h b =>
      let '(s, out) := wrap Verify rules resv (h (PathValue b "id")) (mkHreq m (pt_string p) authz None) s in
      (s, HandlerAnswer out)
  end.

(** The access matrix the service is built with. *)
Definition policy_rules : gmap string RouteRule :=
  match NewAuthorizeAPI DefaultPolicy with Ok rules => rules | Err _ => ∅ end.

(** What the access matrix demands for each operation. *)
Definition admin_only (op : api_call) : bool :=
  match op with
  | UsersList | UsersCreate | UsersV2List | UsersV2Create | JobGetByID _ | JobGetByIDViaGRPC _ => true
  | JobEvents _ | UserGetByID _ | GetUserProfile _ | UserExport _ => false
  end.
Definition op_id (op : api_call) : option Z :=
  match op with
  | UsersList | UsersCreate | UsersV2List | UsersV2Create => None
  | JobGetByID id | JobGetByIDViaGRPC id | JobEvents id | UserGetByID id | GetUserProfile id
  | UserExport id => Some id
  end.

(** The pattern has a rule; a handler that runs an operation did not get a
    preflight request, and the rule asks for at least what the operation needs. *)
Definition entry_ok (e : Mux.pattern * (string → handler api_call)) : Prop :=
  ∃ rule, policy_rules !! pt_string e.1 = Some rule ∧
  ∀ id r c c' op, e.2 id r c = (c', Ok op) →
    c' = c ∧ (method r ≠ "OPTIONS" ∨ is_Some (pt_method e.1)) ∧
    (Access rule = AccessAdminOnly ∨ admin_only op = false ∧ Access rule = AccessAuthenticated) ∧
    (∀ n, op_id op = Some n → (1 <= n)%Z).

Lemma by_id_entry op idStr r c c' out :
  by_id op idStr r c = (c', Ok out) →
  method r = "GET" ∧ c' = c ∧ ∃ n, out = op n ∧ (1 <= n)%Z.
Proof.
  unfold by_id, ParsePositiveInt. destruct (streqb (method r) "GET") eqn:Em; [|done].
  destruct (Atoi idStr) as [n|]; [|done]. destruct (Z.leb_spec n 0); [done|].
  intros [= <- <-]. reflect_bools. split_and!; [done|done|]. exists n. split; [done|lia].
Qed.

Lemma entries_ok profile e : e ∈ NewRouter profile → entry_ok e.
Proof.
  intros He.
  assert (∀ op idStr r c c' out, by_id op idStr r c = (c', Ok out) →
    c' = c ∧ method r ≠ "OPTIONS" ∧ ∃ n, out = op n ∧ (1 <= n)%Z) as Hid.
  { intros op idStr r c c' out (Hm & -> & Hn)%by_id_entry. rewrite Hm. done. }
  assert (Forall entry_ok (NewRouter true)) as Hall.
  { repeat apply List.Forall_cons; try apply List.Forall_nil;
      (eexists; split; [vm_compute; reflexivity|]); intros id r c c' op Hop; simpl in Hop;
      try (apply Hid in Hop as (-> & Hm & n & -> & Hn);
           split_and!; [done|by left|first [by left|by right]|intros k [= <-]; exact Hn]);
      try (injection Hop as <- <-; split_and!; [done|right; by eexists|by left|done]).
    - unfold usersFallback in Hop.
      destruct (streqb (method r) "GET") eqn:E1; [|destruct (streqb (method r) "POST") eqn:E2; [|done]];
        reflect_bools; injection Hop as <- <-; rewrite ?E1 ?E2; (split_and!; [done|by left|by left|done]).
    - done. }
  rewrite list.Forall_forall in Hall. apply Hall. destruct profile; [done|].
  revert He. unfold NewRouter. rewrite !elem_of_app.
  intros [He|[He|He]]; [by left|by apply elem_of_nil in He|by right; right].
Qed.

Lemma auth_chain_Ok {A} Verify rules (next : handler A) r c c' a :
  Authenticate Verify (Authorize rules next) r c = (c', Ok a) →
  method r = "OPTIONS" ∧ next r c = (c', Ok a) ∨
  ∃ r', next r' c = (c', Ok a) ∧ access_granted Verify rules r r'.
Proof.
  unfold Authenticate, Authorize. destruct (streqb (method r) "OPTIONS") eqn:Hm.
  { reflect_bools. by left. }
  destruct (parseBearerToken (authorization r)) as [token|e] eqn:Ht; [|done].
  destruct (Verify token) as [p|e] eqn:Hv; [|done]. cbn [method pattern principal]. rewrite Hm.
  destruct (streqb (pattern r) ""); [done|].
  destruct (rules !! pattern r) as [rule|] eqn:Hr; [|done]. intros Hn. right.
  exists (mkHreq (method r) (pattern r) (authorization r) (Some p)).
  destruct (Z.eqb_spec (Access rule) AccessPublic) as [Ha|_].
  { split; [done|]. exists rule, token, p. rewrite Ha. split_and!; auto; done. }
  destruct (Z.eqb_spec (Access rule) AccessAuthenticated) as [Ha|_].
  { split; [done|]. exists rule, token, p. rewrite Ha. split_and!; auto; done. }
  destruct (Z.eqb_spec (Access rule) AccessAdminOnly) as [Ha|_]; [|done].
  destruct (streqb (pRole p) RoleAdmin) eqn:Hrole; [|done]. reflect_bools.
  split; [done|]. exists rule, token, p. split_and!; auto.
Qed.

Lemma table_methods profile e : e ∈ NewRouter profile → pt_method e.1 ≠ Some "OPTIONS".
Proof.
  assert (Forall (λ e : Mux.pattern * (string → handler api_call), pt_method e.1 ≠ Some "OPTIONS")
    (NewRouter profile)) as Hf by (destruct profile; repeat constructor; discriminate).
  rewrite list.Forall_forall in Hf. apply Hf.
Qed.

Lemma not_preflight (m m' : string) (pm : option string) :
  m' = m → pm ≠ Some "OPTIONS" → m' ≠ "OPTIONS" ∨ is_Some pm →
  pm = None ∨ pm = Some m ∨ m = "HEAD" ∧ pm = Some "GET" → m ≠ "OPTIONS".
Proof. intros -> Ho [?|[x ->]] Hm; [done|]. intros ->. destruct Hm as [?|[?|[? _]]]; done. Qed.

(** Every API operation is mediated: whatever the request, an operation of
    the API runs only for a bearer token that the verifier accepts, with the
    admin role where the access matrix asks for it and with a positive
    identifier; preflight requests, which skip authentication, never run one.
    In every case the bulkhead slot is given back. *)
Theorem api_mediated profile Verify resv m path authz s s' out :
  ServeAPI profile Verify policy_rules resv m path authz s = (s', out) →
  (∀ op, out = HandlerAnswer (Ok op) →
    m ≠ "OPTIONS" ∧ (∀ n, op_id op = Some n → (1 <= n)%Z) ∧
    ∃ token p, parseBearerToken authz = Ok token ∧ Verify token = Ok p ∧
      (admin_only op = true → pRole p = RoleAdmin)) ∧
  Bulkhead.sem (cs_bulkhead s') = Bulkhead.sem (cs_bulkhead s) ∧
  Bulkhead.inFlight (cs_bulkhead s') = Bulkhead.inFlight (cs_bulkhead s).
Proof.
  unfold ServeAPI, wrap, Bulkhead.enter, Bulkhead.leave.
  destruct (Mux.Handler _ m path) as [p h b|[p|]|] eqn:Hh; try (intros [= <- <-]; by split_and!).
  apply Handler_sound in Hh as (Hin & _ & Hm).
  apply entries_ok in Hin as He. apply table_methods in Hin as Hopt. simpl in Hopt.
  destruct (_ <? _)%Z; [|by intros [= <- <-]; split_and!].
  destruct (RateLimit.Process resv _) as [[[e|] total] canceled];
    [intros [= <- <-]; simpl; split_and!; [done|lia|lia]|].
  destruct (Authenticate _ _ _ _) as [c' out'] eqn:Ha. intros [= <- <-]. simpl.
  split_and!; [|lia|lia]. intros op [= ->].
  apply auth_chain_Ok in Ha as
    [[Hmo Hn]|(r' & Hn & rule & token & pr & Hrule & Hm' & _ & Ht & Hv & _ & Hadm & _)];
    destruct He as (rule' & Hrule' & He); destruct (He _ _ _ _ _ Hn) as (_ & Hx & Hacc & Hid).
  - destruct (not_preflight _ _ _ eq_refl Hopt Hx Hm Hmo).
  - cbn [method pattern authorization fst] in *. rewrite Hrule' in Hrule. injection Hrule as ->.
    split_and!; [exact (not_preflight _ _ _ Hm' Hopt Hx Hm)|exact Hid|].
    exists token, pr. split_and!; [exact Ht|exact Hv|]. intros Hop. apply Hadm.
    destruct Hacc as [Hacc|[Hacc _]]; [exact Hacc|]. rewrite Hop in Hacc. discriminate Hacc.
Qed.

Definition ex_state : chain_state :=
  mkChain (Bulkhead.mkBulkhead 0 1 0 0) 0 (mkCounters 0 ∅).
Definition ex_verify (p : Principal) (token : string) : res error Principal :=
  if streqb token "good" then Ok p else Err (EAuthNError AuthNInvalid None).

Lemma api_mediated_witness :
  (ServeAPI true (ex_verify (mkPrincipal 1 RoleAdmin)) policy_rules (RateLimit.Granted 0)
     "GET" ["api"; "v1"; "jobs"; "7"] "Bearer good" ex_state).2 = HandlerAnswer (Ok (JobGetByID 7)) ∧
  ∃ token p, parseBearerToken "Bearer good" = Ok token ∧
    ex_verify (mkPrincipal 1 RoleAdmin) token = Ok p ∧ pRole p = RoleAdmin.
Proof.
  destruct (ServeAPI true (ex_verify (mkPrincipal 1 RoleAdmin)) policy_rules (RateLimit.Granted 0)
     "GET" ["api"; "v1"; "jobs"; "7"] "Bearer good" ex_state) as [s' out] eqn:E.
  assert (out = HandlerAnswer (Ok (JobGetByID 7))) as -> by (vm_compute in E; injection E as _ <-; reflexivity).
  split; [reflexivity|].
  destruct (proj1 (api_mediated _ _ _ _ _ _ _ _ _ E) (JobGetByID 7) eq_refl) as (_ & _ & token & p & H1 & H2 & H3).
  exists token, p. split; [exact H1|]. split; [exact H2|]. apply H3. reflexivity.
Defined.

(** ** Every operation has a request that reaches it *)
Definition with_id (op : api_call) (s : string) : list string :=
  match op with
  | UsersList | UsersCreate => ["api"; "v1"; "users"]
  | UsersV2List | UsersV2Create => ["api"; "v2"; "users"]
  | JobGetByID _ => ["api"; "v1"; "jobs"; s]
  | JobGetByIDViaGRPC _ => ["api"; "v1"; "jobs"; s; "grpc"]
  | JobEvents _ => ["api"; "v1"; "jobs"; s; "events"]
  | UserGetByID _ => ["api"; "v1"; "users"; s]
  | GetUserProfile _ => ["api"; "v1"; "users"; s; "profile"]
  | UserExport _ => ["api"; "v1"; "users"; s; "export"]
  end.

Definition canonical (op : api_call) : string * list string :=
  (match op with UsersCreate | UsersV2Create => "POST" | _ => "GET" end,
   with_id op (Itoa (default 0%Z (op_id op)))).

Lemma Itoa_segment n : (0 <= n <= int_max)%Z →
  Itoa n ≠ EmptyString ∧ Itoa n ≠ "." ∧ Itoa n ≠ ".." ∧ pathUnescape (Itoa n) = Itoa n.
Proof.
  unfold int_max. intros Hn.
  assert (to_bytes (Itoa n) ≠ [] ∧ all_digits (to_bytes (Itoa n))) as [Hne Hd].
  { unfold Itoa. rewrite to_of_bytes. destruct (Z.ltb_spec n 0); [lia|].
    destruct (digits_of_spec 20 n []) as (? & ? & _); [simpl; lia|done|constructor|done]. }
  assert (∀ c s, digit c = None → c ∈ to_bytes s → Itoa n ≠ s) as Hdiff.
  { intros c s Hc Hin E. unfold all_digits in Hd. rewrite list.Forall_forall E in Hd.
    destruct (Hd c Hin). congruence. }
  split_and!.
  - intros E. by rewrite E in Hne.
  - eapply Hdiff; [|left]. done.
  - eapply Hdiff; [|left]. done.
  - apply pathUnescape_plain. intros Hin. unfold all_digits in Hd. rewrite list.Forall_forall in Hd.
    by destruct (Hd _ Hin).
Qed.

(** The table sends the canonical request to the right entry. *)
Definition op_pattern (op : api_call) : Mux.pattern :=
  match op with
  | UsersList => pat (Some "GET") (v1 [Lit "users"]) false
  | UsersCreate => pat (Some "POST") (v1 [Lit "users"]) false
  | UsersV2List => pat (Some "GET") (v2 [Lit "users"]) false
  | UsersV2Create => pat (Some "POST") (v2 [Lit "users"]) false
  | JobGetByID _ => pat None (v1 [Lit "jobs"; Wild "id"]) false
  | JobGetByIDViaGRPC _ => pat None (v1 [Lit "jobs"; Wild "id"; Lit "grpc"]) false
  | JobEvents _ => pat None (v1 [Lit "jobs"; Wild "id"; Lit "events"]) false
  | UserGetByID _ => pat None (v1 [Lit "users"; Wild "id"]) false
  | GetUserProfile _ => pat None (v1 [Lit "users"; Wild "id"; Lit "profile"]) false
  | UserExport _ => pat None (v1 [Lit "users"; Wild "id"; Lit "export"]) false
  end.
Definition op_handler (op : api_call) : string → handler api_call :=
  match op with
  | UsersList | UsersCreate | UsersV2List | UsersV2Create => λ _, run op
  | JobGetByID _ => by_id JobGetByID
  | JobGetByIDViaGRPC _ => by_id JobGetByIDViaGRPC
  | JobEvents _ => by_id JobEvents
  | UserGetByID _ => by_id UserGetByID
  | GetUserProfile _ => by_id GetUserProfile
  | UserExport _ => by_id UserExport
  end.

Lemma canonical_handler op s :
  s ≠ EmptyString → s ≠ "." → s ≠ ".." → pathUnescape s = s →
  Mux.Handler (NewRouter true) (canonical op).1 (with_id op s) =
  Handle (op_pattern op) (op_handler op) (match op_id op with Some _ => [("id", s)] | None => [] end).
Proof.
  intros H1%streqb_neq H2%streqb_neq H3%streqb_neq H4.
  destruct op; [reflexivity..| | | | | |];
    cbv -[pathUnescape streqb by_id run usersFallback usersV2Fallback];
    repeat first [progress rewrite ?H1 ?H2 ?H3 ?H4 |
      match goal with |- context [streqb ?a ?b] =>
        let v := eval vm_compute in (streqb a b) in
        lazymatch v with true => change (streqb a b) with true | false => change (streqb a b) with false end
      end].
  all: reflexivity.
Qed.

(** Every pattern of the table has a rule, which asks for an administrator where
    the matrix does and for an authenticated caller elsewhere. *)
Lemma op_rule op : ∃ rule, policy_rules !! pt_string (op_pattern op) = Some rule ∧
  Access rule = (if admin_only op then AccessAdminOnly else AccessAuthenticated) ∧
  streqb (pt_string (op_pattern op)) "" = false.
Proof. destruct op; (eexists; split; [vm_compute; reflexivity|]); (split; reflexivity). Qed.

Lemma op_handler_runs op s r c :
  method r = (canonical op).1 → (∀ n, op_id op = Some n → s = Itoa n ∧ (1 <= n <= int_max)%Z) →
  op_handler op s r c = (c, Ok op).
Proof.
  intros Hm Hs.
  assert (∀ (k : Z → api_call) n, op = k n → op_id op = Some n → method r = "GET" →
    by_id k s r c = (c, Ok op)) as Hid.
  { intros k n -> Hn Hg. destruct (Hs n Hn) as [-> Hr]. unfold by_id, ParsePositiveInt.
    rewrite Hg streqb_refl Atoi_Itoa; [unfold int64_ok, int_min; lia|].
    by destruct (Z.leb_spec n 0); [lia|]. }
  destruct op; try done; by eapply Hid.
Qed.

Lemma caller_passes {A} Verify rules rule (admin : bool) (next : handler A) r c token p :
  method r ≠ "OPTIONS" → streqb (pattern r) "" = false → rules !! pattern r = Some rule →
  Access rule = (if admin then AccessAdminOnly else AccessAuthenticated) →
  parseBearerToken (authorization r) = Ok token → Verify token = Ok p → (admin = true → pRole p = RoleAdmin) →
  Authenticate Verify (Authorize rules next) r c =
  next (mkHreq (method r) (pattern r) (authorization r) (Some p)) c.
Proof.
  intros Hm%streqb_neq Hp Hr Ha Ht Hv Hrole. unfold Authenticate, Authorize.
  rewrite Hm Ht Hv. cbn [method pattern principal]. rewrite Hp Hr Ha.
  destruct admin; [|done]. by rewrite (Hrole eq_refl).
Qed.

(** (C32) Every operation is reachable by the callers the access matrix names: with
    an accepted token, a free bulkhead slot and a granted reservation, the canonical
    request of any API operation, its identifier printed in decimal, runs exactly
    that operation - for an administrator where the matrix asks for one (the user
    collections, the job reads), and for any authenticated caller for the events of
    a job and for the card, the export and the profile of a user. *)
Theorem api_reachable op Verify authz token p s :
  (∀ n, op_id op = Some n → (1 <= n <= int_max)%Z) →
  parseBearerToken authz = Ok token → Verify token = Ok p →
  (op ∈ [UsersList; UsersCreate; UsersV2List; UsersV2Create] ∨ (∃ n, op = JobGetByID n ∨ op = JobGetByIDViaGRPC n) →
   pRole p = RoleAdmin) →
  (Bulkhead.sem (cs_bulkhead s) < Bulkhead.maxParallel (cs_bulkhead s))%Z →
  (ServeAPI true Verify policy_rules (RateLimit.Granted 0) (canonical op).1 (canonical op).2 authz s).2 =
  HandlerAnswer (Ok op).
Proof.
  intros Hid Ht Hv Hrole Hroom. unfold ServeAPI.
  assert (admin_only op = true → pRole p = RoleAdmin) as Hadm.
  { intros Ho. apply Hrole. rewrite !elem_of_cons. destruct op; try done; eauto 7. }
  assert (0 <= default 0 (op_id op) <= int_max)%Z as Hn.
  { destruct (op_id op) as [n|] eqn:E; simpl; [specialize (Hid n eq_refl)|unfold int_max]; lia. }
  destruct (Itoa_segment _ Hn) as (H1 & H2 & H3 & H4).
  change (canonical op).2 with (with_id op (Itoa (default 0%Z (op_id op)))).
  rewrite (canonical_handler op _ H1 H2 H3 H4). unfold wrap, Bulkhead.enter.
  rewrite (proj2 (Z.ltb_lt _ _) Hroom). destruct (op_rule op) as (rule & Hr & Ha & Hne).
  assert ((canonical op).1 ≠ "OPTIONS") as Hm by by destruct op.
  rewrite (caller_passes Verify policy_rules rule (admin_only op) _
    (mkHreq (canonical op).1 (pt_string (op_pattern op)) authz None) _ token p Hm Hne Hr Ha Ht Hv Hadm).
  rewrite (op_handler_runs op); [reflexivity| |reflexivity].
  intros n Hop. rewrite Hop. split; [reflexivity|by apply Hid].
Qed.

Lemma api_reachable_witness :
  (ServeAPI true (ex_verify (mkPrincipal 7 "user")) policy_rules (RateLimit.Granted 0)
    (canonical (JobEvents 42)).1 (canonical (JobEvents 42)).2 "Bearer good" ex_state).2 =
  HandlerAnswer (Ok (JobEvents 42)) ∧
  (ServeAPI true (ex_verify (mkPrincipal 1 RoleAdmin)) policy_rules (RateLimit.Granted 0)
    (canonical UsersList).1 (canonical UsersList).2 "Bearer good" ex_state).2 =
  HandlerAnswer (Ok UsersList).
Proof.
  split.
  - apply (api_reachable (JobEvents 42) _ _ "good" (mkPrincipal 7 "user"));
      [intros n [= <-]; split; discriminate|reflexivity|reflexivity| |reflexivity].
    intros [Hin|(n & [[=]|[=]])]. rewrite !elem_of_cons elem_of_nil in Hin. destruct_or! Hin; done.
  - apply (api_reachable UsersList _ _ "good" (mkPrincipal 1 RoleAdmin)); [intros n [=]|reflexivity..].
Defined.
End API.

(** ** Health probes *)
Module Health.

(** A check: its name, the error its function returns, and what the probe's
    context says after it. *)
Record Check := mkCheck { ck_Name : string; ck_Fn : option string; ck_ctxErr : option string }.
Record Readiness := mkReadiness { ready : bool; checks : list Check }.

Definition NewReadiness (cs : list Check) : Readiness := mkReadiness false cs.
Definition SetReady (r : Readiness) : Readiness := mkReadiness true (checks r).
Definition SetNotReady (r : Readiness) : Readiness := mkReadiness false (checks r).
Definition IsReady (r : Readiness) : bool := ready r.

(** The documents: status line, "status" field, "details". *)
Record response := mkResponse { hr_code : Z; hr_status : string; hr_details : gmap string string }.

Definition LivenessHandler : response := mkResponse 200 "ok" ∅.

(** The loop: a failed check is noted by name; an expired context is noted and
    ends the loop. *)
Fixpoint run_checks (cs : list Check) (details : gmap string string) : gmap string string :=
  match cs with
  | [] => details
  | c :: cs =>
      let details := match ck_Fn c with Some e => <[ck_Name c := e]> details | None => details end in
      match ck_ctxErr c with
      | Some e => <["timeout" := e]> details
      | None => run_checks cs details
      end
  end.

Definition ReadinessHandler (rd : Readiness) : response :=
  if negb (IsReady rd) then mkResponse 503 "not_ready" {[ "lifecycle" := "not_ready" ]}
  else
    let details := run_checks (checks rd) ∅ in
    if bool_decide (details ≠ ∅) then mkResponse 503 "not_ready" details
    else mkResponse 200 "ok" ∅.

Lemma run_checks_empty cs details :
  run_checks cs details = ∅ ↔ details = ∅ ∧ Forall (λ c, ck_Fn c = None ∧ ck_ctxErr c = None) cs.
Proof.
  revert details. induction cs as [|c cs IH]; intros details; simpl.
  - split; [intros ->; split; [done|constructor]|by intros [? _]].
  - rewrite list.Forall_cons. destruct (ck_ctxErr c).
    + split; [|by intros (_ & [_ ?] & _)]. intros H%insert_non_empty. done.
    + rewrite IH. destruct (ck_Fn c); [|naive_solver].
      split; [intros [H%insert_non_empty _]; done|by intros (_ & [? _] & _)].
Qed.

Lemma readiness_ok_iff rd : hr_code (ReadinessHandler rd) = 200%Z ↔
  IsReady rd = true ∧ Forall (λ c, ck_Fn c = None ∧ ck_ctxErr c = None) (checks rd).
Proof.
  unfold ReadinessHandler. destruct (IsReady rd); simpl; [|naive_solver].
  case_bool_decide as Hd; simpl.
  - split; [done|]. intros [_ Hf]. destruct Hd. apply (proj2 (run_checks_empty _ _)). by split.
  - split; [|done]. intros _. split; [done|].
    apply (proj1 (run_checks_empty (checks rd) ∅)). by destruct (decide (run_checks (checks rd) ∅ = ∅)).
Qed.

Lemma ReadinessHandler_code rd :
  hr_code (ReadinessHandler rd) = 200%Z ∨ hr_code (ReadinessHandler rd) = 503%Z.
Proof. unfold ReadinessHandler. destruct (IsReady rd); simpl; [|by right]. case_bool_decide; auto. Qed.

(** The readiness probe tells the truth: it answers 200 exactly when the
    lifecycle flag is set, every check succeeds and the probe's deadline has not
    passed after any of them; otherwise it answers 503, and before the flag is
    set (or after it is cleared) whatever the checks would say. *)
Theorem readiness_truthful rd :
  (hr_code (ReadinessHandler rd) = 200%Z ∨ hr_code (ReadinessHandler rd) = 503%Z) ∧
  (hr_code (ReadinessHandler rd) = 200%Z ↔
   IsReady rd = true ∧ Forall (λ c, ck_Fn c = None ∧ ck_ctxErr c = None) (checks rd)) ∧
  (∀ cs, hr_code (ReadinessHandler (NewReadiness cs)) = 503%Z) ∧
  hr_code (ReadinessHandler (SetNotReady rd)) = 503%Z.
Proof.
  split_and!; [apply ReadinessHandler_code|apply readiness_ok_iff|done|done].
Qed.
End Health.

(** ** The root and debug routers *)
Module Root.
Import Mux Auth.

Inductive target : Type := ToApp | ToHealth | ToDebug.
Definition NewRoot (debug : bool) : list (Mux.pattern * target) :=
  [(pat None [Lit "livez"] false, ToHealth); (pat None [Lit "readyz"] false, ToHealth)] ++
  (if debug then [(pat None [Lit "debug"] true, ToDebug)] else []) ++
  [(pat None [] true, ToApp)].

Inductive probe : Type := Livez | Readyz.
Definition NewHealthRouter : list (Mux.pattern * probe) :=
  [(pat (Some "GET") [Lit "livez"] false, Livez); (pat (Some "GET") [Lit "readyz"] false, Readyz)].

Inductive debug_page : Type :=
| ExpVars | RuntimeInfo | PprofIndex | PprofCmdline | PprofProfile | PprofSymbol | PprofTrace.
Definition NewDebugRouter : list (Mux.pattern * debug_page) :=
  let d l := Lit "debug" :: l in
  [(pat (Some "GET") (d [Lit "vars"]) false, ExpVars);
   (pat (Some "GET") (d [Lit "runtime"]) false, RuntimeInfo);
   (pat (Some "GET") (d [Lit "pprof"; Lit "cmdline"]) false, PprofCmdline);
   (pat (Some "GET") (d [Lit "pprof"; Lit "profile"]) false, PprofProfile);
   (pat (Some "GET") (d [Lit "pprof"; Lit "symbol"]) false, PprofSymbol);
   (pat (Some "GET") (d [Lit "pprof"; Lit "trace"]) false, PprofTrace);
   (pat (Some "GET") (d [Lit "pprof"]) true, PprofIndex)].

(** The debug mux as an application handler: a page, or the mux's own answer. *)
Definition rawDebug (path : list string) : handler (option debug_page) := λ r c,
  match Mux.Handler NewDebugRouter (method r) path with
  | Handle _ page _ => (c, Ok (Some page))
  | Redirect _ | NoHandler => (c, Ok None)
  end.

Inductive root_answer : Type :=
| AppAnswer (a : API.answer)
| ProbeAnswer (p : option probe)
| DebugAnswer (out : res error (option debug_page))
| RootRedirect
| RootNotFound.

Definition ServeRoot (debug profile : bool) (Verify : string → res error Principal)
    (rules : gmap string RouteRule) (resv : RateLimit.reservation)
    (m : string) (path : list string) (authz : string) (s : API.chain_state)
    : API.chain_state * root_answer :=
  match Mux.Handler (NewRoot debug) m path with
  | NoHandler => (s, RootNotFound)
  | Redirect _ => (s, RootRedirect)
  | Handle p ToApp _ =>
      let '(s, a) := API.ServeAPI profile Verify rules resv m path authz s in (s, AppAnswer a)
  | Handle p ToHealth _ =>
      (s, ProbeAnswer (match Mux.Handler NewHealthRouter m path with
                       | Handle _ q _ => Some q
                       | _ => None
                       end))
  | Handle p ToDebug _ =>
      let '(c, out) := Authenticate Verify (Authorize rules (rawDebug path))
                         (mkHreq m (pt_string p) authz None) (API.cs_counters s) in
      (API.mkChain (API.cs_bulkhead s) (API.cs_limited s) c, DebugAnswer out)
  end.

Lemma debug_table_methods p page : (p, page) ∈ NewDebugRouter → pt_method p = Some "GET".
Proof.
  intros Hin. assert (Forall (λ e : Mux.pattern * debug_page, pt_method e.1 = Some "GET") NewDebugRouter)
    as Hf by (repeat constructor). rewrite list.Forall_forall in Hf. exact (Hf _ Hin).
Qed.

Lemma root_debug_pattern debug m path p b :
  Mux.Handler (NewRoot debug) m path = Handle p ToDebug b → debug = true ∧ pt_string p = "/debug/".
Proof.
  intros (Hin & _)%Handler_sound. unfold NewRoot in Hin. destruct debug; simpl in Hin;
    rewrite !elem_of_cons elem_of_nil in Hin; destruct_or! Hin; try done; by injection Hin as ->.
Qed.

(** Debug pages are for administrators: a page of the debug router
    (expvar, runtime, pprof) is served only when it is enabled and the request
    carries an accepted token with the admin role; a preflight request never
    gets one. *)
Theorem debug_mediated debug profile Verify resv m path authz s s' page :
  ServeRoot debug profile Verify API.policy_rules resv m path authz s = (s', DebugAnswer (Ok (Some page))) →
  debug = true ∧ m ≠ "OPTIONS" ∧
  ∃ token p, parseBearerToken authz = Ok token ∧ Verify token = Ok p ∧ pRole p = RoleAdmin.
Proof.
  unfold ServeRoot. destruct (Mux.Handler (NewRoot debug) m path) as [p t b|?|] eqn:Hr; [|done|done].
  destruct t; [by destruct (API.ServeAPI _ _ _ _ _ _ _ _)|done|].
  apply root_debug_pattern in Hr as [-> Hp]. rewrite Hp.
  destruct (Authenticate _ _ _ _) as [c out] eqn:Ha. intros Heq.
  assert (out = Ok (Some page)) as -> by congruence. clear Heq.
  assert (∀ r c c', rawDebug path r c = (c', Ok (Some page)) → method r = "GET" ∨ method r = "HEAD") as Hget.
  { intros r c0 c1. unfold rawDebug. destruct (Mux.Handler _ _ _) eqn:Hh; [|done|done].
    apply Handler_sound in Hh as (Hin & _ & Hm). apply debug_table_methods in Hin. rewrite Hin in Hm.
    intros _. destruct Hm as [?|[[= <-]|[? _]]]; auto. done. }
  apply API.auth_chain_Ok in Ha as [[Hmo Hn]|(r' & Hn & rule & token & pr & Hrule & Hm' & _ & Ht & Hv & _ & Hadm & _)];
    apply Hget in Hn.
  - rewrite Hmo in Hn. by destruct Hn.
  - split; [done|]. rewrite Hm' in Hn. cbn [method] in Hn. split; [by intros ->; destruct Hn|].
    exists token, pr. split_and!; [exact Ht|exact Hv|]. apply Hadm.
    vm_compute in Hrule. injection Hrule as <-. reflexivity.
Qed.

Lemma debug_mediated_witness :
  ∃ s', ServeRoot true true (API.ex_verify (mkPrincipal 1 RoleAdmin)) API.policy_rules
    (RateLimit.Granted 0) "GET" ["debug"; "pprof"; "heap"] "Bearer good" API.ex_state =
    (s', DebugAnswer (Ok (Some PprofIndex))) ∧
  ∃ token p, parseBearerToken "Bearer good" = Ok token ∧
    API.ex_verify (mkPrincipal 1 RoleAdmin) token = Ok p ∧ pRole p = RoleAdmin.
Proof.
  assert (ServeRoot true true (API.ex_verify (mkPrincipal 1 RoleAdmin)) API.policy_rules
    (RateLimit.Granted 0) "GET" ["debug"; "pprof"; "heap"] "Bearer good" API.ex_state =
    (API.ex_state, DebugAnswer (Ok (Some PprofIndex)))) as E by (vm_compute; reflexivity).
  exists API.ex_state. split; [exact E|].
  exact (proj2 (proj2 (debug_mediated _ _ _ _ _ _ _ _ _ _ E))).
Defined.
End Root.
