(* ===== verification/Observability.v ===== *)
(** * Recovery, access log and metrics

    Models [internal/middleware] (status recorder, access log, panic recovery,
    metrics middleware), [internal/metrics] and
    [internal/outbound/profile_instrumentation.go].  A handler is what it does
    to the response writer, in order, and whether it returns or panics. *)
From Stdlib Require Import Ascii.
From S2P Require Import Prelude.
From S2P Require Import GoErrors.
From S2P Require Import GoStrings.
From S2P Require Import HttpErrors.
From S2P Require Import Services.
From S2P Require Import Outbound.

(** ** The connection's writer and the status recorder *)
Module Recorder.

(** [net/http]'s own writer: the final status once it is fixed, the body bytes
    accepted.  A 1xx status is sent as an interim answer and fixes nothing. *)
Record raw := mkRaw { rw_status : option Z; rw_bytes : Z }.
Definition fresh : raw := mkRaw None 0.

Definition raw_WriteHeader (code : Z) (w : raw) : raw :=
  match rw_status w with
  | Some _ => w
  | None => if ((100 <=? code) && (code <=? 199))%Z%bool then w else mkRaw (Some code) (rw_bytes w)
  end.
(** [n] is the number of bytes the connection takes. *)
Definition raw_Write (n : Z) (w : raw) : raw :=
  mkRaw (Some (default 200%Z (rw_status w))) (rw_bytes w + n).
Definition raw_Flush (w : raw) : raw := mkRaw (Some (default 200%Z (rw_status w))) (rw_bytes w).
(** The status the client sees once the handler has returned. *)
Definition client_status (w : raw) : Z := default 200%Z (rw_status w).

Record statusRecorder := mkRecorder {
  ResponseWriter : raw; status : Z; bytes : Z; wroteHeader : bool }.

Definition newStatusRecorder (w : raw) : statusRecorder := mkRecorder w 200 0 false.
Definition Status (sr : statusRecorder) : Z := status sr.
Definition Bytes (sr : statusRecorder) : Z := bytes sr.

Definition WriteHeader (code : Z) (w : statusRecorder) : statusRecorder :=
  if wroteHeader w then w
  else mkRecorder (raw_WriteHeader code (ResponseWriter w)) code (bytes w) true.

Definition Write (n : Z) (w : statusRecorder) : statusRecorder :=
  let w := if wroteHeader w then w else WriteHeader 200 w in
  mkRecorder (raw_Write n (ResponseWriter w)) (status w) (bytes w + n) (wroteHeader w).

(** What the wrapped writer can do. *)
Inductive flusher : Type := HasFlushError | HasFlush | NoFlush.

(** Whether flushing is supported. *)
Definition FlushError (f : flusher) (sr : statusRecorder) : statusRecorder * bool :=
  match f with
  | NoFlush => (sr, false)
  | HasFlushError | HasFlush =>
      let sr := if wroteHeader sr then sr else WriteHeader 200 sr in
      (mkRecorder (raw_Flush (ResponseWriter sr)) (status sr) (bytes sr) (wroteHeader sr), true)
  end.
Definition Flush (f : flusher) (sr : statusRecorder) : statusRecorder := (FlushError f sr).1.

Inductive wop : Type := OpWriteHeader (code : Z) | OpWrite (n : Z) | OpFlush.
Definition exec (f : flusher) (sr : statusRecorder) (o : wop) : statusRecorder :=
  match o with
  | OpWriteHeader code => WriteHeader code sr
  | OpWrite n => Write n sr
  | OpFlush => Flush f sr
  end.
Definition run (f : flusher) (sr : statusRecorder) (ops : list wop) : statusRecorder :=
  foldl (exec f) sr ops.

(** Only final statuses are written. *)
Definition final_ops (ops : list wop) : Prop :=
  Forall (λ o, match o with OpWriteHeader code => (200 <= code)%Z | _ => True end) ops.

(** The recorder knows what was sent. *)
Definition recorder_ok (sr : statusRecorder) : Prop :=
  rw_status (ResponseWriter sr) = (if wroteHeader sr then Some (status sr) else None) ∧
  (wroteHeader sr = false → status sr = 200%Z) ∧
  bytes sr = rw_bytes (ResponseWriter sr).

Lemma exec_ok f sr o :
  recorder_ok sr → match o with OpWriteHeader code => (200 <= code)%Z | _ => True end →
  recorder_ok (exec f sr o) ∧ (wroteHeader sr = true → wroteHeader (exec f sr o) = true ∧ status (exec f sr o) = status sr).
Proof.
  intros (Hs & H2 & Hb) Ho.
  assert (∀ code, (200 <= code)%Z → wroteHeader sr = false →
    raw_WriteHeader code (ResponseWriter sr) = mkRaw (Some code) (rw_bytes (ResponseWriter sr))) as Hw.
  { intros code Hc Hwh. unfold raw_WriteHeader. rewrite Hs Hwh.
    destruct (Z.leb_spec code 199); [lia|]. by rewrite andb_false_r. }
  destruct o as [code|n|]; simpl; unfold WriteHeader, Write, Flush, FlushError, recorder_ok.
  - destruct (wroteHeader sr) eqn:E; simpl; [by rewrite E|]. rewrite Hw //.
  - unfold WriteHeader. destruct (wroteHeader sr) eqn:E; simpl; rewrite ?E ?Hw //=.
    + rewrite Hs /=. split_and!; [done|done|by rewrite Hb|done].
    + rewrite Hb. done.
  - unfold WriteHeader. destruct f; simpl; [| |by rewrite Hs];
      (destruct (wroteHeader sr) eqn:E; simpl; rewrite ?E ?Hw //=; by rewrite Hs).
Qed.

Lemma run_ok f ops : ∀ sr, recorder_ok sr → final_ops ops →
  recorder_ok (run f sr ops) ∧
  (wroteHeader sr = true → wroteHeader (run f sr ops) = true ∧ status (run f sr ops) = status sr).
Proof.
  induction ops as [|o ops IH]; intros sr Hok Hf; [done|].
  apply list.Forall_cons in Hf as [Ho Hf]. destruct (exec_ok f sr o Hok Ho) as [Hok' Hst].
  destruct (IH _ Hok' Hf) as [? Hst']. split; [done|]. intros H1.
  destruct (Hst H1) as [H2 H3]. destruct (Hst' H2) as [? H4]. split; [done|]. by rewrite -H3 -H4.
Qed.

Lemma recorder_ok_status sr : recorder_ok sr → Status sr = client_status (ResponseWriter sr).
Proof.
  intros (Hs & H2 & _). unfold Status, client_status. rewrite Hs. destruct (wroteHeader sr); [done|].
  simpl. by apply H2.
Qed.

Lemma newStatusRecorder_ok : recorder_ok (newStatusRecorder fresh).
Proof. done. Qed.
End Recorder.

(** ** Counters *)
Module Metrics.

(** [expvar.Int] and [expvar.Map.Add]: 64-bit, wrapping. *)
Definition add (k : string) (n : Z) (m : gmap string Z) : gmap string Z :=
  <[k := wrap64 (default 0%Z (m !! k) + n)]> m.
Definition get (m : gmap string Z) (k : string) : Z := default 0%Z (m !! k).

Record HTTPMetrics := mkHTTPMetrics {
  inFlight : Z;
  jobProcessingLatencyNsSum : Z;
  jobProcessingLatencyNsCount : Z;
  requestsTotal : gmap string Z;
  errorsTotal : gmap string Z;
  latencySumNS : gmap string Z;
  latencyCount : gmap string Z;
  jobsTotal : gmap string Z;
}.
Definition DefaultHTTP : HTTPMetrics := mkHTTPMetrics 0 0 0 ∅ ∅ ∅ ∅ ∅.

Definition with_jobs (m : HTTPMetrics) (k : string) : HTTPMetrics :=
  mkHTTPMetrics (inFlight m) (jobProcessingLatencyNsSum m) (jobProcessingLatencyNsCount m)
    (requestsTotal m) (errorsTotal m) (latencySumNS m) (latencyCount m) (add k 1 (jobsTotal m)).
Definition IncQueued (m : HTTPMetrics) : HTTPMetrics := with_jobs m "queued".
Definition IncRunning (m : HTTPMetrics) : HTTPMetrics := with_jobs m "running".
Definition IncSucceeded (m : HTTPMetrics) : HTTPMetrics := with_jobs m "succeeded".
Definition IncFailed (m : HTTPMetrics) : HTTPMetrics := with_jobs m "failed".
Definition ObserveProcessing (d : Z) (m : HTTPMetrics) : HTTPMetrics :=
  mkHTTPMetrics (inFlight m) (wrap64 (jobProcessingLatencyNsSum m + d))
    (wrap64 (jobProcessingLatencyNsCount m + 1))
    (requestsTotal m) (errorsTotal m) (latencySumNS m) (latencyCount m) (jobsTotal m).

Definition with_inFlight (n : Z) (m : HTTPMetrics) : HTTPMetrics :=
  mkHTTPMetrics (wrap64 (inFlight m + n)) (jobProcessingLatencyNsSum m) (jobProcessingLatencyNsCount m)
    (requestsTotal m) (errorsTotal m) (latencySumNS m) (latencyCount m) (jobsTotal m).
Definition IncInFlight : HTTPMetrics → HTTPMetrics := with_inFlight 1.
Definition DecInFlight : HTTPMetrics → HTTPMetrics := with_inFlight (-1).

Definition baseKey (method pattern : string) : string := method +:+ "|" +:+ pattern.
Definition reqKey (method pattern : string) (status : Z) : string :=
  method +:+ "|" +:+ pattern +:+ "|" +:+ Itoa status.

Definition Observe (method pattern : string) (status d : Z) (m : HTTPMetrics) : HTTPMetrics :=
  let pattern := if streqb pattern "" then "<unmatched>" else pattern in
  mkHTTPMetrics (inFlight m) (jobProcessingLatencyNsSum m) (jobProcessingLatencyNsCount m)
    (add (reqKey method pattern status) 1 (requestsTotal m))
    (if (500 <=? status)%Z then add (baseKey method pattern) 1 (errorsTotal m) else errorsTotal m)
    (add (baseKey method pattern) d (latencySumNS m))
    (add (baseKey method pattern) 1 (latencyCount m)) (jobsTotal m).

(** Outgoing requests. *)
Record OutboundMetrics := mkOutboundMetrics {
  o_requestsTotal : gmap string Z; o_latencySumNS : gmap string Z; o_latencyCount : gmap string Z;
  o_errorsTotal : gmap string Z }.
Definition DefaultOutbound : OutboundMetrics := mkOutboundMetrics ∅ ∅ ∅ ∅.

Definition statusClass (status : Z) : string :=
  if (status =? 0)%Z then "error"
  else if ((status <? 100) || (599 <? status))%Z%bool then "unknown"
  else Itoa (status ÷ 100) +:+ "xx".

Definition ObserveOutbound (host route : string) (status d : Z) (m : OutboundMetrics) : OutboundMetrics :=
  let host := if streqb host "" then "<unknown>" else host in
  let route := if streqb route "" then "<unknown>" else route in
  mkOutboundMetrics
    (add (host +:+ "|" +:+ route +:+ "|" +:+ statusClass status) 1 (o_requestsTotal m))
    (add (host +:+ "|" +:+ route) d (o_latencySumNS m))
    (add (host +:+ "|" +:+ route) 1 (o_latencyCount m)) (o_errorsTotal m).
Definition IncError (kind : string) (m : OutboundMetrics) : OutboundMetrics :=
  let kind := if streqb kind "" then "unknown" else kind in
  mkOutboundMetrics (o_requestsTotal m) (o_latencySumNS m) (o_latencyCount m) (add kind 1 (o_errorsTotal m)).

(** [InstrumentedProfileClient.FetchProfile]: the wrapped client's result, its
    duration, and the log entry (level, status, error kind). *)
Record outbound_entry := mkOutboundEntry { oe_level : Z; oe_status : Z; oe_kind : option string }.
Definition InstrumentedFetchProfile (host : string) (has_logger : bool) (next : res error Profile) (d : Z)
    (m : OutboundMetrics) : OutboundMetrics * list outbound_entry * res error Profile :=
  let err := match next with Ok _ => None | Err e => Some e end in
  let status := profileErrorStatus err in
  let m := match err with Some e => IncError (KindLabel e) m | None => m end in
  let m := ObserveOutbound host "GET /profiles/{user_id}" status d m in
  let log := if has_logger then
               match err with
               | Some e => [mkOutboundEntry 4 status (Some (KindLabel e))]
               | None => [mkOutboundEntry 0 status None]
               end
             else [] in
  (m, log, next).

Lemma add_get k n m k' : get (add k n m) k' = if decide (k = k') then wrap64 (get m k + n) else get m k'.
Proof. unfold get, add. rewrite lookup_insert. by destruct (decide (k = k')) as [->|]. Qed.
End Metrics.

(** ** Access log, recovery and metrics around the router *)
Module Chain.
Import Recorder Metrics.

Definition isHTTPMethod (m : string) : bool :=
  existsb (streqb m) ["CONNECT"; "DELETE"; "GET"; "HEAD"; "OPTIONS"; "PATCH"; "POST"; "PUT"; "TRACE"].

(** [strings.Cut] at the first space. *)
Definition Cut (s : string) (c : ascii) : option (string * string) :=
  let i := IndexByte s c in
  if (i <? 0)%Z then None else Some (slice_to s i, slice_from s (i + 1)).

Definition canonicalHTTPRoute (pattern : string) : string :=
  match Cut pattern " "%char with
  | Some (m, route) => if (isHTTPMethod m && negb (streqb route ""))%bool then route else pattern
  | None => pattern
  end.

Definition LevelDebug : Z := -4.
Definition LevelInfo : Z := 0.
Definition isNoisyAccessRoute (route : string) : bool :=
  (streqb route "/livez" || streqb route "/readyz" || HasPrefix route "/debug/" || HasSuffix route "/events")%bool.
Definition accessLogLevel (status : Z) (route : string) : Z :=
  if (400 <=? status)%Z then LevelInfo
  else if isNoisyAccessRoute route then LevelDebug else LevelInfo.

(** A handler on one request: its writes, then a return or a panic.  The
    pattern is the one the router has set on the request by then. *)
Record behaviour := mkBehaviour { bh_ops : list wop; bh_panics : bool }.
Record request := mkRequest {
  rq_method : string; rq_pattern : string; rq_path : string; rq_rid : string; rq_scheme : option string;
  rq_duration : Z }.

Record entry := mkEntry {
  en_level : Z; en_method : string; en_route : string; en_status : Z; en_bytes : Z; en_rid : string;
  en_scheme : string }.

(** The log records of the chain: an access entry, or the recovery's report. *)
Inductive record : Type := Access (e : entry) | PanicRecovered (rid : string).

(** The problem written after a panic: status line and document. *)
Definition problem_ops (n : Z) : list wop := [OpWriteHeader 500; OpWrite n].

(** [RecoverWithLogger]: [n] is the size of the problem document. *)
Definition Recover (f : flusher) (n : Z) (r : request) (b : behaviour) (sr : statusRecorder)
    : statusRecorder * list record :=
  let sr := Recorder.run f sr (bh_ops b) in
  if bh_panics b then (Recorder.run f sr (problem_ops n), [PanicRecovered (rq_rid r)]) else (sr, []).

(** [LoggerWithLogger], on the recorder the metrics middleware made. *)
Definition Logger (f : flusher) (n : Z) (r : request) (b : behaviour) (sr : statusRecorder)
    : statusRecorder * list record :=
  let '(sr, log) := Recover f n r b sr in
  let scheme := match rq_scheme r with
                | Some s => if streqb s "" then "-" else s
                | None => "-"
                end in
  let route := canonicalHTTPRoute (rq_pattern r) in
  let route := if streqb route "" then "unmatched" else route in
  (sr, log ++ [Access (mkEntry (accessLogLevel (Status sr) route) (rq_method r) route (Status sr) (Bytes sr)
                         (rq_rid r) scheme)]).

(** The pattern the metrics are keyed by, [None] for the routes left out. *)
Definition metrics_pattern (r : request) : option string :=
  let pattern := if streqb (rq_pattern r) "" then "<unmatched>" else rq_pattern r in
  if (HasPrefix (rq_path r) "/debug/" || streqb pattern "/api/v1/jobs/{id}/events")%bool then None
  else
    let i := IndexByte pattern " "%char in
    Some (if (i =? -1)%Z then pattern else slice_from pattern (i + 1)).

(** The [Metrics] middleware around the logger. *)
Definition Serve (f : flusher) (n : Z) (r : request) (b : behaviour) (w : raw) (m : HTTPMetrics)
    : raw * list record * HTTPMetrics :=
  let m := IncInFlight m in
  let sr := newStatusRecorder w in
  let '(sr, log) := Logger f n r b sr in
  let m := match metrics_pattern r with
           | None => m
           | Some pattern => Observe (rq_method r) pattern (Status sr) (rq_duration r) m
           end in
  (ResponseWriter sr, log, DecInFlight m).

Lemma inFlight_restored m : int64_ok (inFlight m) → int64_ok (inFlight m + 1) →
  wrap64 (wrap64 (inFlight m + 1) + -1) = inFlight m.
Proof. intros H1 H2. rewrite (wrap64_id _ H2) wrap64_id; [|lia]. by replace (_ + 1 + -1)%Z with (inFlight m) by lia. Qed.

Lemma Recover_ok f n r b sr sr' log :
  recorder_ok sr → final_ops (bh_ops b) → Recover f n r b sr = (sr', log) →
  recorder_ok sr' ∧ (bh_panics b = true → wroteHeader (Recorder.run f sr (bh_ops b)) = false → status sr' = 500%Z) ∧
  log = (if bh_panics b then [PanicRecovered (rq_rid r)] else []).
Proof.
  intros Hok Hf. unfold Recover. destruct (run_ok f _ _ Hok Hf) as [Hok' _].
  destruct (bh_panics b); intros [= <- <-]; [|done].
  assert (final_ops (problem_ops n)) as Hp by (repeat constructor; lia).
  destruct (run_ok f _ _ Hok' Hp) as [? _]. split_and!; [done| |done].
  intros _ Hw. unfold problem_ops. simpl. unfold WriteHeader, Write. by rewrite Hw.
Qed.

Lemma Serve_facts f n r b m w log m' :
  final_ops (bh_ops b) → int64_ok (inFlight m) → int64_ok (inFlight m + 1) →
  Serve f n r b fresh m = (w, log, m') →
  (∃ pre e, log = pre ++ [Access e] ∧ pre = (if bh_panics b then [PanicRecovered (rq_rid r)] else []) ∧
     en_status e = client_status w ∧ en_bytes e = rw_bytes w ∧ en_rid e = rq_rid r) ∧
  (bh_panics b = true → (bh_ops b = [] → client_status w = 500%Z)) ∧
  inFlight m' = inFlight m ∧
  match metrics_pattern r with
  | None => requestsTotal m' = requestsTotal m ∧ errorsTotal m' = errorsTotal m
  | Some p =>
      let p := if streqb p "" then "<unmatched>" else p in
      requestsTotal m' = add (reqKey (rq_method r) p (client_status w)) 1 (requestsTotal m) ∧
      errorsTotal m' = (if (500 <=? client_status w)%Z
                        then add (baseKey (rq_method r) p) 1 (errorsTotal m) else errorsTotal m)
  end.
Proof.
  intros Hf H1 H2. unfold Serve, Logger.
  destruct (Recover f n r b (newStatusRecorder fresh)) as [sr lg] eqn:Hr.
  destruct (Recover_ok _ _ _ _ _ _ _ newStatusRecorder_ok Hf Hr) as (Hok & H500 & Hlg).
  pose proof (recorder_ok_status _ Hok) as Hst. cbv zeta. intros [= <- <- <-]. split_and!.
  - eexists lg, _. split; [done|]. simpl. rewrite Hst. split_and!; [done|done| |done].
    apply (proj2 (proj2 Hok)).
  - intros Hp He. rewrite -Hst. apply H500; [done|]. by rewrite He.
  - destruct (metrics_pattern r); apply inFlight_restored; done.
  - destruct (metrics_pattern r); [|done]. simpl. by rewrite Hst.
Qed.

(** The access log and the metrics tell what the client got: for every
    request, whether its handler returns or panics, there is exactly one access
    entry, its status and size are those that went out, and a panic before the
    first write is answered with 500; the request is counted once under that
    status (debug pages and event streams are left out), as an error exactly
    from 500 on, and the in-flight gauge is back where it was. *)
Theorem access_log_truthful f n r b m w log m' :
  final_ops (bh_ops b) → int64_ok (inFlight m) → int64_ok (inFlight m + 1) →
  Serve f n r b fresh m = (w, log, m') →
  (∃ pre e, log = pre ++ [Access e] ∧ pre = (if bh_panics b then [PanicRecovered (rq_rid r)] else []) ∧
     en_status e = client_status w ∧ en_bytes e = rw_bytes w ∧ en_rid e = rq_rid r) ∧
  (bh_panics b = true → (bh_ops b = [] → client_status w = 500%Z)) ∧
  inFlight m' = inFlight m ∧
  match metrics_pattern r with
  | None => requestsTotal m' = requestsTotal m ∧ errorsTotal m' = errorsTotal m
  | Some p =>
      let p := if streqb p "" then "<unmatched>" else p in
      requestsTotal m' = add (reqKey (rq_method r) p (client_status w)) 1 (requestsTotal m) ∧
      errorsTotal m' = (if (500 <=? client_status w)%Z
                        then add (baseKey (rq_method r) p) 1 (errorsTotal m) else errorsTotal m)
  end.
Proof. apply Serve_facts. Qed.

Lemma access_log_truthful_witness :
  let r := mkRequest "GET" "GET /api/v1/users" "/api/v1/users" "rid-1" (Some "https") 1000 in
  let b := mkBehaviour [] true in
  ∃ w log m', Serve HasFlush 80 r b fresh DefaultHTTP = (w, log, m') ∧ client_status w = 500%Z ∧
    inFlight m' = 0%Z ∧
    errorsTotal m' = add (baseKey "GET" "/api/v1/users") 1 (errorsTotal DefaultHTTP).
Proof.
  intros r b.
  destruct (Serve HasFlush 80 r b fresh DefaultHTTP) as [[w log] m'] eqn:E.
  exists w, log, m'. split; [reflexivity|].
  destruct (access_log_truthful HasFlush 80 r b DefaultHTTP w log m') as (_ & H2 & H3 & H4);
    [constructor|split; vm_compute; discriminate|split; vm_compute; discriminate|exact E|].
  specialize (H2 eq_refl eq_refl). split; [exact H2|]. split; [exact H3|].
  change (metrics_pattern r) with (Some "/api/v1/users") in H4. cbv zeta beta iota in H4.
  rewrite H2 in H4. exact (proj2 H4).
Defined.
End Chain.
