(* ===== verification/GrpcTransport.v ===== *)
(** * gRPC transport: request ids, credentials, client and server construction

    Models [internal/requestid] (fresh ids), [internal/interceptors] (request id
    propagation), [internal/transport/grpcclient] and the construction of the
    server in [internal/transport/grpcserver].  Files, certificates, listening
    and dialling are the environment. *)
From Stdlib Require Import Ascii.
From S2P Require Import Prelude.
From S2P Require Import GoErrors.
From S2P Require Import GoStrings.
From S2P Require Import HttpErrors.
From S2P Require Import Security.
From S2P Require Import Middleware.
From S2P Require Import Config.
From S2P Require Import GrpcServer.

(** ** Fresh request ids *)
Module RequestIDs.
Import RequestID.

(** [strconv.FormatInt(n, 36)]; thirteen digits are enough for 64 bits. *)
Definition digit36 (d : Z) : ascii := if (d <? 10)%Z then chr (Z.to_N d + 48) else chr (Z.to_N d + 87).
Fixpoint digits36 (fuel : nat) (n : Z) (acc : bytes) : bytes :=
  match fuel with
  | O => acc
  | S fuel =>
      let acc := digit36 (n mod 36) :: acc in
      if (n <? 36)%Z then acc else digits36 fuel (n / 36) acc
  end.
Definition FormatInt36 (n : Z) : bytes :=
  if (n <? 0)%Z then "-"%char :: digits36 13 (- n) [] else digits36 13 n [].

(** [now] is the clock in nanoseconds, [seq] the process-wide counter. *)
Definition NewRequestID (now : Z) (seq : Z) : Z * string :=
  let n := wrapu64 (seq + 1) in
  (n, of_bytes (lower_bytes (FormatInt36 now) ++ "-"%char :: FormatInt36 (wrap64 n))).

Definition value36 (c : ascii) : option Z :=
  let n := Z.of_N (code c) in
  if ((48 <=? n) && (n <=? 57))%Z%bool then Some (n - 48)%Z
  else if ((97 <=? n) && (n <=? 122))%Z%bool then Some (n - 87)%Z
  else None.
Fixpoint parse36 (b : bytes) (acc : Z) : option Z :=
  match b with
  | [] => Some acc
  | c :: b => match value36 c with Some d => parse36 b (36 * acc + d)%Z | None => None end
  end.

Lemma value36_digit36 d : (0 <= d < 36)%Z → value36 (digit36 d) = Some d.
Proof.
  intros Hd. assert (∃ k, d = Z.of_nat k ∧ k < 36) as (k & -> & Hk) by (exists (Z.to_nat d); lia).
  do 36 (destruct k as [|k]; [reflexivity|]). lia.
Qed.

Lemma digits36_spec fuel : ∀ n acc,
  (0 <= n < 36 ^ Z.of_nat fuel)%Z → fuel ≠ 0 → Forall (λ c, is_Some (value36 c)) acc →
  Forall (λ c, is_Some (value36 c)) (digits36 fuel n acc) ∧
  length (digits36 fuel n acc) <= fuel + length acc ∧
  parse36 (digits36 fuel n acc) 0 = parse36 acc n.
Proof.
  induction fuel as [|fuel IH]; intros n acc Hn Hf Hacc; [done|].
  pose proof (Z.mod_pos_bound n 36 ltac:(lia)) as Hmod. cbn [digits36].
  assert (Forall (λ c, is_Some (value36 c)) (digit36 (n mod 36) :: acc)) as Hacc'.
  { apply list.Forall_cons. split; [by rewrite value36_digit36|done]. }
  destruct (Z.ltb_spec n 36).
  - split_and!; [done|simpl; lia|]. cbn [parse36]. rewrite value36_digit36 // Z.mod_small; [lia|]. f_equal.
  - rewrite Nat2Z.inj_succ Z.pow_succ_r in Hn; [lia|].
    destruct (IH (n / 36)%Z (digit36 (n mod 36) :: acc)) as (? & ? & Hk); try done.
    { split; [apply Z.div_pos; lia|]. apply Z.div_lt_upper_bound; lia. }
    { intros ->. simpl in Hn. lia. }
    split_and!; [done|simpl in *; lia|]. rewrite Hk. cbn [parse36]. rewrite value36_digit36 //. f_equal.
    pose proof (Z.div_mod n 36 ltac:(lia)). lia.
Qed.

Lemma FormatInt36_nonneg n : (0 <= n <= int_max)%Z →
  Forall (λ c, is_Some (value36 c)) (FormatInt36 n) ∧ length (FormatInt36 n) <= 13 ∧
  parse36 (FormatInt36 n) 0 = Some n.
Proof.
  unfold int_max, FormatInt36. intros Hn. destruct (Z.ltb_spec n 0); [lia|].
  destruct (digits36_spec 13 n []) as (? & Hl & ?); [simpl; lia|done|constructor|]. simpl in *.
  split_and!; [done|lia|done].
Qed.

Lemma value36_range c : is_Some (value36 c) → (48 <= code c <= 122)%N ∧ lower c = c ∧ c ≠ "-"%char.
Proof.
  unfold value36. intros [d Hd].
  assert (48 <= code c <= 57 ∨ 97 <= code c <= 122)%N as Hr.
  { destruct (Z.leb_spec 48 (Z.of_N (code c))), (Z.leb_spec (Z.of_N (code c)) 57); simpl in Hd; try lia;
      destruct (Z.leb_spec 97 (Z.of_N (code c))), (Z.leb_spec (Z.of_N (code c)) 122); simpl in Hd; try done; lia. }
  split_and!.
  - lia.
  - lia.
  - unfold lower, is_upper. destruct (N.leb_spec 65 (code c)), (N.leb_spec (code c) 90); simpl; done || lia.
  - intros ->. unfold code in Hr. simpl in Hr. lia.
Qed.

Lemma lower_bytes_36 b : Forall (λ c, is_Some (value36 c)) b → lower_bytes b = b.
Proof.
  intros Hb. induction b as [|x b IH]; [done|]. apply list.Forall_cons in Hb as [Hx Hb].
  destruct (value36_range x Hx) as (Hr & Hl & _). specialize (IH Hb).
  assert (ceqb x (chr 226) = false ∧ ceqb x (chr 196) = false) as [H1 H2].
  { split; apply ceqb_neq; intros ->; unfold code, chr in Hr; rewrite N_ascii_embedding in Hr; lia. }
  cbn [lower_bytes]. rewrite H1 H2 /= Hl. destruct b as [|y [|z b]]; [done| |]; by rewrite IH.
Qed.

(** The id of a request made at a time after 1970, among the first 2^63. *)
Lemma NewRequestID_bytes now seq : (0 <= now <= int_max)%Z → (0 <= seq < int_max)%Z →
  to_bytes (NewRequestID now seq).2 = FormatInt36 now ++ "-"%char :: FormatInt36 (seq + 1).
Proof.
  intros Hnow Hseq. unfold NewRequestID. simpl. rewrite to_of_bytes lower_bytes_36.
  - by apply FormatInt36_nonneg.
  - unfold int_max in *. rewrite wrapu64_id; [lia|]. rewrite wrap64_id //. unfold int64_ok, int_min, int_max. lia.
Qed.

(** Printable text of an acceptable length is its own sanitised form. *)
Lemma visible_id_accepted id :
  Forall visible (to_bytes id) → id ≠ EmptyString → (Z.of_nat (String.length id) <= 128)%Z →
  sanitizeRequestID id = Some id.
Proof.
  intros Hr Hne Hlen. unfold sanitizeRequestID.
  assert (TrimSpace id = id) as ->.
  { unfold TrimSpace. rewrite trim_bytes_trimmed; [by apply visible_trimmed|apply of_to_bytes]. }
  rewrite (proj2 (streqb_neq id "") Hne).
  destruct (Z.ltb_spec 128 (Z.of_nat (String.length id))); [lia|].
  cbn [orb]. destruct (existsb _ _) eqn:Hx; [|done].
  apply existsb_exists in Hx as (c & Hc%list_elem_of_In & Hvis).
  rewrite list.Forall_forall in Hr. specialize (Hr c Hc). unfold visible in Hr.
  apply orb_true_iff in Hvis as [?%N.ltb_lt|?%N.ltb_lt]; lia.
Qed.

(** Sanitising is idempotent. *)
Lemma sanitizeRequestID_idem hdr rid : sanitizeRequestID hdr = Some rid → sanitizeRequestID rid = Some rid.
Proof.
  intros H. destruct (sanitized_request_id _ _ H) as [Hlen Hv]. apply visible_id_accepted.
  - eapply List.Forall_impl; [|exact Hv]. simpl. intros c Hc. unfold visible. lia.
  - intros ->. simpl in Hlen. lia.
  - lia.
Qed.

(** Fresh request ids are valid and never repeat: an id made from the clock
    and the counter passes the sanitiser unchanged, so it is echoed and
    propagated as it is, and two ids made at different counter values differ,
    whatever the clock says. *)
Theorem NewRequestID_valid now seq now' seq' :
  (0 <= now <= int_max)%Z → (0 <= seq < int_max)%Z → (0 <= now' <= int_max)%Z → (0 <= seq' < int_max)%Z →
  sanitizeRequestID (NewRequestID now seq).2 = Some (NewRequestID now seq).2 ∧
  ((NewRequestID now seq).2 = (NewRequestID now' seq').2 → now = now' ∧ seq = seq').
Proof.
  intros Hn Hs Hn' Hs'.
  destruct (FormatInt36_nonneg now) as (Hd & Hl & Hv); [lia|].
  destruct (FormatInt36_nonneg (seq + 1)) as (Hd1 & Hl1 & Hv1); [lia|]. split.
  - pose proof (NewRequestID_bytes now seq Hn Hs) as Hb. set (id := (NewRequestID now seq).2) in *.
    assert (Forall visible (to_bytes id)) as Hr.
    { rewrite Hb. apply list.Forall_app. split; [|apply list.Forall_cons; split; [by vm_compute|]];
        (eapply List.Forall_impl; [|eassumption]; intros c [? _]%value36_range; unfold visible; lia). }
    apply visible_id_accepted; [exact Hr| |].
    + intros E. rewrite E in Hb. by destruct (FormatInt36 now).
    + rewrite -length_to_bytes Hb length_app /=. lia.
  - intros E. apply (f_equal to_bytes) in E. rewrite !NewRequestID_bytes // in E.
    destruct (FormatInt36_nonneg now') as (Hd' & _ & Hv'); [lia|].
    destruct (FormatInt36_nonneg (seq' + 1)) as (_ & _ & Hv1'); [lia|].
    assert (∀ b, Forall (λ c, is_Some (value36 c)) b → "-"%char ∉ b) as Hno.
    { intros b Hb Hin. rewrite list.Forall_forall in Hb. by apply (value36_range _ (Hb _ Hin)). }
    apply app_sep_inj in E as [E1 E2]; [|by apply Hno|by apply Hno].
    rewrite E1 Hv' in Hv. rewrite E2 Hv1' in Hv1. injection Hv. injection Hv1. lia.
Qed.

Lemma NewRequestID_valid_witness :
  (NewRequestID 1700000000000000000 41).2 = "cwyvpelgpse8-16" ∧
  sanitizeRequestID (NewRequestID 1700000000000000000 41).2 = Some (NewRequestID 1700000000000000000 41).2.
Proof.
  split; [vm_compute; reflexivity|].
  apply (NewRequestID_valid 1700000000000000000 41 0 0); split; vm_compute; congruence.
Defined.
End RequestIDs.

(** ** Request ids over gRPC *)
Module Interceptors.
Import RequestID RequestIDs.

(** Metadata: lower-case keys to value lists. *)
Definition MD := gmap string (list string).
Definition requestIDMetadataKey : string := "request-id".
Definition md_get (md : MD) (k : string) : list string := default [] (md !! k).

(** The same test as for the HTTP header. *)
Definition sanitizeGRPCRequestID (s : string) : option string :=
  let s := TrimSpace s in
  if (streqb s "" || (128 <? Z.of_nat (String.length s))%Z)%bool then None
  else if existsb (λ b, ((code b <? 33)%N || (126 <? code b)%N)%bool) (to_bytes s) then None
  else Some s.

Definition requestIDFromMetadata (md : MD) : option string :=
  match md_get md requestIDMetadataKey with
  | [v] => sanitizeGRPCRequestID v
  | _ => None
  end.

(** The outgoing metadata of the context, [None] without any; [fresh] is the
    id [NewRequestID] would make. *)
Definition ensureOutgoingRequestID (fresh : string) (md : option MD) : MD :=
  match md with
  | None => {[ requestIDMetadataKey := [fresh] ]}
  | Some md =>
      match requestIDFromMetadata md with
      | Some _ => md
      | None => <[requestIDMetadataKey := [fresh]]> md
      end
  end.

(** The client interceptor: the metadata and the deadline of the call. *)
Definition UnaryClientRequestIDAndTimeout (fresh : string) (timeout : Z) (md : option MD) : MD * option Z :=
  (ensureOutgoingRequestID fresh md, if (0 <? timeout)%Z then Some timeout else None).

(** The server interceptor: the id the handler sees, the header and trailer
    sent back, and the log entry (id, method, status code). *)
Record call_log := mkCallLog { cl_rid : string; cl_method : string; cl_code : Z }.
Definition status_code (err : option error) : Z :=
  match err with
  | None => 0
  | Some e => match errors_As as_status e with Some (c, _) => c | None => 2 end
  end%Z.
Definition UnaryRequestIDAndLogging {A} (fresh : string) (md : option MD) (fullMethod : string)
    (handler : string → res error A) : res error A * MD * MD * call_log :=
  let rid := match md with
             | Some md => match requestIDFromMetadata md with Some s => s | None => EmptyString end
             | None => EmptyString
             end in
  let rid := if streqb rid "" then fresh else rid in
  let resp := handler rid in
  let err := match resp with Ok _ => None | Err e => Some e end in
  (resp, {[ requestIDMetadataKey := [rid] ]}, {[ requestIDMetadataKey := [rid] ]},
   mkCallLog rid fullMethod (status_code err)).

Lemma sanitize_nonempty s rid : sanitizeRequestID s = Some rid → streqb rid "" = false.
Proof.
  unfold sanitizeRequestID. cbv zeta. destruct (streqb (TrimSpace s) "") eqn:E; [done|].
  destruct (_ <? _)%Z; [done|]. cbn [orb]. destruct (existsb _ _); [done|]. by intros [= <-].
Qed.

Lemma sanitize_grpc s : sanitizeGRPCRequestID s = sanitizeRequestID s.
Proof. reflexivity. Qed.

(** One id per call, end to end: whatever metadata the caller's context
    carries, the metadata the client interceptor sends has an id the server
    interceptor accepts, so the handler, the response header, the trailer and
    the log on the server all carry the id of the outgoing call; it is the
    caller's own id when that is a single acceptable value, and a fresh one
    otherwise. *)
Theorem request_id_end_to_end {A} md fresh fresh' timeout fullMethod (handler : string → res error A) :
  sanitizeRequestID fresh = Some fresh →
  let sent := (UnaryClientRequestIDAndTimeout fresh timeout md).1 in
  ∃ rid, requestIDFromMetadata sent = Some rid ∧
    UnaryRequestIDAndLogging fresh' (Some sent) fullMethod handler =
      (handler rid, {[ requestIDMetadataKey := [rid] ]}, {[ requestIDMetadataKey := [rid] ]},
       mkCallLog rid fullMethod (status_code (match handler rid with Ok _ => None | Err e => Some e end))) ∧
    rid = match md ≫= requestIDFromMetadata with Some own => own | None => fresh end.
Proof.
  intros Hf. cbn [UnaryClientRequestIDAndTimeout fst].
  assert (requestIDFromMetadata (ensureOutgoingRequestID fresh md) =
    Some match md ≫= requestIDFromMetadata with Some own => own | None => fresh end) as Hsent.
  { unfold ensureOutgoingRequestID. destruct md as [md|]; cbn [mbind option_bind].
    - destruct (requestIDFromMetadata md) as [own|] eqn:E; [exact E|].
      unfold requestIDFromMetadata, md_get. rewrite lookup_insert_eq /=. by rewrite sanitize_grpc Hf.
    - unfold requestIDFromMetadata, md_get. rewrite lookup_singleton_eq /=. by rewrite sanitize_grpc Hf. }
  set (rid := match md ≫= _ with Some own => own | None => fresh end) in *.
  exists rid. split_and!; [exact Hsent| |reflexivity]. unfold UnaryRequestIDAndLogging. rewrite Hsent.
  assert (streqb rid "" = false) as ->; [|reflexivity].
  unfold requestIDFromMetadata in Hsent. destruct (md_get _ _) as [|v [|]]; try done.
  by eapply (sanitize_nonempty v).
Qed.

Lemma request_id_end_to_end_witness :
  let md : MD := <[requestIDMetadataKey := [" rid-7 "]]> ∅ in
  let handler (rid : string) : res error string := Ok rid in
  ∃ rid, (UnaryRequestIDAndLogging "f2" (Some (UnaryClientRequestIDAndTimeout "f1" 5 (Some md)).1) "/Get" handler).1.1.1
    = Ok rid ∧ rid = "rid-7".
Proof.
  intros md handler.
  assert (sanitizeRequestID "f1" = Some "f1") as H by (vm_compute; reflexivity).
  destruct (request_id_end_to_end (Some md) "f1" "f2" 5 "/Get" handler H) as (rid & _ & H2 & H3).
  exists rid. split; [exact (f_equal (λ x, x.1.1.1) H2)|]. rewrite H3. vm_compute. reflexivity.
Defined.
End Interceptors.

(** ** Credentials and construction *)
Module Construct.
Section construct.
  Context `{GoParsers}.
  (** [tls.LoadX509KeyPair] (its error), [os.ReadFile] and whether the file has
      a certificate, [net.Listen] and [grpc.NewClient] (their errors). *)
  Context (LoadX509KeyPair : string → string → option error) (ReadFile : string → res error string)
    (AppendCertsFromPEM : string → bool) (Listen NewClient : string → option error).

(** What matters of the credentials. *)
Inductive creds : Type :=
| Insecure
| ServerTLS (minVersion : Z) (requireClientCert : bool)
| ClientTLS (minVersion : Z) (serverName : string).

Definition certPoolFromFile (name path : string) : option error :=
  match ReadFile path with
  | Err e => Some (EWrap ("read " +:+ name) e)
  | Ok pem => if AppendCertsFromPEM pem then None
              else Some (EText (name +:+ " does not contain a valid PEM certificate"))
  end.

Record ServerTLSConfig := mkServerTLS {
  s_Enable : bool; s_CertFile : string; s_KeyFile : string; s_ClientCAFile : string }.
Definition newServerTLSCredentials (cfg : ServerTLSConfig) : res error creds :=
  if streqb (TrimSpace (s_CertFile cfg)) "" then Err (EText "GRPC_TLS_CERT_FILE is required")
  else if streqb (TrimSpace (s_KeyFile cfg)) "" then Err (EText "GRPC_TLS_KEY_FILE is required")
  else if streqb (TrimSpace (s_ClientCAFile cfg)) "" then Err (EText "GRPC_TLS_CLIENT_CA_FILE is required")
  else
    match LoadX509KeyPair (s_CertFile cfg) (s_KeyFile cfg) with
    | Some e => Err (EWrap "load gRPC server certificate" e)
    | None =>
        match certPoolFromFile "GRPC_TLS_CLIENT_CA_FILE" (s_ClientCAFile cfg) with
        | Some e => Err e
        | None => Ok (ServerTLS VersionTLS12 true)
        end
    end.

(** The server's own loopback test. *)
Definition serverIsLoopbackListenAddr (addr : string) : bool :=
  match SplitHostPort addr with
  | None => false
  | Some (host, _) =>
      let host := TrimSpace host in
      if EqualFold host "localhost" then true
      else if streqb host "" then false
      else match ParseAddr host with Some ip => Addr_IsLoopback ip | None => false end
  end.

Record ServerConfig := mkServerConfig {
  sc_Addr : string; sc_ReflectionEnabled : bool; sc_Verifier : bool; sc_TLS : ServerTLSConfig }.
(** A runtime that has its listener: credentials and whether reflection is on. *)
Record built := mkBuilt { b_runtime : Runtime.Runtime; b_creds : creds; b_reflection : bool }.

Definition NewRuntimeWithConfig (cfg : ServerConfig) : res error built :=
  if streqb (TrimSpace (sc_Addr cfg)) "" then Err (EText "grpc addr is required")
  else if (sc_ReflectionEnabled cfg && negb (serverIsLoopbackListenAddr (sc_Addr cfg)))%bool
  then Err (EText "grpc reflection requires a loopback listener")
  else if negb (sc_Verifier cfg) then Err (EText "grpc auth: verifier is nil")
  else
    match (if s_Enable (sc_TLS cfg) then newServerTLSCredentials (sc_TLS cfg)
           else if negb (serverIsLoopbackListenAddr (sc_Addr cfg))
           then Err (EText "plaintext grpc requires a loopback listener")
           else Ok Insecure) with
    | Err e => Err e
    | Ok c =>
        match Listen (sc_Addr cfg) with
        | Some e => Err e
        | None => Ok (mkBuilt Runtime.NewRuntime c (sc_ReflectionEnabled cfg))
        end
    end.

(** *** The client *)
Record ClientTLSConfig := mkClientTLS {
  c_Enable : bool; c_CertFile : string; c_KeyFile : string; c_CAFile : string; c_ServerName : string }.
Definition newClientTLSCredentials (cfg : ClientTLSConfig) : res error creds :=
  if streqb (TrimSpace (c_CertFile cfg)) "" then Err (EText "GRPC_TLS_CLIENT_CERT_FILE is required")
  else if streqb (TrimSpace (c_KeyFile cfg)) "" then Err (EText "GRPC_TLS_CLIENT_KEY_FILE is required")
  else if streqb (TrimSpace (c_CAFile cfg)) "" then Err (EText "GRPC_TLS_SERVER_CA_FILE is required")
  else if streqb (TrimSpace (c_ServerName cfg)) "" then Err (EText "GRPC_TLS_SERVER_NAME is required")
  else
    match LoadX509KeyPair (c_CertFile cfg) (c_KeyFile cfg) with
    | Some e => Err (EWrap "load gRPC client certificate" e)
    | None =>
        match certPoolFromFile "GRPC_TLS_SERVER_CA_FILE" (c_CAFile cfg) with
        | Some e => Err e
        | None => Ok (ClientTLS VersionTLS12 (c_ServerName cfg))
        end
    end.

Definition loopbackTarget (addr : string) : res error string :=
  if HasPrefix addr ":" then Ok ("127.0.0.1" +:+ addr)
  else
    match SplitHostPort addr with
    | None => Err (EText "net.SplitHostPort")
    | Some (host, port) =>
        let host := if existsb (streqb host) [EmptyString; "0.0.0.0"; "::"] then "127.0.0.1" else host in
        Ok (JoinHostPort host port)
    end.

Definition isLoopbackTarget (target : string) : bool :=
  match SplitHostPort target with
  | None => false
  | Some (host, _) =>
      let host := TrimSpace host in
      if EqualFold host "localhost" then true
      else match ParseAddr host with Some ip => Addr_IsLoopback ip | None => false end
  end.

Definition DefaultCallTimeout : Z := 2 * second.
Record ClientConfig := mkClientConfig { cc_Addr : string; cc_CallTimeout : Z; cc_TLS : ClientTLSConfig }.
(** The connection: target, credentials, deadline of a call. *)
Record ClientConn := mkClientConn { cn_target : string; cn_creds : creds; cn_timeout : Z }.

Definition NewJobsClientWithConfig (cfg : ClientConfig) : res error ClientConn :=
  match loopbackTarget (cc_Addr cfg) with
  | Err e => Err e
  | Ok target =>
      match (if c_Enable (cc_TLS cfg) then newClientTLSCredentials (cc_TLS cfg)
             else if negb (isLoopbackTarget target)
             then Err (EText "plaintext grpc client requires a loopback target")
             else Ok Insecure) with
      | Err e => Err e
      | Ok c =>
          let callTimeout := if (cc_CallTimeout cfg =? 0)%Z then DefaultCallTimeout else cc_CallTimeout cfg in
          if (callTimeout <? 0)%Z then Err (EText "grpc client call timeout must be >= 0")
          else
            match NewClient target with
            | Some e => Err e
            | None => Ok (mkClientConn target c callTimeout)
            end
      end
  end.

End construct.

(** *** The loopback tests agree *)
Section loopback.
  Context `{GoParsers}.

Lemma loopback_agree addr : isLoopbackListenAddr addr = true → serverIsLoopbackListenAddr addr = true.
Proof.
  unfold isLoopbackListenAddr, splitListenAddr, serverIsLoopbackListenAddr.
  destruct (SplitHostPort addr) as [[host port]|]; [|done]. by destruct (streqb (TrimSpace port) "").
Qed.

Lemma colon_prefix_host addr host port :
  HasPrefix addr ":" = true → SplitHostPort addr = Some (host, port) → host = EmptyString.
Proof.
  unfold HasPrefix. destruct (strip_prefix _ _) as [r|] eqn:E; [|done]. intros _.
  apply strip_prefix_Some in E. change (to_bytes addr = ":"%char :: r) in E. unfold SplitHostPort.
  destruct (Z.ltb_spec (LastIndexByte addr ":"%char) 0) as [|Hi]; [done|].
  destruct (LastIndexByte_nonneg _ _ Hi) as (pre & post & E' & _ & ->).
  assert (HasPrefix addr "[" = false) as ->.
  { unfold HasPrefix. by rewrite E. }
  rewrite (proj2 (slice_at _ _ _ E')). destruct (0 <=? IndexByte (of_bytes pre) _)%Z eqn:Hc; [done|].
  apply IndexByte_absent in Hc. rewrite to_of_bytes in Hc.
  destruct pre as [|c pre]; [by repeat case_match; intros; simplify_eq|].
  rewrite E in E'. injection E' as <- _. destruct Hc. by left.
Qed.

(** A plaintext address that the configuration accepts is accepted by the
    server and the client. *)
Lemma plaintext_target addr a :
  ParseAddr "127.0.0.1" = Some a → Addr_IsLoopback a = true → isLoopbackListenAddr addr = true →
  ∃ target, loopbackTarget addr = Ok target ∧ isLoopbackTarget target = true.
Proof.
  intros Ha Hl Hlb. unfold isLoopbackListenAddr, splitListenAddr in Hlb.
  destruct (SplitHostPort addr) as [[host port]|] eqn:Hs; [|done].
  destruct (streqb (TrimSpace port) ""); [done|].
  assert (host ≠ EmptyString) as Hne by (intros ->; by vm_compute in Hlb).
  unfold loopbackTarget. destruct (HasPrefix addr ":") eqn:Hp.
  { by destruct Hne; eapply colon_prefix_host. }
  rewrite Hs. cbv zeta. eexists. split; [reflexivity|].
  pose proof (SplitHostPort_host_port _ _ _ Hs) as Hhp. unfold isLoopbackTarget.
  destruct (existsb _ _).
  - rewrite SplitHostPort_Join.
    + destruct Hhp as [H1 H2 H3]. split; [done| |]; rewrite elem_of_app; intros [Hin|Hin];
        [by vm_compute in Hin; set_solver|set_solver|by vm_compute in Hin; set_solver|set_solver].
    + change (TrimSpace "127.0.0.1") with "127.0.0.1". rewrite Ha Hl. by destruct (EqualFold _ _).
  - rewrite SplitHostPort_Join //. destruct (EqualFold (TrimSpace host) "localhost"); [done|].
    destruct (streqb (TrimSpace host) ""); [done|]. exact Hlb.
Qed.
End loopback.
End Construct.
