(* ===== verification/Telemetry.v ===== *)
(** * Telemetry runtime

    Models [internal/telemetry/runtime.go]: build information, the resource,
    the construction of the runtime with its fail-open fallback, the global
    error handler, flush and shutdown, and the rate-limited export-failure log.
    The OpenTelemetry SDK (exporters, providers, resource detection) is the
    environment. *)
From S2P Require Import Prelude.
From S2P Require Import GoErrors.
From S2P Require Import GoStrings.
From S2P Require Import HttpErrors.
From S2P Require Import Config.

Definition DefaultServiceName : string := "pet-study".
Definition DefaultServiceVersion : string := "dev".
Definition DefaultEnvironment : string := EnvironmentDevelopment.
Definition defaultDiagnosticsLogInterval : Z := minute.

Record BuildInfo := mkBuildInfo {
  ServiceName : string; ServiceVersion : string; ServiceInstanceID : string; bi_Environment : string }.

Definition defaultString (value fallback : string) : string :=
  let value := TrimSpace value in if streqb value "" then fallback else value.

(** [rand] is the hex text of sixteen random bytes, or an error. *)
Definition generateInstanceID (rand : res error string) : res error string :=
  match rand with
  | Err e => Err (EWrap "generate telemetry service.instance.id" e)
  | Ok hex => Ok hex
  end.

Definition normalizeBuildInfo (rand : res error string) (b : BuildInfo) : res error BuildInfo :=
  let name := defaultString (ServiceName b) DefaultServiceName in
  let version := defaultString (ServiceVersion b) DefaultServiceVersion in
  let env := defaultString (bi_Environment b) DefaultEnvironment in
  let iid := TrimSpace (ServiceInstanceID b) in
  if streqb iid "" then
    match generateInstanceID rand with
    | Err e => Err e
    | Ok generated => Ok (mkBuildInfo name version generated env)
    end
  else Ok (mkBuildInfo name version iid env).

(** ** Resource *)
Definition attrs := gmap string string.

(** What the SDK and the system answer when the runtime is built. *)
Record sdk_env := mkSdkEnv {
  se_rand : res error string;
  se_sdk : res error attrs;
  se_fromEnv : res error attrs;
  se_mergeSdk : option error;
  se_mergeEnv : option error;
  se_traceExporter : option error;
  se_metricExporter : option error;
}.

(** [resource.Merge a b]: the attributes of [b] win. *)
Definition merge (a b : attrs) : attrs := b ∪ a.

Definition newResource (e : sdk_env) (build : BuildInfo) (includeEnv : bool) : res error attrs :=
  match normalizeBuildInfo (se_rand e) build with
  | Err err => Err err
  | Ok n =>
      let base : attrs :=
        <["service.name" := ServiceName n]> (<["service.version" := ServiceVersion n]>
        (<["service.instance.id" := ServiceInstanceID n]>
        (<["deployment.environment.name" := bi_Environment n]> ∅))) in
      match se_sdk e with
      | Err err => Err (EWrap "create telemetry SDK resource" err)
      | Ok sdk =>
          match se_mergeSdk e with
          | Some err => Err (EWrap "merge telemetry SDK resource" err)
          | None =>
              let r := merge base sdk in
              if includeEnv then
                match se_fromEnv e with
                | Err err => Err (EWrap "create environment telemetry resource" err)
                | Ok envr =>
                    match se_mergeEnv e with
                    | Some err => Err (EWrap "merge environment telemetry resource" err)
                    | None => Ok (merge r envr)
                    end
                end
              else Ok r
          end
      end
  end.

(** ** Diagnostics *)
Record diagnostics := mkDiagnostics {
  startupFailures : Z; exportFailures : Z; suppressedExportLogs : Z; forceFlushes : Z; shutdowns : Z;
  lastStartupFailureKind : string; lastExportFailureKind : string }.
Definition newDiagnostics : diagnostics := mkDiagnostics 0 0 0 0 0 "" "".

Definition telemetryErrorKind (err : option error) : string :=
  match err with
  | None => "none"
  | Some e =>
      if errors_Is e ContextCanceled then "canceled"
      else if errors_Is e ContextDeadlineExceeded then "deadline_exceeded"
      else "telemetry"
  end.

Definition recordStartupFailure (err : error) (d : diagnostics) : diagnostics :=
  mkDiagnostics (wrapu64 (startupFailures d + 1)) (exportFailures d) (suppressedExportLogs d)
    (forceFlushes d) (shutdowns d) (telemetryErrorKind (Some err)) (lastExportFailureKind d).
Definition recordExportFailure (err : error) (d : diagnostics) : diagnostics * Z :=
  let n := wrapu64 (exportFailures d + 1) in
  (mkDiagnostics (startupFailures d) n (suppressedExportLogs d) (forceFlushes d) (shutdowns d)
     (lastStartupFailureKind d) (telemetryErrorKind (Some err)), n).
Definition recordSuppressedExportLog (d : diagnostics) : diagnostics :=
  mkDiagnostics (startupFailures d) (exportFailures d) (wrapu64 (suppressedExportLogs d + 1))
    (forceFlushes d) (shutdowns d) (lastStartupFailureKind d) (lastExportFailureKind d).
Definition recordForceFlush (d : diagnostics) : diagnostics :=
  mkDiagnostics (startupFailures d) (exportFailures d) (suppressedExportLogs d)
    (wrapu64 (forceFlushes d + 1)) (shutdowns d) (lastStartupFailureKind d) (lastExportFailureKind d).
Definition recordShutdown (d : diagnostics) : diagnostics :=
  mkDiagnostics (startupFailures d) (exportFailures d) (suppressedExportLogs d)
    (forceFlushes d) (wrapu64 (shutdowns d + 1)) (lastStartupFailureKind d) (lastExportFailureKind d).

(** ** The runtime *)

(** An error handler of the SDK: the default one, another component's, or the
    runtime's own. *)
Inductive handler_id : Type := OtherHandler (n : nat) | OwnHandler.
#[export] Instance handler_id_eq_dec : EqDecision handler_id.
Proof. solve_decision. Defined.

Record Runtime := mkRuntime {
  enabled : bool;
  resource : attrs;
  diag : diagnostics;
  logInterval : Z;
  globalsInstalled : bool;
  previousErrorHandler : handler_id;
  loggerSet : bool;
  shutdownDone : bool;
  shutdownErr : option error;
}.

(** Exporters that were created and shut down while building. *)
Inductive exporter_event : Type := TraceExporterCreated | MetricExporterCreated | TraceExporterShutdown.

Definition newRuntime (e : sdk_env) (cfg : TelemetryConfig) (build : BuildInfo) (fromEnv : bool) (interval : Z)
    : list exporter_event * res error Runtime :=
  match newResource e build fromEnv with
  | Err err => ([], Err err)
  | Ok r =>
      let interval := if (interval <=? 0)%Z then defaultDiagnosticsLogInterval else interval in
      let rt := mkRuntime (tel_Enabled cfg) r newDiagnostics interval false (OtherHandler 0) false false None in
      if tel_Enabled cfg then
        match se_traceExporter e with
        | Some err => ([], Err (EWrap "create OTLP trace exporter" err))
        | None =>
            match se_metricExporter e with
            | Some err => ([TraceExporterCreated; TraceExporterShutdown],
                           Err (EWrap "create OTLP metric exporter" err))
            | None => ([TraceExporterCreated; MetricExporterCreated], Ok rt)
            end
        end
      else ([], Ok rt)
  end.

Definition New (e : sdk_env) (cfg : TelemetryConfig) (build : BuildInfo) : list exporter_event * res error Runtime :=
  newRuntime e cfg build (tel_Enabled cfg) 0.

(** The runtime, and whether the fallback was reported. *)
Definition NewFailOpen (e e' : sdk_env) (cfg : TelemetryConfig) (build : BuildInfo)
    : list exporter_event * res error (Runtime * bool) :=
  match New e cfg build with
  | (ev, Ok rt) => (ev, Ok (rt, false))
  | (ev, Err err) =>
      if negb (tel_Enabled cfg) then (ev, Err err)
      else
        match New e' (mkTelemetryConfig false (tel_ShutdownTimeout cfg)) build with
        | (ev', Err err') => (ev ++ ev', match errors_Join [Some err; Some err'] with
                                         | Some j => Err j
                                         | None => Err err
                                         end)
        | (ev', Ok fb) =>
            (ev ++ ev',
             Ok (mkRuntime (enabled fb) (resource fb) (recordStartupFailure err (diag fb)) (logInterval fb)
                   (globalsInstalled fb) (previousErrorHandler fb) (loggerSet fb) (shutdownDone fb)
                   (shutdownErr fb), true))
        end
  end.

Definition Enabled (r : option Runtime) : bool := match r with Some r => enabled r | None => false end.

(** ** Globals, flush and shutdown: the SDK's global error handler is explicit *)
Definition installErrorHandler (g : handler_id) (r : Runtime) : handler_id * Runtime :=
  (OwnHandler,
   mkRuntime (enabled r) (resource r) (diag r) (logInterval r) true
     (if globalsInstalled r then previousErrorHandler r else g) true (shutdownDone r) (shutdownErr r)).
Definition InstallGlobalsWithLogger (g : handler_id) (r : option Runtime) : handler_id * option Runtime :=
  match r with
  | None => (g, None)
  | Some r => let '(g, r) := installErrorHandler g r in (g, Some r)
  end.

Definition restoreErrorHandler (g : handler_id) (r : Runtime) : handler_id * Runtime :=
  if globalsInstalled r
  then (previousErrorHandler r,
        mkRuntime (enabled r) (resource r) (diag r) (logInterval r) false (previousErrorHandler r)
          (loggerSet r) (shutdownDone r) (shutdownErr r))
  else (g, r).

(** What the providers answer: trace and meter flush, trace and meter shutdown. *)
Record stop_env := mkStopEnv {
  st_traceFlush : option error; st_meterFlush : option error;
  st_traceStop : option error; st_meterStop : option error }.

Definition with_diag (d : diagnostics) (r : Runtime) : Runtime :=
  mkRuntime (enabled r) (resource r) d (logInterval r) (globalsInstalled r) (previousErrorHandler r)
    (loggerSet r) (shutdownDone r) (shutdownErr r).

Definition ForceFlush (e : stop_env) (r : option Runtime) : option Runtime * option error :=
  match r with
  | None => (None, None)
  | Some r => (Some (with_diag (recordForceFlush (diag r)) r), errors_Join [st_traceFlush e; st_meterFlush e])
  end.

(** [Shutdown]: the first call does the work, later ones return its error. *)
Definition Shutdown (e : stop_env) (g : handler_id) (r : option Runtime)
    : handler_id * option Runtime * option error :=
  match r with
  | None => (g, None, None)
  | Some r =>
      if shutdownDone r then (g, Some r, shutdownErr r)
      else
        let flushErr := errors_Join [st_traceFlush e; st_meterFlush e] in
        let stopErr := errors_Join [st_traceStop e; st_meterStop e] in
        let r := with_diag (recordShutdown (recordForceFlush (diag r))) r in
        let '(g, r) := restoreErrorHandler g r in
        let err := errors_Join [flushErr; stopErr] in
        (g, Some (mkRuntime (enabled r) (resource r) (diag r) (logInterval r) (globalsInstalled r)
                    (previousErrorHandler r) (loggerSet r) true err), err)
  end.

(** ** Construction fails open *)
Definition leaked (ev : list exporter_event) : nat :=
  length (List.filter (λ x, match x with TraceExporterCreated => true | _ => false end) ev) -
  length (List.filter (λ x, match x with TraceExporterShutdown => true | _ => false end) ev).

Lemma New_disabled e cfg build : tel_Enabled cfg = false →
  (New e cfg build).1 = [] ∧
  match newResource e build false with
  | Err err => (New e cfg build).2 = Err err
  | Ok r => ∃ rt, (New e cfg build).2 = Ok rt ∧ enabled rt = false ∧ diag rt = newDiagnostics
  end.
Proof.
  intros Hd. unfold New, newRuntime. rewrite Hd. destruct (newResource e build false); [|done].
  split; [done|]. by eexists.
Qed.

(** Telemetry fails open: building it for the application fails only when
    the plain resource cannot be built, never because of an exporter or the
    environment's attributes; when the enabled runtime cannot be built the
    application gets a disabled one with the failure counted, and in every
    outcome without an enabled runtime no trace exporter is left running. *)
Theorem telemetry_fails_open e e' cfg build r :
  newResource e' build false = Ok r → (tel_Enabled cfg = false → e = e') →
  ∃ ev rt reported, NewFailOpen e e' cfg build = (ev, Ok (rt, reported)) ∧
    (reported = true ↔ is_ok (New e cfg build).2 = false) ∧
    (reported = true → enabled rt = false ∧ startupFailures (diag rt) = 1%Z) ∧
    (reported = false → enabled rt = tel_Enabled cfg) ∧
    (enabled rt = false → leaked ev = 0).
Proof.
  intros Hr Hdis. unfold NewFailOpen.
  destruct (New e cfg build) as [ev out] eqn:Hn.
  assert (∀ rt, out = Ok rt → enabled rt = tel_Enabled cfg ∧ (enabled rt = false → leaked ev = 0)) as Hok.
  { intros rt ->. unfold New, newRuntime in Hn. cbv zeta in Hn.
    destruct (newResource e build (tel_Enabled cfg)); [|done].
    destruct (tel_Enabled cfg) eqn:Hen; [|injection Hn as <- <-; by split].
    destruct (se_traceExporter e); [done|]. destruct (se_metricExporter e); [done|].
    injection Hn as <- <-. by split. }
  assert (∀ err, out = Err err → leaked ev = 0 ∧ (ev = [] ∨ ev = [TraceExporterCreated; TraceExporterShutdown]))
    as Herr.
  { intros err ->. unfold New, newRuntime in Hn. cbv zeta in Hn.
    destruct (newResource e build (tel_Enabled cfg)); [|injection Hn as <- <-; auto].
    destruct (tel_Enabled cfg); [|done]. destruct (se_traceExporter e); [injection Hn as <- <-; auto|].
    destruct (se_metricExporter e); [injection Hn as <- <-; auto|done]. }
  destruct out as [rt|err].
  { destruct (Hok rt eq_refl) as [H1 H2]. exists ev, rt, false. split_and!; auto; done. }
  destruct (Herr err eq_refl) as [_ Hev].
  destruct (tel_Enabled cfg) eqn:Hen; cbn [negb].
  - destruct (New_disabled e' (mkTelemetryConfig false (tel_ShutdownTimeout cfg)) build eq_refl) as [Hev' Hrt].
    rewrite Hr in Hrt. destruct Hrt as (rt & Hout & Hrt & Hd).
    destruct (New e' _ build) as [ev' out']. cbn [fst snd] in *. subst ev' out'.
    eexists _, _, true. split; [reflexivity|]. cbn [enabled diag startupFailures recordStartupFailure].
    rewrite Hd. split_and!; [done|by intros _; split|done|]. intros _. rewrite app_nil_r. by destruct Hev as [->| ->].
  - specialize (Hdis eq_refl). subst e'. destruct (New_disabled e cfg build Hen) as [_ Hd].
    rewrite Hr in Hd. destruct Hd as (rt & Hd & _). by rewrite Hn in Hd.
Qed.

Definition ex_sdk (metric : option error) : sdk_env :=
  mkSdkEnv (Ok "00ff") (Ok ∅) (Err (EText "bad OTEL_RESOURCE_ATTRIBUTES")) None None None metric.
Definition ex_build : BuildInfo := mkBuildInfo "" "v1" "" "production".

Lemma telemetry_fails_open_witness :
  ∃ ev rt reported,
    NewFailOpen (ex_sdk None) (ex_sdk None) (mkTelemetryConfig true second) ex_build = (ev, Ok (rt, reported)) ∧
    (reported = true → enabled rt = false ∧ startupFailures (diag rt) = 1%Z).
Proof.
  destruct (telemetry_fails_open (ex_sdk None) (ex_sdk None) (mkTelemetryConfig true second) ex_build
    (merge (<["service.name" := "pet-study"]> (<["service.version" := "v1"]>
      (<["service.instance.id" := "00ff"]> (<["deployment.environment.name" := "production"]> ∅)))) ∅))
    as (ev & rt & reported & H1 & _ & H2 & _).
  - vm_compute. reflexivity.
  - discriminate.
  - exists ev, rt, reported. split; [exact H1|exact H2].
Defined.

(** ** Shutdown *)
(** The calls before and after the first shutdown. *)
Definition installs (n : nat) (s : handler_id * Runtime) : handler_id * Runtime :=
  Nat.iter n (λ s, installErrorHandler s.1 s.2) s.

Lemma installs_spec n g r : globalsInstalled r = false → shutdownDone r = false →
  let '(g', r') := installs n (g, r) in
  shutdownDone r' = false ∧ diag r' = diag r ∧
  (if n is 0 then g' = g ∧ globalsInstalled r' = false
   else g' = OwnHandler ∧ globalsInstalled r' = true ∧ previousErrorHandler r' = g).
Proof.
  intros Hg Hs. unfold installs. induction n as [|n IH]; simpl; [done|].
  destruct (Nat.iter n _ (g, r)) as [g' r']. destruct IH as (H1 & H2 & H3). simpl.
  split_and!; [done|done|done|done|]. destruct n; [destruct H3 as [-> ->]; done|].
  destruct H3 as (_ & -> & ->). done.
Qed.

(** Shutdown runs once and puts the SDK's error handler back: after any
    number of global installations, the first shutdown flushes and stops both
    providers, restores the handler that was there before the first
    installation and returns the joined errors; every later call, whatever the
    providers would say then, changes nothing and returns the same error. *)
Theorem telemetry_shutdown_once n g r e e' g1 r1 g2 r2 err2 :
  globalsInstalled r = false → shutdownDone r = false → installs n (g, r) = (g1, r1) →
  Shutdown e g1 (Some r1) = (g2, r2, err2) →
  g2 = g ∧ err2 = errors_Join [errors_Join [st_traceFlush e; st_meterFlush e];
                               errors_Join [st_traceStop e; st_meterStop e]] ∧
  (∃ r', r2 = Some r' ∧ shutdowns (diag r') = wrapu64 (shutdowns (diag r) + 1) ∧
         forceFlushes (diag r') = wrapu64 (forceFlushes (diag r) + 1) ∧ globalsInstalled r' = false) ∧
  (∀ g', Shutdown e' g' r2 = (g', r2, err2)).
Proof.
  intros Hg Hs Hi. pose proof (installs_spec n g r Hg Hs) as Hsp. rewrite Hi in Hsp.
  destruct Hsp as (Hs1 & Hd1 & Hn). unfold Shutdown. rewrite Hs1. unfold restoreErrorHandler. simpl.
  destruct n as [|n].
  - destruct Hn as [-> Hgi]. rewrite Hgi. intros [= <- <- <-]. rewrite Hd1.
    split_and!; [done|done| |done]. by eexists.
  - destruct Hn as (-> & Hgi & Hp). rewrite Hgi. intros [= <- <- <-]. rewrite Hd1.
    split_and!; [done|done| |done]. by eexists.
Qed.

Definition ex_runtime : Runtime := mkRuntime true ∅ newDiagnostics minute false (OtherHandler 0) false false None.

Lemma telemetry_shutdown_once_witness :
  let e := mkStopEnv (Some (EText "flush")) None None (Some (EText "stop")) in
  let '(g1, r1) := installs 2 (OtherHandler 7, ex_runtime) in
  (Shutdown e g1 (Some r1)).1.1 = OtherHandler 7.
Proof.
  intros e. destruct (installs 2 (OtherHandler 7, ex_runtime)) as [g1 r1] eqn:Hi.
  destruct (Shutdown e g1 (Some r1)) as [[g2 r2] err2] eqn:Hs.
  exact (proj1 (telemetry_shutdown_once 2 (OtherHandler 7) ex_runtime e e g1 r1 g2 r2 err2
    eq_refl eq_refl Hi Hs)).
Defined.

(** ** Export failures: concurrent, rate-limited logging

    [otelErrorHandler.Handle] is called by the SDK's goroutines.  Each call
    counts the failure and reads the clock, then loads the time of the next
    allowed log line; too early, it counts a suppressed line; otherwise it
    competes for the line with a compare-and-swap, and the winner logs with the
    number of lines suppressed since the last one. *)
Module Handle.

Inductive pc : Type :=
| Recorded (now : Z) (total : Z)
| Loaded (now total next : Z)
| Suppressing
| CountingSuppressed
| Won (now total : Z)
| Logged
| Dropped.

(** A line: the caller's clock, "suppressed_logs" and "total_failures". *)
Record line := mkLine { ln_now : Z; ln_suppressed : Z; ln_total : Z }.

Record hstate := mkHstate {
  nextLogUnixNano : Z; pendingSuppressed : Z; h_diag : diagnostics; lines : list line; threads : list pc }.
Definition hinit : hstate := mkHstate 0 0 newDiagnostics [] [].

Section handle.
  Context (interval : Z).

(** One atomic action of some call. *)
Inductive hstep : hstate → hstate → Prop :=
| h_start n p d ls ts err now :
    hstep (mkHstate n p d ls ts)
      (mkHstate n p (recordExportFailure err d).1 ls (ts ++ [Recorded now (recordExportFailure err d).2]))
| h_load_early n p d ls ts1 ts2 now total :
    (now < n)%Z →
    hstep (mkHstate n p d ls (ts1 ++ Recorded now total :: ts2)) (mkHstate n p d ls (ts1 ++ Suppressing :: ts2))
| h_load n p d ls ts1 ts2 now total :
    (n <= now)%Z →
    hstep (mkHstate n p d ls (ts1 ++ Recorded now total :: ts2))
      (mkHstate n p d ls (ts1 ++ Loaded now total n :: ts2))
| h_suppress n p d ls ts1 ts2 :
    hstep (mkHstate n p d ls (ts1 ++ Suppressing :: ts2))
      (mkHstate n (wrapu64 (p + 1)) d ls (ts1 ++ CountingSuppressed :: ts2))
| h_count n p d ls ts1 ts2 :
    hstep (mkHstate n p d ls (ts1 ++ CountingSuppressed :: ts2))
      (mkHstate n p (recordSuppressedExportLog d) ls (ts1 ++ Dropped :: ts2))
| h_cas n p d ls ts1 ts2 now total :
    hstep (mkHstate n p d ls (ts1 ++ Loaded now total n :: ts2))
      (mkHstate (now + interval) p d ls (ts1 ++ Won now total :: ts2))
| h_cas_fail n p d ls ts1 ts2 now total next :
    next ≠ n →
    hstep (mkHstate n p d ls (ts1 ++ Loaded now total next :: ts2))
      (mkHstate n p d ls (ts1 ++ Recorded now total :: ts2))
| h_log n p d ls ts1 ts2 now total :
    hstep (mkHstate n p d ls (ts1 ++ Won now total :: ts2))
      (mkHstate n 0 d (mkLine now p total :: ls) (ts1 ++ Logged :: ts2)).

(** ** Invariant *)
Definition won (t : pc) : list Z := match t with Won now _ => [now] | _ => [] end.
Definition counted (t : pc) : Z := match t with CountingSuppressed | Dropped => 1 | _ => 0 end.
Definition dropped (t : pc) : Z := match t with Dropped => 1 | _ => 0 end.
Definition total_of (f : pc → Z) (ts : list pc) : Z := foldr (λ t acc, f t + acc)%Z 0%Z ts.
Definition reported (ls : list line) : Z := foldr (λ l acc, ln_suppressed l + acc)%Z 0%Z ls.

(** The times that won the competition: logged lines and winners about to log. *)
Definition wins (s : hstate) : list Z := map ln_now (lines s) ++ (threads s ≫= won).

Definition apart (a b : Z) : Prop := (a + interval <= b ∨ b + interval <= a)%Z.

Record hinv (s : hstate) : Prop := {
  hi_apart : ForallOrdPairs apart (wins s);
  hi_next : Forall (λ t, t + interval <= nextLogUnixNano s)%Z (wins s);
  hi_loaded : ∀ now total next, Loaded now total next ∈ threads s → (next <= now)%Z;
  hi_failures : exportFailures (h_diag s) = wrapu64 (Z.of_nat (length (threads s)));
  hi_suppressed : suppressedExportLogs (h_diag s) = wrapu64 (total_of dropped (threads s));
  hi_reported : wrapu64 (reported (lines s) + pendingSuppressed s) = wrapu64 (total_of counted (threads s));
}.

Lemma wrapu64_add a b : wrapu64 (wrapu64 a + b) = wrapu64 (a + b).
Proof. unfold wrapu64. by rewrite Zplus_mod_idemp_l. Qed.

Lemma wrapu64_cong a b c : wrapu64 a = wrapu64 b → wrapu64 (a + c) = wrapu64 (b + c).
Proof. intros E. by rewrite -(wrapu64_add a) E wrapu64_add. Qed.

Lemma total_of_app f a b : total_of f (a ++ b) = (total_of f a + total_of f b)%Z.
Proof. induction a as [|t a IH]; simpl; [done|]. rewrite IH. lia. Qed.

Lemma ForallOrdPairs_perm {A} (R : A → A → Prop) l l' :
  (∀ a b, R a b → R b a) → l ≡ₚ l' → ForallOrdPairs R l → ForallOrdPairs R l'.
Proof.
  intros Hs. induction 1 as [|x l l' Hp IH|x y l|l1 l2 l3 _ IH1 _ IH2]; intros Hl.
  - done.
  - inversion_clear Hl as [|? ? Hx Hl']. constructor; [by rewrite -Hp|by apply IH].
  - inversion_clear Hl as [|? ? Hx Hl']. inversion_clear Hl' as [|? ? Hy Hl].
    apply list.Forall_cons in Hx as [Hxy Hx].
    constructor; [apply list.Forall_cons; auto|]. by constructor.
  - auto.
Qed.

Lemma apart_sym a b : apart a b → apart b a.
Proof. unfold apart. lia. Qed.

(** The winners with one thread taken out. *)
Lemma wins_perm n p d ls ts1 t ts2 :
  wins (mkHstate n p d ls (ts1 ++ t :: ts2)) ≡ₚ won t ++ wins (mkHstate n p d ls (ts1 ++ ts2)).
Proof.
  unfold wins. simpl. rewrite !bind_app bind_cons app_assoc Permutation_app_swap_app. by rewrite -app_assoc.
Qed.

Lemma wins_replace n p d ls n' p' d' ts1 t t' ts2 :
  won t' = won t →
  wins (mkHstate n' p' d' ls (ts1 ++ t' :: ts2)) = wins (mkHstate n p d ls (ts1 ++ t :: ts2)).
Proof. intros E. unfold wins. simpl. by rewrite !bind_app !bind_cons E. Qed.

Lemma loaded_replace ts1 t t' ts2 :
  (∀ now total next, t' = Loaded now total next → (next <= now)%Z) →
  (∀ now total next, Loaded now total next ∈ ts1 ++ t :: ts2 → (next <= now)%Z) →
  ∀ now total next, Loaded now total next ∈ ts1 ++ t' :: ts2 → (next <= now)%Z.
Proof.
  intros Ht Hall now total next. rewrite elem_of_app elem_of_cons. intros [Hin|[Heq|Hin]].
  - apply (Hall now total). rewrite elem_of_app. by left.
  - by apply (Ht now total).
  - apply (Hall now total). rewrite elem_of_app elem_of_cons. by right; right.
Qed.

(** Replacing a thread by one that has won and counted as much. *)
Lemma swap_thread n p d ls ts1 t t' ts2 :
  won t' = won t → counted t' = counted t → dropped t' = dropped t →
  (∀ now total next, t' = Loaded now total next → (next <= now)%Z) →
  hinv (mkHstate n p d ls (ts1 ++ t :: ts2)) → hinv (mkHstate n p d ls (ts1 ++ t' :: ts2)).
Proof.
  intros Hw Hc Hd Hl [H1 H2 H3 H4 H5 H6]. split; simpl in *.
  - by rewrite (wins_replace n p d _ _ _ _ _ t).
  - by rewrite (wins_replace n p d _ _ _ _ _ t).
  - eapply loaded_replace; [|exact H3]. done.
  - rewrite H4 !length_app. done.
  - rewrite H5 !total_of_app /= Hd. done.
  - rewrite H6 !total_of_app /= Hc. done.
Qed.

(** The exchange that wins, and the line it writes. *)
Lemma hinv_win n p d ls ts1 ts2 now total : (0 <= interval)%Z →
  hinv (mkHstate n p d ls (ts1 ++ Loaded now total n :: ts2)) →
  hinv (mkHstate (now + interval) p d ls (ts1 ++ Won now total :: ts2)).
Proof.
  intros Hpos Hi.
  destruct Hi as [H1 H2 H3 H4 H5 H6]. simpl in *.
  assert (n <= now)%Z as Hnow by (apply (H3 now total); set_solver).
  assert (wins (mkHstate (now + interval) p d ls (ts1 ++ Won now total :: ts2)) ≡ₚ
    now :: wins (mkHstate n p d ls (ts1 ++ Loaded now total n :: ts2))) as Hp.
  { by rewrite !wins_perm. }
  split; simpl.
  - eapply ForallOrdPairs_perm; [apply apart_sym|symmetry; exact Hp|]. constructor; [|done].
    eapply List.Forall_impl; [|exact H2]. intros t Ht. simpl in Ht. unfold apart. lia.
  - rewrite Hp. constructor; [lia|]. eapply List.Forall_impl; [|exact H2]. simpl. intros t Ht. lia.
  - eapply loaded_replace; [|exact H3]. done.
  - by rewrite H4 !length_app.
  - by rewrite H5 !total_of_app.
  - by rewrite H6 !total_of_app.
Qed.

Lemma hinv_log n p d ls ts1 ts2 now total :
  hinv (mkHstate n p d ls (ts1 ++ Won now total :: ts2)) →
  hinv (mkHstate n 0 d (mkLine now p total :: ls) (ts1 ++ Logged :: ts2)).
Proof.
  intros Hi.
  destruct Hi as [H1 H2 H3 H4 H5 H6]. simpl in *.
  assert (wins (mkHstate n 0 d (mkLine now p total :: ls) (ts1 ++ Logged :: ts2)) ≡ₚ
    wins (mkHstate n p d ls (ts1 ++ Won now total :: ts2))) as Hp.
  { rewrite wins_perm [in X in _ ≡ₚ X]wins_perm. done. }
  split; simpl.
  - eapply ForallOrdPairs_perm; [apply apart_sym|symmetry; exact Hp|done].
  - by rewrite Hp.
  - eapply loaded_replace; [|exact H3]. done.
  - by rewrite H4 !length_app.
  - by rewrite H5 !total_of_app.
  - rewrite Z.add_0_r Z.add_comm H6 !total_of_app. done.
Qed.

Lemma hinv_step s s' : (0 <= interval)%Z → hinv s → hstep s s' → hinv s'.
Proof.
  intros Hpos Hi Hs. destruct Hs as [n p d ls ts err now|n p d ls ts1 ts2 now total Hn|n p d ls ts1 ts2 now total Hn|
    n p d ls ts1 ts2|n p d ls ts1 ts2|n p d ls ts1 ts2 now total|n p d ls ts1 ts2 now total next Hn|
    n p d ls ts1 ts2 now total].
  - destruct Hi as [H1 H2 H3 H4 H5 H6]. split; simpl in *.
    + by rewrite /wins /= bind_app app_nil_r.
    + by rewrite /wins /= bind_app app_nil_r.
    + intros now' total' next'. rewrite elem_of_app list_elem_of_singleton. intros [?|?]; [eauto|done].
    + rewrite H4 wrapu64_add length_app Nat2Z.inj_add. done.
    + by rewrite H5 total_of_app Z.add_0_r.
    + by rewrite H6 total_of_app Z.add_0_r.
  - by refine (swap_thread _ _ _ _ _ _ _ _ _ _ _ _ Hi).
  - refine (swap_thread _ _ _ _ _ _ _ _ _ _ _ _ Hi); [done..|]. by intros ??? [= <- _ <-].
  - destruct Hi as [H1 H2 H3 H4 H5 H6]. split; simpl in *.
    + by rewrite (wins_replace n p d _ _ _ _ _ Suppressing).
    + by rewrite (wins_replace n p d _ _ _ _ _ Suppressing).
    + eapply loaded_replace; [|exact H3]. done.
    + by rewrite H4 !length_app.
    + by rewrite H5 !total_of_app.
    + rewrite Z.add_comm wrapu64_add (_ : p + 1 + reported ls = reported ls + p + 1)%Z; [lia|].
      rewrite (wrapu64_cong _ _ 1 H6) !total_of_app /=. f_equal. lia.
  - destruct Hi as [H1 H2 H3 H4 H5 H6]. split; simpl in *.
    + by rewrite (wins_replace n p d _ _ _ _ _ CountingSuppressed).
    + by rewrite (wins_replace n p d _ _ _ _ _ CountingSuppressed).
    + eapply loaded_replace; [|exact H3]. done.
    + by rewrite H4 !length_app.
    + rewrite H5 wrapu64_add !total_of_app /=. f_equal. lia.
    + by rewrite H6 !total_of_app.
  - by apply (hinv_win n).
  - by refine (swap_thread _ _ _ _ _ _ _ _ _ _ _ _ Hi).
  - by eapply hinv_log.
Qed.

Lemma hinv_reachable s : (0 <= interval)%Z → rtc hstep hinit s → hinv s.
Proof.
  intros Hpos Hr. assert (hinv hinit) as Hi.
  { split; [constructor|constructor|by intros ??? ?%elem_of_nil|done|done|done]. }
  remember hinit as s0. clear Heqs0. induction Hr as [|s1 s2 s3 Hst _ IH]; [done|].
  apply IH. by eapply hinv_step.
Qed.
End handle.

(** (C29) The export-failure log is rate limited and keeps count, however the
    SDK's goroutines interleave: any two logged lines are at least the log
    interval apart by their callers' clocks, every call is counted as a
    failure, every suppressed call as suppressed, and the numbers of suppressed
    lines reported so far together with the pending one add up to the calls that
    were suppressed. *)
Theorem export_log_rate_limited interval s : (0 <= interval)%Z → rtc (hstep interval) hinit s →
  ForallOrdPairs (apart interval) (map ln_now (lines s)) ∧
  exportFailures (h_diag s) = wrapu64 (Z.of_nat (length (threads s))) ∧
  suppressedExportLogs (h_diag s) = wrapu64 (total_of dropped (threads s)) ∧
  wrapu64 (reported (lines s) + pendingSuppressed s) = wrapu64 (total_of counted (threads s)).
Proof.
  intros Hpos Hr. destruct (hinv_reachable interval s Hpos Hr) as [H1 _ _ H4 H5 H6].
  split_and!; [|done|done|done]. unfold wins in H1.
  induction (map ln_now (lines s)) as [|x l IH]; [constructor|].
  inversion_clear H1 as [|? ? Hx Hl]. apply list.Forall_app in Hx as [Hx _]. constructor; auto.
Qed.

Definition ex_err : error := EText "export".
Definition ex_line_state : hstate :=
  mkHstate 160 1 (recordExportFailure ex_err (recordExportFailure ex_err newDiagnostics).1).1
    [mkLine 100 0 1] [Logged; CountingSuppressed].

Lemma export_log_rate_limited_witness :
  rtc (hstep 60) hinit ex_line_state ∧
  wrapu64 (reported (lines ex_line_state) + pendingSuppressed ex_line_state) =
    wrapu64 (total_of counted (threads ex_line_state)).
Proof.
  assert (rtc (hstep 60) hinit ex_line_state) as Hr.
  { eapply rtc_l; [apply (h_start 60 _ _ _ _ _ ex_err 100)|].
    eapply rtc_l; [apply (h_load 60 _ _ _ _ [] [] 100); discriminate|].
    eapply rtc_l; [apply (h_cas 60 _ _ _ _ [] [] 100)|].
    eapply rtc_l; [apply (h_log 60 _ _ _ _ [] [] 100)|].
    eapply rtc_l; [apply (h_start 60 _ _ _ _ _ ex_err 130)|].
    eapply rtc_l; [apply (h_load_early 60 _ _ _ _ [Logged] [] 130); reflexivity|].
    eapply rtc_l; [apply (h_suppress 60 _ _ _ _ [Logged] [])|]. apply rtc_refl. }
  split; [exact Hr|].
  exact (proj2 (proj2 (proj2 (export_log_rate_limited 60 ex_line_state ltac:(discriminate) Hr)))).
Defined.
End Handle.

(** ** Accessors, settings and diagnostics of the runtime *)
Module Api.

Record DiagnosticsSnapshot := mkSnapshot {
  sn_Enabled : bool; sn_StartupFailures : Z; sn_ExportFailures : Z; sn_SuppressedExportLogs : Z;
  sn_ForceFlushes : Z; sn_Shutdowns : Z; sn_LastStartupFailureKind : string; sn_LastExportFailureKind : string }.
Definition zero_snapshot (enabled : bool) : DiagnosticsSnapshot := mkSnapshot enabled 0 0 0 0 0 "" "".

Definition snapshot (d : option diagnostics) (enabled : bool) : DiagnosticsSnapshot :=
  match d with
  | None => zero_snapshot enabled
  | Some d => mkSnapshot enabled (startupFailures d) (exportFailures d) (suppressedExportLogs d)
                (forceFlushes d) (shutdowns d) (lastStartupFailureKind d) (lastExportFailureKind d)
  end.

(** Every accessor accepts a nil runtime. *)
Definition Diagnostics (r : option Runtime) : DiagnosticsSnapshot :=
  match r with
  | None => zero_snapshot false
  | Some rt => snapshot (Some (diag rt)) (Enabled r)
  end.
Definition Resource (r : option Runtime) : attrs := match r with None => ∅ | Some r => resource r end.

(** A provider that does nothing, or one of the SDK, with or without an
    exporter behind it. *)
Inductive provider : Type := NoopProvider | SdkProvider (resource : attrs) (exports : bool).
Definition TracerProvider (r : option Runtime) : provider :=
  match r with None => NoopProvider | Some r => SdkProvider (resource r) (enabled r) end.
Definition MeterProvider (r : option Runtime) : provider :=
  match r with None => NoopProvider | Some r => SdkProvider (resource r) (enabled r) end.

(** *** Settings of the exporters, in nanoseconds *)
Definition defaultTraceMaxQueueSize : Z := 2048.
Definition defaultTraceMaxExportBatchSize : Z := 512.
Definition defaultTraceBatchTimeout : Z := 5 * second.
Definition defaultTelemetryExportTimeout : Z := 5 * second.
Definition defaultMetricExportInterval : Z := minute.
Definition defaultRetryInitialInterval : Z := second.
Definition defaultRetryMaxInterval : Z := 5 * second.
Definition defaultRetryMaxElapsedTime : Z := 30 * second.

Record retry_config := mkRetry { rc_Enabled : bool; rc_Initial : Z; rc_Max : Z; rc_Elapsed : Z }.
Definition default_retry : retry_config :=
  mkRetry true defaultRetryInitialInterval defaultRetryMaxInterval defaultRetryMaxElapsedTime.
Record metric_reader := mkReader { mr_exportTimeout : Z; mr_retry : retry_config; mr_interval : Z; mr_timeout : Z }.

(** [e]: what creating the exporter reports. *)
Definition newOTLPMetricReader (e : option error) : res error metric_reader :=
  match e with
  | Some err => Err (EWrap "create OTLP metric exporter" err)
  | None => Ok (mkReader defaultTelemetryExportTimeout default_retry defaultMetricExportInterval
                  defaultTelemetryExportTimeout)
  end.

Definition shutdownTraceExporter (created : bool) : list exporter_event :=
  if created then [TraceExporterShutdown] else [].

(** *** The error handler and its logger *)
Record otelErrorHandler := mkHandler { oh_logInterval : Z; oh_logger : option string }.

Definition newOTelErrorHandler (interval : Z) : otelErrorHandler :=
  mkHandler (if (interval <=? 0)%Z then defaultDiagnosticsLogInterval else interval) None.
(** A logger is its component; without one the default of the package is kept. *)
Definition setLogger (l : option string) (h : option otelErrorHandler) : option otelErrorHandler :=
  (λ h, mkHandler (oh_logInterval h) (Some (default "telemetry" l))) <$> h.
Definition loadLogger (h : otelErrorHandler) : option string := oh_logger h.

(** The failures that [NewFailOpen] falls back from are visible afterwards:
    the snapshot of its runtime is that of a disabled one with one start-up
    failure and its kind, and the providers export nothing. *)
Theorem fail_open_visible e e' cfg build ev rt :
  NewFailOpen e e' cfg build = (ev, Ok (rt, true)) →
  ∃ err, (New e cfg build).2 = Err err ∧ tel_Enabled cfg = true ∧
    Diagnostics (Some rt) = mkSnapshot false 1 0 0 0 0 (telemetryErrorKind (Some err)) "" ∧
    TracerProvider (Some rt) = SdkProvider (Resource (Some rt)) false ∧
    MeterProvider (Some rt) = SdkProvider (Resource (Some rt)) false.
Proof.
  unfold NewFailOpen. destruct (New e cfg build) as [ev1 [rt1|err]]; [done|].
  destruct (tel_Enabled cfg) eqn:Hen; [|done]. cbn [negb].
  destruct (New_disabled e' (mkTelemetryConfig false (tel_ShutdownTimeout cfg)) build eq_refl) as [_ Hd].
  destruct (New e' _ build) as [ev2 out]. cbn [snd] in Hd. destruct (newResource e' build false) as [r|err'].
  - destruct Hd as (rt2 & -> & Hrt & Hdg). intros [= <- <-]. exists err. split; [done|split; [done|]].
    unfold Diagnostics, Enabled, snapshot, TracerProvider, MeterProvider, Resource. cbn. by rewrite Hrt Hdg.
  - rewrite Hd. by destruct (errors_Join _).
Qed.

(** The intervals of the settings are consistent: a retry never waits longer
    than its bound, and an export is given up before the next one is due. *)
Lemma settings_consistent e r : newOTLPMetricReader e = Ok r →
  (0 < rc_Initial (mr_retry r) <= rc_Max (mr_retry r))%Z ∧ (rc_Max (mr_retry r) <= rc_Elapsed (mr_retry r))%Z ∧
  (0 < mr_timeout r < mr_interval r)%Z.
Proof.
  destruct e; [done|]. intros [= <-]. cbn.
  unfold defaultRetryInitialInterval, defaultRetryMaxInterval, defaultRetryMaxElapsedTime,
    defaultTelemetryExportTimeout, defaultMetricExportInterval, minute, second. lia.
Qed.
End Api.
