(* ===== verification/RuntimeInfo.v ===== *)
(** * Runtime information

    Models [internal/runtimeinfo]: the debug page with memory statistics and
    selected runtime metrics.  The Go runtime's readings are inputs; floating
    point numbers are an abstract type with a zero. *)
From S2P Require Import Prelude.
From S2P Require Import HttpErrors.

Definition selectedMetricNames : list string :=
  ["/cpu/classes/gc/pause:cpu-seconds"; "/cpu/classes/gc/total:cpu-seconds";
   "/cpu/classes/user:cpu-seconds"; "/gc/cycles/automatic:gc-cycles"; "/gc/cycles/forced:gc-cycles";
   "/gc/cycles/total:gc-cycles"; "/gc/gogc:percent"; "/gc/gomemlimit:bytes"; "/gc/heap/allocs:bytes";
   "/gc/heap/frees:bytes"; "/gc/heap/goal:bytes"; "/gc/heap/live:bytes"; "/gc/heap/objects:objects";
   "/gc/limiter/last-enabled:gc-cycle"; "/memory/classes/heap/objects:bytes";
   "/memory/classes/heap/released:bytes"; "/memory/classes/metadata/other:bytes";
   "/memory/classes/profiling/buckets:bytes"; "/memory/classes/total:bytes";
   "/sched/gomaxprocs:threads"; "/sched/goroutines:goroutines"].

Section runtimeinfo.
  Context {float : Type} (zero : float).

(** [runtime.MemStats], the fields the page copies. *)
Record MemStats := mkMemStats {
  Alloc : Z; TotalAlloc : Z; Sys : Z; Mallocs : Z; Frees : Z; HeapAlloc : Z; HeapSys : Z; HeapIdle : Z;
  HeapInuse : Z; HeapReleased : Z; HeapObjects : Z; StackInuse : Z; MSpanInuse : Z; MCacheInuse : Z;
  GCSys : Z; OtherSys : Z; NextGC : Z; LastGC : Z; PauseTotalNs : Z; NumGC : Z; NumForcedGC : Z;
  GCCPUFraction : float }.

Record MemStatsSnapshot := mkMemStatsSnapshot {
  AllocBytes : Z; TotalAllocBytes : Z; SysBytes : Z; RuntimeMemoryUsedBytes : Z; msMallocs : Z; msFrees : Z;
  HeapAllocBytes : Z; HeapSysBytes : Z; HeapIdleBytes : Z; HeapInuseBytes : Z; HeapReleasedBytes : Z;
  msHeapObjects : Z; StackInuseBytes : Z; MSpanInuseBytes : Z; MCacheInuseBytes : Z; GCSysBytes : Z;
  OtherSysBytes : Z; NextGCBytes : Z; LastGCUnixNano : Z; msPauseTotalNs : Z; msNumGC : Z;
  msNumForcedGC : Z; msGCCPUFraction : float }.

Definition snapshotMemStats (ms : MemStats) : MemStatsSnapshot :=
  let runtimeMemoryUsed :=
    if (HeapReleased ms <=? Sys ms)%Z then wrapu64 (Sys ms - HeapReleased ms) else Sys ms in
  mkMemStatsSnapshot (Alloc ms) (TotalAlloc ms) (Sys ms) runtimeMemoryUsed (Mallocs ms) (Frees ms)
    (HeapAlloc ms) (HeapSys ms) (HeapIdle ms) (HeapInuse ms) (HeapReleased ms) (HeapObjects ms)
    (StackInuse ms) (MSpanInuse ms) (MCacheInuse ms) (GCSys ms) (OtherSys ms) (NextGC ms) (LastGC ms)
    (PauseTotalNs ms) (NumGC ms) (NumForcedGC ms) (GCCPUFraction ms).

(** ** Metrics *)
Record Float64Histogram := mkHistogram { Counts : list Z; Buckets : list float }.
Record HistogramSummary := mkSummary { Count : Z; Min : float; Max : float }.

Inductive Value : Type :=
| KindUint64 (n : Z) | KindFloat64 (x : float) | KindFloat64Histogram (h : Float64Histogram) | KindBad.
Record MetricSample := mkSample {
  Kind : string; Uint64 : option Z; Float64 : option float; Hist : option HistogramSummary }.

(** The loop over the buckets; [None] is an index out of range. *)
Fixpoint summarize_loop (bs : list float) (i : nat) (counts : list Z) (acc : HistogramSummary) (found : bool)
    : option HistogramSummary :=
  match counts with
  | [] => Some acc
  | c :: counts =>
      if (c =? 0)%Z then summarize_loop bs (S i) counts acc found
      else
        match (if found then Some (Min acc) else bs !! i), bs !! S i with
        | Some lo, Some hi => summarize_loop bs (S i) counts (mkSummary (wrapu64 (Count acc + c)) lo hi) true
        | _, _ => None
        end
  end.
Definition summarizeHistogram (h : Float64Histogram) : option HistogramSummary :=
  summarize_loop (Buckets h) 0 (Counts h) (mkSummary 0 zero zero) false.

(** [None]: the loop above panics; [Some None]: the kind is skipped. *)
Definition metricValue (v : Value) : option (option MetricSample) :=
  match v with
  | KindUint64 n => Some (Some (mkSample "uint64" (Some n) None None))
  | KindFloat64 x => Some (Some (mkSample "float64" None (Some x) None))
  | KindFloat64Histogram h =>
      match summarizeHistogram h with
      | Some s => Some (Some (mkSample "float64_histogram" None None (Some s)))
      | None => None
      end
  | KindBad => Some None
  end.

Definition supportedRuntimeMetrics (all : list string) : gset string := list_to_set all.

Fixpoint collect (read : string → Value) (names : list string) (out : gmap string MetricSample)
    : option (gmap string MetricSample) :=
  match names with
  | [] => Some out
  | n :: names =>
      match metricValue (read n) with
      | None => None
      | Some None => collect read names out
      | Some (Some s) => collect read names (<[n := s]> out)
      end
  end.

(** [all] is what [metrics.All] lists, [read] what [metrics.Read] fills in. *)
Definition readRuntimeMetrics (all : list string) (read : string → Value) : option (gmap string MetricSample) :=
  let supported := supportedRuntimeMetrics all in
  let samples := List.filter (λ n, bool_decide (n ∈ supported)) selectedMetricNames in
  collect read samples ∅.

Record GoSnapshot := mkGoSnapshot { Version : string; NumCPU : Z; GOMAXPROCS : Z; NumGoroutine : Z }.
Record Snapshot := mkSnapshot {
  Timestamp : string; Go : GoSnapshot; snMemStats : MemStatsSnapshot; Metrics : gmap string MetricSample }.
Definition ReadSnapshot (now : string) (g : GoSnapshot) (ms : MemStats) (all : list string)
    (read : string → Value) : option Snapshot :=
  match readRuntimeMetrics all read with
  | Some m => Some (mkSnapshot now g (snapshotMemStats ms) m)
  | None => None
  end.

(** Status and document of the page; [None] is a panic. *)
Definition Handler (method : string) (snapshot : option Snapshot) : option (Z * option Snapshot) :=
  if streqb method "GET" then match snapshot with Some s => Some (200%Z, Some s) | None => None end
  else Some (405%Z, None).

(** ** Properties *)

(** The first and the last non-empty bucket. *)
Fixpoint first_nz (counts : list Z) : option nat :=
  match counts with
  | [] => None
  | c :: counts => if (c =? 0)%Z then S <$> first_nz counts else Some 0
  end.
Fixpoint last_nz (counts : list Z) : option nat :=
  match counts with
  | [] => None
  | c :: counts =>
      match last_nz counts with
      | Some k => Some (S k)
      | None => if (c =? 0)%Z then None else Some 0
      end
  end.
Definition sum (l : list Z) : Z := foldr Z.add 0%Z l.

Lemma summarize_loop_spec bs counts : ∀ i acc found,
  (i + length counts < length bs)%nat → wrapu64 (Count acc) = Count acc →
  ∃ s, summarize_loop bs i counts acc found = Some s ∧
    Count s = wrapu64 (Count acc + sum counts) ∧
    Some (Min s) = (if found then Some (Min acc)
                    else match first_nz counts with Some k => bs !! (i + k) | None => Some (Min acc) end) ∧
    Some (Max s) = match last_nz counts with Some k => bs !! S (i + k) | None => Some (Max acc) end.
Proof.
  induction counts as [|c counts IH]; intros i acc found Hl Ha.
  { exists acc. simpl. rewrite Z.add_0_r Ha. by destruct found. }
  cbn [summarize_loop first_nz last_nz]. simpl in Hl. destruct (Z.eqb_spec c 0) as [->|Hc].
  - destruct (IH (S i) acc found) as (s & -> & H2 & H3 & H4); [lia|done|]. exists s.
    split_and!; [done|done| |].
    + rewrite H3. destruct found; [done|]. destruct (first_nz counts) as [k|]; [|done]. simpl.
      by rewrite Nat.add_succ_r.
    + rewrite H4. destruct (last_nz counts) as [k|]; [|done]. by rewrite Nat.add_succ_r.
  - destruct (lookup_lt_is_Some_2 bs i) as [lo Hlo]; [lia|].
    destruct (lookup_lt_is_Some_2 bs (S i)) as [hi Hhi]; [lia|]. rewrite Hhi.
    set (acc' := mkSummary (wrapu64 (Count acc + c)) (if found then Min acc else lo) hi).
    destruct (IH (S i) acc' true) as (s & H1 & H2 & H3 & H4).
    { lia. } { simpl. unfold wrapu64. by rewrite Zmod_mod. }
    exists s. split_and!.
    + rewrite -H1. unfold acc'. destruct found; [done|]. by rewrite Hlo.
    + rewrite H2 /=. unfold wrapu64. rewrite Zplus_mod_idemp_l. f_equal. lia.
    + rewrite H3 /=. destruct found; [done|]. by rewrite Nat.add_0_r.
    + rewrite H4. destruct (last_nz counts) as [k|]; [by rewrite Nat.add_succ_r|]. by rewrite Nat.add_0_r.
Qed.

(** Runtime histograms are summarised without a panic: for a histogram with
    one bucket boundary more than counts, as the runtime documents, the summary
    is the total count (modulo 2^64), the lower boundary of the first non-empty
    bucket and the upper boundary of the last, or all zeros for an empty one. *)
Theorem summarizeHistogram_spec h : length (Buckets h) = S (length (Counts h)) →
  ∃ s, summarizeHistogram h = Some s ∧ Count s = wrapu64 (sum (Counts h)) ∧
    Some (Min s) = match first_nz (Counts h) with Some k => Buckets h !! k | None => Some zero end ∧
    Some (Max s) = match last_nz (Counts h) with Some k => Buckets h !! S k | None => Some zero end.
Proof.
  intros Hl. destruct (summarize_loop_spec (Buckets h) (Counts h) 0 (mkSummary 0 zero zero) false)
    as (s & H1 & H2 & H3 & H4); [lia|done|]. by exists s.
Qed.

(** The page's "used memory" never underflows. *)
Lemma memory_used_bounds ms : (0 <= HeapReleased ms < 2 ^ 64)%Z → (0 <= Sys ms < 2 ^ 64)%Z →
  (0 <= RuntimeMemoryUsedBytes (snapshotMemStats ms) <= Sys ms)%Z.
Proof.
  intros H1 H2. simpl. destruct (Z.leb_spec (HeapReleased ms) (Sys ms)); [|lia].
  rewrite wrapu64_id; lia.
Qed.
End runtimeinfo.

Lemma summarizeHistogram_spec_witness :
  ∃ s, summarizeHistogram 0%Z (mkHistogram [0; 3; 0; 4; 0]%Z [0; 10; 20; 30; 40; 50]%Z) = Some s ∧
    Count s = 7%Z ∧ Some (Min s) = Some 10%Z ∧ Some (Max s) = Some 40%Z.
Proof.
  exact (summarizeHistogram_spec 0%Z (mkHistogram [0; 3; 0; 4; 0]%Z [0; 10; 20; 30; 40; 50]%Z) eq_refl).
Defined.
