(* ===== verification/Wiring.v ===== *)
(** * The application: wiring and life cycle

    Models [cmd/api/main.go] ([run] and its deferred calls), [internal/db/open.go],
    [internal/outbound/httpclient] and [middleware.NewProxyAPI], on top of the
    components.  What the outside world answers is the record [world]; a panic
    is [None]. *)
From Stdlib Require Import Ascii.
From S2P Require Import Prelude.
From S2P Require Import GoErrors.
From S2P Require Import GoStrings.
From S2P Require Import HttpErrors.
From S2P Require Import Security.
From S2P Require Import Middleware.
From S2P Require Import Queue.
From S2P Require Import Stream.
From S2P Require Import WorkerPool.
From S2P Require Import Outbound.
From S2P Require Import GrpcServer.
From S2P Require Import Server.
From S2P Require Import Config.
From S2P Require Import ConfigLoad.
From S2P Require Import GrpcTransport.
From S2P Require Import Telemetry.

(** ** Constructors that read the configuration *)
Section constructors.
  Context `{GoParsers}.

(** [net.ParseCIDR] (the network as its membership test), [net.ParseIP] and
    whether an address is IPv4. *)
Context {IP : Type} (ParseCIDR : string → option (IP → bool)) (ParseIP : string → option IP) (To4 : IP → bool).

Fixpoint proxy_nets (ps : list Prefix) : res error (list (IP → bool)) :=
  match ps with
  | [] => Ok []
  | p :: ps =>
      let space := TrimSpace (Prefix_String p) in
      if streqb space "" then proxy_nets ps
      else
        let net :=
          if ContainsByte space "/"%char then
            match ParseCIDR space with Some n => Ok n | None => Err (EText "net.ParseCIDR") end
          else
            match ParseIP space with
            | None => Err (EText "invalid ip")
            | Some ip => Ok (default (λ _, false) (ParseCIDR (space +:+ if To4 ip then "/32" else "/128")))
            end in
        match net with
        | Err e => Err e
        | Ok n => match proxy_nets ps with Ok ns => Ok (n :: ns) | Err e => Err e end
        end
  end.
Definition NewProxyAPI (cfg : ProxyConfig) : res error (Proxy.ProxyAPI (IP:=IP)) :=
  match ValidateTrustedProxyRequirements cfg with
  | Some e => Err e
  | None =>
      match proxy_nets (TrustedProxies cfg) with
      | Err e => Err e
      | Ok nets => Ok (Proxy.mkProxyAPI nets (TrustXFF cfg) (TrustXFP cfg))
      end
  end.
End constructors.

(** [httpclient.New]: the transport's settings. *)
Record Transport := mkTransport {
  IdleConnTimeout : Z; MaxIdleConns : Z; MaxIdleConnsPerHost : Z; MaxConnsPerHost : Z;
  TLSHandshakeTimeout : Z; ResponseHeaderTimeout : Z }.
Definition httpclient_New (cfg : OutboundConfig) : Transport :=
  let t := ob_Transport cfg in
  mkTransport (tr_IdleConnTimeout t) (tr_MaxIdleConns t) (tr_MaxIdleConnsPerHost t) (tr_MaxConnsPerHost t)
    (tr_TLSHandshakeTimeout t) (tr_ResponseHeaderTimeout t).

(** The keys of the verifier. *)
Definition hmac_keys (j : JWTConfig) : list HMACKey := map (λ k, mkHMACKey (jk_KID k) (jk_Secret k)) (Keys j).
Definition new_verifier (j : JWTConfig) : res error JWTVerifierHS256 :=
  NewJWTVerifierHS256 (AllowedAlg j) (Issuer j) (Audience j) (ClockSkew j) (hmac_keys j).

(** ** Resources *)
Inductive owned : Type := RTelemetry | RDatabase | RTransport | RGrpcListener | RGrpcConn.
#[export] Instance owned_eq_dec : EqDecision owned.
Proof. solve_decision. Defined.
Inductive event : Type := Opened (r : owned) | Closed (r : owned) | Served (tr : list action).

(** A computation that opens and closes resources; [None] is a panic. *)
Definition prog := option (list event * option error).
Definition fail (e : error) : prog := Some ([], Some e).
(** A resource with its deferred release. *)
Definition with_defer (r : owned) (k : prog) : prog :=
  match k with None => None | Some (tr, err) => Some (Opened r :: tr ++ [Closed r], err) end.

Record world := mkWorld {
  w_sdk : sdk_env; w_sdk_fallback : sdk_env; w_version : string;
  w_sqlOpen : option error; w_ping : option error;
  w_keypair : string → string → option error; w_readFile : string → res error string; w_pem : string → bool;
  w_listen : string → option error; w_dial : string → option error;
  w_run : run_env;
}.

Section run.
  Context `{GoParsers} {IP : Type} (ParseCIDR : string → option (IP → bool)) (ParseIP : string → option IP)
    (To4 : IP → bool).

Definition telemetryBuildInfo (version : string) (cfg : Config) : BuildInfo :=
  let version := if (streqb version "" || streqb version "(devel)")%bool then DefaultServiceVersion else version in
  mkBuildInfo DefaultServiceName version "" (Environment (cfg_Runtime cfg)).

(** [db.Open]: a pool that does not answer the first ping is closed again. *)
Definition Open (w : world) (k : prog) : prog :=
  match w_sqlOpen w with
  | Some e => fail e
  | None =>
      match w_ping w with
      | Some e => Some ([Opened RDatabase; Closed RDatabase], Some e)
      | None => with_defer RDatabase k
      end
  end.

Definition server_config (cfg : Config) : Construct.ServerConfig :=
  let g := cfg_GRPC cfg in
  Construct.mkServerConfig (grpc_Addr g) (grpc_ReflectionEnable g) true
    (Construct.mkServerTLS (gtls_Enable (grpc_TLS g)) (gtls_CertFile (grpc_TLS g)) (gtls_KeyFile (grpc_TLS g))
       (gtls_ClientCAFile (grpc_TLS g))).
Definition client_config (cfg : Config) : Construct.ClientConfig :=
  let g := cfg_GRPC cfg in
  Construct.mkClientConfig (grpc_Addr g) 0
    (Construct.mkClientTLS (gtls_Enable (grpc_TLS g)) (gtls_ClientCertFile (grpc_TLS g))
       (gtls_ClientKeyFile (grpc_TLS g)) (gtls_ServerCAFile (grpc_TLS g)) (gtls_ServerName (grpc_TLS g))).

(** The server reads its switches from the configuration. *)
Definition server_env (w : world) (cfg : Config) : run_env :=
  let e := w_run w in
  mkRunEnv (tls_Enable (http_TLS (cfg_HTTP cfg))) (Workers (cfg_Pool cfg)) (re_listen e) (re_cert e)
    (re_listen_tls e) (re_start_stop e) (re_serving e) (re_trigger e) (re_cleanup e).

(** From the handlers to [server.Run].  A nil runtime is passed as an interface
    that holds a nil pointer. *)
Definition serve (w : world) (cfg : Config) (q : Queue) (hub : Hub) (rt : option Runtime.Runtime) : prog :=
  match Bulkhead.NewBulkhead (MaxParallel (cfg_Bulkhead cfg)) with
  | None => None
  | Some _ =>
      match Auth.NewAuthorizeAPI DefaultPolicy with
      | Err e => fail e
      | Ok _ =>
          match Run (server_env w cfg) (NewAPIServer Lifecycle.NewWorkerPool q (Iface rt) (Some hub)) with
          | None => None
          | Some (s, err) => Some ([Served (trace s)], err)
          end
      end
  end.

Definition run_grpc (w : world) (cfg : Config) (q : Queue) (hub : Hub) : prog :=
  if grpc_Enable (cfg_GRPC cfg) then
    match Construct.NewRuntimeWithConfig (w_keypair w) (w_readFile w) (w_pem w) (w_listen w) (server_config cfg) with
    | Err e => fail e
    | Ok b =>
        match Construct.NewJobsClientWithConfig (w_keypair w) (w_readFile w) (w_pem w) (w_dial w) (client_config cfg) with
        | Err e => Some ([Opened RGrpcListener; Closed RGrpcListener], Some e)
        | Ok _ =>
            match with_defer RGrpcConn (serve w cfg q hub (Some (Construct.b_runtime b))) with
            | None => None
            | Some (tr, err) => Some (Opened RGrpcListener :: tr, err)
            end
        end
    end
  else serve w cfg q hub None.

Definition run_transport (w : world) (cfg : Config) (hub : Hub) : prog :=
  match Queue.New (QueueSize (cfg_Pool cfg)) with
  | None => None
  | Some q =>
      with_defer RTransport
        (match new_verifier (cfg_JWT cfg) with
         | Err e => fail e
         | Ok _ => run_grpc w cfg q hub
         end)
  end.

Definition run_storage (w : world) (cfg : Config) : prog :=
  match NewProxyAPI ParseCIDR ParseIP To4 (cfg_Proxy cfg) with
  | Err e => fail e
  | Ok _ =>
      match NewHub (st_SubscriberBuffer (cfg_Streaming cfg)) with
      | None => None
      | Some hub =>
          if streqb (db_StorageBackend (cfg_DB cfg)) "memory" then run_transport w cfg hub
          else if streqb (db_StorageBackend (cfg_DB cfg)) "postgres" then Open w (run_transport w cfg hub)
          else fail (EText ("unsupported storage backend: " +:+ db_StorageBackend (cfg_DB cfg)))
      end
  end.

Definition run (w : world) (cfg : Config) : prog :=
  match (NewFailOpen (w_sdk w) (w_sdk_fallback w) (cfg_Telemetry cfg)
           (telemetryBuildInfo (w_version w) cfg)).2 with
  | Err e => fail e
  | Ok _ => with_defer RTelemetry (run_storage w cfg)
  end.
End run.

(** ** Deferred releases *)

(** Runs a trace on the stack of open resources; the gRPC listener belongs to
    the server once it serves and is not on the stack. *)
Definition on_stack (r : owned) : bool := match r with RGrpcListener => false | _ => true end.
Fixpoint unwind (tr : list event) (st : list owned) : option (list owned) :=
  match tr with
  | [] => Some st
  | Opened r :: tr => unwind tr (if on_stack r then r :: st else st)
  | Closed r :: tr =>
      if on_stack r then
        match st with
        | r' :: st => if decide (r = r') then unwind tr st else None
        | [] => None
        end
      else unwind tr st
  | Served _ :: tr => unwind tr st
  end.
(** Everything opened is released, innermost first. *)
Definition releases (p : prog) : Prop :=
  match p with None => True | Some (tr, _) => ∀ st, unwind tr st = Some st end.

Lemma unwind_app tr1 tr2 st : unwind (tr1 ++ tr2) st = unwind tr1 st ≫= unwind tr2.
Proof.
  revert st. induction tr1 as [|[r|r|a] tr1 IH]; intros st; simpl; [done|apply IH| |apply IH].
  destruct (on_stack r); [|apply IH]. destruct st as [|r' st]; [done|]. destruct (decide (r = r')); [apply IH|done].
Qed.

Lemma releases_fail e : releases (fail e).
Proof. done. Qed.

Lemma releases_defer r p : on_stack r = true → releases p → releases (with_defer r p).
Proof.
  intros Hr Hp. destruct p as [[tr err]|]; [|done]. intros st. simpl. rewrite Hr unwind_app Hp /= Hr.
  by rewrite decide_True.
Qed.

Section properties.
  Context `{GoParsers} {IP : Type} (ParseCIDR : string → option (IP → bool)) (ParseIP : string → option IP)
    (To4 : IP → bool).

Lemma serve_releases w cfg q hub rt : releases (serve w cfg q hub rt).
Proof.
  unfold serve. destruct (Bulkhead.NewBulkhead _); [|done]. destruct (Auth.NewAuthorizeAPI _); [|done].
  by destruct (Run _ _) as [[? ?]|].
Qed.

Lemma run_grpc_releases w cfg q hub : releases (run_grpc w cfg q hub).
Proof.
  unfold run_grpc. destruct (grpc_Enable _); [|apply serve_releases].
  destruct (Construct.NewRuntimeWithConfig _ _ _ _ _) as [b|]; [|done].
  destruct (Construct.NewJobsClientWithConfig _ _ _ _ _); [|done].
  pose proof (releases_defer RGrpcConn _ eq_refl (serve_releases w cfg q hub (Some (Construct.b_runtime b)))) as Hd.
  by destruct (with_defer _ _) as [[tr err]|].
Qed.

Lemma run_releases w cfg : releases (run ParseCIDR ParseIP To4 w cfg).
Proof.
  assert (∀ hub, releases (run_transport w cfg hub)) as Ht.
  { intros hub. unfold run_transport. destruct (Queue.New _); [|done]. apply releases_defer; [done|].
    destruct (new_verifier _); [apply run_grpc_releases|done]. }
  unfold run. destruct (NewFailOpen _ _ _ _) as [ev [r|e]]; [|done]. apply releases_defer; [done|].
  unfold run_storage. destruct (NewProxyAPI _ _ _ _); [|done]. destruct (NewHub _) as [hub|]; [|done].
  destruct (streqb _ "memory"); [apply Ht|]. destruct (streqb _ "postgres"); [|done].
  unfold Open. destruct (w_sqlOpen w); [done|]. destruct (w_ping w); [done|]. by apply releases_defer.
Qed.

(** Start-up and shutdown of the process release what they acquire: on
    every path through [run] (a failed step, or the server returning) every
    resource opened so far (telemetry, the database pool, the outgoing
    transport, the gRPC client connection) is closed exactly once and in
    reverse order, so telemetry is shut down after everything else. *)
Theorem run_releases_in_order w cfg : releases (run ParseCIDR ParseIP To4 w cfg).
Proof. apply run_releases. Qed.

(** ** gRPC disabled *)

(** The error of the first listener of the server that cannot be had: the HTTP
    port, the certificate or the HTTPS port. *)
Definition bind_error (e : run_env) : option error :=
  match re_listen e with
  | Some err => Some err
  | None => if re_tls e then match re_cert e with Some err => Some err | None => re_listen_tls e end else None
  end.

Lemma Run_unbound e s err : bind_error e = Some err → trace s = [] →
  ∃ s', Run e s = Some (s', Some err) ∧ trace s' = [].
Proof.
  unfold bind_error, Run. intros Hb Ht. destruct (re_listen e); [simplify_eq; eauto|].
  destruct (re_tls e); [|done]. destruct (re_cert e); [simplify_eq; eauto|]. rewrite Hb. eauto.
Qed.

Lemma Run_bound e s : bind_error e = None → ∃ b, Run e s = run_started e (with_listeners true b s).
Proof.
  unfold bind_error, Run. destruct (re_listen e); [done|]. destruct (re_tls e); [|eauto].
  destruct (re_cert e); [done|]. intros ->. eauto.
Qed.

Definition missing_runtime : error := ESentinel ErrGRPCServerRuntimeRequired.

Lemma Run_nil_runtime e q h :
  ∃ s, Run e (NewAPIServer Lifecycle.NewWorkerPool q (Iface None) h) =
         Some (s, Some (default missing_runtime (bind_error e))) ∧ trace s = [].
Proof.
  destruct (bind_error e) as [err|] eqn:Hb; [by apply Run_unbound|].
  destruct (Run_bound e (NewAPIServer Lifecycle.NewWorkerPool q (Iface None) h) Hb) as [b ->].
  unfold run_started. cbn. eauto.
Qed.

Definition never_served (tr : list event) : Prop := ∀ a, Served a ∈ tr → a = [].

(** What a failed start-up shows: the server's steps, if it was reached, are none,
    and then the error is [e]. *)
Definition fails_with (e : error) (p : prog) : Prop :=
  ∀ tr err, p = Some (tr, err) → is_Some err ∧ never_served tr ∧ ((∃ a, Served a ∈ tr) → err = Some e).

Lemma fails_defer e r p : fails_with e p → fails_with e (with_defer r p).
Proof.
  intros Hp. destruct p as [[tr err]|]; [|done]. intros tr0 err0 [= <- <-]. destruct (Hp _ _ eq_refl) as (? & Hn & He).
  assert (∀ a, Served a ∈ Opened r :: tr ++ [Closed r] → Served a ∈ tr) as Hin.
  { intros a. rewrite elem_of_cons elem_of_app list_elem_of_singleton. by intros [?|[?|?]]. }
  split_and!; [done|intros a Ha%Hin; eauto|intros [a Ha%Hin]; eauto].
Qed.

Lemma fails_quiet e tr err : (∀ a, Served a ∉ tr) → fails_with e (Some (tr, Some err)).
Proof. intros Hn ? ? [= <- <-]. split_and!; [done|by intros a ?%Hn|by intros [a ?%Hn]]. Qed.

(** (C34) With gRPC disabled, which is the default, the service cannot run: the
    nil runtime reaches the server inside a non-nil interface value, so whatever
    the configuration and the environment, [run] returns an error and the
    service is never marked ready.  A start-up that reaches [server.Run] performs
    none of its steps, and the error is the missing runtime's - [grpc server
    runtime is nil] - unless a listener could not be bound before, whose error it
    is then. *)
Theorem disabled_grpc_never_serves w cfg tr err :
  grpc_Enable (cfg_GRPC cfg) = false → run ParseCIDR ParseIP To4 w cfg = Some (tr, err) →
  is_Some err ∧ never_served tr ∧
  ((∃ acts, Served acts ∈ tr) →
   (∀ x, bind_error (server_env w cfg) = Some x → err = Some x) ∧
   (bind_error (server_env w cfg) = None → err = Some (ESentinel ErrGRPCServerRuntimeRequired))).
Proof.
  intros Hg. set (e := default missing_runtime (bind_error (server_env w cfg))).
  assert (∀ x, fails_with e (fail x)) as Hfail by (intros x; apply fails_quiet; by intros a ?%elem_of_nil).
  assert (∀ hub, fails_with e (run_transport w cfg hub)) as Ht.
  { intros hub. unfold run_transport. destruct (Queue.New _) as [q|]; [|done]. apply fails_defer.
    destruct (new_verifier _); [|apply Hfail]. unfold run_grpc. rewrite Hg. unfold serve.
    destruct (Bulkhead.NewBulkhead _); [|done]. destruct (Auth.NewAuthorizeAPI _); [|apply Hfail].
    destruct (Run_nil_runtime (server_env w cfg) q (Some hub)) as (s & -> & Htr). rewrite Htr. fold e.
    intros ? ? [= <- <-]. split_and!; [done| |done]. intros acts [= ->]%list_elem_of_singleton. done. }
  assert (fails_with e (run ParseCIDR ParseIP To4 w cfg)) as Hrun.
  { unfold run. destruct (NewFailOpen _ _ _ _) as [ev [r|x]]; [|apply Hfail]. apply fails_defer.
    unfold run_storage. destruct (NewProxyAPI _ _ _ _); [|apply Hfail]. destruct (NewHub _) as [hub|]; [|done].
    destruct (streqb _ "memory"); [apply Ht|]. destruct (streqb _ "postgres"); [|apply Hfail].
    unfold Open. destruct (w_sqlOpen w); [apply Hfail|].
    destruct (w_ping w); [|by apply fails_defer, Ht].
    apply fails_quiet. intros acts. rewrite !elem_of_cons elem_of_nil. by intros [?|[?|?]]. }
  intros Hr. destruct (Hrun _ _ Hr) as (? & ? & He). split_and!; [done|done|]. intros Hreach.
  rewrite (He Hreach). unfold e. destruct (bind_error _); split; [by intros ? [= ->]|done|done|done].
Qed.

(** ** The configuration contract is enough *)
Lemma collect_keys_Ok ks : ∀ acc,
  Forall (λ k, KID k ≠ EmptyString ∧ Secret k ≠ EmptyString) ks → NoDup (map KID ks) →
  (∀ k, k ∈ ks → acc !! KID k = None) → ∃ m, collect_keys ks acc = Ok m.
Proof.
  induction ks as [|k ks IH]; intros acc Hf Hn Ha; simpl; [by eexists|].
  apply list.Forall_cons in Hf as [[H1%streqb_neq H2%streqb_neq] Hf]. simpl in Hn.
  apply list.NoDup_cons in Hn as [Hk Hn]. rewrite H1 H2 decide_False.
  { rewrite Ha; [left|]. by intros []. }
  apply IH; [done|done|]. intros k' Hk'. rewrite lookup_insert_ne; [|apply Ha; by right].
  intros E. apply Hk. rewrite E. apply list_elem_of_fmap. eauto.
Qed.

Lemma new_verifier_Ok j : jwt_ok j → ∃ v, new_verifier j = Ok v.
Proof.
  intros (Ha & Hs & Hne & Hnd & Hk). unfold new_verifier, NewJWTVerifierHS256. rewrite Ha. cbn [negb streqb].
  rewrite (streqb_refl "HS256") /=. destruct (Z.ltb_spec (ClockSkew j) 0); [lia|].
  rewrite bool_decide_false; [unfold hmac_keys; by destruct (Keys j)|].
  destruct (collect_keys_Ok (hmac_keys j) ∅) as [m ->]; [..|by eexists].
  - unfold hmac_keys. apply List.Forall_map. eapply List.Forall_impl; [|exact Hk]. simpl.
    intros k [? Hb]. split; [done|]. intros E. by rewrite E in Hb.
  - unfold hmac_keys. by rewrite map_map.
  - intros. apply lookup_empty.
Qed.

Definition plaintext_accepted (w : world) (c : Config) : Prop :=
  ∃ b conn,
    Construct.NewRuntimeWithConfig (w_keypair w) (w_readFile w) (w_pem w) (w_listen w) (server_config c) = Ok b ∧
    Construct.NewJobsClientWithConfig (w_keypair w) (w_readFile w) (w_pem w) (w_dial w) (client_config c) = Ok conn ∧
    Construct.b_creds b = Construct.Insecure ∧ Construct.isLoopbackTarget (Construct.cn_target conn) = true.

Lemma plaintext_constructs w c a :
  grpc_ok (cfg_GRPC c) → grpc_Enable (cfg_GRPC c) = true → gtls_Enable (grpc_TLS (cfg_GRPC c)) = false →
  ParseAddr "127.0.0.1" = Some a → Addr_IsLoopback a = true →
  (∀ addr, w_listen w addr = None) → (∀ addr, w_dial w addr = None) → plaintext_accepted w c.
Proof.
  intros Hok Hen Htls Ha Hl Hlis Hdial. destruct (Hok Hen) as (Hb & _ & Hlb).
  specialize (Hlb (or_introl Htls)).
  destruct (Construct.plaintext_target _ a Ha Hl Hlb) as (target & Ht & Hlt).
  unfold plaintext_accepted, Construct.NewRuntimeWithConfig, Construct.NewJobsClientWithConfig.
  cbn [server_config client_config Construct.sc_Addr Construct.sc_ReflectionEnabled Construct.sc_Verifier
    Construct.sc_TLS Construct.s_Enable Construct.cc_Addr Construct.cc_TLS Construct.c_Enable
    Construct.cc_CallTimeout]. unfold blank in Hb. apply streqb_neq in Hb.
  rewrite Hb Htls (Construct.loopback_agree _ Hlb) andb_false_r Ht Hlt Hlis Hdial. simpl.
  eexists _, _. split_and!; [reflexivity|reflexivity|done|done].
Qed.

End properties.

(** ** Examples *)
Definition ex_world : world :=
  mkWorld (ex_sdk None) (ex_sdk None) "(devel)" None None (λ _ _, None) (λ _, Ok "pem") (λ _, true)
    (λ _, None) (λ _, None) ex_run.

Definition ex_cidr (s : string) : option (nat → bool) := Some (λ _, false).
Definition ex_ip (s : string) : option nat := None.
Definition ex_default : @Config ex_parsers := defaultConfig.

Lemma disabled_grpc_never_serves_witness :
  ∃ tr, @run ex_parsers nat ex_cidr ex_ip (λ _, true) ex_world ex_default =
          Some (tr, Some (ESentinel ErrGRPCServerRuntimeRequired)) ∧ never_served tr ∧ Served [] ∈ tr.
Proof.
  destruct (@run ex_parsers nat ex_cidr ex_ip (λ _, true) ex_world ex_default) as [[tr err]|] eqn:E.
  - assert (Served [] ∈ tr) as Hin.
    { vm_compute in E. injection E as <- _. rewrite !elem_of_cons. tauto. }
    destruct (@disabled_grpc_never_serves ex_parsers nat ex_cidr ex_ip (λ _, true) ex_world ex_default tr err
      eq_refl E) as (_ & Hn & He).
    exists tr. rewrite (proj2 (He (ex_intro _ [] Hin)) eq_refl). split; [reflexivity|]. split; [exact Hn|exact Hin].
  - exfalso. vm_compute in E. discriminate E.
Defined.
