(* ===== verification/App.v ===== *)
(** * One request through the whole application

    The handler that [cmd/api/main.go] assembles: request-id sanitising, request
    ids, trusted proxies, metrics, access log, panic recovery, the root router,
    security headers, CORS and the API with its own chain.  It composes the
    models of [Middleware.v], [Router.v] and [Observability.v] in the order of
    the code, and joins them with the configuration that [Load] accepts. *)
From S2P Require Import Prelude.
From S2P Require Import GoErrors.
From S2P Require Import Entity.
From S2P Require Import GoStrings.
From S2P Require Import UserRepo.
From S2P Require Import HttpErrors.
From S2P Require Import HttpUtils.
From S2P Require Import Security.
From S2P Require Import Middleware.
From S2P Require Import Handlers.
From S2P Require Import Config.
From S2P Require Import ConfigLoad.
From S2P Require Import Router.
From S2P Require Import Observability.
From S2P Require Import GrpcTransport.
From S2P Require Import Wiring.

(** ** The application *)
Section application.
  (** [net.ParseIP] and [net.SplitHostPort]. *)
  Context {IP : Type} (ParseIP : string → option IP) (SplitHostPort : string → option string).

Record application := mkApp {
  ap_proxy : Proxy.ProxyAPI (IP:=IP);
  ap_cors : CORS.CORSAPI;
  ap_security : SecurityHeaders.SecurityHeadersConfig;
  ap_rules : gmap string RouteRule;
  ap_debug : bool;
  ap_Verify : string → res error Principal;
  ap_readiness : Health.Readiness;
}.

(** What [run] builds from the configuration before it starts the server. *)
Definition new_app `{GoParsers} (ParseCIDR : string → option (IP → bool)) (To4 : IP → bool)
    (Verify : string → res error Principal) (rd : Health.Readiness) (cfg : Config) : res error application :=
  match NewProxyAPI ParseCIDR ParseIP To4 (cfg_Proxy cfg) with
  | Err e => Err e
  | Ok proxy =>
      match Auth.NewAuthorizeAPI DefaultPolicy with
      | Err e => Err e
      | Ok rules => Ok (mkApp proxy (CORS.NewCORS (cfg_CORS cfg)) (cfg_SecurityHeaders cfg) rules
                          (http_Debug (cfg_HTTP cfg)) Verify rd)
      end
  end.

(** A request: method, path (its segments for the routers and the text for
    documents and logs), the headers that are read, the connection. *)
Record http_req := mkHttpReq {
  q_method : string; q_path : list string; q_url : string; q_authz : string; q_origin : string;
  q_acrMethod : string; q_acrHeaders : string; q_conn : Proxy.conn; q_duration : Z }.

(** What a handler does with the response: it returns, or it panics. *)
Inductive outcome : Type :=
| Returned (w : response) (err : option error)
| Panicked (w : response).

(** What one request meets: a fresh id, the limiter's reservation, the
    operation and the debug page behind the routers, [net/http]'s own answers
    (plain errors and redirects), encodings and sizes. *)
Record env := mkEnv {
  e_fresh : string; e_resv : RateLimit.reservation;
  e_perform : API.api_call → response → outcome; e_page : Root.debug_page → response → outcome;
  e_mux : response → response; e_redirect : response → response;
  e_doc : Health.response → string; e_size : body → Z; e_problem : Z; e_flusher : Recorder.flusher }.

(** The result of the routers: state, response, whether the handler panicked,
    the pattern left on the request, the operation that ran. *)
Record routed := mkRouted {
  ro_state : API.chain_state; ro_response : response; ro_panicked : bool; ro_pattern : string;
  ro_performed : option API.api_call }.

(** [AppHandler.ServeHTTP] around a handler that may panic. *)
Definition finish (r : request) (o : outcome) : response * bool :=
  match o with
  | Returned w err => (ServeHTTP w r err, false)
  | Panicked w => (w, true)
  end.

(** The pattern the API mux leaves on the request; the root's, if it has none. *)
Definition api_pattern (q : http_req) : string :=
  match Mux.Handler (API.NewRouter true) (q_method q) (q_path q) with
  | Mux.Handle p _ _ | Mux.Redirect (Some p) => Mux.pt_string p
  | Mux.Redirect None | Mux.NoHandler => "/"
  end.

(** The API under CORS and security headers. *)
Definition serve_api (a : application) (e : env) (q : http_req) (rid scheme : string) (w : response)
    (s : API.chain_state) : routed :=
  let r := mkRequest (q_url q) (Some rid) in
  let w := CORS.with_header w (SecurityHeaders.SecurityHeaders (ap_security a) (Some scheme)
             (Proxy.overTLS (q_conn q)) (rsHeader w)) in
  match CORS.CORS (ap_cors a) w (CORS.mkCorsReq (q_method q) (q_origin q) (q_acrMethod q) (q_acrHeaders q) r) with
  | CORS.CorsAnswer w => mkRouted s w false "/" None
  | CORS.CorsNext h =>
      let w := CORS.with_header w h in
      match API.ServeAPI true (ap_Verify a) (ap_rules a) (e_resv e) (q_method q) (q_path q) (q_authz q) s with
      | (s, API.NotFoundProblem) => mkRouted s (WriteProblem w r (problem 404 "not found")) false "/" None
      | (s, API.RedirectAnswer) => mkRouted s (e_redirect e w) false (api_pattern q) None
      | (s, API.HandlerAnswer (Err err)) => mkRouted s (ServeHTTP w r (Some err)) false (api_pattern q) None
      | (s, API.HandlerAnswer (Ok op)) =>
          let '(w, panicked) := finish r (e_perform e op w) in
          mkRouted s w panicked (api_pattern q) (Some op)
      end
  end.

(** A probe's document. *)
Definition probe (e : env) (d : Health.response) (w : response) : response :=
  let h := <["Content-Type" := ["application/json; charset=utf-8"]]>
             (<["Cache-Control" := ["no-store"]]> (rsHeader w)) in
  mkResponse h (Some (default (Health.hr_code d) (rsStatus w))) (BytesBody (e_doc e d)).

Definition serve_root (a : application) (e : env) (q : http_req) (rid scheme : string) (w : response)
    (s : API.chain_state) : routed :=
  let r := mkRequest (q_url q) (Some rid) in
  match Mux.Handler (Root.NewRoot (ap_debug a)) (q_method q) (q_path q) with
  | Mux.NoHandler | Mux.Redirect None => mkRouted s (e_mux e w) false "" None
  | Mux.Redirect (Some p) => mkRouted s (e_redirect e w) false (Mux.pt_string p) None
  | Mux.Handle p Root.ToApp _ => serve_api a e q rid scheme w s
  | Mux.Handle p _ _ =>
      match Root.ServeRoot (ap_debug a) true (ap_Verify a) (ap_rules a) (e_resv e)
              (q_method q) (q_path q) (q_authz q) s with
      | (s, Root.ProbeAnswer (Some Root.Livez)) =>
          mkRouted s (probe e Health.LivenessHandler w) false "GET /livez" None
      | (s, Root.ProbeAnswer (Some Root.Readyz)) =>
          mkRouted s (probe e (Health.ReadinessHandler (ap_readiness a)) w) false "GET /readyz" None
      | (s, Root.ProbeAnswer None) => mkRouted s (e_mux e w) false "" None
      | (s, Root.DebugAnswer (Err err)) => mkRouted s (ServeHTTP w r (Some err)) false (Mux.pt_string p) None
      | (s, Root.DebugAnswer (Ok (Some page))) =>
          let '(w, panicked) := finish r (e_page e page w) in
          mkRouted s w panicked (Mux.pt_string p) None
      | (s, _) =>
          (* A preflight request reaches the inner mux as it is, which resets its pattern;
             any other is a copy made by [Authenticate]. *)
          mkRouted s (e_mux e w) false (if streqb (q_method q) "OPTIONS" then "" else Mux.pt_string p) None
      end
  end.

(** The writes that leave a response behind: nothing, or the status and a body. *)
Definition writes (size : body → Z) (w : response) : list Recorder.wop :=
  match rsStatus w with
  | None => []
  | Some st => Recorder.OpWriteHeader st :: match rsBody w with
                                            | NoBody => []
                                            | b => [Recorder.OpWrite (size b)]
                                            end
  end.

Record served := mkServed {
  sv_response : response; sv_log : list Chain.record; sv_state : API.chain_state;
  sv_metrics : Metrics.HTTPMetrics; sv_performed : option API.api_call }.

(** The recovery's problem, on the response the handler left. *)
Definition recovered (panicked : bool) (w : response) (r : request) : response :=
  if panicked then WriteProblem w r (problem 500 "internal server error") else w.

(** The chain, from the outside in.  The outer recovery has nothing to recover
    from: the inner one catches every panic of the routers. *)
Definition Handle (a : application) (e : env) (q : http_req) (s : API.chain_state) (m : Metrics.HTTPMetrics) : served :=
  let rid := RequestID.RequestIDMiddleware (e_fresh e)
               (Proxy.SanitizeRequestIDHeader ParseIP SplitHostPort (ap_proxy a) (q_conn q)) in
  let w := mkResponse {[ HeaderName := [rid] ]} None NoBody in
  let info := Proxy.TrustProxy ParseIP SplitHostPort (ap_proxy a) (q_conn q) in
  let ro := serve_root a e q rid (Proxy.Scheme info) w s in
  let r := Chain.mkRequest (q_method q) (ro_pattern ro) (q_url q) rid (Some (Proxy.Scheme info)) (q_duration q) in
  let b := Chain.mkBehaviour (writes (e_size e) (ro_response ro)) (ro_panicked ro) in
  let '(_, log, m) := Chain.Serve (e_flusher e) (e_problem e) r b Recorder.fresh m in
  let w := recovered (ro_panicked ro) (ro_response ro) (mkRequest (q_url q) (Some rid)) in
  mkServed w log (ro_state ro) m (ro_performed ro).
End application.

(** ** Headers that the outer layers set *)

(** Set before the routers run, and by CORS. *)
Definition base_headers : list string :=
  [HeaderName; "X-Content-Type-Options"; "X-Frame-Options"; "Referrer-Policy"; "Strict-Transport-Security"].
Definition cors_headers : list string := ["Access-Control-Allow-Origin"; "Access-Control-Allow-Credentials"].

Definition keeps (ks : list string) (h h' : gmap string (list string)) : Prop := ∀ k, k ∈ ks → h' !! k = h !! k.
Definition has_rid (rid : string) (w : response) : Prop := rsHeader w !! HeaderName = Some [rid].
(** The status, if one was written, is a final one. *)
Definition final (w : response) : Prop := ∀ st, rsStatus w = Some st → (200 <= st)%Z.

#[export] Instance keeps_preorder ks : PreOrder (keeps ks).
Proof. split; [by intros h k|]. intros h1 h2 h3 H1 H2 k Hk. by rewrite (H2 k Hk) (H1 k Hk). Qed.

Lemma keeps_weaken ks ks' h h' : ks' ⊆ ks → keeps ks h h' → keeps ks' h h'.
Proof. intros Hs Hk k Hin. by apply Hk, Hs. Qed.

Lemma keeps_insert ks k v h : k ∉ ks → keeps ks h (<[k := v]> h).
Proof. intros Hk k' Hin. rewrite lookup_insert_ne; [by intros ->|done]. Qed.

Lemma keeps_AddVary ks h t : "Vary" ∉ ks → keeps ks h (AddVary h t).
Proof. intros Hk k Hin. apply UsersHandler.AddVary_lookup. by intros ->. Qed.

Lemma keeps_fold ks (l : list (string * string)) : ∀ h,
  Forall (λ kv, kv.1 ∉ ks) l → keeps ks h (foldl (λ h kv, <[kv.1 := [kv.2]]> h) h l).
Proof.
  induction l as [|kv l IH]; intros h Hf; [reflexivity|]. apply list.Forall_cons in Hf as [Hkv Hf]. simpl.
  etransitivity; [by apply (keeps_insert ks kv.1 [kv.2])|by apply IH].
Qed.

Definition all_headers : list string := base_headers ++ cors_headers.

(** A header name that is not in a concrete list. *)
Ltac absent_in H :=
  cbv [all_headers base_headers cors_headers HeaderName app] in H;
  rewrite ?elem_of_cons ?elem_of_nil in H; destruct_or? H; discriminate || done.
Ltac present := cbv [all_headers base_headers cors_headers]; repeat (first [left; reflexivity | right]).
Ltac absent := let H := fresh in intros H; absent_in H.

(** What the mapping of an error can add, and its status. *)
Definition mapped_ok (mp : MappedProblem) : Prop :=
  Forall (λ kv, kv.1 ∈ ["Allow"; "WWW-Authenticate"; "Retry-After"]) (mpHeaders mp) ∧
  (400 <= prStatus (mpProblem mp))%Z.

Lemma plain_ok st d : (400 <= st)%Z → mapped_ok (plain st d).
Proof. intros Hst. split; [constructor|exact Hst]. Qed.

#[local] Hint Extern 2 (mapped_ok (plain _ _)) => apply plain_ok; lia : go.

Lemma map_late_ok err : mapped_ok (map_late err).
Proof.
  unfold map_late. repeat (case_match; [solve [auto with go]|]). case_match.
  - split; [|simpl; lia]. repeat constructor.
  - case_match; [auto with go|]. split; [constructor|simpl; lia].
Qed.

Lemma map_json_ok err : mapped_ok (map_json err).
Proof.
  unfold map_json. cbv zeta.
  repeat match goal with |- mapped_ok (if ?b then _ else _) => destruct b; [solve [apply plain_ok; lia]|] end.
  apply map_late_ok.
Qed.

Lemma map_transport_ok err : mapped_ok (map_transport err).
Proof.
  unfold map_transport. do 3 (case_match; [auto with go|]). case_match; [auto with go|].
  do 3 (case_match; [auto with go|]). apply map_json_ok.
Qed.

Lemma MapError_ok err : mapped_ok (MapError err).
Proof.
  unfold MapError. destruct err as [err|]; [|split; [constructor|simpl; lia]].
  destruct (errors_As as_bad_request err); [auto with go|].
  destruct (errors_As as_method_not_allowed err) as [allow|].
  { split; [|simpl; lia]. simpl. destruct (streqb allow ""); repeat constructor. }
  destruct (errors_As as_unauthorized err); [split; [repeat constructor|simpl; lia]|].
  destruct (errors_As as_forbidden err); [auto with go|].
  destruct (errors_As as_validation err); [split; [constructor|simpl; lia]|]. apply map_transport_ok.
Qed.

Lemma WriteProblem_ok rid w r p :
  has_rid rid w → rid ≠ EmptyString → final w → (prStatus p = 0 ∨ 200 <= prStatus p)%Z →
  keeps all_headers (rsHeader w) (rsHeader (WriteProblem w r p)) ∧ final (WriteProblem w r p) ∧
  is_Some (rsStatus (WriteProblem w r p)).
Proof.
  intros Hr Hne Hf Hp. unfold WriteProblem. cbv zeta. cbn [rsHeader rsStatus]. split_and!; [| |by eexists].
  - assert (streqb (header_get (rsHeader w) HeaderName) "" = false) as ->.
    { unfold header_get. rewrite Hr. by apply streqb_neq. }
    rewrite andb_false_r. apply keeps_insert. absent.
  - intros st [= <-]. destruct (rsStatus w) as [st|] eqn:E; [by apply Hf|]. simpl.
    destruct (Z.eqb_spec (prStatus p) 0); lia.
Qed.

Lemma ServeHTTP_ok rid w r err :
  has_rid rid w → rid ≠ EmptyString → final w →
  keeps all_headers (rsHeader w) (rsHeader (ServeHTTP w r err)) ∧ final (ServeHTTP w r err).
Proof.
  intros Hr Hne Hf. unfold ServeHTTP. destruct err as [err|]; [|done].
  destruct (MapError_ok (Some err)) as [Hh Hs]. cbv zeta.
  set (h := foldl _ _ _).
  assert (keeps all_headers (rsHeader w) h) as Hk.
  { apply keeps_fold. eapply list.Forall_impl; [exact Hh|]. simpl. intros kv Hin Hin'.
    rewrite !elem_of_cons elem_of_nil in Hin.
    destruct_or! Hin; try done; rewrite Hin in Hin'; absent_in Hin'. }
  destruct (WriteProblem_ok rid (mkResponse h (rsStatus w) (rsBody w)) r (mpProblem (MapError (Some err))))
    as (Hk' & Hf' & _); [|done|done|right; lia|].
  { unfold has_rid. cbn [rsHeader]. rewrite (Hk HeaderName); [by left|done]. }
  split; [|done]. etransitivity; [exact Hk|exact Hk'].
Qed.

(** ** The layers keep them *)
Lemma SecurityHeaders_rid cfg info tls h :
  SecurityHeaders.SecurityHeaders cfg info tls h !! HeaderName = h !! HeaderName.
Proof.
  unfold SecurityHeaders.SecurityHeaders. cbv zeta. destruct (SecurityHeaders.Enable cfg); [|done].
  repeat case_match; by rewrite ?lookup_insert_ne.
Qed.

(** What an enabled configuration always adds. *)
Lemma SecurityHeaders_set cfg info tls h :
  SecurityHeaders.Enable cfg = true →
  let h' := SecurityHeaders.SecurityHeaders cfg info tls h in
  h' !! "X-Content-Type-Options" = Some ["nosniff"] ∧ h' !! "X-Frame-Options" = Some ["DENY"] ∧
  (SecurityHeaders.ReferrerPolicy cfg ≠ EmptyString →
   h' !! "Referrer-Policy" = Some [SecurityHeaders.ReferrerPolicy cfg]) ∧
  (info = Some "https" → SecurityHeaders.hstsEnable (SecurityHeaders.HSTS cfg) = true →
   (0 < SecurityHeaders.hstsMaxAge (SecurityHeaders.HSTS cfg))%Z →
   is_Some (h' !! "Strict-Transport-Security")).
Proof.
  intros He. unfold SecurityHeaders.SecurityHeaders. rewrite He. cbv zeta.
  set (h1 := if streqb _ _ then _ else _).
  assert (h1 !! "X-Content-Type-Options" = Some ["nosniff"]) as H1.
  { unfold h1. destruct (streqb _ _); by simplify_map_eq. }
  assert (SecurityHeaders.ReferrerPolicy cfg ≠ EmptyString →
    h1 !! "Referrer-Policy" = Some [SecurityHeaders.ReferrerPolicy cfg]) as H2.
  { intros Hr%streqb_neq. unfold h1. rewrite Hr. by simplify_map_eq. }
  clearbody h1. set (h2 := <["X-Frame-Options" := _]> h1).
  assert (∀ v, let h3 := <["Strict-Transport-Security" := v]> h2 in
    h3 !! "X-Content-Type-Options" = h2 !! "X-Content-Type-Options" ∧
    h3 !! "X-Frame-Options" = h2 !! "X-Frame-Options" ∧ h3 !! "Referrer-Policy" = h2 !! "Referrer-Policy") as Hins.
  { intros v h3. unfold h3. split_and!; apply lookup_insert_ne; discriminate. }
  assert (h2 !! "X-Content-Type-Options" = Some ["nosniff"] ∧ h2 !! "X-Frame-Options" = Some ["DENY"] ∧
    h2 !! "Referrer-Policy" = h1 !! "Referrer-Policy") as (F1 & F2 & F3).
  { unfold h2. split_and!; [rewrite lookup_insert_ne; [discriminate|exact H1]|apply lookup_insert_eq|
      apply lookup_insert_ne; discriminate]. }
  rewrite -F3 in H2. clearbody h2.
  destruct (_ && _)%bool eqn:Hh.
  - destruct (match info with Some scheme => streqb scheme "https" | None => tls end) eqn:Es.
    + destruct (Hins ["max-age=" +:+ Itoa (SecurityHeaders.hstsMaxAge (SecurityHeaders.HSTS cfg) ÷ second)]) as (-> & -> & ->).
      split_and!; [done..|]. intros _ _ _. by rewrite lookup_insert_eq.
    + split_and!; [done..|]. intros ->. by rewrite streqb_refl in Es.
  - split_and!; [done..|]. intros _ Hen Hpos%Z.ltb_lt. by rewrite Hen Hpos in Hh.
Qed.

Definition cors_result (c : CORS.CORSAPI) (w : response) (r : CORS.cors_req) (out : CORS.cors_out) : Prop :=
  match out with
  | CORS.CorsNext h =>
      keeps base_headers (rsHeader w) h ∧
      (CORS.cOrigin r = EmptyString ∨ CORS.isOriginAllowed c (CORS.cOrigin r) = true)
  | CORS.CorsAnswer w' => keeps base_headers (rsHeader w) (rsHeader w') ∧ final w'
  end.

Lemma denied_result rid c w0 w r detail :
  has_rid rid w → rid ≠ EmptyString → rsStatus w = None → keeps base_headers (rsHeader w0) (rsHeader w) →
  cors_result c w0 r (CORS.denied w r detail).
Proof.
  intros Hr Hne Hs Hk. unfold CORS.denied. cbn [cors_result].
  destruct (WriteProblem_ok rid w (CORS.cBase r) (problem 403 detail)) as (Hk' & Hf & _);
    [done|done|by intros st; rewrite Hs|right; simpl; lia|].
  split; [|done]. etransitivity; [exact Hk|]. eapply keeps_weaken; [|exact Hk'].
  intros x Hx. unfold all_headers. apply elem_of_app. by left.
Qed.

Lemma CORS_ok rid c w r :
  has_rid rid w → rid ≠ EmptyString → rsStatus w = None → cors_result c w r (CORS.CORS c w r).
Proof.
  intros Hr Hne Hs. unfold CORS.CORS.
  destruct (streqb (CORS.cOrigin r) "") eqn:Eo; [apply streqb_eq in Eo; by split; [reflexivity|left]|].
  destruct (CORS.isOriginAllowed c (CORS.cOrigin r)) eqn:Ea; cbn [negb]; [|by apply (denied_result rid)].
  cbv zeta. set (w1 := if CORS.allowAny c then w else _).
  assert (keeps base_headers (rsHeader w) (rsHeader w1) ∧ rsStatus w1 = None) as [Hk1 Hs1].
  { unfold w1. destruct (CORS.allowAny c); [done|]. split; [|done]. apply keeps_AddVary. absent. }
  assert (has_rid rid w1) as Hr1 by (unfold has_rid; rewrite (Hk1 HeaderName); [by left|exact Hr]).
  clearbody w1. destruct (_ && _)%bool; [by apply (denied_result rid)|].
  set (h := if CORS.allowCredentials c then _ else _).
  assert (keeps base_headers (rsHeader w1) h) as Hk2.
  { unfold h. destruct (CORS.allowCredentials c); [etransitivity; [|apply keeps_insert; absent]|];
      apply keeps_insert; absent. }
  assert (keeps base_headers (rsHeader w) h) as Hk by (etransitivity; [exact Hk1|exact Hk2]).
  assert (h !! HeaderName = Some [rid]) as Hrh by (rewrite (Hk HeaderName); [by left|exact Hr]).
  clearbody h. destruct (_ && _)%bool; [|by split; [exact Hk|right]].
  unfold CORS.preflight. destruct (negb _); [by apply (denied_result rid)|].
  destruct (negb _); [by apply (denied_result rid)|]. cbv zeta. cbn [cors_result rsHeader]. split.
  - etransitivity; [exact Hk|]. do 2 (etransitivity; [|apply keeps_AddVary; absent]).
    cbn [CORS.with_header rsHeader].
    destruct (0 <? _)%Z; [etransitivity; [|apply keeps_insert; absent]|];
      (etransitivity; [|apply keeps_insert; absent]); apply keeps_insert; absent.
  - intros st [= <-]. cbn [CORS.with_header rsStatus]. rewrite Hs1. simpl. lia.
Qed.

Definition outcome_response (o : outcome) : response := match o with Returned w _ | Panicked w => w end.
Definition outcome_ok (ks : list string) (w : response) (o : outcome) : Prop :=
  keeps ks (rsHeader w) (rsHeader (outcome_response o)) ∧ final (outcome_response o).

(** What is assumed of the operations behind the routers and of [net/http]'s
    own answers: they leave the outer layers' headers and write final statuses;
    a fresh id is an acceptable one. *)
Record env_ok (e : env) : Prop := {
  eo_fresh : RequestID.sanitizeRequestID (e_fresh e) = Some (e_fresh e);
  eo_perform : ∀ op w, rsStatus w = None → outcome_ok all_headers w (e_perform e op w);
  eo_page : ∀ page w, rsStatus w = None → outcome_ok [HeaderName] w (e_page e page w);
  eo_mux : ∀ w, rsStatus w = None → outcome_ok [HeaderName] w (Panicked (e_mux e w));
  eo_redirect : ∀ w, rsStatus w = None → outcome_ok all_headers w (Panicked (e_redirect e w));
}.

Lemma finish_ok ks rid w r o :
  has_rid rid w → rid ≠ EmptyString → HeaderName ∈ ks → ks ⊆ all_headers → outcome_ok ks w o →
  keeps ks (rsHeader w) (rsHeader (finish r o).1) ∧ final (finish r o).1.
Proof.
  intros Hr Hne Hin Hsub [Hk Hf]. destruct o as [w' err|w']; [|done]. simpl in *.
  destruct (ServeHTTP_ok rid w' r err) as [Hk' Hf']; [|done|done|].
  { unfold has_rid. by rewrite (Hk _ Hin). }
  split; [|done]. etransitivity; [exact Hk|]. by eapply keeps_weaken.
Qed.

(** ** The routers under the outer layers *)
Section routers.
  Context {IP : Type} (a : application (IP:=IP)) (e : env) (q : http_req) (rid scheme : string).
  Hypothesis Hrules : ap_rules a = API.policy_rules.
  Hypothesis Hrid : rid ≠ EmptyString.

(** Why an operation may run. *)
Definition permitted (op : API.api_call) : Prop :=
  q_method q ≠ "OPTIONS" ∧
  (q_origin q = EmptyString ∨ CORS.isOriginAllowed (ap_cors a) (q_origin q) = true) ∧
  ∃ token p, Auth.parseBearerToken (q_authz q) = Ok token ∧ ap_Verify a token = Ok p ∧
    (API.admin_only op = true → pRole p = RoleAdmin).

Record routed_ok (ks : list string) (h : gmap string (list string)) (s : API.chain_state) (ro : routed) : Prop := {
  ok_keeps : keeps ks h (rsHeader (ro_response ro));
  ok_final : final (ro_response ro);
  ok_sem : Bulkhead.sem (API.cs_bulkhead (ro_state ro)) = Bulkhead.sem (API.cs_bulkhead s);
  ok_inFlight : Bulkhead.inFlight (API.cs_bulkhead (ro_state ro)) = Bulkhead.inFlight (API.cs_bulkhead s);
  ok_permitted : ∀ op, ro_performed ro = Some op → permitted op;
}.

Lemma has_rid_keeps ks w w' :
  HeaderName ∈ ks → keeps ks (rsHeader w) (rsHeader w') → has_rid rid w → has_rid rid w'.
Proof. intros Hin Hk Hr. unfold has_rid. by rewrite (Hk _ Hin). Qed.

Lemma base_all : base_headers ⊆ all_headers.
Proof. intros x Hx. unfold all_headers. apply elem_of_app. by left. Qed.

Lemma serve_api_ok w s : env_ok e → has_rid rid w → rsStatus w = None →
  let h := SecurityHeaders.SecurityHeaders (ap_security a) (Some scheme) (Proxy.overTLS (q_conn q)) (rsHeader w) in
  routed_ok base_headers h s (serve_api a e q rid scheme w s).
Proof using Hrules Hrid.
  intros He Hr Hs h. unfold serve_api. cbv zeta. fold h.
  set (w1 := CORS.with_header w h). set (r := mkRequest (q_url q) (Some rid)).
  assert (has_rid rid w1) as Hr1 by (unfold has_rid, w1; simpl; unfold h; by rewrite SecurityHeaders_rid).
  pose proof (CORS_ok rid (ap_cors a) w1 (CORS.mkCorsReq (q_method q) (q_origin q) (q_acrMethod q)
    (q_acrHeaders q) r) Hr1 Hrid Hs) as Hc.
  destruct (CORS.CORS _ _ _) as [h'|w']; cbn [cors_result CORS.cOrigin] in Hc; [|by destruct Hc; split].
  destruct Hc as [Hk Horigin]. set (w2 := CORS.with_header w1 h').
  assert (has_rid rid w2) as Hr2 by (by apply (has_rid_keeps base_headers w1 w2 ltac:(by left) Hk)).
  assert (rsStatus w2 = None) as Hs2 by done. assert (final w2) as Hf2 by (intros st; by rewrite Hs2).
  destruct (API.ServeAPI _ _ _ _ _ _ _ _) as [s' ans] eqn:Hserve. rewrite Hrules in Hserve.
  destruct (API.api_mediated _ _ _ _ _ _ _ _ _ Hserve) as (Hmed & Hsem & Hin).
  assert (∀ w3, keeps all_headers (rsHeader w2) (rsHeader w3) → keeps base_headers h (rsHeader w3)) as Hall.
  { intros w3 Hk3. etransitivity; [exact Hk|]. eapply keeps_weaken; [apply base_all|exact Hk3]. }
  destruct ans as [| |[op|err]].
  - destruct (WriteProblem_ok rid w2 r (problem 404 "not found")) as (Hk3 & Hf3 & _);
      [done..|right; simpl; lia|]. by split; [apply Hall| | | |].
  - destruct (eo_redirect e He w2 Hs2) as [Hk3 Hf3]. by split; [apply Hall| | | |].
  - destruct (finish_ok all_headers rid w2 r (e_perform e op w2)) as [Hk3 Hf3];
      [done|done|by left|done|by apply (eo_perform e He)|].
    destruct (finish r (e_perform e op w2)) as [w3 panicked]. split; [by apply Hall|done..|].
    intros op' [= <-]. destruct (Hmed op eq_refl) as (Hm & _ & Ht).
    exact (conj Hm (conj Horigin Ht)).
  - destruct (ServeHTTP_ok rid w2 r (Some err)) as [Hk3 Hf3]; [done..|]. by split; [apply Hall| | | |].
Qed.

Lemma keeps_rid ks h h' : HeaderName ∈ ks → keeps ks h h' → keeps [HeaderName] h h'.
Proof. intros Hin Hk k ->%list_elem_of_singleton. by apply Hk. Qed.

Lemma probe_ok d w : rsStatus w = None → (200 <= Health.hr_code d)%Z →
  keeps [HeaderName] (rsHeader w) (rsHeader (probe e d w)) ∧ final (probe e d w).
Proof.
  intros Hs Hd. split.
  - unfold probe. cbv zeta. cbn [rsHeader]. etransitivity; apply keeps_insert; absent.
  - intros st [= <-]. rewrite Hs. exact Hd.
Qed.

(** Either the API answers, or no operation runs and the state only counts. *)
Lemma serve_root_ok w s : env_ok e → has_rid rid w → rsStatus w = None →
  routed_ok [HeaderName] (rsHeader w) s (serve_root a e q rid scheme w s).
Proof using Hrules Hrid.
  intros He Hr Hs. assert (final w) as Hf by (intros st; by rewrite Hs).
  destruct (eo_mux e He w Hs) as [Hmk Hmf]. destruct (eo_redirect e He w Hs) as [Hrk%(keeps_rid _ _ _ ltac:(by left)) Hrf].
  unfold serve_root. cbv zeta. destruct (Mux.Handler _ _ _) as [p t b|[p|]|] eqn:Hroot; [|by split..].
  destruct t.
  - destruct (serve_api_ok w s He Hr Hs) as [Hk ? ? ? ?]. split; [|done..].
    etransitivity; [|by apply (keeps_rid base_headers); [by left|exact Hk]].
    intros k ->%list_elem_of_singleton. apply SecurityHeaders_rid.
  - unfold Root.ServeRoot. rewrite Hroot.
    destruct (Mux.Handler Root.NewHealthRouter _ _) as [? [] ?|?|]; [| |by split..].
    + destruct (probe_ok Health.LivenessHandler w Hs) as [? ?]; [simpl; lia|]. by split.
    + destruct (probe_ok (Health.ReadinessHandler (ap_readiness a)) w Hs) as [? ?]; [|by split].
      destruct (Health.ReadinessHandler_code (ap_readiness a)) as [-> | ->]; lia.
  - unfold Root.ServeRoot. rewrite Hroot. destruct (Auth.Authenticate _ _ _ _) as [c [[page|]|err]].
    + destruct (finish_ok [HeaderName] rid w (mkRequest (q_url q) (Some rid)) (e_page e page w)) as [Hk Hf'];
        [done|done|by left|by intros x ->%list_elem_of_singleton; left|by apply (eo_page e He)|].
      destruct (finish _ _). by split.
    + by split.
    + destruct (ServeHTTP_ok rid w (mkRequest (q_url q) (Some rid)) (Some err)) as [Hk Hf']; [done..|].
      split; [|done..]. eapply keeps_rid; [|exact Hk]. by left.
Qed.
End routers.

(** ** What the client gets and what is logged *)
Lemma run_writes f size w : final w →
  let sr := Recorder.run f (Recorder.newStatusRecorder Recorder.fresh) (writes size w) in
  Recorder.status sr = default 200%Z (rsStatus w) ∧ Recorder.wroteHeader sr = bool_decide (is_Some (rsStatus w)).
Proof.
  intros Hf. unfold writes. destruct (rsStatus w) as [st|]; [|done].
  rewrite bool_decide_eq_true_2; [by eexists|]. by destruct (rsBody w).
Qed.

Lemma final_writes size w : final w → Recorder.final_ops (writes size w).
Proof.
  intros Hf. unfold writes, Recorder.final_ops. destruct (rsStatus w) as [st|] eqn:E; [|constructor].
  constructor; [by apply Hf|]. destruct (rsBody w); repeat constructor.
Qed.

Lemma Serve_status f n r size w panicked m raw log m' rq :
  final w →
  Chain.Serve f n r (Chain.mkBehaviour (writes size w) panicked) Recorder.fresh m = (raw, log, m') →
  Recorder.client_status raw = default 200%Z (rsStatus (recovered panicked w rq)).
Proof.
  intros Hf. unfold Chain.Serve, Chain.Logger, Chain.Recover. cbn [Chain.bh_ops Chain.bh_panics].
  destruct (run_writes f size w Hf) as [Hst Hwh].
  destruct (Recorder.run_ok f (writes size w) _ Recorder.newStatusRecorder_ok (final_writes size w Hf)) as [Hok _].
  set (sr := Recorder.run f _ (writes size w)) in *. destruct panicked; cbv zeta; intros [= <- _ _].
  - assert (Recorder.final_ops (Chain.problem_ops n)) as Hp by (repeat constructor; lia).
    destruct (Recorder.run_ok f _ sr Hok Hp) as [Hok' Hkeep]. rewrite -(Recorder.recorder_ok_status _ Hok').
    unfold recovered, WriteProblem, Recorder.Status. cbn [rsStatus]. simpl prStatus.
    destruct (rsStatus w) as [st|] eqn:E.
    + rewrite bool_decide_eq_true_2 in Hwh; [by eexists|]. destruct (Hkeep Hwh) as [_ ->]. exact Hst.
    + rewrite bool_decide_eq_false_2 in Hwh; [by intros []|].
      unfold Chain.problem_ops. simpl. unfold Recorder.Write, Recorder.WriteHeader. by rewrite Hwh.
  - rewrite -(Recorder.recorder_ok_status _ Hok). exact Hst.
Qed.

(** ** End to end *)
Section end_to_end.
  Context {IP : Type} (ParseIP : string → option IP) (SplitHostPort : string → option string).

(** What was built is what was configured. *)
Lemma new_app_Ok `{GoParsers} ParseCIDR To4 Verify rd c a :
  new_app ParseIP ParseCIDR To4 Verify rd c = Ok a →
  ap_rules a = API.policy_rules ∧ ap_security a = cfg_SecurityHeaders c.
Proof.
  unfold new_app, API.policy_rules. destruct (NewProxyAPI _ _ _ _) as [px|]; [|discriminate].
  destruct (Auth.NewAuthorizeAPI DefaultPolicy) as [rules|]; [|discriminate].
  intros Hn. injection Hn as <-. split; reflexivity.
Qed.

(** The id of a request. *)
Lemma request_id_ok p e c rid : env_ok e →
  rid = RequestID.RequestIDMiddleware (e_fresh e) (Proxy.SanitizeRequestIDHeader ParseIP SplitHostPort p c) →
  RequestID.sanitizeRequestID rid = Some rid ∧ rid ≠ EmptyString ∧
  (Proxy.isTrustedProxy ParseIP p (Proxy.parseRemoteIP ParseIP SplitHostPort (Proxy.RemoteAddr c)) = false →
   rid = e_fresh e).
Proof.
  intros He ->. unfold RequestID.RequestIDMiddleware.
  set (hdr := Proxy.SanitizeRequestIDHeader _ _ _ _).
  assert (RequestID.sanitizeRequestID (match RequestID.sanitizeRequestID hdr with Some rid => rid | None => e_fresh e end) =
    Some (match RequestID.sanitizeRequestID hdr with Some rid => rid | None => e_fresh e end)) as Hs.
  { destruct (RequestID.sanitizeRequestID hdr) as [rid|] eqn:E; [|apply (eo_fresh e He)].
    by eapply RequestIDs.sanitizeRequestID_idem. }
  split_and!; [exact Hs| |].
  - by apply streqb_neq, (Interceptors.sanitize_nonempty _ _ Hs).
  - intros Ht. unfold hdr, Proxy.SanitizeRequestIDHeader. by rewrite Ht orb_true_r.
Qed.

Lemma Handle_log a e q s m :
  ap_rules a = API.policy_rules → env_ok e →
  int64_ok (Metrics.inFlight m) → int64_ok (Metrics.inFlight m + 1) →
  let rid := RequestID.RequestIDMiddleware (e_fresh e)
               (Proxy.SanitizeRequestIDHeader ParseIP SplitHostPort (ap_proxy a) (q_conn q)) in
  let w := mkResponse {[ HeaderName := [rid] ]} None NoBody in
  let scheme := Proxy.Scheme (Proxy.TrustProxy ParseIP SplitHostPort (ap_proxy a) (q_conn q)) in
  let ro := serve_root a e q rid scheme w s in
  let v := Handle ParseIP SplitHostPort a e q s m in
  keeps all_headers (rsHeader (ro_response ro)) (rsHeader (sv_response v)) ∧
  sv_state v = ro_state ro ∧ sv_performed v = ro_performed ro ∧
  Metrics.inFlight (sv_metrics v) = Metrics.inFlight m ∧
  ∃ pre en, sv_log v = pre ++ [Chain.Access en] ∧ Forall (λ x, x = Chain.PanicRecovered rid) pre ∧
    Chain.en_rid en = rid ∧ Chain.en_status en = default 200%Z (rsStatus (sv_response v)).
Proof.
  intros Hrules He H1 H2 rid w scheme ro v.
  destruct (request_id_ok (ap_proxy a) e (q_conn q) rid He eq_refl) as (_ & Hne & _).
  assert (has_rid rid w) as Hr by apply lookup_singleton_eq.
  pose proof (serve_root_ok a e q rid scheme Hrules Hne w s He Hr eq_refl) as Hok. fold ro in Hok.
  destruct Hok as [Hk Hf _ _ _]. assert (has_rid rid (ro_response ro)) as Hr'.
  { unfold has_rid. by rewrite (Hk HeaderName ltac:(by left)). }
  subst v. unfold Handle. cbv zeta. fold rid w scheme. fold ro.
  destruct (Chain.Serve _ _ _ _ _ _) as [[raw log] m'] eqn:Hserve. cbn [sv_response sv_state sv_performed sv_metrics sv_log].
  pose proof (Serve_status _ _ _ _ _ _ _ _ _ _ (mkRequest (q_url q) (Some rid)) Hf Hserve) as Hst.
  apply Chain.Serve_facts in Hserve as ((pre & en & -> & -> & Hs & _ & Hrid) & _ & Hin & _);
    [|by apply final_writes|done|done].
  split_and!; [|done|done|done|].
  - unfold recovered. destruct (ro_panicked ro); [|reflexivity].
    by apply (WriteProblem_ok rid); [done|done|done|right; simpl; lia].
  - eexists _, en. split_and!; [reflexivity| |exact Hrid|by rewrite Hs Hst].
    destruct (Chain.bh_panics _); repeat constructor.
Qed.

(** (C10) Every request to the assembled service is accounted for and guarded.
    Whatever the request, the handlers behind the routers and the pages do (a
    panic included): the response carries exactly one request id, acceptable by
    the service's own rules and not chosen by a peer outside the trusted
    proxies; exactly one access record is logged, under that id and with the
    status the client gets; an API operation runs only for an allowed origin
    and a caller that the verifier and the access matrix admit; and the
    bulkhead slot and both in-flight gauges are given back. *)
Theorem request_guarded a e q s m :
  ap_rules a = API.policy_rules → env_ok e →
  int64_ok (Metrics.inFlight m) → int64_ok (Metrics.inFlight m + 1) →
  let v := Handle ParseIP SplitHostPort a e q s m in
  ∃ rid pre en,
    rsHeader (sv_response v) !! HeaderName = Some [rid] ∧ RequestID.sanitizeRequestID rid = Some rid ∧
    (Proxy.isTrustedProxy ParseIP (ap_proxy a)
       (Proxy.parseRemoteIP ParseIP SplitHostPort (Proxy.RemoteAddr (q_conn q))) = false → rid = e_fresh e) ∧
    sv_log v = pre ++ [Chain.Access en] ∧ Forall (λ x, x = Chain.PanicRecovered rid) pre ∧
    Chain.en_rid en = rid ∧ Chain.en_status en = default 200%Z (rsStatus (sv_response v)) ∧
    (∀ op, sv_performed v = Some op → permitted a q op) ∧
    Bulkhead.sem (API.cs_bulkhead (sv_state v)) = Bulkhead.sem (API.cs_bulkhead s) ∧
    Bulkhead.inFlight (API.cs_bulkhead (sv_state v)) = Bulkhead.inFlight (API.cs_bulkhead s) ∧
    Metrics.inFlight (sv_metrics v) = Metrics.inFlight m.
Proof.
  intros Hrules He H1 H2 v.
  destruct (Handle_log a e q s m Hrules He H1 H2) as (Hk & Hst & Hp & Hin & pre & en & Hlog & Hpre & Hen & Hes).
  fold v in Hk, Hst, Hp, Hin, Hlog, Hes. revert Hk Hst Hp Hpre Hen.
  set (rid := RequestID.RequestIDMiddleware _ _). set (w := mkResponse _ _ _). set (scheme := Proxy.Scheme _).
  set (ro := serve_root _ _ _ _ _ _ _). intros Hk Hst Hp Hpre Hen.
  destruct (request_id_ok (ap_proxy a) e (q_conn q) rid He eq_refl) as (Hs & Hne & Hfresh).
  assert (has_rid rid w) as Hr by apply lookup_singleton_eq.
  destruct (serve_root_ok a e q rid scheme Hrules Hne w s He Hr eq_refl) as [Hk' _ Hsem Hinf Hperm].
  fold ro in Hk', Hsem, Hinf, Hperm. exists rid, pre, en. rewrite Hst Hp.
  split_and!; [|done..]. rewrite (Hk HeaderName) ?(Hk' HeaderName); [by left..|]. exact Hr.
Qed.

(** (C11) A protected deployment always protects its API.  When [Load] accepts a
    staging or production configuration, every answer on an API path (a result,
    a problem, a refused origin, a panic) forbids sniffing and framing and names
    a referrer policy, with HSTS over HTTPS where it is configured, and the
    access matrix of the built application is the documented one. *)
Theorem protected_api_headers `{GoParsers} lookup ParseCIDR To4 Verify rd c a e q s m p b :
  Load lookup = Ok c → isProtectedEnvironment (Environment (cfg_Runtime c)) = true →
  new_app ParseIP ParseCIDR To4 Verify rd c = Ok a → env_ok e →
  int64_ok (Metrics.inFlight m) → int64_ok (Metrics.inFlight m + 1) →
  Mux.Handler (Root.NewRoot (ap_debug a)) (q_method q) (q_path q) = Mux.Handle p Root.ToApp b →
  let h := rsHeader (sv_response (Handle ParseIP SplitHostPort a e q s m)) in
  ap_rules a = API.policy_rules ∧
  h !! "X-Content-Type-Options" = Some ["nosniff"] ∧ h !! "X-Frame-Options" = Some ["DENY"] ∧
  (∃ policy, h !! "Referrer-Policy" = Some [policy] ∧ policy ≠ EmptyString) ∧
  (Proxy.Scheme (Proxy.TrustProxy ParseIP SplitHostPort (ap_proxy a) (q_conn q)) = "https" →
   SecurityHeaders.hstsEnable (SecurityHeaders.HSTS (cfg_SecurityHeaders c)) = true →
   is_Some (h !! "Strict-Transport-Security")).
Proof.
  intros Hl Henv Hnew He H1 H2 Hroot h.
  apply Load_config_ok in Hl as [(_ & _ & Hprot) _ _ _ _ _ _ _ _ (Href & _ & Hhsts) _].
  assert (SecurityHeaders.Enable (cfg_SecurityHeaders c) = true) as Hen.
  { apply Hprot. unfold isProtectedEnvironment in Henv. apply orb_true_iff in Henv as [?%streqb_eq|?%streqb_eq]; auto. }
  destruct (new_app_Ok _ _ _ _ _ _ Hnew) as [Hrules Hsec]. split; [exact Hrules|].
  destruct (Handle_log a e q s m Hrules He H1 H2) as (Hk & _). fold h in Hk. revert Hk.
  set (rid := RequestID.RequestIDMiddleware _ _). set (w := mkResponse _ _ _). set (scheme := Proxy.Scheme _).
  assert (serve_root a e q rid scheme w s = serve_api a e q rid scheme w s) as ->.
  { unfold serve_root. by rewrite Hroot. }
  destruct (request_id_ok (ap_proxy a) e (q_conn q) rid He eq_refl) as (_ & Hne & _).
  assert (has_rid rid w) as Hr by apply lookup_singleton_eq.
  destruct (serve_api_ok a e q rid scheme Hrules Hne w s He Hr eq_refl) as [Hkb _ _ _ _]. intros Hk.
  rewrite Hsec in Hkb.
  destruct (SecurityHeaders_set (cfg_SecurityHeaders c) (Some scheme) (Proxy.overTLS (q_conn q)) (rsHeader w) Hen)
    as (F1 & F2 & F3 & F4).
  assert (keeps base_headers _ h) as Hb by (etransitivity; [exact Hkb|eapply keeps_weaken; [apply base_all|exact Hk]]).
  split_and!.
  - rewrite (Hb "X-Content-Type-Options"); [present|exact F1].
  - rewrite (Hb "X-Frame-Options"); [present|exact F2].
  - eexists. rewrite (Hb "Referrer-Policy"); [present|]. split; [by apply F3|exact Href].
  - intros Hs Hh. rewrite (Hb "Strict-Transport-Security"); [present|]. apply F4; [by f_equal|exact Hh|by apply Hhsts].
Qed.
End end_to_end.

(** ** Examples *)

(** The reading handlers meet what is assumed of operations. *)
Lemma WriteNegotiated_ok pmt w accept st json msg werr :
  rsStatus w = None → (200 <= st)%Z →
  keeps all_headers (rsHeader w) (rsHeader (WriteNegotiated pmt w accept st json msg werr).1) ∧
  final (WriteNegotiated pmt w accept st json msg werr).1.
Proof.
  intros Hs Hst. split.
  - intros k Hk. apply UsersHandler.WriteNegotiated_header; intros ->; absent_in Hk.
  - intros st' E. pose proof (UsersHandler.WriteNegotiated_status pmt w accept st json msg werr Hs) as Hin.
    rewrite E in Hin. apply elem_of_cons in Hin as [?|Hin]; [done|]. apply list_elem_of_singleton in Hin. congruence.
Qed.

Lemma GetByID_ok {SU} `{!UserRepository SU} pmt enc werr enc_pb (uenv : user_env) (users : SU) p inm accept id w :
  rsStatus w = None →
  outcome_ok all_headers w
    (let '(w', err) := UsersHandler.GetByID pmt enc werr enc_pb uenv users w p inm accept id in Returned w' err).
Proof.
  intros Hs. assert (outcome_ok all_headers w (Panicked w)) as Hsame.
  { split; [reflexivity|]. intros st. by rewrite /= Hs. }
  unfold UsersHandler.GetByID. destruct p as [p|]; [|done]. destruct (negb _); [done|].
  destruct (Services.UserService.GetByID _ _ _) as [u|err]; [|done]. cbv zeta.
  unfold UsersHandler.set_header. destruct (IfNoneMatchMatches _ _).
  - split; cbn [outcome_response rsHeader].
    + etransitivity; [apply (keeps_insert _ "ETag"); absent|].
      etransitivity; [apply keeps_AddVary; absent|]. apply keeps_insert. absent.
    + intros st [= <-]. cbn [rsStatus]. rewrite Hs. simpl. lia.
  - match goal with |- context [WriteNegotiated ?a ?b ?c ?d ?x ?y ?z] =>
      destruct (WriteNegotiated_ok a b c d x y z Hs ltac:(lia)) as [Hk Hf];
      destruct (WriteNegotiated a b c d x y z) as [w' err] end.
    split; [|exact Hf]. etransitivity; [|exact Hk]. cbn [rsHeader].
    etransitivity; [apply (keeps_insert _ "ETag"); absent|]. apply keeps_insert. absent.
Qed.

Definition ex_perform (op : API.api_call) (w : response) : outcome :=
  match op with
  | API.UserGetByID id =>
      let '(w', err) := @UsersHandler.GetByID _ (Memory.memory_UserRepository UsersHandler.ex_fold)
        (λ _, None) (λ _, Ok "{}") None (λ _, Ok "") UsersHandler.ex_uenv UsersHandler.ex_users w
        (Some (mkPrincipal 1 RoleUser)) "" "" id in Returned w' err
  | API.JobGetByID _ => Panicked w
  | _ => Returned w (Some (ESentinel ErrNotFound))
  end.
Definition ex_appenv : env :=
  mkEnv "id-1" (RateLimit.Granted 0) ex_perform (λ _ w, Returned w None) (λ w, w) (λ w, w)
    (λ d, Health.hr_status d) (λ _, 2%Z) 80 Recorder.HasFlush.

Lemma ex_appenv_ok : env_ok ex_appenv.
Proof.
  assert (∀ ks w, rsStatus w = None → outcome_ok ks w (Panicked w)) as Hsame.
  { intros ks w Hs. split; [reflexivity|]. intros st. by rewrite /= Hs. }
  split; [vm_compute; reflexivity| |intros; by apply Hsame..].
  intros op w Hs. destruct op; try by apply Hsame. by apply GetByID_ok.
Qed.

(** The application of the production configuration, a browser's request. *)
Definition ex_ip4 (_ : nat) : bool := true.
Definition ex_built : res error (application (IP:=nat)) :=
  match @Load ex_parsers ex_production with
  | Ok c => new_app ex_ip ex_cidr ex_ip4 (API.ex_verify (mkPrincipal 1 RoleUser)) (Health.NewReadiness []) c
  | Err e => Err e
  end.
Definition ex_split (s : string) : option string := Some "192.0.2.7".
Definition ex_request : http_req :=
  mkHttpReq "GET" ["api"; "v1"; "users"; "1"] "/api/v1/users/1" "Bearer good" "https://app.example" "" ""
    (Proxy.mkConn "192.0.2.7:4711" true "" "" "spoofed") 1000.

Definition ex_state : API.chain_state := API.ex_state.

(** The request runs the operation and is answered 200 under a fresh id. *)
Lemma request_guarded_witness :
  match ex_built with
  | Ok a =>
      let v := Handle ex_ip ex_split a ex_appenv ex_request ex_state Metrics.DefaultHTTP in
      sv_performed v = Some (API.UserGetByID 1) ∧ rsStatus (sv_response v) = Some 200%Z ∧
      rsHeader (sv_response v) !! HeaderName = Some ["id-1"] ∧
      permitted a ex_request (API.UserGetByID 1)
  | Err _ => False
  end.
Proof.
  assert (match ex_built with
    | Ok a => Some (let v := Handle ex_ip ex_split a ex_appenv ex_request ex_state Metrics.DefaultHTTP in
        (sv_performed v, rsStatus (sv_response v)))
    | Err _ => None end = Some (Some (API.UserGetByID 1), Some 200%Z)) as Hv by (vm_compute; reflexivity).
  destruct ex_built as [a|] eqn:Eb; [|discriminate Hv].
  assert (ap_rules a = API.policy_rules) as Hrules.
  { unfold ex_built in Eb. destruct (@Load ex_parsers ex_production) as [c|]; [|discriminate Eb].
    exact (proj1 (new_app_Ok ex_ip _ _ _ _ _ _ Eb)). }
  assert (int64_ok (Metrics.inFlight Metrics.DefaultHTTP)) as H1 by (split; vm_compute; discriminate).
  assert (int64_ok (Metrics.inFlight Metrics.DefaultHTTP + 1)) as H2 by (split; vm_compute; discriminate).
  destruct (request_guarded ex_ip ex_split a ex_appenv ex_request ex_state Metrics.DefaultHTTP Hrules ex_appenv_ok
    H1 H2) as (rid & pre & en & Hr & _ & Hfresh & _ & _ & _ & _ & Hperm & _).
  cbv zeta in Hv |- *. set (v := Handle _ _ _ _ _ _ _) in *. injection Hv as Hp Hst.
  split; [exact Hp|]. split; [exact Hst|]. split; [|exact (Hperm _ Hp)].
  rewrite Hr. f_equal. f_equal. apply Hfresh. reflexivity.
Defined.

Lemma protected_api_headers_witness :
  match ex_built with
  | Ok a =>
      rsHeader (sv_response (Handle ex_ip ex_split a ex_appenv ex_request ex_state Metrics.DefaultHTTP))
        !! "X-Frame-Options" = Some ["DENY"]
  | Err _ => False
  end.
Proof.
  assert (match @Load ex_parsers ex_production with
    | Ok c => Some (isProtectedEnvironment (Environment (cfg_Runtime c)), is_ok ex_built)
    | Err _ => None end = Some (true, true)) as Hl by (vm_compute; reflexivity).
  assert (match ex_built with
    | Ok a => match Mux.Handler (Root.NewRoot (ap_debug a)) (q_method ex_request) (q_path ex_request) with
              | Mux.Handle _ Root.ToApp _ => true
              | _ => false
              end
    | Err _ => false end = true) as Hm by (vm_compute; reflexivity).
  unfold ex_built in Hm, Hl |- *.
  destruct (@Load ex_parsers ex_production) as [c|] eqn:El; [|discriminate Hl].
  destruct (new_app _ _ _ _ _ c) as [a|] eqn:En; [|discriminate Hm]. injection Hl as He.
  destruct (Mux.Handler (Root.NewRoot (ap_debug a)) _ _) as [p t b|?|] eqn:Em; [|discriminate Hm..].
  destruct t; [|discriminate Hm..].
  refine (proj1 (proj2 (proj2 (protected_api_headers ex_ip ex_split ex_production _ _ _ _ c a ex_appenv
    ex_request ex_state Metrics.DefaultHTTP p b El He En ex_appenv_ok _ _ Em)))); split; vm_compute; discriminate.
Defined.
