(* ===== verification/Dispatch.v ===== *)
(** * The operations of the API over one process state

    What the interfaces [UsersAPI], [JobsAPI] and [UsersProfileAPI] that
    [router.NewRouter] is given do when the service is assembled by
    [cmd/api/main.go]: [perform] runs the handler of each operation over the
    stores, the queue and the hub of the process, for the caller that the
    authentication put into the context.  [process_env] closes the application
    of [App.v] with it.  The theorems: every operation meets the contract that
    [App.v] assumes of its environment, and an ordinary user observes and
    changes nothing that belongs to another user, by any request. *)
From S2P Require Import Prelude.
From S2P Require Import GoErrors.
From S2P Require Import Entity.
From S2P Require Import JobRepo.
From S2P Require Import MemoryJobRepo.
From S2P Require Import UserRepo.
From S2P Require Import Services.
From S2P Require Import Queue.
From S2P Require Import Stream.
From S2P Require Import GoStrings.
From S2P Require Import HttpErrors.
From S2P Require Import HttpUtils.
From S2P Require Import Security.
From S2P Require Import Middleware.
From S2P Require Import Outbound.
From S2P Require Import Handlers.
From S2P Require Import ProfileHandler.
From S2P Require Import Config.
From S2P Require Import ConfigLoad.
From S2P Require Import Router.
From S2P Require Import Observability.
From S2P Require Import Wiring.
From S2P Require Import App.
Import UsersHandler.

(** The caller as [security.FromContext] gives it to a handler behind
    [Authenticate]: the principal of the bearer token, if it has one. *)
Definition principal_of (Verify : string → res error Principal) (authz : string) : option Principal :=
  match Auth.parseBearerToken authz with
  | Err _ => None
  | Ok token => match Verify token with Err _ => None | Ok p => Some p end
  end.

(** What the handlers read from a request besides the path value and the
    caller; a body decodes to one input for each version. *)
Record request_in := mkRequestIn {
  ri_contentType : string; ri_async : string;
  ri_body1 : option error * option error * CreateUserInput;
  ri_body2 : option error * option error * CreateUserInputV2;
  ri_ifNoneMatch : string; ri_accept : string; ri_authz : string;
  ri_rid : option string; ri_rid_header : string }.

Definition create_of {I} (i : request_in) (b : option error * option error * I) (p : option Principal)
  : create_req I :=
  mkCreateReq _ (ri_contentType i) (ri_async i) b.1.1 b.1.2 b.2 p.

Section perform.
  Context {SJ SU : Type} `{!JobRepository SJ} `{!UserRepository SU}.
#[local] Abbreviation proc := (world (SJ:=SJ) (SU:=SU)).

(** Codecs, the parser of media types, error texts, [http.ServeContent], the
    bytes of a sequence of frames, what the connection reports. *)
Record codecs := mkCodecs {
  cd_ParseMediaType : string → option string; cd_errstr : error → string;
  cd_job : Job → res error string; cd_bridge : JobHandler.JobBridgeDTO → res error string;
  cd_user : UserDTO → res error string; cd_user2 : UserDTOV2 → res error string;
  cd_user_pb : UserDTO → res error string;
  cd_users : list UserDTO → res error string; cd_users2 : list UserDTOV2 → res error string;
  cd_profile : UserProfileDTO → res error string; cd_profile_pb : UserProfileDTO → res error string;
  cd_export : UserExport → res error string;
  cd_ServeContent : response → string → string → response;
  cd_frames : list JobHandler.frame → string;
  cd_werr : option error; cd_flusher : bool }.

(** What a request meets outside the handlers: the environments of the
    repositories, the user list of the back end, the profile client, the gRPC
    stub (which reaches the server over the same store), and what the other
    goroutines do during a creation and between the rounds of a stream. *)
Record surroundings := mkSurroundings {
  su_job : repo_env; su_user : user_env; su_create : create_env (SJ:=SJ) (SU:=SU);
  su_GetAll : SU → res error (list User);
  su_FetchProfile : Z → string → res error Profile;
  su_client : option (SJ → list (string * string) → Z → res error JobGRPC.pbJob);
  su_rounds : list JobHandler.round }.

Context (cd : codecs).

(** What an event stream has sent: the first frame writes the header. *)
Definition streamed (out : list JobHandler.frame) (w : response) : response :=
  match out with
  | [] => w
  | _ => mkResponse (rsHeader w) (Some (default 200%Z (rsStatus w))) (BytesBody (cd_frames cd out))
  end.

Definition set_hub (h : Hub) (w : proc) : proc :=
  mkWorld (w_jobs w) (w_users w) h (w_queue w) (w_queued w).

(** One operation; [None] when a goroutine would block for good or panic.  A
    stream that is still open shows what it has sent so far. *)
Definition perform (su : surroundings) (i : request_in) (p : option Principal) (w : proc)
    (op : API.api_call) (resp : response) : option (proc * (response * option error)) :=
  match op with
  | API.UsersList => Some (w, List (cd_werr cd) (cd_users cd) (su_GetAll su (w_users w)) resp)
  | API.UsersV2List => Some (w, ListV2 (cd_werr cd) (cd_users2 cd) (su_GetAll su (w_users w)) resp)
  | API.UsersCreate =>
      Create (cd_ParseMediaType cd) (cd_errstr cd) (cd_job cd) (cd_user cd) (cd_werr cd)
        (su_create su) w resp (create_of i (ri_body1 i) p)
  | API.UsersV2Create =>
      CreateV2 (cd_ParseMediaType cd) (cd_errstr cd) (cd_job cd) (cd_user2 cd) (cd_werr cd)
        (su_create su) w resp (create_of i (ri_body2 i) p)
  | API.JobGetByID id =>
      Some (w, JobHandler.GetByID (su_job su) (cd_job cd) (cd_werr cd) (w_jobs w) resp p id)
  | API.JobGetByIDViaGRPC id =>
      Some (w, JobHandler.GetByIDViaGRPC (cd_bridge cd) (cd_werr cd) (cd_errstr cd)
                 ((λ call, call (w_jobs w)) <$> su_client su) resp (ri_rid i) (ri_authz i) id)
  | API.JobEvents id =>
      (λ '(h, resp, out, err), (set_hub h w, (streamed out resp, default None err))) <$>
        JobHandler.Events (su_job su) (w_jobs w) resp p (cd_flusher cd) (su_rounds su) (w_hub w) id
  | API.UserGetByID id =>
      Some (w, GetByID (cd_ParseMediaType cd) (cd_user cd) (cd_werr cd) (cd_user_pb cd) (su_user su)
                 (w_users w) resp p (ri_ifNoneMatch i) (ri_accept i) id)
  | API.GetUserProfile id =>
      Some (w, GetUserProfile (su_user su) (cd_ParseMediaType cd) (cd_profile cd) (cd_profile_pb cd)
                 (cd_werr cd) (su_FetchProfile su) (w_users w) resp p (ri_rid i) (ri_rid_header i)
                 (ri_accept i) id)
  | API.UserExport id =>
      Some (w, Export (su_user su) (cd_export cd) (cd_ServeContent cd) (w_users w) resp p id)
  end.

(** The environment of the application: [i] is how the handlers read the
    request; [pages] are the debug pages of the process. *)
Definition process_env (e : env) (pages : Root.debug_page → response → outcome) (su : surroundings)
    (i : request_in) (p : option Principal) (w : proc) : env :=
  mkEnv (e_fresh e) (e_resv e)
    (λ op resp, match perform su i p w op resp with
                | Some (_, (resp, err)) => Returned resp err
                | None => Panicked resp
                end)
    pages (e_mux e) (e_redirect e) (e_doc e) (e_size e) (e_problem e) (e_flusher e).

(** ** Every operation keeps the contract of the outer layers *)
Definition result_ok (resp : response) (r : response * option error) : Prop :=
  outcome_ok all_headers resp (Panicked r.1).

Lemma result_same resp err : rsStatus resp = None → result_ok resp (resp, err).
Proof. intros Hs. split; [reflexivity|]. intros st. by rewrite /= Hs. Qed.

Lemma result_header k v resp r :
  k ∉ all_headers → result_ok (set_header k v resp) r → result_ok resp r.
Proof.
  intros Hk [Hr Hf]. split; [|exact Hf]. etransitivity; [by apply (keeps_insert _ k [v])|exact Hr].
Qed.

Lemma result_json resp st enc : rsStatus resp = None → (200 <= st)%Z →
  result_ok resp (WriteJSON resp st enc (cd_werr cd)).
Proof.
  intros Hs Hst. unfold WriteJSON. destruct enc; [|by apply result_same]. split; simpl.
  - apply keeps_insert. absent.
  - intros st' [= <-]. by rewrite Hs.
Qed.

Lemma result_negotiated resp accept json msg : rsStatus resp = None →
  result_ok resp (WriteNegotiated (cd_ParseMediaType cd) resp accept 200 json msg (cd_werr cd)).
Proof. intros Hs. by apply WriteNegotiated_ok. Qed.

Lemma create_async_ok e w resp p payload w' r : rsStatus resp = None →
  create_async (cd_job cd) (cd_werr cd) e w resp p payload = Some (w', r) → result_ok resp r.
Proof.
  intros Hs. unfold create_async. destruct p as [p|]; [|intros [= _ <-]; by apply result_same].
  destruct (JobService.Save _ _ _) as [s [job [err|]]]; [intros [= _ <-]; by apply result_same|].
  destruct (publishQueuedJob _ _ _) as [w1|]; [|done]. destruct (Enqueue _ _ _) as [q [err|]].
  - destruct (deleteJobAfterFailedEnqueue _ _ _) as [s' [err'|]]; intros [= _ <-]; by apply result_same.
  - intros [= _ <-]. apply (result_header "Location" (String.append "/api/v1/jobs/" (Itoa (ID job))));
      [absent|]. by apply result_json.
Qed.

Lemma events_ok su (w : proc) resp p h' resp' out err id : rsStatus resp = None →
  JobHandler.Events (su_job su) (w_jobs w) resp p (cd_flusher cd) (su_rounds su) (w_hub w) id =
    Some (h', resp', out, err) → result_ok resp (streamed out resp', default None err).
Proof.
  intros Hs He. assert (resp' = resp ∨ resp' = JobHandler.sse_headers resp) as Hr.
  { unfold JobHandler.Events in He. destruct (JobHandler.readable_job _ _ _ _); [|by left; simplify_eq].
    right. repeat case_match; by simplify_eq. }
  assert (keeps all_headers (rsHeader resp) (rsHeader resp') ∧ rsStatus resp' = None) as [Hk Hs'].
  { destruct Hr as [-> | ->]; [by split|]. split; [|exact Hs]. unfold JobHandler.sse_headers. simpl.
    etransitivity; [apply (keeps_insert _ "Content-Type"); absent|apply keeps_insert; absent]. }
  destruct out as [|f out].
  - split; [exact Hk|]. intros st. by rewrite /= Hs'.
  - split; [exact Hk|]. intros st [= <-]. simpl. rewrite Hs'. simpl. lia.
Qed.

Lemma location_ok prefix id resp st enc : rsStatus resp = None → (200 <= st)%Z →
  result_ok resp (WriteJSON (location prefix id resp) st enc (cd_werr cd)).
Proof.
  intros Hs Hst. apply (result_header "Location" (String.append prefix (Itoa id))); [absent|].
  by apply result_json.
Qed.

Lemma Create_ok e w resp r w' out : rsStatus resp = None →
  Create (cd_ParseMediaType cd) (cd_errstr cd) (cd_job cd) (cd_user cd) (cd_werr cd) e w resp r =
    Some (w', out) → result_ok resp out.
Proof.
  intros Hs. unfold Create. destruct (RequireJSONContentType _ _); [intros [= _ <-]; by apply result_same|].
  destruct (check_body _ _ _); [intros [= _ <-]; by apply result_same|].
  destruct (streqb _ _); [by apply create_async_ok|].
  destruct (UserService.CreateUser _ _ _ _ _) as [u [dto|err]]; intros [= _ <-];
    [by apply location_ok|by apply result_same].
Qed.

Lemma CreateV2_ok e w resp r w' out : rsStatus resp = None →
  CreateV2 (cd_ParseMediaType cd) (cd_errstr cd) (cd_job cd) (cd_user2 cd) (cd_werr cd) e w resp r =
    Some (w', out) → result_ok resp out.
Proof.
  intros Hs. unfold CreateV2. destruct (RequireJSONContentType _ _); [intros [= _ <-]; by apply result_same|].
  destruct (check_body _ _ _); [intros [= _ <-]; by apply result_same|].
  destruct (streqb _ _); [by apply create_async_ok|].
  destruct (UserService.CreateUser _ _ _ _ _) as [u [dto|err]]; intros [= _ <-];
    [by apply location_ok|by apply result_same].
Qed.

(** [http.ServeContent] sets its own headers and writes a final status. *)
Definition serves_content : Prop :=
  ∀ resp file data, rsStatus resp = None → result_ok resp (cd_ServeContent cd resp file data, None).

Lemma Export_ok (env : user_env) (users : SU) resp p id : serves_content → rsStatus resp = None →
  result_ok resp (Export env (cd_export cd) (cd_ServeContent cd) users resp p id).
Proof.
  intros Hc Hs. unfold Export. destruct p as [p|]; [|by apply result_same].
  destruct (negb _); [by apply result_same|]. destruct (UserService.GetByID _ _ _); [|by apply result_same].
  destruct (cd_export cd _); [|by apply result_same]. cbv zeta.
  eapply (result_header "Content-Disposition"); [absent|].
  eapply (result_header "Content-Type"); [absent|]. by apply Hc.
Qed.

Lemma Some_snd {A B} (a a' : A) (b b' : B) : Some (a, b) = Some (a', b') → b = b'.
Proof. congruence. Qed.

Lemma perform_ok su i p w op resp w' r : serves_content → rsStatus resp = None →
  perform su i p w op resp = Some (w', r) → result_ok resp r.
Proof.
  intros Hc Hs. destruct op; cbn [perform]; try (intros <-%Some_snd).
  - unfold List. destruct (su_GetAll su _); [by apply result_json|by apply result_same].
  - by apply Create_ok.
  - unfold ListV2. destruct (su_GetAll su _); [by apply result_json|by apply result_same].
  - by apply CreateV2_ok.
  - unfold JobHandler.GetByID. destruct (JobHandler.readable_job _ _ _ _);
      [by apply result_json|by apply result_same].
  - unfold JobHandler.GetByIDViaGRPC. destruct (su_client su) as [call|]; [|by apply result_same]. simpl.
    destruct (call _ _ _); [by apply result_json|by apply result_same].
  - destruct (JobHandler.Events _ _ _ _ _ _ _ _) as [[[[h' resp'] out] err]|] eqn:He; [|done].
    intros [= _ <-]. by eapply events_ok.
  - destruct (GetByID_ok (cd_ParseMediaType cd) (cd_user cd) (cd_werr cd) (cd_user_pb cd) (su_user su)
      (w_users w) p (ri_ifNoneMatch i) (ri_accept i) id resp Hs) as [H1 H2].
    by destruct (GetByID _ _ _ _ _ _ _ _ _ _ _).
  - unfold GetUserProfile. destruct p as [p|]; [|by apply result_same].
    destruct (negb _); [by apply result_same|].
    destruct (UserProfileService.GetUserWithProfile _ _ _ _ _) as [[u pr]|]; [|by apply result_same].
    by apply result_negotiated.
  - by apply Export_ok.
Qed.

(** So the process closes the application: what [App.v] assumes of the
    operations is proved, the rest is about [net/http] and the debug pages. *)
Lemma process_env_ok e pages su i p w : serves_content → env_ok e →
  (∀ page resp, rsStatus resp = None → outcome_ok [HeaderName] resp (pages page resp)) →
  env_ok (process_env e pages su i p w).
Proof.
  intros Hc He Hp. split; [apply He| |exact Hp|apply He..]. intros op resp Hs. simpl.
  destruct (perform su i p w op resp) as [[w' [resp' err]]|] eqn:Ho.
  - exact (perform_ok _ _ _ _ _ _ _ _ Hc Hs Ho).
  - by apply (result_same resp None).
Qed.
End perform.

(** ** What a user may see of a process

    Two process states show [p] the same when they agree on the records that [p]
    may read; of a job of somebody else they agree that it exists. *)
Section views.
  Context {SJ SU : Type} `{!JobRepository SJ} `{!UserRepository SU}.
  #[local] Abbreviation proc := (world (SJ:=SJ) (SU:=SU)).
  #[local] Abbreviation around := (surroundings (SJ:=SJ) (SU:=SU)).

Definition visible_job (p : Principal) (r : res error Job) : res error (option Job) :=
  match r with
  | Err e => Err e
  | Ok job => Ok (if CanReadJob p (OwnerUserID job) then Some job else None)
  end.

Record same_view (p : Principal) (w1 w2 : proc) : Prop := {
  vw_users : ∀ env id, CanReadUser p id = true →
    UserRepo.GetByID env (w_users w1) id = UserRepo.GetByID env (w_users w2) id;
  vw_jobs : ∀ env id, visible_job p (JobRepo.GetByID env (w_jobs w1) id) =
    visible_job p (JobRepo.GetByID env (w_jobs w2) id);
  vw_hub : closed (w_hub w1) = closed (w_hub w2) ∧
    subscriberBuffer (w_hub w1) = subscriberBuffer (w_hub w2);
  vw_events : ∀ env id job, JobRepo.GetByID env (w_jobs w1) id = Ok job → CanReadJob p (OwnerUserID job) = true →
    default [] (history (w_hub w1) !! id) = default [] (history (w_hub w2) !! id);
}.

Lemma visible_same p env id (s1 s2 : SJ) job :
  visible_job p (JobRepo.GetByID env s1 id) = visible_job p (JobRepo.GetByID env s2 id) →
  JobRepo.GetByID env s1 id = Ok job → CanReadJob p (OwnerUserID job) = true →
  JobRepo.GetByID env s2 id = Ok job.
Proof.
  unfold visible_job. intros Hv Hg Hc. rewrite Hg Hc in Hv.
  destruct (JobRepo.GetByID env s2 id) as [job'|]; [|done].
  destruct (CanReadJob p (OwnerUserID job')); by simplify_eq.
Qed.

#[export] Instance same_view_equivalence p : Equivalence (same_view p).
Proof.
  split.
  - intros w. by split.
  - intros w1 w2 [Hu Hj [Hc Hb] He]. split; [by intros; rewrite Hu|by intros; rewrite Hj|by split|].
    intros env id job Hg Hr. symmetry. apply (He env id job); [|done].
    by apply (visible_same p env id (w_jobs w2)).
  - intros w1 w2 w3 [Hu Hj [Hc Hb] He] [Hu' Hj' [Hc' Hb'] He'].
    split; [intros; by rewrite Hu ?Hu'|intros; by rewrite Hj Hj'|split; congruence|].
    intros env id job Hg Hr. rewrite (He env id job) //. apply (He' env id job); [|done].
    by apply (visible_same p env id (w_jobs w1)).
Qed.

(** What a connection can receive from its channel. *)
Definition seen (h : Hub) (sub : Z) : option (list Event * bool) :=
  (λ c, (buf c, chClosed c)) <$> chans h !! sub.

(** The subscription belongs to one job. *)
Definition owned (h : Hub) (id sub : Z) : Prop := ∀ job, sub ∈ job_subs h job → job = id.

(** The same choices of [select]; whatever the other goroutines do to the two
    hubs, they deliver the same to the two subscriptions to the job. *)
Record round_agree (id s1 s2 : Z) (r1 r2 : JobHandler.round) : Prop := {
  ra_sel : JobHandler.sel r1 = JobHandler.sel r2;
  ra_idle : ∀ h1 h2, owned h1 id s1 → owned h2 id s2 → seen h1 s1 = seen h2 s2 →
    seen (JobHandler.idle r1 h1) s1 = seen (JobHandler.idle r2 h2) s2 ∧
    owned (JobHandler.idle r1 h1) id s1 ∧ owned (JobHandler.idle r2 h2) id s2;
}.

Definition next_sub (w : proc) : Z := wrapu64 (nextID (w_hub w) + 1).

(** The surroundings of the two processes: the same user reads and profile
    fetches for the records [p] may read, and the same events for the jobs. *)
Record same_around (p : Principal) (w1 w2 : proc) (su1 su2 : around) : Prop := {
  ar_job : su_job su1 = su_job su2;
  ar_user : su_user su1 = su_user su2;
  ar_fetch : ∀ id rid, CanReadUser p id = true → su_FetchProfile su1 id rid = su_FetchProfile su2 id rid;
  ar_fresh : ∀ job, next_sub w1 ∉ job_subs (w_hub w1) job ∧ next_sub w2 ∉ job_subs (w_hub w2) job;
  ar_rounds : ∀ env id job, JobRepo.GetByID env (w_jobs w1) id = Ok job → CanReadJob p (OwnerUserID job) = true →
    Forall2 (round_agree id (next_sub w1) (next_sub w2)) (su_rounds su1) (su_rounds su2);
}.

Lemma seen_recv h1 h2 s1 s2 ev rest cl :
  seen h1 s1 = Some (ev :: rest, cl) → seen h1 s1 = seen h2 s2 → seen (recv h1 s1) s1 = seen (recv h2 s2) s2.
Proof.
  intros H1 H2. rewrite H1 in H2. unfold seen in *.
  destruct (chans h1 !! s1) as [[b1 c1 g1 l1]|] eqn:E1; [|done].
  destruct (chans h2 !! s2) as [[b2 c2 g2 l2]|] eqn:E2; [|done]. simplify_eq/=.
  unfold recv. rewrite E1 E2 /= !lookup_insert_eq. done.
Qed.

Lemma owned_subscribe h id sub hist n b c t d cl cs u :
  (∀ job, sub ∉ job_subs h job) →
  owned (mkHub (<[id := <[sub := tt]> (default ∅ (subs h !! id))]> (subs h)) hist n b c t d cl cs u) id sub.
Proof.
  intros Hf job. unfold job_subs. simpl. destruct (decide (id = job)) as [->|Hne]; [done|].
  rewrite lookup_insert_ne //. intros Hin. by destruct (Hf job).
Qed.

Lemma owned_recv h id sub s : owned h id sub → owned (recv h s) id sub.
Proof. unfold owned, job_subs, recv. by destruct (chans h !! s) as [[[] ? ? ?]|]. Qed.

(** A stream writes what its channel gives it. *)
Lemma events_loop_agree id s1 s2 rs1 rs2 : Forall2 (round_agree id s1 s2) rs1 rs2 → ∀ h1 h2 out,
  owned h1 id s1 → owned h2 id s2 → seen h1 s1 = seen h2 s2 →
  (λ r, (r.1.2, r.2)) <$> JobHandler.events_loop rs1 s1 h1 out =
  (λ r, (r.1.2, r.2)) <$> JobHandler.events_loop rs2 s2 h2 out.
Proof.
  induction 1 as [|r1 r2 rs1 rs2 [Hsel Hidle] _ IH]; intros h1 h2 out Ho1 Ho2 Hs; simpl; [done|].
  destruct (Hidle _ _ Ho1 Ho2 Hs) as (Hs1 & Ho1' & Ho2'). clear Hs. rename Hs1 into Hs. rewrite Hsel. destruct (JobHandler.sel r2) as [?|[?|]|result]; [done|done|by apply IH|].
  pose proof Hs as Hs'. unfold seen in Hs.
  destruct (chans (JobHandler.idle r1 h1) !! s1) as [[b1 c1 g1 l1]|] eqn:E1,
    (chans (JobHandler.idle r2 h2) !! s2) as [[b2 c2 g2 l2]|] eqn:E2; simplify_eq/=; [|done].
  destruct b2 as [|ev rest]; [by destruct c2|]. destruct result as [?|]; [done|].
  apply IH; [by apply owned_recv..|]. eapply seen_recv; [|exact Hs']. unfold seen. rewrite E1. reflexivity.
Qed.

(** Events of other jobs do not reach the subscription. *)
Lemma publish_other h job ev h' id sub :
  Publish h job ev = Some h' → owned h id sub → job ≠ id → seen h' sub = seen h sub ∧ owned h' id sub.
Proof.
  unfold Publish. destruct (closed h); [by intros [= <-]|]. intros Hp Ho Hne.
  assert (sub ∉ job_subs h job) as Hin by (intros Hin%Ho; done).
  assert (∀ l cs d cs' d', sub ∉ l → foldl (deliver (subscriberBuffer h) ev) (Some (cs, d)) l = Some (cs', d') →
    cs' !! sub = cs !! sub) as Hfold.
  { induction l as [|k l IH]; intros cs d cs' d' Hl Hf; cbn [foldl] in Hf; [by simplify_eq|].
    apply not_elem_of_cons in Hl as [Hk Hl].
    destruct (deliver _ ev (Some (cs, d)) k) as [[cs1 d1]|] eqn:Hd;
      [|exfalso; clear -Hf; induction l; simpl in *; auto; done].
    rewrite (IH _ _ _ _ Hl Hf). unfold deliver in Hd. repeat case_match; simplify_eq;
      rewrite ?lookup_insert_ne //. }
  destruct (foldl _ _ _) as [[cs d]|] eqn:Hf; [|done]. injection Hp as <-.
  split; [|exact Ho]. unfold seen. simpl. by rewrite (Hfold _ _ _ _ _ Hin Hf).
Qed.

Context (cd : codecs).

Lemma events_agree p w1 w2 (su1 su2 : around) resp id :
  same_view p w1 w2 → same_around p w1 w2 su1 su2 →
  (λ r, (r.1.1.2, r.1.2, r.2)) <$>
    JobHandler.Events (su_job su1) (w_jobs w1) resp (Some p) (cd_flusher cd) (su_rounds su1) (w_hub w1) id =
  (λ r, (r.1.1.2, r.1.2, r.2)) <$>
    JobHandler.Events (su_job su2) (w_jobs w2) resp (Some p) (cd_flusher cd) (su_rounds su2) (w_hub w2) id.
Proof.
  intros Hv [Hj _ _ Hfr Hr]. rewrite -Hj. destruct (vw_hub _ _ _ Hv) as [Hcl Hb].
  pose proof (vw_jobs _ _ _ Hv (su_job su1) id) as Hid. pose proof (vw_events _ _ _ Hv (su_job su1) id) as He.
  specialize (Hr (su_job su1) id). unfold JobHandler.Events, JobHandler.readable_job, JobService.GetByID, visible_job in *.
  destruct (JobRepo.GetByID _ (w_jobs w1) id) as [job1|e1], (JobRepo.GetByID _ (w_jobs w2) id) as [job2|e2];
    simplify_eq/=; [|done].
  destruct (CanReadJob p (OwnerUserID job1)) eqn:Ec1, (CanReadJob p (OwnerUserID job2)) eqn:Ec2; simplify_eq/=;
    [|done]. specialize (He job2 eq_refl Ec1).
  specialize (Hr job2 eq_refl Ec1).
  destruct (cd_flusher cd); [|done]. simpl. unfold Subscribe. rewrite -Hcl -Hb -He.
  destruct (closed (w_hub w1)); [done|].
  destruct (replay _ _ _) as [c|]; [|done]. fold (next_sub w1) (next_sub w2).
  match goal with |- context [JobHandler.events_loop (su_rounds su1) _ ?h _] => set (h1 := h) end.
  match goal with |- context [JobHandler.events_loop (su_rounds su2) _ ?h _] => set (h2 := h) end.
  assert (seen h1 (next_sub w1) = seen h2 (next_sub w2)) as Hs
    by (unfold seen, h1, h2; simpl; by rewrite !lookup_insert_eq).
  assert (owned h1 id (next_sub w1)) as Ho1 by (apply owned_subscribe; intros job; apply Hfr).
  assert (owned h2 id (next_sub w2)) as Ho2 by (apply owned_subscribe; intros job; apply Hfr).
  pose proof (events_loop_agree _ _ _ _ _ Hr h1 h2 [] Ho1 Ho2 Hs) as Hl.
  destruct (JobHandler.events_loop (su_rounds su1) _ _ _) as [[[h1' out1] e1]|],
    (JobHandler.events_loop (su_rounds su2) _ _ _) as [[[h2' out2] e2]|]; simplify_eq/=; [|done].
  by destruct e2.
Qed.

(** The answer of an operation that is not reserved to administrators depends
    on the caller's view only. *)
Lemma perform_agree p w1 w2 su1 su2 i op resp :
  pRole p ≠ RoleAdmin → int64_ok (pUserID p) → API.admin_only op = false →
  same_view p w1 w2 → same_around p w1 w2 su1 su2 →
  snd <$> perform cd su1 i (Some p) w1 op resp = snd <$> perform cd su2 i (Some p) w2 op resp.
Proof.
  intros Hrole Hint Hop Hv Ha. assert (∀ id, CanReadUser p id = true → wrap64 id = id) as Hwrap.
  { intros id. unfold CanReadUser. apply streqb_neq in Hrole. rewrite Hrole /=.
    intros <-%Z.eqb_eq. by apply wrap64_id. }
  assert (∀ id, CanReadUser p id = true → UserService.GetByID (su_user su1) (w_users w1) id =
    UserService.GetByID (su_user su2) (w_users w2) id) as Hu.
  { intros id Hc. rewrite -(ar_user _ _ _ _ _ Ha). by apply (vw_users _ _ _ Hv). }
  destruct op as [| | | |id|id|id|id|id|id]; try discriminate Hop; cbn [perform];
    [|apply (f_equal Some); cbn [snd]..].
  - pose proof (events_agree p w1 w2 su1 su2 resp id Hv Ha) as He.
    destruct (JobHandler.Events _ (w_jobs w1) _ _ _ _ _ _) as [[[[h1 r1] o1] e1]|],
      (JobHandler.Events _ (w_jobs w2) _ _ _ _ _ _) as [[[[h2 r2] o2] e2]|]; by simplify_eq/=.
  - unfold GetByID. destruct (CanReadUser p id) eqn:Hc; [|done]. by rewrite /= Hu.
  - unfold GetUserProfile. destruct (CanReadUser p id) eqn:Hc; [|done].
    unfold UserProfileService.GetUserWithProfile.
    by rewrite /= (Hwrap id Hc) Hu // (ar_fetch _ _ _ _ _ Ha).
  - unfold Export. destruct (CanReadUser p id) eqn:Hc; [|done]. by rewrite /= Hu.
Qed.

(** What one subscription can do to the hub: nothing happens to the events, the
    flags, the counters of events or to any other subscription. *)
Record own_change (id sub : Z) (h h' : Hub) : Prop := {
  oc_history : history h' = history h;
  oc_closed : closed h' = closed h ∧ subscriberBuffer h' = subscriberBuffer h;
  oc_events : eventsTotal h' = eventsTotal h ∧ dropsTotal h' = dropsTotal h;
  oc_subs : ∀ job s, (job, s) ≠ (id, sub) → registered h' job s ↔ registered h job s;
  oc_chans : ∀ s, s ≠ sub → chans h' !! s = chans h !! s;
  oc_unsubscribed : ∀ s, s ≠ sub → s ∈ unsubscribed h' ↔ s ∈ unsubscribed h;
  oc_next : nextID h' = nextID h ∨ nextID h' = sub;
  oc_gauge : subscribers h' = subscribers h ∨ subscribers h' = wrap64 (subscribers h + 1) ∨
    subscribers h' = wrap64 (subscribers h - 1);
}.

(** A step on the hub while the stream runs: its own, or what another goroutine
    does between two rounds. *)
Definition stream_step (id sub : Z) (rs : list JobHandler.round) (h h' : Hub) : Prop :=
  own_change id sub h h' ∨ ∃ r, r ∈ rs ∧ h' = JobHandler.idle r h.

Lemma own_change_refl id sub h : own_change id sub h h.
Proof. by split; auto. Qed.

Lemma own_change_subscribe h id sub h' :
  Subscribe h id = Some (h', Ok sub) → own_change id sub h h'.
Proof.
  unfold Subscribe. destruct (closed h) eqn:Hcl; [done|]. destruct (replay _ _ _) as [c|]; [|done].
  intros [= <- <-]. split; simpl; auto.
  - intros job s Hne. unfold registered. simpl. destruct (decide (id = job)) as [->|Hj].
    + rewrite lookup_insert_eq. assert (wrapu64 (nextID h + 1) ≠ s) as Hs by congruence. split.
      * intros (m & [= <-] & Hin). rewrite lookup_insert_ne // in Hin.
        destruct (subs h !! job) as [m|]; [by exists m|]. by destruct Hin.
      * intros (m & Hm & Hin). eexists. split; [done|]. by rewrite lookup_insert_ne // Hm.
    + by rewrite lookup_insert_ne.
  - intros s Hs. by rewrite lookup_insert_ne.
Qed.

Lemma own_change_recv id sub h : own_change id sub h (recv h sub).
Proof.
  unfold recv. destruct (chans h !! sub) as [[[|ev rest] cl got l]|]; try apply own_change_refl.
  split; simpl; auto. intros s Hs. by rewrite lookup_insert_ne.
Qed.

Lemma own_change_unsubscribe id sub h : own_change id sub h (unsubscribe h id sub).
Proof.
  assert (∀ s, s ≠ sub → s ∈ {[sub]} ∪ unsubscribed h ↔ s ∈ unsubscribed h) as Hu by set_solver.
  unfold unsubscribe. case_decide; [apply own_change_refl|].
  destruct (subs h !! id) as [m|] eqn:Hm; [|by split; simpl; auto].
  case_decide; [|by split; simpl; auto]. split; simpl; auto.
  intros job s Hne. unfold registered. simpl. destruct (decide (id = job)) as [->|Hj].
  - assert (sub ≠ s) as Hs by congruence. rewrite Hm. case_decide as Hd.
    + rewrite lookup_delete_eq. split; [by intros (? & ? & _)|]. intros (m' & [= <-] & [x Hx]).
      rewrite -(lookup_delete_ne m sub s) // Hd in Hx. by rewrite lookup_empty in Hx.
    + rewrite lookup_insert_eq. split; intros (m' & [= <-] & Hin); (eexists; split; [done|]);
        rewrite lookup_delete_ne // in Hin |- *.
  - case_decide; by rewrite ?lookup_delete_ne ?lookup_insert_ne.
Qed.

Lemma events_loop_steps id sub rs : ∀ rs' h out h' out' e, rs' ⊆ rs →
  JobHandler.events_loop rs' sub h out = Some (h', out', e) → rtc (stream_step id sub rs) h h'.
Proof.
  induction rs' as [|r rs' IH]; intros h out h' out' e Hsub Hl; simpl in Hl; [by simplify_eq|].
  assert (stream_step id sub rs h (JobHandler.idle r h)) as Hidle
    by (right; exists r; split; [apply Hsub; by left|done]).
  assert (rs' ⊆ rs) as Hsub' by (intros x Hx; apply Hsub; by right).
  eapply rtc_l; [exact Hidle|]. clear Hidle.
  assert (∀ h1, rtc (stream_step id sub rs) (recv h1 sub) h' → rtc (stream_step id sub rs) h1 h') as Hrecv
    by (intros h1 Hr; eapply rtc_l; [left; apply own_change_recv|exact Hr]).
  destruct (JobHandler.sel r) as [?|[?|]|result]; [by simplify_eq|by simplify_eq|by eapply IH|].
  destruct (chans (JobHandler.idle r h) !! sub) as [[[|ev rest] [] got l]|]; simplify_eq; try done;
    apply Hrecv; (destruct result; [by simplify_eq|by eapply IH]).
Qed.

Lemma stream_step_finish id sub rs h h' : rtc (stream_step id sub rs) h h' →
  rtc (stream_step id sub rs) h (unsubscribe h' id sub).
Proof. intros Hr. eapply rtc_r; [exact Hr|left; apply own_change_unsubscribe]. Qed.

(** Such an operation changes nothing but the hub, and the hub only for a job
    the caller may read, by steps of its own subscription. *)
Lemma perform_readonly p (w w' : proc) su i op resp r :
  API.admin_only op = false → perform cd su i (Some p) w op resp = Some (w', r) →
  w' = set_hub (w_hub w') w ∧
  (w' = w ∨ ∃ id job, op = API.JobEvents id ∧ JobRepo.GetByID (su_job su) (w_jobs w) id = Ok job ∧
     CanReadJob p (OwnerUserID job) = true ∧
     rtc (stream_step id (next_sub w) (su_rounds su)) (w_hub w) (w_hub w')).
Proof.
  intros Hop. assert (w = set_hub (w_hub w) w) as Hw by (by destruct w).
  destruct op as [| | | |id|id|id|id|id|id]; try discriminate Hop; cbn [perform];
    try (intros [= <- _]; split; [exact Hw|by left]).
  destruct (JobHandler.Events _ _ _ _ _ _ _ _) as [[[[h1 r1] o1] e1]|] eqn:He; [|done].
  intros [= <- _]. split; [done|].
  unfold JobHandler.Events, JobHandler.readable_job, JobService.GetByID in He.
  destruct (JobRepo.GetByID _ _ id) as [job|] eqn:Hg; [|left; by simplify_eq].
  destruct (CanReadJob p (OwnerUserID job)) eqn:Hc; [|left; by simplify_eq/=].
  right. exists id, job. split_and!; [done..|]. cbn [set_hub w_hub negb] in *.
  destruct (cd_flusher cd); [|by simplify_eq/=]. simpl in He.
  destruct (Subscribe (w_hub w) id) as [[h2 [sub|err]]|] eqn:Hs; [| |done].
  2:{ unfold Subscribe in Hs. destruct (closed _); [by simplify_eq|]. by destruct (replay _ _ _). }
  assert (sub = next_sub w) as ->.
  { unfold Subscribe in Hs. destruct (closed _); [done|]. destruct (replay _ _ _); by simplify_eq. }
  eapply rtc_l; [left; by apply own_change_subscribe|].
  destruct (JobHandler.events_loop _ _ _ _) as [[[h3 o3] [|reason err]]|] eqn:Hl; [| |done]; simplify_eq;
    apply (events_loop_steps id (next_sub w) (su_rounds su)) in Hl; try done.
  by apply stream_step_finish.
Qed.
End views.

(** ** The process behind the application *)
Section confined.
  Context {SJ SU : Type} `{!JobRepository SJ} `{!UserRepository SU} (cd : codecs).
  Context {IP : Type} (ParseIP : string → option IP) (SplitHostPort : string → option string).
  Context (a : application (IP:=IP)) (e : env) (q : http_req).
  Hypothesis Hrules : ap_rules a = API.policy_rules.

#[local] Abbreviation caller := (principal_of (ap_Verify a) (q_authz q)).

Lemma principal_of_bearer token p :
  Auth.parseBearerToken (q_authz q) = Ok token → ap_Verify a token = Ok p → caller = Some p.
Proof. unfold principal_of. by intros -> ->. Qed.

(** The two environments differ in the operations and the debug pages only,
    and not on what this caller is allowed to run. *)
Record env_agree (e1 e2 : env) : Prop := {
  ag_perform : ∀ op resp, (∃ p, caller = Some p ∧ (API.admin_only op = true → pRole p = RoleAdmin)) →
    e_perform e1 op resp = e_perform e2 op resp;
  ag_page : ∀ page resp, (∃ p, caller = Some p ∧ pRole p = RoleAdmin) →
    e_page e1 page resp = e_page e2 page resp;
  ag_rest : e_fresh e1 = e_fresh e2 ∧ e_resv e1 = e_resv e2 ∧ e_mux e1 = e_mux e2 ∧
    e_redirect e1 = e_redirect e2 ∧ e_doc e1 = e_doc e2 ∧ e_size e1 = e_size e2 ∧
    e_problem e1 = e_problem e2 ∧ e_flusher e1 = e_flusher e2;
}.

Lemma serve_api_agree e1 e2 rid scheme w s : env_agree e1 e2 →
  serve_api a e1 q rid scheme w s = serve_api a e2 q rid scheme w s ∧
  (∀ op, ro_performed (serve_api a e1 q rid scheme w s) = Some op →
     ∃ p, caller = Some p ∧ (API.admin_only op = true → pRole p = RoleAdmin)).
Proof using Hrules.
  intros [Hp _ (_ & Hr & _ & Hd & _)]. unfold serve_api. rewrite -Hr -Hd. cbv zeta.
  destruct (CORS.CORS _ _ _) as [h|w']; [|done]. destruct (API.ServeAPI _ _ _ _ _ _ _ _) as [s' ans] eqn:Hs.
  rewrite Hrules in Hs. destruct (API.api_mediated _ _ _ _ _ _ _ _ _ Hs) as [Hmed _].
  destruct ans as [| |[op|err]]; [done..| |done].
  destruct (Hmed op eq_refl) as (_ & _ & token & p & Ht & Hv & Hadm).
  assert (∃ p, caller = Some p ∧ (API.admin_only op = true → pRole p = RoleAdmin)) as Hc
    by (exists p; split; [by eapply principal_of_bearer|done]).
  rewrite (Hp op _ Hc). destruct (finish _ _) as [w3 panicked]. split; [done|]. by intros op' [= <-].
Qed.

Lemma serve_root_agree e1 e2 rid scheme w s : env_agree e1 e2 →
  serve_root a e1 q rid scheme w s = serve_root a e2 q rid scheme w s ∧
  (∀ op, ro_performed (serve_root a e1 q rid scheme w s) = Some op →
     ∃ p, caller = Some p ∧ (API.admin_only op = true → pRole p = RoleAdmin)).
Proof using Hrules.
  intros Ha. pose proof Ha as [_ Hpg (_ & Hr & Hm & Hd & Hdoc & _)].
  assert (∀ debug resv m path s' page,
    Root.ServeRoot debug true (ap_Verify a) (ap_rules a) resv m path (q_authz q) s =
      (s', Root.DebugAnswer (Ok (Some page))) → ∃ p, caller = Some p ∧ pRole p = RoleAdmin) as Hdbg.
  { intros debug resv m path s' page Hs. rewrite Hrules in Hs.
    apply Root.debug_mediated in Hs as (_ & _ & token & p & Ht & Hv & Hadm).
    exists p. split; [exact (principal_of_bearer token p Ht Hv)|exact Hadm]. }
  pose proof (serve_api_agree e1 e2 rid scheme w s Ha) as Happ. clear Ha Hrules.
  unfold serve_root, probe. rewrite -Hr -Hm -Hd -Hdoc. specialize (Hdbg (ap_debug a) (e_resv e1) (q_method q) (q_path q)).
  destruct (Mux.Handler _ _ _) as [pt [| |] b|[pt|]|]; [exact Happ|..|done|done|done];
    destruct (Root.ServeRoot _ _ _ _ _ _ _ _) as [s' [an|[[|]|]|[[page|]|err]| |]]; try done;
    rewrite (Hpg page w (Hdbg s' page eq_refl)); by destruct (finish _ _).
Qed.

Lemma Handle_agree e1 e2 s m : env_agree e1 e2 →
  Handle ParseIP SplitHostPort a e1 q s m = Handle ParseIP SplitHostPort a e2 q s m ∧
  (∀ op, sv_performed (Handle ParseIP SplitHostPort a e1 q s m) = Some op →
     ∃ p, caller = Some p ∧ (API.admin_only op = true → pRole p = RoleAdmin)).
Proof using Hrules.
  intros Ha. pose proof (ag_rest _ _ Ha) as (Hf & _ & _ & _ & _ & Hsz & Hpb & Hfl).
  unfold Handle. cbv zeta. rewrite -Hf -Hsz -Hpb -Hfl.
  set (rid := RequestID.RequestIDMiddleware _ _). set (scheme := Proxy.Scheme _). set (w := mkResponse _ _ _).
  destruct (serve_root_agree e1 e2 rid scheme w s Ha) as [Heq Hperm]. rewrite -Heq. split; [reflexivity|].
  destruct (Chain.Serve _ _ _ _ _ _) as [[rs log] m']. exact Hperm.
Qed.

(** (C9) An ordinary user is confined to what is theirs, by any request: when
    the caller is not an administrator, the complete observable result of a
    request (answer, log records, metrics, middleware state) is the same in any
    two states of the process that differ only in records of other users, in
    the contents of jobs of other users, in the queue, in the events of other
    jobs and in the debug pages; and an operation the request runs leaves both
    stores and the queue as they are.  It touches the hub only to follow a job
    the caller may read, and there only the entry of its own subscription:
    histories, counters of events, other subscriptions and their channels change
    by what other goroutines do meanwhile, and by nothing else. *)
Theorem ordinary_user_confined pages1 pages2 su1 su2 i (w1 w2 : world (SJ:=SJ) (SU:=SU)) s m :
  (∀ p, caller = Some p → pRole p ≠ RoleAdmin ∧ int64_ok (pUserID p) ∧
     same_view p w1 w2 ∧ same_around p w1 w2 su1 su2) →
  Handle ParseIP SplitHostPort a (process_env cd e pages1 su1 i caller w1) q s m =
    Handle ParseIP SplitHostPort a (process_env cd e pages2 su2 i caller w2) q s m ∧
  (∀ op, sv_performed (Handle ParseIP SplitHostPort a (process_env cd e pages1 su1 i caller w1) q s m) = Some op →
     ∃ p, caller = Some p ∧ ∀ resp w' r, perform cd su1 i (Some p) w1 op resp = Some (w', r) →
       w' = set_hub (w_hub w') w1 ∧
       (w' = w1 ∨ ∃ id job, op = API.JobEvents id ∧ JobRepo.GetByID (su_job su1) (w_jobs w1) id = Ok job ∧
          CanReadJob p (OwnerUserID job) = true ∧
          rtc (stream_step id (next_sub w1) (su_rounds su1)) (w_hub w1) (w_hub w'))).
Proof using Hrules.
  intros Hview.
  assert (∀ op p, caller = Some p → (API.admin_only op = true → pRole p = RoleAdmin) →
    API.admin_only op = false) as Hop.
  { intros op p Hc Hadm. destruct (Hview p Hc) as [Hr _].
    destruct (API.admin_only op); [by destruct (Hr (Hadm eq_refl))|reflexivity]. }
  assert (env_agree (process_env cd e pages1 su1 i caller w1) (process_env cd e pages2 su2 i caller w2)) as Ha.
  { clear Hrules. split; [| |by split_and!].
    - intros op resp (p & Hc & Hadm). destruct (Hview p Hc) as (Hr & Hi & Hv & Har).
      cbn [process_env e_perform]. rewrite Hc.
      pose proof (perform_agree cd p w1 w2 su1 su2 i op resp Hr Hi (Hop op p Hc Hadm) Hv Har) as Hp.
      destruct (perform _ su1 _ _ _ _ _) as [[w1' [r1 err1]]|],
        (perform _ su2 _ _ _ _ _) as [[w2' [r2 err2]]|]; by simplify_eq/=.
    - intros page resp (p & Hc & Hadm). by destruct (Hview p Hc) as [[] _]. }
  destruct (Handle_agree _ _ s m Ha) as [Heq Hperm]. split; [exact Heq|].
  intros op (p & Hc & Hadm)%Hperm. exists p. split; [exact Hc|]. intros resp w' r.
  exact (perform_readonly cd p w1 w' su1 i op resp r (Hop op p Hc Hadm)).
Qed.
End confined.

(** *** Two processes that differ in another user's records

    User 1 follows job 7; user 2 has another name, another job status and
    another event history, and meanwhile gets an event in the first process. *)
#[local] Instance ex_user_repo : UserRepository Memory.MemoryUserRepository := Memory.memory_UserRepository ex_fold.

Definition ex_event (job : Z) (t : string) : Event := mkEvent t job 0 DataNil.
Definition ex_process (bob : string) (st : JobStatus) (hist : gmap Z (list Event))
  : world (SJ:=MemoryJobRepository) (SU:=Memory.MemoryUserRepository) :=
  mkWorld
    (mkMemoryJobRepository {[ 7%Z := mkJob 7 JobRunning None None 1; 8%Z := mkJob 8 st None None 2 ]} 9)
    (Memory.mkMemoryUserRepository
       {[ 1%Z := mkUser 1 "Ann" 30 "ann@x.io" 1; 2%Z := mkUser 2 bob 40 "bob@x.io" 1 ]} 3)
    (mkHub ∅ hist 0 2 0 0 0 false ∅ ∅) (mkQueue [] 4 false 0) 0.
Definition ex_world1 := ex_process "Bob" JobQueued {[ 7%Z := [ex_event 7 JobRunning]; 8%Z := [ex_event 8 JobQueued] ]}.
Definition ex_world2 := ex_process "Eve" JobSucceeded {[ 7%Z := [ex_event 7 JobRunning] ]}.

Definition ex_noise (h : Hub) : Hub := default h (Publish h 8 (ex_event 8 JobRunning)).
Definition ex_around (idle : Hub → Hub)
  : surroundings (SJ:=MemoryJobRepository) (SU:=Memory.MemoryUserRepository) :=
  mkSurroundings JobHandler.no_env ex_uenv ex_create_env (λ _, Ok []) (λ _ _, Err (ESentinel ErrNotFound)) None
    [JobHandler.mkRound idle (JobHandler.SelEvent None); JobHandler.mkRound id (JobHandler.SelDone None)].

Lemma ex_job_subs bob st hist job : job_subs (w_hub (ex_process bob st hist)) job = [].
Proof. unfold job_subs, ex_process. simpl. by rewrite lookup_empty. Qed.

Lemma ex_jobs bob st hist env id :
  JobRepo.GetByID env (w_jobs (ex_process bob st hist)) id =
    if decide (id = 7%Z) then Ok (mkJob 7 JobRunning None None 1)
    else if decide (id = 8%Z) then Ok (mkJob 8 st None None 2) else Err (ESentinel ErrJobNotFound).
Proof.
  destruct env. destruct (decide (id = 7%Z)) as [->|H7]; [reflexivity|].
  destruct (decide (id = 8%Z)) as [->|H8]; [reflexivity|]. simpl. unfold MemoryJobRepo.GetByID. simpl.
  by rewrite lookup_insert_ne // lookup_singleton_ne.
Qed.

Lemma ex_same_view : same_view (mkPrincipal 1 RoleUser) ex_world1 ex_world2.
Proof.
  split.
  - intros [] id Hid. unfold CanReadUser in Hid. apply Z.eqb_eq in Hid as <-. reflexivity.
  - intros env id. unfold ex_world1, ex_world2. rewrite !ex_jobs. by repeat case_decide.
  - done.
  - intros env id job Hg Hr. unfold ex_world1 in Hg. rewrite ex_jobs in Hg.
    repeat case_decide; simplify_eq/=. reflexivity.
Qed.

Lemma ex_same_around :
  same_around (mkPrincipal 1 RoleUser) ex_world1 ex_world2 (ex_around ex_noise) (ex_around id).
Proof.
  split; [done..| |].
  - intros job. unfold ex_world1, ex_world2. rewrite !ex_job_subs. split; apply not_elem_of_nil.
  - intros env id job Hg Hr. unfold ex_world1 in Hg. rewrite ex_jobs in Hg.
    assert (8%Z ≠ id) as Hne by (intros <-; simpl in Hg; by simplify_eq/=).
    apply list.Forall2_cons; split; [|apply list.Forall2_cons; split; [by split|by apply list.Forall2_nil]].
    split; [done|]. intros h1 h2 Ho1 Ho2 Hs. simpl. unfold ex_noise.
    destruct (Publish h1 8 _) as [h1'|] eqn:Hp; simpl; [|done].
    destruct (publish_other _ _ _ _ _ _ Hp Ho1 Hne) as [-> Ho]. done.
Qed.

Definition ex_codecs : codecs :=
  mkCodecs (λ _, None) (λ _, EmptyString) (λ j, Ok (Status j)) (λ b, Ok (JobHandler.brStatus b))
    (λ u, Ok (dName u)) (λ _, Ok EmptyString) (λ u, Ok (dName u)) (λ _, Ok EmptyString) (λ _, Ok EmptyString)
    (λ u, Ok (upName u)) (λ u, Ok (upName u)) (λ x, Ok (exName x)) (λ w _ _, w)
    (λ fs, String.concat EmptyString (JobHandler.event_frames fs).*1) None true.
Definition ex_follow : http_req :=
  mkHttpReq "GET" ["api"; "v1"; "jobs"; "7"; "events"] "/api/v1/jobs/7/events" "Bearer good"
    "https://app.example" "" "" (Proxy.mkConn "192.0.2.7:4711" true "" "" "spoofed") 1000.
Definition ex_in : request_in :=
  mkRequestIn "" "" (None, None, ex_payload) (None, None, mkCreateUserInputV2 "" 0 "") "" "" "Bearer good" None "".

Lemma ordinary_user_confined_witness :
  match ex_built with
  | Ok a =>
      let p := principal_of (ap_Verify a) (q_authz ex_follow) in
      let v1 := Handle ex_ip ex_split a (process_env ex_codecs ex_appenv (λ _ w, Panicked w) (ex_around ex_noise)
                  ex_in p ex_world1) ex_follow ex_state Metrics.DefaultHTTP in
      let v2 := Handle ex_ip ex_split a (process_env ex_codecs ex_appenv (λ _ w, Returned w None) (ex_around id)
                  ex_in p ex_world2) ex_follow ex_state Metrics.DefaultHTTP in
      rsBody (sv_response v2) = BytesBody JobRunning ∧ v1 = v2
  | Err _ => False
  end.
Proof.
  assert (match ex_built with
    | Ok a => Some (principal_of (ap_Verify a) (q_authz ex_follow),
        rsBody (sv_response (Handle ex_ip ex_split a (process_env ex_codecs ex_appenv (λ _ w, Returned w None) (ex_around id)
          ex_in (principal_of (ap_Verify a) (q_authz ex_follow)) ex_world2) ex_follow ex_state Metrics.DefaultHTTP)))
    | Err _ => None end = Some (Some (mkPrincipal 1 RoleUser), BytesBody JobRunning)) as Hv by (vm_compute; reflexivity).
  destruct ex_built as [a|] eqn:Eb; [|discriminate Hv].
  assert (ap_rules a = API.policy_rules) as Hrules.
  { unfold ex_built in Eb. destruct (@Load ex_parsers ex_production) as [c|]; [|discriminate Eb].
    exact (proj1 (new_app_Ok ex_ip _ _ _ _ _ _ Eb)). }
  cbv zeta in Hv |- *. injection Hv as Hp Hb. split; [exact Hb|].
  apply (ordinary_user_confined ex_codecs ex_ip ex_split a ex_appenv ex_follow Hrules (λ _ w, Panicked w)
    (λ _ w, Returned w None) (ex_around ex_noise) (ex_around id) ex_in ex_world1 ex_world2 ex_state
    Metrics.DefaultHTTP).
  intros p Hp'. change (q_authz ex_follow) with "Bearer good" in Hp'.
  assert (p = mkPrincipal 1 RoleUser) as -> by congruence.
  split; [discriminate|]. split; [split; vm_compute; discriminate|].
  split; [exact ex_same_view|exact ex_same_around].
Defined.
