(* ===== verification/AsyncSystem.v ===== *)
(** * Asynchronous creation, end to end

    The components that carry an asynchronous creation, over one process state:
    the creation handlers ([internal/routes/users_handler.go]), the queue, the
    worker pool with its generations and [Stop] calls
    ([internal/workerpool/workerpool.go]), the job and user repositories and
    the event hub.  A handler and a worker are programs whose program points
    are the constructors of [rpc] and [wpc]; one step is one critical section
    of a repository, the queue or the hub.  [exec] performs the step an [action]
    names, [None] when the goroutine cannot take it; a [schedule] chooses one
    action at a time, and everything that is not scheduled waits.

    [worker_run_process_item] and [request_run_create_async] show that a worker,
    respectively a handler, that runs from beginning to end with given
    interference between its steps computes what [Worker.process_item] and
    [UsersHandler.create_async] compute. *)
From S2P Require Import Prelude.
From S2P Require Import GoErrors.
From S2P Require Import Entity.
From S2P Require Import JobRepo.
From S2P Require Import MemoryJobRepo.
From S2P Require Import UserRepo.
From S2P Require Import Services.
From S2P Require Import Queue.
From S2P Require Import Stream.
From S2P Require Import WorkerPool.
From S2P Require Import HttpErrors.
From S2P Require Import HttpUtils.
From S2P Require Import Security.
From S2P Require Import Handlers.

Abbreviation job_store := MemoryJobRepository.
Abbreviation user_store := Memory.MemoryUserRepository.

(** ** A worker, step by step *)

(** The job transition a worker is in the middle of. *)
Inductive jcall : Type :=
| CallRunning
| CallSucceeded (r : JobResult)
| CallFailed (p : JobProblem).

Definition call_intent (c : jcall) : JobTransition :=
  match c with
  | CallRunning => JobTransitionStart
  | CallSucceeded _ => JobTransitionSucceed
  | CallFailed _ => JobTransitionFail
  end.

Definition call_write (c : jcall) (s : job_store) (id : Z) : job_store * option error :=
  match c with
  | CallRunning => MemoryJobRepo.SetRunning s id
  | CallSucceeded r => MemoryJobRepo.SetSucceeded s id r
  | CallFailed p => MemoryJobRepo.SetFailed s id p
  end.

Definition call_event (c : jcall) (id now : Z) : Event :=
  match c with
  | CallRunning => mkEvent JobRunning id now DataNil
  | CallSucceeded r => mkEvent JobSucceeded id now (DataJobResult r)
  | CallFailed p => mkEvent JobFailed id now (DataJobProblem p)
  end.

(** [last] marks the call a cancelled worker makes before it returns. *)
Inductive wpc : Type :=
| WIdle
| WGot (item : WorkItem)
| WCheck (item : WorkItem) (c : jcall) (last : bool)
| WWrite (item : WorkItem) (c : jcall) (last : bool)
| WPublish (item : WorkItem) (c : jcall) (last : bool)
| WExists (item : WorkItem)
| WSave (item : WorkItem).

(** The counters moved before and after the event of a call is published. *)
Definition obs_before (c : jcall) (o : Worker.observer) : Worker.observer :=
  match c with
  | CallRunning => Worker.IncRunning o
  | CallSucceeded _ => Worker.IncSucceeded o
  | CallFailed _ => o
  end.
Definition obs_after (c : jcall) (last : bool) (o : Worker.observer) : Worker.observer :=
  match c with
  | CallRunning => o
  | CallSucceeded _ => Worker.ObserveProcessing o
  | CallFailed _ => if last then o else Worker.ObserveProcessing (Worker.IncFailed o)
  end.

(** [None]: the worker has returned. *)
Definition leave (last : bool) : option wpc := if last then None else Some WIdle.

Section users.
Context (fold : string → string).

Definition worker_world : Type := Worker.world job_store user_store.

(** One step of a worker that is not waiting in its [select]. *)
Definition worker_step (cancelled : bool) (now : Z) (pc : wpc) (w : worker_world)
  : option (worker_world * option wpc) :=
  match pc with
  | WIdle => None
  | WGot item =>
      Some (w, Some (if cancelled then WCheck item (CallFailed JobService.ShutdownJobProblem) true
                     else WCheck item CallRunning false))
  | WCheck item c last =>
      match MemoryJobRepo.GetByID (Worker.w_jobs w) (JobID item) with
      | Err _ => Some (w, leave last)
      | Ok job =>
          Some (w, if CanTransitionJob (Status job) (call_intent c) then Some (WWrite item c last)
                   else leave last)
      end
  | WWrite item c last =>
      match call_write c (Worker.w_jobs w) (JobID item) with
      | (s, Some _) => Some (Worker.set_jobs s w, leave last)
      | (s, None) =>
          Some (Worker.set_obs (obs_before c) (Worker.set_jobs s w), Some (WPublish item c last))
      end
  | WPublish item c last =>
      match Worker.publish (JobID item) (call_event c (JobID item) now) w with
      | None => None
      | Some w =>
          Some (Worker.set_obs (obs_after c last) w,
                match c with CallRunning => Some (WExists item) | _ => leave last end)
      end
  | WExists item =>
      Some (w, Some (if Memory.ExistsByEmail fold (Worker.w_users w) (inEmail (Payload item))
                     then WCheck item (CallFailed (Worker.ToJobProblem
                            (EWrap "email already exists" (ESentinel ErrConflict)))) false
                     else WSave item))
  | WSave item =>
      let i := Payload item in
      match Memory.Save fold (Worker.w_users w) (mkUser 0 (inName i) (inAge i) (inEmail i) 0) with
      | (u, (_, Some e)) =>
          Some (Worker.set_users u w,
                Some (WCheck item (CallFailed (Worker.ToJobProblem (EWrap "save user" e))) false))
      | (u, (user, None)) =>
          Some (Worker.set_users u w, Some (WCheck item (CallSucceeded (mkJobResult (uID user))) false))
      end
  end.

(** ** A creation handler, step by step *)
Inductive rpc : Type :=
| RSave (payload : CreateUserInput) (p : Principal)
| RPublish (job : Job) (payload : CreateUserInput)
| REnqueue (job : Job) (payload : CreateUserInput)
| RDelete (job : Job) (e : error).

(** What the handler answers: the accepted job, or the error it returns. *)
Definition reply : Type := Job + option error.

Definition handler_world : Type := UsersHandler.world (SJ := job_store) (SU := user_store).

Definition request_step (o : ctx_obs) (now : Z) (pc : rpc) (w : handler_world)
  : option (handler_world * (rpc + reply)) :=
  match pc with
  | RSave payload p =>
      let '(s, job) := MemoryJobRepo.Save (UsersHandler.w_jobs w)
                         (mkJob 0 JobQueued None None (Security.pUserID p)) in
      Some (UsersHandler.set_jobs s w, inl (RPublish job payload))
  | RPublish job payload =>
      match UsersHandler.publishQueuedJob now w (ID job) with
      | None => None
      | Some w => Some (w, inl (REnqueue job payload))
      end
  | REnqueue job payload =>
      match Enqueue o (UsersHandler.w_queue w) (mkWorkItem (ID job) payload) with
      | (q, Some e) => Some (UsersHandler.set_queue q w, inl (RDelete job e))
      | (q, None) => Some (UsersHandler.set_queue q w, inr (inl job))
      end
  | RDelete job e =>
      match MemoryJobRepo.Delete (UsersHandler.w_jobs w) (ID job) with
      | (s, Some deleteErr) => Some (UsersHandler.set_jobs s w, inr (inr (errors_Join [Some e; Some deleteErr])))
      | (s, None) => Some (UsersHandler.set_jobs s w, inr (inr (Some e)))
      end
  end.

(** ** Uninterrupted runs *)

(** What runs between two steps of a worker, taken from the environment of
    [process_item]. *)
#[local] Instance users_repo : UserRepository user_store := Memory.memory_UserRepository fold.

Definition call_index (c : jcall) (last : bool) : nat :=
  match c with CallRunning => 1 | CallSucceeded _ => 4 | CallFailed _ => if last then 0 else 3 end.

Definition disturb (e : Worker.worker_env job_store user_store) (pc : wpc) (w : worker_world)
  : worker_world :=
  match pc with
  | WWrite _ c last => Worker.set_jobs (Worker.we_job_mid e (call_index c last) (Worker.w_jobs w)) w
  | WExists _ => Worker.we_between e 1 w
  | WSave _ => Worker.set_users (Worker.we_user_mid e (Worker.w_users w)) w
  | WCheck _ CallRunning _ | WCheck _ _ true => w
  | WCheck _ _ false => Worker.we_between e 2 w
  | _ => w
  end.

Definition pc_clock (e : Worker.worker_env job_store user_store) (pc : wpc) : Z :=
  match pc with WPublish _ c last => Worker.we_clock e (call_index c last) | _ => 0%Z end.

Fixpoint worker_run (fuel : nat) (e : Worker.worker_env job_store user_store) (pc : wpc)
    (w : worker_world) : option (worker_world * Worker.loop_ctl) :=
  match fuel with
  | 0 => None
  | S fuel =>
      match worker_step (Worker.we_cancelled e) (pc_clock e pc) pc (disturb e pc w) with
      | None => None
      | Some (w, None) => Some (w, Worker.LoopReturn)
      | Some (w, Some WIdle) => Some (w, Worker.LoopContinue)
      | Some (w, Some pc) => worker_run fuel e pc w
      end
  end.

Definition request_disturb (e : @UsersHandler.create_env job_store user_store _ _) (pc : rpc) (w : handler_world)
  : handler_world :=
  match pc with
  | RSave _ _ => w
  | RPublish _ _ => UsersHandler.ev_between e 0 w
  | REnqueue _ _ => UsersHandler.ev_between e 1 w
  | RDelete _ _ => UsersHandler.ev_between e 2 w
  end.

Fixpoint request_run (fuel : nat) (e : @UsersHandler.create_env job_store user_store _ _) (pc : rpc)
    (w : handler_world) : option (handler_world * reply) :=
  match fuel with
  | 0 => None
  | S fuel =>
      match request_step (UsersHandler.ev_ctx e) (UsersHandler.ev_now e) pc (request_disturb e pc w) with
      | None => None
      | Some (w, inr r) => Some (w, r)
      | Some (w, inl pc) => request_run fuel e pc w
      end
  end.
End users.

(** ** The process

    [sy_workers] maps a goroutine to the generation it belongs to and its
    program point, [sy_stops] (in [sy_pool]) the pending [Stop] calls,
    [sy_cancelling] those of them that have yet to call [gen.cancel].
    [sy_log] records the events published while the hub was open. *)
Record system := mkSystem {
  sy_jobs : job_store;
  sy_users : user_store;
  sy_hub : Hub;
  sy_queue : Queue;
  sy_obs : Worker.observer;
  sy_queued : Z;
  sy_requests : gmap nat rpc;
  sy_workers : gmap nat (nat * wpc);
  sy_nextw : nat;
  sy_pool : Lifecycle.pstate;
  sy_cancelling : gset nat;
  sy_log : gmap Z (list Event);
}.

Definition sys_init (hub : Hub) (q : Queue) : system :=
  mkSystem NewMemoryJobRepository Memory.NewMemoryUserRepository hub q (Worker.mkObserver 0 0 0 0) 0
    ∅ ∅ 0 Lifecycle.ps_init ∅ ∅.

(** The parts of the state a worker and a handler see. *)
Definition worker_view (s : system) : worker_world :=
  Worker.mkWorld (sy_jobs s) (sy_users s) (sy_hub s) (sy_obs s).
Definition put_worker_view (w : worker_world) (s : system) : system :=
  mkSystem (Worker.w_jobs w) (Worker.w_users w) (Worker.w_hub w) (sy_queue s) (Worker.w_obs w)
    (sy_queued s) (sy_requests s) (sy_workers s) (sy_nextw s) (sy_pool s) (sy_cancelling s) (sy_log s).
Definition handler_view (s : system) : handler_world :=
  UsersHandler.mkWorld (sy_jobs s) (sy_users s) (sy_hub s) (sy_queue s) (sy_queued s).
Definition put_handler_view (w : handler_world) (s : system) : system :=
  mkSystem (UsersHandler.w_jobs w) (UsersHandler.w_users w) (UsersHandler.w_hub w) (UsersHandler.w_queue w)
    (sy_obs s) (UsersHandler.w_queued w) (sy_requests s) (sy_workers s) (sy_nextw s) (sy_pool s)
    (sy_cancelling s) (sy_log s).

Definition set_requests (r : gmap nat rpc) (s : system) : system :=
  mkSystem (sy_jobs s) (sy_users s) (sy_hub s) (sy_queue s) (sy_obs s) (sy_queued s) r
    (sy_workers s) (sy_nextw s) (sy_pool s) (sy_cancelling s) (sy_log s).
Definition set_workers (ws : gmap nat (nat * wpc)) (s : system) : system :=
  mkSystem (sy_jobs s) (sy_users s) (sy_hub s) (sy_queue s) (sy_obs s) (sy_queued s) (sy_requests s)
    ws (sy_nextw s) (sy_pool s) (sy_cancelling s) (sy_log s).
Definition set_hub (h : Hub) (s : system) : system :=
  mkSystem (sy_jobs s) (sy_users s) h (sy_queue s) (sy_obs s) (sy_queued s) (sy_requests s)
    (sy_workers s) (sy_nextw s) (sy_pool s) (sy_cancelling s) (sy_log s).
Definition set_queue (q : Queue) (s : system) : system :=
  mkSystem (sy_jobs s) (sy_users s) (sy_hub s) q (sy_obs s) (sy_queued s) (sy_requests s)
    (sy_workers s) (sy_nextw s) (sy_pool s) (sy_cancelling s) (sy_log s).
Definition set_jobs (r : job_store) (s : system) : system :=
  mkSystem r (sy_users s) (sy_hub s) (sy_queue s) (sy_obs s) (sy_queued s) (sy_requests s)
    (sy_workers s) (sy_nextw s) (sy_pool s) (sy_cancelling s) (sy_log s).
Definition set_users (u : user_store) (s : system) : system :=
  mkSystem (sy_jobs s) u (sy_hub s) (sy_queue s) (sy_obs s) (sy_queued s) (sy_requests s)
    (sy_workers s) (sy_nextw s) (sy_pool s) (sy_cancelling s) (sy_log s).
Definition set_pool (p : Lifecycle.pstate) (s : system) : system :=
  mkSystem (sy_jobs s) (sy_users s) (sy_hub s) (sy_queue s) (sy_obs s) (sy_queued s) (sy_requests s)
    (sy_workers s) (sy_nextw s) p (sy_cancelling s) (sy_log s).
Definition set_cancelling (c : gset nat) (s : system) : system :=
  mkSystem (sy_jobs s) (sy_users s) (sy_hub s) (sy_queue s) (sy_obs s) (sy_queued s) (sy_requests s)
    (sy_workers s) (sy_nextw s) (sy_pool s) c (sy_log s).

(** History: an event reaches the log when the hub is open. *)
Definition log_event (id : Z) (ev : Event) (s : system) : system :=
  mkSystem (sy_jobs s) (sy_users s) (sy_hub s) (sy_queue s) (sy_obs s) (sy_queued s) (sy_requests s)
    (sy_workers s) (sy_nextw s) (sy_pool s) (sy_cancelling s)
    (if closed (sy_hub s) then sy_log s
     else <[id := default [] (sy_log s !! id) ++ [ev]]> (sy_log s)).

Definition worker_log (now : Z) (pc : wpc) (s : system) : system :=
  match pc with
  | WPublish item c _ => log_event (JobID item) (call_event c (JobID item) now) s
  | _ => s
  end.
Definition request_log (now : Z) (pc : rpc) (s : system) : system :=
  match pc with
  | RPublish job _ => log_event (ID job) (mkEvent JobQueued (ID job) now DataNil) s
  | _ => s
  end.

(** ** Actions *)
Inductive action : Type :=
| ARequest (pid : nat) (payload : CreateUserInput) (p : Principal)
| AHandler (pid : nat) (o : ctx_obs) (now : Z)
| AWorker (wid : nat) (take : bool) (now : Z)
| ACreateUser (u : User)
| AStart (workers : Z)
| AStop (pid : nat)
| AStopStep (pid : nat)
| AStopTimeout (pid : nat)
| ACancel (g : nat)
| AStopAccepting
| ASubscribe (job : Z)
| AUnsubscribe (job id : Z)
| ARecv (id : Z)
| ACloseFlag
| ACloseDrain.

Definition cancelled (s : system) (g : nat) : bool :=
  match Lifecycle.gens (Lifecycle.ps_pool (sy_pool s)) !! g with
  | Some gen => Lifecycle.genCancelled gen
  | None => false
  end.

(** [stopOnce] of the generation has not run. *)
Definition unrepaired (s : system) (g : nat) : bool :=
  match Lifecycle.gens (Lifecycle.ps_pool (sy_pool s)) !! g with
  | Some gen => match Lifecycle.genOutcome gen with None => true | Some _ => false end
  | None => false
  end.

(** The goroutines [Start] launches. *)
Fixpoint spawn (first n g : nat) (ws : gmap nat (nat * wpc)) : gmap nat (nat * wpc) :=
  match n with
  | 0 => ws
  | S n => <[first := (g, WIdle)]> (spawn (S first) n g ws)
  end.

Definition exit_worker (wid g : nat) (s : system) : system :=
  set_workers (delete wid (sy_workers s))
    (set_pool (Lifecycle.mkPstate (Lifecycle.workerDone g (Lifecycle.ps_pool (sy_pool s)))
                 (Lifecycle.ps_stops (sy_pool s))) s).

Section exec.
Context (fold : string → string).

Definition exec_handler (pid : nat) (o : ctx_obs) (now : Z) (s : system) : option system :=
  match sy_requests s !! pid with
  | None => None
  | Some pc =>
      match request_step o now pc (handler_view s) with
      | None => None
      | Some (w, next) =>
          let s' := put_handler_view w (request_log now pc s) in
          Some (match next with
                | inl pc' => set_requests (<[pid := pc']> (sy_requests s)) s'
                | inr _ => set_requests (delete pid (sy_requests s)) s'
                end)
      end
  end.

(** The [select] of an idle worker: when its context is done and an item is
    there too, [take] picks the case. *)
Definition exec_idle (wid g : nat) (take : bool) (s : system) : option system :=
  match receive (sy_queue s) with
  | Some (item, q) =>
      if (cancelled s g && negb take)%bool then Some (exit_worker wid g s)
      else Some (set_workers (<[wid := (g, WGot item)]> (sy_workers s)) (set_queue q s))
  | None => if cancelled s g then Some (exit_worker wid g s) else None
  end.

Definition exec_worker (wid : nat) (take : bool) (now : Z) (s : system) : option system :=
  match sy_workers s !! wid with
  | None => None
  | Some (g, WIdle) => exec_idle wid g take s
  | Some (g, pc) =>
      match worker_step fold (cancelled s g) now pc (worker_view s) with
      | None => None
      | Some (w, next) =>
          let s' := put_worker_view w (worker_log now pc s) in
          Some (match next with
                | Some pc' => set_workers (<[wid := (g, pc')]> (sy_workers s)) s'
                | None => exit_worker wid g s'
                end)
      end
  end.

Definition exec_start (workers : Z) (s : system) : option system :=
  let p := Lifecycle.ps_pool (sy_pool s) in
  let p' := (Lifecycle.Start p workers).1 in
  let s' := set_pool (Lifecycle.mkPstate p' (Lifecycle.ps_stops (sy_pool s))) s in
  Some (if decide (length (Lifecycle.gens p') = S (length (Lifecycle.gens p))) then
          let n := Z.to_nat workers in
          mkSystem (sy_jobs s) (sy_users s) (sy_hub s) (sy_queue s) (sy_obs s) (sy_queued s)
            (sy_requests s) (spawn (sy_nextw s) n (length (Lifecycle.gens p)) (sy_workers s))
            (sy_nextw s + n) (sy_pool s') (sy_cancelling s) (sy_log s)
        else s').

(** [Stop] up to the end of its first critical section. *)
Definition exec_stop (pid : nat) (s : system) : option system :=
  let p := Lifecycle.ps_pool (sy_pool s) in
  let st := Lifecycle.ps_stops (sy_pool s) in
  match st !! pid, Lifecycle.stop_enter p with
  | Some _, _ => None
  | None, (p', Lifecycle.StopReturns _) => Some (set_pool (Lifecycle.mkPstate p' st) s)
  | None, (p', Lifecycle.StopWaits g first) =>
      let s' := set_pool (Lifecycle.mkPstate p' (<[pid := (g, false)]> st)) s in
      Some (if first then set_cancelling ({[pid]} ∪ sy_cancelling s) s' else s')
  end.

(** The rest of [Stop]: cancel, wait for [done], repair, clear and return. *)
Definition exec_stop_step (pid : nat) (s : system) : option system :=
  let p := Lifecycle.ps_pool (sy_pool s) in
  let st := Lifecycle.ps_stops (sy_pool s) in
  match st !! pid with
  | None => None
  | Some (g, false) =>
      if decide (pid ∈ sy_cancelling s) then
        Some (set_cancelling (sy_cancelling s ∖ {[pid]})
                (set_pool (Lifecycle.mkPstate (Lifecycle.cancel_gen g p) st) s))
      else if Lifecycle.gen_done p g then
        let '(jobs', o) := Worker.repairActiveOnShutdown (tt : @repo_env _ memory_JobRepository) (sy_jobs s) in
        Some (set_jobs (if unrepaired s g then jobs' else sy_jobs s)
                (set_pool (Lifecycle.mkPstate (Lifecycle.stop_repair o g p) (<[pid := (g, true)]> st)) s))
      else None
  | Some (g, true) =>
      Some (set_pool (Lifecycle.mkPstate (Lifecycle.stop_clear g p).1 (delete pid st)) s)
  end.

(** [Stop] gives up waiting when its context ends. *)
Definition exec_stop_timeout (pid : nat) (s : system) : option system :=
  let st := Lifecycle.ps_stops (sy_pool s) in
  match st !! pid with
  | Some (_, false) =>
      if decide (pid ∈ sy_cancelling s) then None
      else Some (set_pool (Lifecycle.mkPstate (Lifecycle.ps_pool (sy_pool s)) (delete pid st)) s)
  | _ => None
  end.

Definition exec (a : action) (s : system) : option system :=
  match a with
  | ARequest pid payload p =>
      match sy_requests s !! pid with
      | Some _ => None
      | None => Some (set_requests (<[pid := RSave payload p]> (sy_requests s)) s)
      end
  | AHandler pid o now => exec_handler pid o now s
  | AWorker wid take now => exec_worker wid take now s
  | ACreateUser u => Some (set_users (Memory.Save fold (sy_users s) u).1 s)
  | AStart workers => exec_start workers s
  | AStop pid => exec_stop pid s
  | AStopStep pid => exec_stop_step pid s
  | AStopTimeout pid => exec_stop_timeout pid s
  | ACancel g =>
      Some (set_pool (Lifecycle.mkPstate (Lifecycle.cancel_gen g (Lifecycle.ps_pool (sy_pool s)))
                        (Lifecycle.ps_stops (sy_pool s))) s)
  | AStopAccepting => Some (set_queue (StopAccepting (sy_queue s)) s)
  | ASubscribe job => match Subscribe (sy_hub s) job with
                      | Some (h, _) => Some (set_hub h s)
                      | None => None
                      end
  | AUnsubscribe job id => Some (set_hub (unsubscribe (sy_hub s) job id) s)
  | ARecv id => Some (set_hub (recv (sy_hub s) id) s)
  | ACloseFlag => Some (set_hub (close_flag (sy_hub s)).1 s)
  | ACloseDrain => if closed (sy_hub s) then (λ h, set_hub h s) <$> close_drain (sy_hub s) else None
  end.

(** A goroutine that cannot move leaves the state as it is. *)
Definition step (a : action) (s : system) : system := default s (exec a s).

(** The state after the first [n] choices of a scheduler. *)
Fixpoint run (sched : nat → action) (n : nat) (s : system) : system :=
  match n with
  | 0 => s
  | S n => step (sched n) (run sched n s)
  end.
End exec.

(** ** Uninterrupted runs are the sequential models *)
Section uninterrupted.
Context (fold : string → string).
#[local] Hint Extern 0 (UserRepository user_store) => exact (users_repo fold) : typeclass_instances.

(** A service transition is the check and the write, with the interference in
    between. *)
Lemma service_transition mid s id c :
  JobService.transition JobService.no_env mid s id (call_intent c) (λ s, call_write c s id) =
  match MemoryJobRepo.GetByID s id with
  | Err e => (s, Some e)
  | Ok job =>
      if CanTransitionJob (Status job) (call_intent c) then call_write c (mid s) id
      else (s, Some (NewJobTransitionConflict id (Status job) (JobTransitionFor (call_intent c)).1))
  end.
Proof.
  unfold JobService.transition. cbn [JobRepo.GetByID memory_JobRepository].
  destruct (MemoryJobRepo.GetByID s id) as [job|err]; [|done]. by destruct c, (CanTransitionJob _ _).
Qed.

Lemma SetRunning_call mid (s : job_store) id :
  JobService.SetRunning JobService.no_env JobService.no_env mid s id =
  JobService.transition JobService.no_env mid s id (call_intent CallRunning) (λ s, call_write CallRunning s id).
Proof. done. Qed.
Lemma SetSucceeded_call mid (s : job_store) id r :
  JobService.SetSucceeded JobService.no_env JobService.no_env mid s id r =
  JobService.transition JobService.no_env mid s id (call_intent (CallSucceeded r))
    (λ s, call_write (CallSucceeded r) s id).
Proof. done. Qed.
Lemma SetFailed_call mid (s : job_store) id p :
  JobService.SetFailed JobService.no_env JobService.no_env mid s id p =
  JobService.transition JobService.no_env mid s id (call_intent (CallFailed p))
    (λ s, call_write (CallFailed p) s id).
Proof. done. Qed.

(** The in-memory repositories decide nothing about a call. *)
Lemma we_get_unit (e : Worker.worker_env job_store user_store) n : Worker.we_get e n = JobService.no_env.
Proof. by destruct (Worker.we_get e n). Qed.
Lemma we_apply_unit (e : Worker.worker_env job_store user_store) n : Worker.we_apply e n = JobService.no_env.
Proof. by destruct (Worker.we_apply e n). Qed.

Definition ctl (last : bool) : Worker.loop_ctl :=
  if last then Worker.LoopReturn else Worker.LoopContinue.

Lemma worker_run_S n e pc w :
  worker_run fold (S n) e pc w =
  match worker_step fold (Worker.we_cancelled e) (pc_clock fold e pc) pc (disturb fold e pc w) with
  | None => None
  | Some (w, None) => Some (w, Worker.LoopReturn)
  | Some (w, Some WIdle) => Some (w, Worker.LoopContinue)
  | Some (w, Some pc) => worker_run fold n e pc w
  end.
Proof. done. Qed.

Lemma worker_run_write n e item c last w :
  worker_run fold (S (S n)) e (WWrite item c last) w =
  match call_write c (Worker.we_job_mid e (call_index c last) (Worker.w_jobs w)) (JobID item) with
  | (s, Some _) => Some (Worker.set_jobs s w, ctl last)
  | (s, None) =>
      match Worker.publish (JobID item) (call_event c (JobID item) (Worker.we_clock e (call_index c last)))
              (Worker.set_obs (obs_before c) (Worker.set_jobs s w)) with
      | None => None
      | Some w =>
          let w := Worker.set_obs (obs_after c last) w in
          match c with CallRunning => worker_run fold n e (WExists item) w | _ => Some (w, ctl last) end
      end
  end.
Proof.
  rewrite worker_run_S. cbn [worker_step disturb Worker.w_jobs Worker.set_jobs].
  destruct (call_write c _ (JobID item)) as [s [err|]]; [by destruct last|].
  rewrite worker_run_S. cbn [worker_step disturb pc_clock].
  change (Worker.set_jobs s (Worker.set_jobs _ w)) with (Worker.set_jobs s w).
  destruct (Worker.publish _ _ _) as [w'|]; [|done]. by destruct c, last.
Qed.

(** A service call of the worker: the read, the check, the write, the event. *)
Lemma worker_run_call n e item c last w :
  worker_run fold (S (S (S n))) e (WCheck item c last) w =
  let w := disturb fold e (WCheck item c last) w in
  match JobService.transition JobService.no_env (Worker.we_job_mid e (call_index c last)) (Worker.w_jobs w)
          (JobID item) (call_intent c) (λ s, call_write c s (JobID item)) with
  | (s, Some _) => Some (Worker.set_jobs s w, ctl last)
  | (s, None) =>
      match Worker.publish (JobID item) (call_event c (JobID item) (Worker.we_clock e (call_index c last)))
              (Worker.set_obs (obs_before c) (Worker.set_jobs s w)) with
      | None => None
      | Some w =>
          let w := Worker.set_obs (obs_after c last) w in
          match c with CallRunning => worker_run fold n e (WExists item) w | _ => Some (w, ctl last) end
      end
  end.
Proof.
  rewrite worker_run_S. cbv zeta. rewrite service_transition. set (w0 := disturb fold e _ w). cbn [worker_step].
  destruct (MemoryJobRepo.GetByID _ _) as [job|err]; [|by destruct w0, last].
  destruct (CanTransitionJob _ _); [apply worker_run_write|by destruct w0, last].
Qed.

(** From the creation of the user on. *)
Lemma worker_run_payload n e item w :
  worker_run fold (S (S (S (S (S n))))) e (WExists item) w =
  Worker.run_payload e (Worker.we_between e 1 w) item.
Proof.
  unfold Worker.run_payload, Worker.markJobFailed, UserService.CreateUser.
  rewrite !we_get_unit !we_apply_unit.
  rewrite worker_run_S. cbn [worker_step disturb pc_clock]. set (w1 := Worker.we_between e 1 w).
  cbn [UserRepo.ExistsByEmail UserRepo.Save users_repo Memory.memory_UserRepository].
  destruct (Memory.ExistsByEmail fold (Worker.w_users w1) (inEmail (Payload item))).
  - rewrite worker_run_call. cbn [disturb]. rewrite SetFailed_call. cbv zeta.
    replace (Worker.set_users (Worker.w_users w1) w1) with w1 by (by destruct w1).
    destruct (JobService.transition _ _ _ _ _) as [s [err|]]; [done|].
    by destruct (Worker.publish _ _ _).
  - rewrite worker_run_S. cbn [worker_step disturb pc_clock Worker.w_users Worker.set_users].
    set (u0 := Worker.we_user_mid e (Worker.w_users w1)).
    destruct (Memory.Save fold u0 _) as [u [user [err|]]].
    all: rewrite worker_run_call; cbn [disturb]; rewrite ?SetFailed_call ?SetSucceeded_call; cbv zeta.
    all: change (Worker.set_users u (Worker.set_users u0 w1)) with (Worker.set_users u w1).
    all: destruct (JobService.transition _ _ _ _ _) as [s [err'|]]; [done|].
    all: by destruct (Worker.publish _ _ _).
Qed.

(** The two models of the loop body agree: a worker that runs from receiving an
    item to the end of it, with the interference an environment can express between
    its steps, computes [Worker.process_item].  What either does is the subject of
    the theorems about them. *)
Lemma worker_run_process_item (e : Worker.worker_env job_store user_store) w item :
  worker_run fold 9 e (WGot item) w = Worker.process_item e w item.
Proof.
  unfold Worker.process_item, Worker.markJobFailed. rewrite !we_get_unit !we_apply_unit.
  rewrite worker_run_S. cbn [worker_step disturb].
  destruct (Worker.we_cancelled e).
  all: rewrite worker_run_call ?SetFailed_call ?SetRunning_call; cbn [disturb]; cbv zeta.
  all: destruct (JobService.transition _ _ _ _ _) as [s [err'|]]; [done|].
  all: cbn [call_event obs_before obs_after].
  - change (Worker.set_obs (λ o, o) (Worker.set_jobs s w)) with (Worker.set_jobs s w).
    by destruct (Worker.publish _ _ _) as [[]|].
  - destruct (Worker.publish _ _ _) as [w'|]; [|done].
    replace (Worker.set_obs (obs_after CallRunning false) w') with w' by (by destruct w').
    apply worker_run_payload.
Qed.

(** The answer a handler writes for its reply. *)
Definition write_reply (enc_job : Job → res error string) (werr : option error) (resp : response)
    (out : option (handler_world * reply)) : option (handler_world * (response * option error)) :=
  match out with
  | None => None
  | Some (w, inl job) =>
      Some (w, WriteJSON (UsersHandler.location "/api/v1/jobs/" (ID job) resp) 202 (enc_job job) werr)
  | Some (w, inr e) => Some (w, (resp, e))
  end.

(** Likewise for a creation handler and [UsersHandler.create_async], the answer
    included. *)
Lemma request_run_create_async enc_job werr (e : @UsersHandler.create_env job_store user_store _ _)
    w resp p payload :
  write_reply enc_job werr resp (request_run fold 4 e (RSave payload p) w) =
  UsersHandler.create_async enc_job werr e w resp (Some p) payload.
Proof.
  unfold UsersHandler.create_async, JobService.Save, UsersHandler.deleteJobAfterFailedEnqueue, JobService.Delete.
  cbn [request_run request_disturb request_step JobRepo.Save JobRepo.Delete memory_JobRepository].
  destruct (MemoryJobRepo.Save _ _) as [s job]. cbn [request_disturb request_step].
  destruct (UsersHandler.publishQueuedJob _ _ _) as [w1|]; [|done]. cbn [request_disturb request_step].
  destruct (Enqueue _ _ _) as [q [err|]]; [|done]. cbn [request_disturb request_step].
  by destruct (MemoryJobRepo.Delete _ _) as [s' [err'|]].
Qed.

End uninterrupted.
