(* ===== verification/AsyncInv.v ===== *)
(** * Asynchronous creation: the invariant of the process

    Over [AsyncSystem]: at every moment each job that is not finished is held by
    exactly one party (the handler that creates it, the queue, one worker), its
    stored status and its published events are the ones that party's program
    point says.  [claims] deals with who holds what, [jobs_inv] with the
    stored jobs and the event log; [AsyncPool] adds the worker pool. *)
From S2P Require Import Prelude.
From S2P Require Import GoErrors.
From S2P Require Import Entity.
From S2P Require Import JobRepo.
From S2P Require Import MemoryJobRepo.
From S2P Require Import UserRepo.
From S2P Require Import Services.
From S2P Require Import Queue.
From S2P Require Import Stream.
From S2P Require Import WorkerPool.
From S2P Require Import Security.
From S2P Require Import Handlers.
From S2P Require Import AsyncSystem.

(** ** Who holds a job, and how far it is *)
Inductive owner : Type := OReq (pid : nat) | OQueue | OWorker (wid : nat).
#[export] Instance owner_eq_dec : EqDecision owner.
Proof. solve_decision. Defined.

(** A job id with the status it should be stored with and the types of the
    events that should have been published for it. *)
Definition claim : Type := Z * JobStatus * list string.

Definition announced : list string := [JobQueued].
Definition started : list string := [JobQueued; JobRunning].

Definition req_claim (pc : rpc) : option claim :=
  match pc with
  | RSave _ _ => None
  | RPublish job _ => Some (ID job, JobQueued, [])
  | REnqueue job _ | RDelete job _ => Some (ID job, JobQueued, announced)
  end.

Definition call_from (c : jcall) (last : bool) : JobStatus :=
  match c with
  | CallRunning => JobQueued
  | CallSucceeded _ => JobRunning
  | CallFailed _ => if last then JobQueued else JobRunning
  end.
Definition call_to (c : jcall) : JobStatus :=
  match c with
  | CallRunning => JobRunning
  | CallSucceeded _ => JobSucceeded
  | CallFailed _ => JobFailed
  end.
Definition events_upto (st : JobStatus) : list string :=
  if streqb st JobQueued then announced else started.

Definition work_claim (pc : wpc) : option claim :=
  match pc with
  | WIdle => None
  | WGot item => Some (JobID item, JobQueued, announced)
  | WCheck item c last | WWrite item c last =>
      Some (JobID item, call_from c last, events_upto (call_from c last))
  | WPublish item c last => Some (JobID item, call_to c, events_upto (call_from c last))
  | WExists item | WSave item => Some (JobID item, JobRunning, started)
  end.

Definition agent_claim (R : gmap nat rpc) (W : gmap nat (nat * wpc)) (o : owner) : option claim :=
  match o with
  | OReq pid => R !! pid ≫= req_claim
  | OQueue => None
  | OWorker wid => W !! wid ≫= (λ gpc, work_claim gpc.2)
  end.

Definition holds (f : owner → option claim) (Q : list Z) (o : owner) (c : claim) : Prop :=
  match o with
  | OQueue => c.1.1 ∈ Q ∧ c.1.2 = JobQueued ∧ c.2 = announced
  | _ => f o = Some c
  end.

Definition owners : Type := gmap Z (owner * JobStatus * list string).

Record claims (own : owners) (f : owner → option claim) (Q : list Z) : Prop := {
  cl_iff : ∀ id o st evs, own !! id = Some (o, st, evs) ↔ holds f Q o (id, st, evs);
  cl_nodup : NoDup Q;
}.

(** Same holders as before, except that [o] now holds [id] differently. *)
Lemma claims_move own f f' Q o id st evs :
  claims own f Q → o ≠ OQueue → (∀ o', o' ≠ o → f' o' = f o') →
  f' o = Some (id, st, evs) →
  ((∃ st0 evs0, f o = Some (id, st0, evs0)) ∨ (f o = None ∧ own !! id = None)) →
  claims (<[id := (o, st, evs)]> own) f' Q.
Proof.
  intros [Hiff Hnd] Ho Hf Hf' Hold. split; [|done]. intros id' o' st' evs'.
  assert (∀ x, holds f Q o x ↔ f o = Some x) as Hho by (intros; by destruct o).
  assert (∀ x, holds f' Q o x ↔ f' o = Some x) as Hho' by (intros; by destruct o).
  assert (∀ o2 st2 evs2, o2 ≠ o → ¬ holds f Q o2 (id, st2, evs2)) as Hother.
  { intros o2 st2 evs2 Hne Hh%Hiff. destruct Hold as [(st0 & evs0 & H0)|[_ H0]]; [|congruence].
    apply Hho, Hiff in H0. congruence. }
  rewrite lookup_insert. destruct (decide (id = id')) as [<-|Hne].
  - destruct (decide (o' = o)) as [->|Hoo].
    + rewrite Hho' Hf'. naive_solver.
    + split; [naive_solver|]. intros Hh. exfalso. apply (Hother o' st' evs' Hoo).
      destruct o'; simpl in *; rewrite -?Hf //.
  - rewrite Hiff. destruct (decide (o' = o)) as [->|Hoo].
    + rewrite Hho Hho' Hf'. destruct Hold as [(st0 & evs0 & ->)|[-> _]]; naive_solver.
    + destruct o'; simpl in *; rewrite -?Hf //.
Qed.

(** [o] lets go of [id]. *)
Lemma claims_drop own f f' Q o id st evs :
  claims own f Q → o ≠ OQueue → (∀ o', o' ≠ o → f' o' = f o') →
  f o = Some (id, st, evs) → f' o = None → claims (delete id own) f' Q.
Proof.
  intros [Hiff Hnd] Ho Hf Hold Hf'. split; [|done]. intros id' o' st' evs'.
  assert (own !! id = Some (o, st, evs)) as Hid by (apply Hiff; by destruct o).
  rewrite lookup_delete_Some Hiff. destruct (decide (o' = o)) as [->|Hoo].
  - assert (∀ x, holds f Q o x ↔ f o = Some x) as -> by (intros; by destruct o).
    assert (∀ x, holds f' Q o x ↔ f' o = Some x) as -> by (intros; by destruct o).
    rewrite Hold Hf'. naive_solver.
  - assert (∀ x, holds f' Q o' x ↔ holds f Q o' x) as ->.
    { intros x. destruct o'; simpl; rewrite -?Hf //. }
    split; [tauto|]. intros Hh. split; [|done]. intros <-. apply Hiff in Hh. congruence.
Qed.

Lemma claims_ext own f f' Q : claims own f Q → (∀ o, f' o = f o) → claims own f' Q.
Proof.
  intros [Hiff Hnd] Hf. split; [|done]. intros. rewrite Hiff.
  destruct o; simpl; rewrite ?Hf //.
Qed.

(** [o] hands [id] to the queue, or takes it from there. *)
Lemma claims_enqueue own f f' Q o id st evs :
  claims own f Q → o ≠ OQueue → (∀ o', o' ≠ o → f' o' = f o') →
  f o = Some (id, st, evs) → f' o = None →
  claims (<[id := (OQueue, JobQueued, announced)]> own) f' (Q ++ [id]).
Proof.
  intros Hc Ho Hf Hold Hf'. pose proof Hc as [Hiff Hnd].
  assert (own !! id = Some (o, st, evs)) as Hid by (apply Hiff; by destruct o).
  assert (id ∉ Q) as Hnq.
  { intros Hin. assert (own !! id = Some (OQueue, JobQueued, announced)) by (by apply Hiff). congruence. }
  pose proof (claims_drop _ _ _ _ _ _ _ _ Hc Ho Hf Hold Hf') as [Hiff' _]. split.
  2: { apply list.NoDup_app. split_and!; [done| |by apply list.NoDup_singleton].
       intros x Hx ->%list_elem_of_singleton. done. }
  intros id' o' st' evs'. specialize (Hiff' id' o' st' evs').
  rewrite lookup_insert. destruct (decide (id = id')) as [<-|Hne].
  - rewrite lookup_delete_eq in Hiff'.
    destruct o'; simpl in *; rewrite ?elem_of_app ?list_elem_of_singleton; naive_solver.
  - rewrite lookup_delete_ne // in Hiff'. rewrite Hiff'.
    destruct o'; simpl; rewrite ?elem_of_app ?list_elem_of_singleton; naive_solver.
Qed.

Lemma claims_receive own f f' Q o id :
  claims own f (id :: Q) → o ≠ OQueue → (∀ o', o' ≠ o → f' o' = f o') →
  f o = None → f' o = Some (id, JobQueued, announced) →
  claims (<[id := (o, JobQueued, announced)]> own) f' Q.
Proof.
  intros [Hiff [Hnq Hnd]%list.NoDup_cons] Ho Hf Hold Hf'. split; [|done].
  intros id' o' st' evs'.
  assert (own !! id = Some (OQueue, JobQueued, announced)) as Hid.
  { apply Hiff. simpl. split; [by left|done]. }
  assert (∀ x, holds f (id :: Q) o x ↔ f o = Some x) as Hho by (intros; by destruct o).
  assert (∀ x, holds f' Q o x ↔ f' o = Some x) as Hho' by (intros; by destruct o).
  rewrite lookup_insert. destruct (decide (id = id')) as [<-|Hne].
  - destruct (decide (o' = o)) as [->|Hoo]; [rewrite Hho' Hf'; naive_solver|].
    split; [naive_solver|]. intros Hh. exfalso.
    assert (o' ≠ OQueue) as Hq by (intros ->; naive_solver).
    assert (holds f (id :: Q) o' (id, st', evs')) as E%Hiff by (destruct o'; simpl in *; rewrite -?Hf //).
    congruence.
  - rewrite Hiff. destruct (decide (o' = o)) as [->|Hoo].
    + rewrite Hho Hho' Hf' Hold. naive_solver.
    + destruct o'; simpl; rewrite ?Hf //. rewrite elem_of_cons. naive_solver.
Qed.

Lemma agent_claim_insert_req R W pid pc o :
  o ≠ OReq pid → agent_claim (<[pid := pc]> R) W o = agent_claim R W o.
Proof. intros Ho. destruct o; simpl; try done. rewrite lookup_insert_ne; congruence. Qed.
Lemma agent_claim_delete_req R W pid o :
  o ≠ OReq pid → agent_claim (delete pid R) W o = agent_claim R W o.
Proof. intros Ho. destruct o; simpl; try done. rewrite lookup_delete_ne; congruence. Qed.
Lemma agent_claim_insert_worker R W wid g o :
  o ≠ OWorker wid → agent_claim R (<[wid := g]> W) o = agent_claim R W o.
Proof. intros Ho. destruct o; simpl; try done. rewrite lookup_insert_ne; congruence. Qed.
Lemma agent_claim_delete_worker R W wid o :
  o ≠ OWorker wid → agent_claim R (delete wid W) o = agent_claim R W o.
Proof. intros Ho. destruct o; simpl; try done. rewrite lookup_delete_ne; congruence. Qed.
#[export] Hint Resolve agent_claim_insert_req agent_claim_delete_req agent_claim_insert_worker
  agent_claim_delete_worker : go.

(** ** The stored jobs and the event log *)

(** Failed with the shutdown problem. *)
Definition shut (j : Job) : Prop :=
  Status j = JobFailed ∧ Error j = Some JobService.ShutdownJobProblem.

(** The jobs that the repair after a stop has ended: it publishes no event.
    The invariant is relative to this set, which only the repair extends. *)
Class Ended := ended : Z → Prop.

Definition types (log : gmap Z (list Event)) (id : Z) : list string :=
  evType <$> default [] (log !! id).

(** The events of a whole life. *)
Definition full_trace (st : JobStatus) (evs : list string) : Prop :=
  (st = JobSucceeded ∧ evs = started ++ [JobSucceeded]) ∨
  (st = JobFailed ∧ (evs = started ++ [JobFailed] ∨ evs = announced ++ [JobFailed])).

Definition ordered (l : list string) : Prop := ∃ st evs, full_trace st evs ∧ l `prefix_of` evs.

Lemma ordered_nil : ordered [].
Proof. exists JobSucceeded, (started ++ [JobSucceeded]). split; [by left|apply prefix_nil]. Qed.
Lemma ordered_announced : ordered announced.
Proof. exists JobSucceeded, (started ++ [JobSucceeded]). split; [by left|by exists [JobRunning; JobSucceeded]]. Qed.
Lemma ordered_started : ordered started.
Proof. exists JobSucceeded, (started ++ [JobSucceeded]). split; [by left|by exists [JobSucceeded]]. Qed.
Lemma ordered_full st evs : full_trace st evs → ordered evs.
Proof. intros Hf. by exists st, evs. Qed.
#[export] Hint Resolve ordered_nil ordered_announced ordered_started ordered_full : go.

Lemma ordered_prefix l l' : l `prefix_of` l' → ordered l' → ordered l.
Proof. intros Hp (st & evs & Hf & Hp'). exists st, evs. split; [done|by etrans]. Qed.

Lemma full_trace_terminal st evs : full_trace st evs → IsTerminal st = true.
Proof. by intros [[-> _]|[-> _]]. Qed.

(** What has been published, of what should have been: all of it as long as the
    hub is open. *)
Definition logged (is_open : bool) (l evs : list string) : Prop :=
  l `prefix_of` evs ∧ (is_open = true → l = evs).

Section ended.
Context `{!Ended}.

Definition cut (id : Z) (j : Job) : Prop := ended id ∧ shut j.

Definition final_ok (is_open : bool) (id : Z) (j : Job) (l : list string) : Prop :=
  IsTerminal (Status j) = true ∧
  (cut id j ∨ ∃ evs, full_trace (Status j) evs ∧ logged is_open l evs).

Record jobs_inv (own : owners) (r : job_store) (is_open : bool) (log : gmap Z (list Event)) : Prop := {
  ji_wf : memory_wf r;
  ji_fresh : ∀ id, (MemoryJobRepo.nextID r <= id)%Z → log !! id = None ∧ own !! id = None;
  ji_held : ∀ id o st evs, own !! id = Some (o, st, evs) →
      logged is_open (types log id) evs ∧ ∃ j, jobs r !! id = Some j ∧ (Status j = st ∨ cut id j);
  ji_done : ∀ id j, own !! id = None → jobs r !! id = Some j → final_ok is_open id j (types log id);
  ji_log : ∀ id, ordered (types log id);
}.

Lemma cut_terminal id j : cut id j → IsTerminal (Status j) = true.
Proof. by intros [_ [-> _]]. Qed.

(** The holder of a job, or the status and events expected of it, change
    together with the stored job. *)
Lemma jobs_inv_hold own r r' is_open log id o st evs :
  jobs_inv own r is_open log → memory_wf r' → MemoryJobRepo.nextID r' = MemoryJobRepo.nextID r →
  (∀ id', id' ≠ id → jobs r' !! id' = jobs r !! id') →
  (id < MemoryJobRepo.nextID r)%Z →
  logged is_open (types log id) evs → (∃ j, jobs r' !! id = Some j ∧ (Status j = st ∨ cut id j)) →
  jobs_inv (<[id := (o, st, evs)]> own) r' is_open log.
Proof.
  intros [Hwf Hf Hh Hd Hl] Hwf' Hn Hj Hid Hev Hst. split; [done| | | |done].
  - intros id' Hle. rewrite Hn in Hle. rewrite lookup_insert_ne; [lia|]. by apply Hf.
  - intros id' o' st' evs'. rewrite lookup_insert. case_decide as E; [|by rewrite Hj; eauto].
    subst id'. intros [= -> -> ->]. done.
  - intros id' j'. rewrite lookup_insert. case_decide; [done|]. rewrite Hj //. eauto.
Qed.

Lemma held_bound own r is_open log id c :
  jobs_inv own r is_open log → own !! id = Some c → (id < MemoryJobRepo.nextID r)%Z.
Proof.
  intros Hi Hc. destruct (decide (MemoryJobRepo.nextID r <= id)%Z) as [Hle|]; [|lia].
  destruct (ji_fresh _ _ _ _ Hi _ Hle). congruence.
Qed.

Lemma jobs_inv_give own r is_open log id o o' st evs :
  jobs_inv own r is_open log → own !! id = Some (o, st, evs) →
  jobs_inv (<[id := (o', st, evs)]> own) r is_open log.
Proof.
  intros Hi Ho. destruct (ji_held _ _ _ _ Hi _ _ _ _ Ho).
  apply (jobs_inv_hold own r r); try done; [apply Hi|by eapply held_bound].
Qed.

Lemma jobs_inv_save own r is_open log u o :
  jobs_inv own r is_open log → (MemoryJobRepo.nextID r < int_max)%Z →
  let '(r', job) := MemoryJobRepo.Save r (mkJob 0 JobQueued None None u) in
  own !! ID job = None ∧ jobs_inv (<[ID job := (o, JobQueued, [])]> own) r' is_open log.
Proof.
  intros [Hwf Hf Hh Hd Hl] Hmax.
  pose proof (Save_fresh r (mkJob 0 JobQueued None None u) Hwf Hmax eq_refl ltac:(by left)) as Hs.
  assert (MemoryJobRepo.nextID (MemoryJobRepo.Save r (mkJob 0 JobQueued None None u)).1 = (MemoryJobRepo.nextID r + 1)%Z) as Hn.
  { unfold MemoryJobRepo.Save. simpl. rewrite wrap64_id //. pose proof (wf_next r Hwf).
    unfold int64_ok, int_min. lia. }
  assert (Status (MemoryJobRepo.Save r (mkJob 0 JobQueued None None u)).2 = JobQueued) as Hst by done.
  destruct (MemoryJobRepo.Save r _) as [r' job]. simpl in Hn, Hst.
  destruct Hs as (Hnone & Hid & Hget & Hother & Hwf').
  destruct (Hf (ID job) ltac:(lia)) as [Hlog Hown]. split; [done|].
  split; [done| | | |done].
  - intros id Hle. rewrite lookup_insert_ne; [lia|]. apply Hf. lia.
  - intros id o' st evs. rewrite lookup_insert. case_decide as E.
    + subst id. intros [= <- <- <-]. split; [unfold logged, types; by rewrite Hlog|].
      exists job. split; [|by left]. unfold MemoryJobRepo.GetByID in Hget. case_match; [|done].
      injection Hget as <-. by rewrite cloneJob_id.
    + intros Ho. destruct (Hh _ _ _ _ Ho) as [? (j & Hj & ?)]. split; [done|].
      exists j. by rewrite Hother.
  - intros id j. rewrite lookup_insert. case_decide; [done|]. rewrite Hother //. eauto.
Qed.

Lemma types_insert log id ev id' :
  types (<[id := default [] (log !! id) ++ [ev]]> log) id' =
  if decide (id = id') then types log id ++ [evType ev] else types log id'.
Proof.
  unfold types. rewrite lookup_insert. case_decide; [|done]. simpl. by rewrite fmap_app.
Qed.

Lemma jobs_inv_publish own r is_open log id o o' st evs ev :
  jobs_inv own r is_open log → own !! id = Some (o, st, evs) → ordered (evs ++ [evType ev]) →
  jobs_inv (<[id := (o', st, evs ++ [evType ev])]> own) r is_open
    (if is_open then <[id := default [] (log !! id) ++ [ev]]> log else log).
Proof.
  intros Hi Ho Hord. pose proof (held_bound _ _ _ _ _ _ Hi Ho) as Hlt.
  destruct (ji_held _ _ _ _ Hi _ _ _ _ Ho) as [[Hp Hop] Hj].
  destruct is_open.
  2: { apply (jobs_inv_hold own r r); try done; [apply Hi|]. split; [|done]. by apply prefix_app_r. }
  destruct Hi as [Hwf Hf Hh Hd Hl]. specialize (Hop eq_refl). split; [done| | | |].
  - intros id' Hle. rewrite !lookup_insert_ne; [lia..|]. by apply Hf.
  - intros id' o2 st2 evs2. rewrite types_insert lookup_insert. case_decide; [|eauto].
    subst id'. intros [= <- <- <-]. split; [|done]. by rewrite Hop.
  - intros id' j. rewrite types_insert lookup_insert. case_decide; [done|eauto].
  - intros id'. rewrite types_insert. case_decide; [|done]. by rewrite Hop.
Qed.

Lemma jobs_inv_release own r is_open log id :
  jobs_inv own r is_open log → (∀ j, jobs r !! id = Some j → final_ok is_open id j (types log id)) →
  jobs_inv (delete id own) r is_open log.
Proof.
  intros [Hwf Hf Hh Hd Hl] Hok. split; [done| | | |done].
  - intros id' Hle. rewrite lookup_delete. destruct (Hf _ Hle). by case_decide.
  - intros id' o st evs [_ ?]%lookup_delete_Some. eauto.
  - intros id' j. rewrite lookup_delete. case_decide; [|eauto]. subst. auto.
Qed.

Lemma jobs_inv_delete own r is_open log id o st evs :
  jobs_inv own r is_open log → own !! id = Some (o, st, evs) →
  (MemoryJobRepo.Delete r id).2 = None ∧
  jobs_inv (delete id own) (MemoryJobRepo.Delete r id).1 is_open log.
Proof.
  intros Hi Ho. destruct (ji_held _ _ _ _ Hi _ _ _ _ Ho) as [_ (j & Hj & _)].
  destruct Hi as [Hwf Hf Hh Hd Hl]. unfold MemoryJobRepo.Delete. rewrite Hj. split; [done|]. simpl.
  destruct Hwf as [Hn Hid Hc]. split; [split; simpl; [done| |by apply jobs_consistent_delete]| | | |done].
  - intros id' j' [_ ?]%lookup_delete_Some. eauto.
  - intros id' Hle. rewrite lookup_delete. destruct (Hf _ Hle). by case_decide.
  - intros id' o' st' evs' [Hne ?]%lookup_delete_Some. simpl. rewrite lookup_delete_ne //. eauto.
  - intros id' j'. simpl. rewrite !lookup_delete. case_decide; [done|eauto].
Qed.

(** *** The transitions of a worker *)
Definition call_apply (c : jcall) : Job → Job :=
  match c with
  | CallRunning => apply_running
  | CallSucceeded r => apply_succeeded r
  | CallFailed p => apply_failed p
  end.

Lemma call_write_cas c r id :
  call_write c r id =
  (mkMemoryJobRepository (cas (jobs r) id (call_intent c) (call_apply c)).1 (MemoryJobRepo.nextID r),
   (cas (jobs r) id (call_intent c) (call_apply c)).2).
Proof. destruct c; [apply SetRunning_cas|apply SetSucceeded_cas|apply SetFailed_cas]. Qed.

Lemma call_apply_ok c : cas_writer (call_intent c) (call_apply c) ∧
  (∀ j, ID (call_apply c j) = ID j ∧ job_consistent (call_apply c j)) ∧
  (∀ j, Status (call_apply c j) = call_to c).
Proof.
  destruct c; (split_and!; [eauto with go| |done]); intros j; (split; [done|]); unfold job_consistent;
    simpl; eauto 10.
Qed.

Lemma call_allowed c last : CanTransitionJob (call_from c last) (call_intent c) = true.
Proof. by destruct c, last. Qed.

(** A refusal means that the shutdown repair was there first. *)
Lemma jobs_inv_refused own r is_open log id o st evs j i :
  jobs_inv own r is_open log → own !! id = Some (o, st, evs) → CanTransitionJob st i = true →
  jobs r !! id = Some j → CanTransitionJob (Status j) i = false →
  jobs_inv (delete id own) r is_open log.
Proof.
  intros Hi Ho Hc Hj Hn. apply jobs_inv_release; [done|]. intros j' Hj'.
  destruct (ji_held _ _ _ _ Hi _ _ _ _ Ho) as [_ (j2 & Hj2 & Hst)].
  assert (j' = j) as -> by congruence. assert (j2 = j) as -> by congruence.
  destruct Hst as [Hst|Hs]; [congruence|]. split; [by eapply cut_terminal|by left].
Qed.

Lemma jobs_inv_write own r is_open log id o o' last evs c :
  jobs_inv own r is_open log → own !! id = Some (o, call_from c last, evs) →
  match call_write c r id with
  | (r', None) => jobs_inv (<[id := (o', call_to c, evs)]> own) r' is_open log
  | (r', Some _) => r' = r ∧ jobs_inv (delete id own) r is_open log
  end.
Proof.
  intros Hi Ho. pose proof (ji_held _ _ _ _ Hi _ _ _ _ Ho) as [Hlog (j & Hj & Hst)].
  destruct (call_apply_ok c) as (Hw & Hok & Hto).
  pose proof (cas_wf r id (call_intent c) (call_apply c) (ji_wf _ _ _ _ Hi) Hw Hok) as Hwf.
  rewrite call_write_cas. unfold cas in *. rewrite Hj in Hwf |- *.
  destruct (CanTransitionJob (Status j) (call_intent c)) eqn:Hc; cbn [fst snd] in *.
  - apply (jobs_inv_hold own r); try done; [|by eapply held_bound|].
    + intros id' Hne. simpl. by rewrite lookup_insert_ne.
    + exists (call_apply c j). simpl. rewrite lookup_insert_eq. split; [done|]. left. apply Hto.
  - split; [by destruct r|]. eapply jobs_inv_refused; [done|done|apply call_allowed|done|done].
Qed.

Lemma jobs_inv_check own r is_open log id o last evs c :
  jobs_inv own r is_open log → own !! id = Some (o, call_from c last, evs) →
  ∃ job, MemoryJobRepo.GetByID r id = Ok job ∧
    (CanTransitionJob (Status job) (call_intent c) = false → jobs_inv (delete id own) r is_open log).
Proof.
  intros Hi Ho. destruct (ji_held _ _ _ _ Hi _ _ _ _ Ho) as [_ (j & Hj & _)].
  exists j. unfold MemoryJobRepo.GetByID. rewrite Hj cloneJob_id. split; [done|].
  intros Hc. eapply jobs_inv_refused; [done|done|apply call_allowed|done|done].
Qed.

(** *** The repair and the closing of the hub *)
Lemma repair_jobs r :
  (Worker.repairActiveOnShutdown (tt : @repo_env _ memory_JobRepository) r).1 =
  mkMemoryJobRepository (fail_active_job JobService.ShutdownJobProblem <$> jobs r) (MemoryJobRepo.nextID r).
Proof.
  unfold Worker.repairActiveOnShutdown, JobService.FailActiveOnShutdown. simpl.
  pose proof (FailActive_jobs (some_order r) r JobService.ShutdownJobProblem (some_order_ok r)) as Hj.
  destruct (FailActive _ r _) as [r' n]. simpl in *. exact Hj.
Qed.

Lemma terminal_not_active j : IsTerminal (Status j) = true → is_active j = false.
Proof.
  unfold IsTerminal, is_active. rewrite orb_true_iff !streqb_eq. by intros [->| ->].
Qed.

Lemma jobs_inv_repair own r is_open log :
  jobs_inv own r is_open log → (∀ id j, jobs r !! id = Some j → is_active j = true → ended id) →
  jobs_inv own (Worker.repairActiveOnShutdown (tt : @repo_env _ memory_JobRepository) r).1 is_open log.
Proof.
  intros [Hwf Hf Hh Hd Hl] Hend. rewrite repair_jobs.
  split; [apply wf_of_moves; [done|apply fail_active_moves|apply jobs_consistent_fail_active, Hwf]| | | |done].
  - done.
  - intros id o st evs Ho. destruct (Hh _ _ _ _ Ho) as [? (j & Hj & Hst)]. split; [done|].
    exists (fail_active_job JobService.ShutdownJobProblem j). simpl. rewrite lookup_fmap Hj. split; [done|].
    destruct (is_active j) eqn:Ha; [|by rewrite fail_active_job_id].
    right. split; [by eapply Hend|]. unfold fail_active_job. by rewrite Ha.
  - intros id j Ho. simpl. rewrite lookup_fmap fmap_Some. intros (j0 & Hj0 & ->).
    pose proof (Hd _ _ Ho Hj0) as Hfin. rewrite fail_active_job_id; [|done].
    apply terminal_not_active, Hfin.
Qed.

Lemma jobs_inv_close own r is_open log : jobs_inv own r is_open log → jobs_inv own r false log.
Proof.
  intros [Hwf Hf Hh Hd Hl]. split; try done.
  - intros id o st evs Ho. destruct (Hh _ _ _ _ Ho) as [[? _] ?]. by split.
  - intros id j Ho Hj. destruct (Hd _ _ Ho Hj) as [? [?|(evs & ? & ? & _)]]; (split; [done|]); [by left|].
    right. exists evs. by split_and!.
Qed.

(** ** The handlers, the queue, the workers and the hub together *)
Record flow_inv (own : owners) (s : system) : Prop := {
  fi_hub : hub_inv (sy_log s) (sy_hub s);
  fi_jobs : jobs_inv own (sy_jobs s) (negb (closed (sy_hub s))) (sy_log s);
  fi_claims : claims own (agent_claim (sy_requests s) (sy_workers s)) (JobID <$> ch (sy_queue s));
}.

Lemma claims_held own R W Q o c :
  claims own (agent_claim R W) Q → agent_claim R W o = Some c → own !! c.1.1 = Some (o, c.1.2, c.2).
Proof. intros [Hiff _] Hc. destruct c as [[id st] evs]. apply Hiff. by destruct o. Qed.

Lemma Publish_closed h job ev h' : Publish h job ev = Some h' → closed h' = closed h.
Proof.
  unfold Publish. destruct (closed h) eqn:Hc; [by intros [= <-]|].
  destruct (foldl _ _ _) as [[cs d]|]; [|done]. by intros [= <-].
Qed.

(** Publishing the next event of a job one holds. *)
Lemma flow_publish own log h r id o o' st evs ev :
  hub_inv log h → jobs_inv own r (negb (closed h)) log → own !! id = Some (o, st, evs) →
  ordered (evs ++ [evType ev]) →
  ∃ h', Publish h id ev = Some h' ∧ closed h' = closed h ∧
    let log' := if closed h then log else <[id := default [] (log !! id) ++ [ev]]> log in
    hub_inv log' h' ∧
    jobs_inv (<[id := (o', st, evs ++ [evType ev])]> own) r (negb (closed h)) log'.
Proof.
  intros Hh Hj Ho Hord. destruct (Publish_inv log h id ev Hh) as (h' & Hp & _ & Hh').
  exists h'. cbv zeta. split_and!; [done|by eapply Publish_closed|done|].
  pose proof (jobs_inv_publish _ _ _ _ _ _ o' _ _ ev Hj Ho Hord) as Hj'. by destruct (closed h).
Qed.

Section fold.
Context (fold : string → string).

Lemma flow_handler own s pid o now s' :
  flow_inv own s → (MemoryJobRepo.nextID (sy_jobs s) < int_max)%Z →
  exec_handler pid o now s = Some s' → ∃ own', flow_inv own' s'.
Proof.
  intros [Hh Hj Hc] Hmax He. unfold exec_handler in He.
  destruct (sy_requests s !! pid) as [pc|] eqn:Hpc; [|done].
  set (me := OReq pid).
  assert (agent_claim (sy_requests s) (sy_workers s) me = req_claim pc) as Hme by (simpl; by rewrite Hpc).
  destruct pc as [payload p|job payload|job payload|job e]; cbn [request_step] in He; simpl in Hme.
  - pose proof (jobs_inv_save _ _ _ _ (Security.pUserID p) me Hj Hmax) as Hs.
    cbn [handler_view UsersHandler.w_jobs] in He. destruct (MemoryJobRepo.Save _ _) as [r' job].
    injection He as <-. destruct Hs as [Hnone Hj']. exists (<[ID job := (me, JobQueued, [])]> own).
    split; [exact Hh|exact Hj'|].
    eapply (claims_move own _ _ _ me); [exact Hc|done|intros; by apply agent_claim_insert_req| |by right].
    simpl. by rewrite lookup_insert_eq.
  - destruct (flow_publish own _ _ _ (ID job) me me JobQueued [] (mkEvent JobQueued (ID job) now DataNil) Hh Hj)
      as (h' & Hp & Hcl & Hh' & Hj'); [by apply (claims_held _ _ _ _ me _ Hc) in Hme|apply ordered_announced|].
    unfold UsersHandler.publishQueuedJob in He. cbn [handler_view UsersHandler.w_hub] in He.
    rewrite Hp in He. injection He as <-. eexists. split.
    + exact Hh'.
    + simpl. rewrite Hcl. exact Hj'.
    + eapply (claims_move own _ _ _ me); [exact Hc|done|intros; by apply agent_claim_insert_req| |].
      * simpl. by rewrite lookup_insert_eq.
      * left. eauto.
  - cbn [handler_view UsersHandler.w_queue] in He.
    destruct (Enqueue_cases o (sy_queue s) (mkWorkItem (ID job) payload)) as [(Hq & _)|(Hch & _ & _ & [e Hq])].
    + rewrite Hq in He. injection He as <-. eexists. split; [exact Hh| |].
      * eapply (jobs_inv_give own _ _ _ (ID job)); [exact Hj|by apply (claims_held _ _ _ _ me _ Hc) in Hme].
      * simpl. rewrite fmap_app.
        eapply (claims_enqueue own _ _ _ me); [exact Hc|done|intros; by apply agent_claim_delete_req|exact Hme|].
        simpl. by rewrite lookup_delete_eq.
    + destruct (Enqueue o (sy_queue s) _) as [q r]. simpl in Hch, Hq. subst r. injection He as <-.
      exists own. split; [exact Hh|exact Hj|]. simpl. rewrite Hch.
      eapply claims_ext; [exact Hc|]. intros o'. destruct (decide (o' = me)) as [->|]; [|by apply agent_claim_insert_req].
      etrans; [|symmetry; exact Hme]. simpl. by rewrite lookup_insert_eq.
  - destruct (jobs_inv_delete _ _ _ _ (ID job) me JobQueued announced Hj) as [Hnone Hj'];
      [by apply (claims_held _ _ _ _ me _ Hc) in Hme|].
    cbn [handler_view UsersHandler.w_jobs] in He.
    destruct (MemoryJobRepo.Delete (sy_jobs s) (ID job)) as [r' e']. simpl in Hnone, Hj'. subst e'.
    injection He as <-. exists (delete (ID job) own). split; [exact Hh|exact Hj'|].
    eapply (claims_drop own _ _ _ me); [exact Hc|done|intros; by apply agent_claim_delete_req|exact Hme|].
    simpl. by rewrite lookup_delete_eq.
Qed.

(** The program point of a worker after its step; it disappears when it returns. *)
Definition next_workers (wid g : nat) (next : option wpc) (W : gmap nat (nat * wpc)) : gmap nat (nat * wpc) :=
  match next with Some pc => <[wid := (g, pc)]> W | None => delete wid W end.

Lemma next_workers_claim R W wid g next :
  agent_claim R (next_workers wid g next W) (OWorker wid) = next ≫= work_claim.
Proof. destruct next; simpl; by rewrite ?lookup_insert_eq ?lookup_delete_eq. Qed.
Lemma next_workers_other R W wid g next o :
  o ≠ OWorker wid → agent_claim R (next_workers wid g next W) o = agent_claim R W o.
Proof. destruct next; eauto with go. Qed.

Lemma leave_claim last : leave last ≫= work_claim = None.
Proof. by destruct last. Qed.

(** A worker keeps its job, with another claim, or lets it go. *)
Lemma claims_worker_keep own R W Q wid g id st evs pc st' evs' :
  claims own (agent_claim R W) Q → agent_claim R W (OWorker wid) = Some (id, st, evs) →
  work_claim pc = Some (id, st', evs') →
  claims (<[id := (OWorker wid, st', evs')]> own) (agent_claim R (next_workers wid g (Some pc) W)) Q.
Proof.
  intros Hc Hme Hpc. eapply (claims_move own _ _ _ (OWorker wid)).
  - exact Hc.
  - done.
  - intros. by apply next_workers_other.
  - rewrite next_workers_claim. exact Hpc.
  - left. eauto.
Qed.

Lemma claims_worker_drop own R W Q wid g id st evs next :
  claims own (agent_claim R W) Q → agent_claim R W (OWorker wid) = Some (id, st, evs) →
  next ≫= work_claim = None →
  claims (delete id own) (agent_claim R (next_workers wid g next W)) Q.
Proof.
  intros Hc Hme Hpc. eapply (claims_drop own _ _ _ (OWorker wid)).
  - exact Hc.
  - done.
  - intros. by apply next_workers_other.
  - exact Hme.
  - rewrite next_workers_claim. exact Hpc.
Qed.

Lemma call_events c last :
  ordered (events_upto (call_from c last) ++ [call_to c]) ∧
  (c ≠ CallRunning → full_trace (call_to c) (events_upto (call_from c last) ++ [call_to c])).
Proof.
  destruct c as [|r|p]; simpl.
  - split; [apply ordered_started|done].
  - assert (full_trace JobSucceeded (started ++ [JobSucceeded])) as Hf by (by left).
    split; [by eapply ordered_full|done].
  - assert (full_trace JobFailed (events_upto (if last then JobQueued else JobRunning) ++ [JobFailed])) as Hf.
    { right. split; [done|]. destruct last; [by right|by left]. }
    split; [by eapply ordered_full|done].
Qed.

(** What a step of a busy worker does to the shared state. *)
Definition worker_result (s : system) (wid g : nat) (now : Z) (pc : wpc) (w : worker_world) (next : option wpc)
  : system := set_workers (next_workers wid g next (sy_workers s)) (put_worker_view w (worker_log now pc s)).

(** A worker that publishes: the event extends the trace of the job, and the
    worker lets go of a job it has ended. *)
Lemma flow_worker_publish own s wid g item c last canc now :
  flow_inv own s → sy_workers s !! wid = Some (g, WPublish item c last) →
  ∃ w next, worker_step fold canc now (WPublish item c last) (worker_view s) = Some (w, next) ∧
    ∃ own', flow_inv own' (worker_result s wid g now (WPublish item c last) w next).
Proof.
  intros [Hh Hj Hc] Hpc. set (me := OWorker wid).
  assert (agent_claim (sy_requests s) (sy_workers s) me = work_claim (WPublish item c last)) as Hme
    by (simpl; by rewrite Hpc).
  pose proof Hme as Hown. cbn [work_claim] in Hown. apply (claims_held _ _ _ _ me _ Hc) in Hown.
  destruct (call_events c last) as [Hord Hfull].
  assert (evType (call_event c (JobID item) now) = call_to c) as Hty by (by destruct c).
  destruct (flow_publish own _ _ _ (JobID item) me me _ _ (call_event c (JobID item) now) Hh Hj Hown)
    as (h' & Hp & Hcl & Hh' & Hj'); [by rewrite Hty|].
  cbn [worker_step]. unfold Worker.publish. cbn [worker_view Worker.w_hub]. rewrite Hp. cbn [fmap option_fmap option_map].
  eexists _, _. split; [done|]. rewrite Hty in Hj'. assert (c = CallRunning ∨ c ≠ CallRunning) as [->|Hne] by (destruct c; auto).
  - eexists. split; [exact Hh'|simpl; rewrite Hcl; exact Hj'|].
    by eapply claims_worker_keep; [exact Hc|exact Hme|].
  - exists (delete (JobID item) own). split; [exact Hh'| |].
    + simpl. rewrite Hcl.
      rewrite -(delete_insert_eq own (JobID item) (me, call_to c, events_upto (call_from c last) ++ [call_to c])).
      eapply jobs_inv_release; [exact Hj'|]. intros j Hjob.
      destruct (ji_held _ _ _ _ Hj' (JobID item) me _ _ (lookup_insert_eq _ _ _)) as [Hlog (j2 & Hj2 & Hst)].
      assert (j2 = j) as -> by congruence. destruct Hst as [Hst|Hs]; [|split; [by eapply cut_terminal|by left]].
      specialize (Hfull Hne). unfold final_ok. rewrite Hst. split; [by eapply full_trace_terminal|right].
      eexists. split; [exact Hfull|exact Hlog].
    + eapply claims_worker_drop; [exact Hc|exact Hme|]. destruct c; [done|apply leave_claim..].
Qed.

Lemma flow_worker_step own s wid g pc canc now :
  flow_inv own s → sy_workers s !! wid = Some (g, pc) → pc ≠ WIdle →
  ∃ w next, worker_step fold canc now pc (worker_view s) = Some (w, next) ∧
    ∃ own', flow_inv own' (worker_result s wid g now pc w next).
Proof.
  intros [Hh Hj Hc] Hpc Hbusy. set (me := OWorker wid).
  assert (agent_claim (sy_requests s) (sy_workers s) me = work_claim pc) as Hme by (simpl; by rewrite Hpc).
  assert (∀ id st evs, work_claim pc = Some (id, st, evs) → own !! id = Some (me, st, evs)) as Hown.
  { intros id st evs E. rewrite E in Hme. by apply (claims_held _ _ _ _ me _ Hc) in Hme. }
  destruct pc as [|item|item c last|item c last|item c last|item|item]; [done|..]; cbn [work_claim] in *.
  - eexists _, _. split; [done|]. exists (<[JobID item := (me, JobQueued, announced)]> own). split; simpl.
    + exact Hh.
    + eapply jobs_inv_give; [exact Hj|by apply Hown].
    + eapply claims_worker_keep; [exact Hc|exact Hme|]. by destruct canc.
  - specialize (Hown _ _ _ eq_refl). destruct (jobs_inv_check _ _ _ _ _ _ _ _ _ Hj Hown) as (job & Hg & Href).
    cbn [worker_step worker_view Worker.w_jobs]. rewrite Hg. eexists _, _. split; [done|].
    destruct (CanTransitionJob (Status job) (call_intent c)).
    + eexists. split; [exact Hh|eapply jobs_inv_give; [exact Hj|exact Hown]|].
      by eapply claims_worker_keep; [exact Hc|exact Hme|].
    + exists (delete (JobID item) own). split; [exact Hh|by apply Href|].
      eapply claims_worker_drop; [exact Hc|exact Hme|apply leave_claim].
  - specialize (Hown _ _ _ eq_refl). pose proof (jobs_inv_write _ _ _ _ _ _ me _ _ _ Hj Hown) as Hw.
    cbn [worker_step worker_view Worker.w_jobs]. destruct (call_write c (sy_jobs s) (JobID item)) as [r' [e|]].
    + destruct Hw as [-> Hj']. eexists _, _. split; [done|]. exists (delete (JobID item) own).
      split; [exact Hh|exact Hj'|].
      eapply claims_worker_drop; [exact Hc|exact Hme|apply leave_claim].
    + eexists _, _. split; [done|]. eexists. split; [exact Hh|exact Hw|].
      by eapply claims_worker_keep; [exact Hc|exact Hme|].
  - by apply (flow_worker_publish own); [split|].
  - cbn [worker_step]. eexists _, _. split; [done|].
    eexists. split; [exact Hh|eapply jobs_inv_give; [exact Hj|by apply Hown]|].
    eapply claims_worker_keep; [exact Hc|exact Hme|]. by destruct (Memory.ExistsByEmail _ _ _).
  - cbn [worker_step]. destruct (Memory.Save fold _ _) as [u [user [e|]]]; (eexists _, _; split; [done|]);
      (eexists; split; [exact Hh|eapply jobs_inv_give; [exact Hj|by apply Hown]|]);
      by eapply claims_worker_keep; [exact Hc|exact Hme|].
Qed.
End fold.
End ended.

(** A larger set of ended jobs asks for less. *)
Lemma jobs_inv_mono (E E' : Ended) own r is_open log :
  (∀ id, E id → E' id) → @jobs_inv E own r is_open log → @jobs_inv E' own r is_open log.
Proof.
  intros HE [Hwf Hf Hh Hd Hl]. assert (∀ id j, @cut E id j → @cut E' id j) as Hcut.
  { intros id j [He Hs]. split; [by apply HE|done]. }
  split; [done|done| | |done].
  - intros id o st evs Ho. destruct (Hh _ _ _ _ Ho) as [? (j & ? & [?|?])]; (split; [done|]); exists j; auto.
  - intros id j Ho Hj. destruct (Hd _ _ Ho Hj) as [? [?|?]]; (split; [done|]); auto.
Qed.
