(* ===== verification/AsyncPool.v ===== *)
(** * Asynchronous creation: the pool, and what holds in every execution

    Over [AsyncSystem] and [AsyncInv]: the book-keeping of
    [internal/workerpool/workerpool.go] agrees with the goroutines that are
    really there ([crew]), every pending [Stop] has somebody who cancels
    ([cancel_inv]), and with [flow_inv] this is an invariant of every execution
    ([sys_inv_run]).  The second half states what follows. *)
From S2P Require Import Prelude.
From S2P Require Import GoErrors.
From S2P Require Import Entity.
From S2P Require Import JobRepo.
From S2P Require Import MemoryJobRepo.
From S2P Require Import UserRepo.
From S2P Require Import Services.
From S2P Require Import Queue.
From S2P Require Import Stream.
From S2P Require Import WorkerPool.
From S2P Require Import Security.
From S2P Require Import Handlers.
From S2P Require Import AsyncSystem.
From S2P Require Import AsyncInv.

(** ** The worker pool and its goroutines *)

(** A pending [Stop] of a generation that has not been repaired keeps the pool
    in the stopping state, and a repair that is behind a call is recorded. *)
Record stops_inv (s : Lifecycle.pstate) : Prop := {
  st_pending : ∀ pid g gen, Lifecycle.ps_stops s !! pid = Some (g, false) →
      Lifecycle.gens (Lifecycle.ps_pool s) !! g = Some gen → Lifecycle.genOutcome gen = None →
      Lifecycle.generation (Lifecycle.ps_pool s) = Some g ∧ Lifecycle.stopping (Lifecycle.ps_pool s) = true;
  st_repaired : ∀ pid g, Lifecycle.ps_stops s !! pid = Some (g, true) →
      ∃ gen, Lifecycle.gens (Lifecycle.ps_pool s) !! g = Some gen ∧ is_Some (Lifecycle.genOutcome gen);
  st_exists : ∀ pid g b, Lifecycle.ps_stops s !! pid = Some (g, b) →
      is_Some (Lifecycle.gens (Lifecycle.ps_pool s) !! g);
  st_current : ∀ g, Lifecycle.generation (Lifecycle.ps_pool s) = Some g →
      is_Some (Lifecycle.gens (Lifecycle.ps_pool s) !! g);
}.

Lemma stops_inv_init : stops_inv Lifecycle.ps_init.
Proof. split; simpl; intros *; by rewrite ?lookup_empty. Qed.

(** [Start] adds one generation when none is current, or changes nothing. *)
Lemma Start_cases p workers :
  ((Lifecycle.Start p workers).1 = p ∧ is_Some (Lifecycle.generation p)) ∨
  (∃ lo ho, (Lifecycle.Start p workers).1 =
     Lifecycle.mkWorkerPool (Some (length (Lifecycle.gens p))) false lo ho
       (Lifecycle.gens p ++ [Lifecycle.mkGen false (workers <=? 0)%Z workers None]) ∧
   (Lifecycle.generation p = None ∨ Lifecycle.stopping p = false)).
Proof.
  unfold Lifecycle.Start, Lifecycle.settleStoppedLocked.
  destruct (Lifecycle.generation p) as [g|] eqn:Hg.
  - destruct (Lifecycle.gen_done p g).
    + destruct (Lifecycle.stopping p) eqn:Hs; simpl.
      * rewrite Hg Hs. left. eauto.
      * right. eexists _, _. split; [done|by right].
    + rewrite Hg. destruct (Lifecycle.stopping p); left; eauto.
  - rewrite Hg. right. eexists _, _. split; [done|by left].
Qed.

Lemma upd_gen_lookup f g p k :
  Lifecycle.gens (Lifecycle.upd_gen f g p) !! k =
  if decide (g = k) then f <$> Lifecycle.gens p !! k else Lifecycle.gens p !! k.
Proof.
  unfold Lifecycle.upd_gen. simpl. rewrite list_lookup_alter. by case_decide; subst.
Qed.

(** An update of one generation that keeps its outcome when there is one. *)
Lemma stops_inv_upd f g p st :
  stops_inv (Lifecycle.mkPstate p st) →
  (∀ gen, Lifecycle.genOutcome (f gen) = None → Lifecycle.genOutcome gen = None) →
  stops_inv (Lifecycle.mkPstate (Lifecycle.upd_gen f g p) st).
Proof.
  intros [Hp Hr He Hc] Hf. split; simpl in *.
  - intros pid g' gen Hst. rewrite upd_gen_lookup. case_decide; [|eauto].
    intros (gen0 & Hg & ->)%fmap_Some Ho. eauto.
  - intros pid g' Hst. destruct (Hr _ _ Hst) as (gen & Hg & [o Ho]). rewrite upd_gen_lookup Hg.
    case_decide; simpl; [|eauto]. eexists. split; [done|].
    destruct (Lifecycle.genOutcome (f gen)) eqn:E; [by eexists|]. apply Hf in E. congruence.
  - intros pid g' b Hst. rewrite upd_gen_lookup. case_decide; [|eauto]. apply fmap_is_Some. eauto.
  - intros g' Hg. rewrite upd_gen_lookup. case_decide; [|eauto]. apply fmap_is_Some. eauto.
Qed.

Lemma stops_inv_step s s' : Lifecycle.pool_step s s' → stops_inv s → stops_inv s'.
Proof.
  intros Hs Hi.
  destruct Hs as [p st w|p st e He|p st pid g f He Hp|p st g|p st g gen Hg Hr|p st pid g o Hp Hd
                 |p st pid g Hp|p st pid g Hp].
  - destruct (Start_cases p w) as [[-> _]|(lo & ho & -> & Hcur)]; [done|]. destruct Hi as [Hp Hr He Hc]. simpl in *.
    split; simpl.
    + intros pid g gen Hst [Hl|[? [Hz <-]%list_lookup_singleton_Some]]%lookup_app_Some Ho.
      * destruct (Hp _ _ _ Hst Hl Ho). destruct Hcur; congruence.
      * destruct (He _ _ _ Hst) as [gen' ?%lookup_lt_Some]. lia.
    + intros pid g Hst. destruct (Hr _ _ Hst) as (gen & Hl & ?). exists gen. by rewrite (lookup_app_l_Some _ _ _ _ Hl).
    + intros pid g b Hst. destruct (He _ _ _ Hst) as [gen Hl]. exists gen. by apply lookup_app_l_Some.
    + intros g [= <-]. exists (Lifecycle.mkGen false (w <=? 0)%Z w None). by apply list_lookup_middle.
  - unfold Lifecycle.stop_enter in *. destruct (Lifecycle.generation p); done.
  - unfold Lifecycle.stop_enter in *. destruct (Lifecycle.generation p) as [g'|] eqn:Hg; [|done].
    injection He as <- <-. destruct Hi as [Hpd Hr He Hc]. simpl in *. split; simpl.
    + intros pid' g2 gen. rewrite lookup_insert. case_decide; [by intros [= <-]|].
      intros Hst Hl Ho. destruct (Hpd _ _ _ Hst Hl Ho). split; [congruence|done].
    + intros pid' g2. rewrite lookup_insert. case_decide; [done|]. apply Hr.
    + intros pid' g2 b. rewrite lookup_insert. case_decide; [|apply He]. intros [= <- <-]. by apply Hc.
    + intros g2 [= <-]. by apply Hc.
  - by apply stops_inv_upd.
  - apply stops_inv_upd; [done|]. intros gen'. simpl. by case_match.
  - pose proof (st_exists _ Hi pid g _ Hp) as [gen Hg]. simpl in Hg.
    assert (stops_inv (Lifecycle.mkPstate (Lifecycle.stop_repair o g p) st)) as [Hpd Hr He Hc].
    { apply stops_inv_upd; [done|]. intros gen'. destruct (Lifecycle.genOutcome gen') eqn:?; congruence. }
    split; simpl in *; [| | |done].
    + intros pid' g2 gen2. rewrite lookup_insert. case_decide; [done|]. apply Hpd.
    + intros pid' g2. rewrite lookup_insert. case_decide; [|apply Hr]. intros [= <-].
      unfold Lifecycle.stop_repair. rewrite upd_gen_lookup decide_True // Hg /=. eexists. split; [done|].
      destruct (Lifecycle.genOutcome gen) eqn:E; simpl; [rewrite E|]; eauto.
    + intros pid' g2 b. rewrite lookup_insert. case_decide; [|apply He]. intros [= <- <-]. by eapply He.
  - destruct Hi as [Hpd Hr He Hc]. simpl in *. destruct (Hr _ _ Hp) as (gen & Hg & Ho).
    unfold Lifecycle.stop_clear. simpl. split; simpl.
    + intros pid' g2 gen2 [_ Hst]%lookup_delete_Some Hl Hn. case_decide; simpl in *; [|eauto].
      destruct (Hpd _ _ _ Hst Hl Hn). assert (g2 = g) as -> by congruence.
      assert (gen2 = gen) as -> by congruence. rewrite Hn in Ho. by destruct Ho.
    + intros pid' g2 [_ Hst]%lookup_delete_Some. case_decide; simpl; eauto.
    + intros pid' g2 b [_ Hst]%lookup_delete_Some. case_decide; simpl; eauto.
    + intros g2. case_decide; simpl; [done|eauto].
  - destruct Hi as [Hpd Hr He Hc]. simpl in *. split; simpl; [| | |done];
      intros *; rewrite lookup_delete_Some; intros [_ ?]; eauto.
Qed.

(** How many goroutines of a generation there are. *)
Definition crew_of (g : nat) (W : gmap nat (nat * wpc)) : gmap nat (nat * wpc) :=
  filter (λ x : nat * (nat * wpc), x.2.1 = g) W.
Definition crew_size (g : nat) (W : gmap nat (nat * wpc)) : nat := size (crew_of g W).

Definition pc_last (pc : wpc) : bool :=
  match pc with WCheck _ _ last | WWrite _ _ last | WPublish _ _ last => last | _ => false end.

Definition gen_cancelled (p : Lifecycle.WorkerPool) (g : nat) : bool :=
  match Lifecycle.gens p !! g with Some gen => Lifecycle.genCancelled gen | None => false end.

Record crew (p : Lifecycle.WorkerPool) (W : gmap nat (nat * wpc)) (next : nat) : Prop := {
  cr_next : ∀ wid gpc, W !! wid = Some gpc → wid < next;
  cr_gen : ∀ wid g pc, W !! wid = Some (g, pc) → is_Some (Lifecycle.gens p !! g);
  cr_count : ∀ g gen, Lifecycle.gens p !! g = Some gen →
      Z.of_nat (crew_size g W) = Z.max 0 (Lifecycle.remaining gen);
  cr_last : ∀ wid g pc, W !! wid = Some (g, pc) → pc_last pc = true → gen_cancelled p g = true;
}.

Lemma crew_of_None g W wid : W !! wid = None → crew_of g W !! wid = None.
Proof. intros Hw. apply map_lookup_filter_None. by left. Qed.

Lemma crew_of_Some g W wid pc : W !! wid = Some (g, pc) → crew_of g W !! wid = Some (g, pc).
Proof. intros Hw. by apply map_lookup_filter_Some. Qed.

Lemma crew_of_other g g' W wid pc : W !! wid = Some (g, pc) → g ≠ g' → crew_of g' W !! wid = None.
Proof. intros Hw Hne. apply map_lookup_filter_None. right. intros gpc Hw'. by simplify_eq/=. Qed.

Lemma crew_size_update g W wid g' pc pc' :
  W !! wid = Some (g, pc) → crew_size g' (<[wid := (g, pc')]> W) = crew_size g' W.
Proof.
  intros Hw. unfold crew_size, crew_of. destruct (decide (g = g')) as [<-|Hne].
  - rewrite map_filter_insert_True // map_size_insert_Some //. eexists. by apply crew_of_Some.
  - rewrite map_filter_insert_False // map_filter_delete delete_id //. by eapply crew_of_other.
Qed.

Lemma crew_size_delete g W wid g' pc :
  W !! wid = Some (g, pc) →
  crew_size g' W = (if decide (g = g') then S (crew_size g' (delete wid W)) else crew_size g' (delete wid W)).
Proof.
  intros Hw. unfold crew_size, crew_of. rewrite map_filter_delete. case_decide as Hg.
  - subst g'. apply crew_of_Some in Hw. unfold crew_of in Hw.
    rewrite map_size_delete Hw. assert (size (filter (λ x : nat * (nat * wpc), x.2.1 = g) W) ≠ 0); [|lia].
    apply map_size_ne_0_lookup. eauto.
  - rewrite delete_id //. by eapply crew_of_other.
Qed.

Lemma spawn_lookup n : ∀ first g W wid,
  spawn first n g W !! wid =
  if decide (first <= wid < first + n) then Some (g, WIdle) else W !! wid.
Proof.
  induction n as [|n IH]; intros first g W wid; simpl.
  - rewrite decide_False //. lia.
  - rewrite lookup_insert. destruct (decide (first = wid)) as [<-|Hne].
    + rewrite decide_True //. lia.
    + rewrite IH. repeat case_decide; try done; lia.
Qed.

Lemma crew_size_spawn n : ∀ first g W g',
  (∀ wid gpc, W !! wid = Some gpc → wid < first) →
  crew_size g' (spawn first n g W) = (if decide (g = g') then n else 0) + crew_size g' W.
Proof.
  induction n as [|n IH]; intros first g W g' HW; simpl; [by case_decide|].
  assert (spawn (S first) n g W !! first = None) as Hfresh.
  { rewrite spawn_lookup decide_False; [lia|]. destruct (W !! first) eqn:E; [|done]. apply HW in E. lia. }
  assert (∀ wid gpc, W !! wid = Some gpc → wid < S first) as HW' by (intros wid gpc ?%HW; lia).
  specialize (IH (S first) g W g' HW'). unfold crew_size, crew_of in *.
  destruct (decide (g = g')) as [<-|Hne].
  - rewrite map_filter_insert_True // map_size_insert_None; [by apply crew_of_None|]. lia.
  - rewrite map_filter_insert_False // map_filter_delete delete_id; [by apply crew_of_None|]. lia.
Qed.

(** *** The crew under each kind of step *)
Lemma crew_gens p p' W next :
  crew p W next →
  (∀ g gen, Lifecycle.gens p' !! g = Some gen →
     ∃ gen0, Lifecycle.gens p !! g = Some gen0 ∧ Lifecycle.remaining gen = Lifecycle.remaining gen0) →
  (∀ g, is_Some (Lifecycle.gens p !! g) → is_Some (Lifecycle.gens p' !! g)) →
  (∀ g, gen_cancelled p g = true → gen_cancelled p' g = true) →
  crew p' W next.
Proof.
  intros [Hn Hg Hc Hl] Hr He Hcan. split; [done|eauto| |eauto].
  intros g gen Hgen. destruct (Hr _ _ Hgen) as (gen0 & ? & ->). eauto.
Qed.

Lemma crew_upd f g p W next :
  crew p W next → (∀ gen, Lifecycle.remaining (f gen) = Lifecycle.remaining gen) →
  (∀ gen, Lifecycle.genCancelled gen = true → Lifecycle.genCancelled (f gen) = true) →
  crew (Lifecycle.upd_gen f g p) W next.
Proof.
  intros Hcr Hrem Hcan. apply (crew_gens p); [done|..].
  - intros g' gen. rewrite upd_gen_lookup. case_decide; [|eauto].
    intros (gen0 & ? & ->)%fmap_Some. eauto.
  - intros g' Hs. rewrite upd_gen_lookup. case_decide; [by apply fmap_is_Some|done].
  - intros g'. unfold gen_cancelled. rewrite upd_gen_lookup. case_decide; [|done].
    destruct (Lifecycle.gens p !! g'); simpl; eauto.
Qed.

Lemma crew_move p W next wid g pc pc' :
  crew p W next → W !! wid = Some (g, pc) → (pc_last pc' = true → gen_cancelled p g = true) →
  crew p (<[wid := (g, pc')]> W) next.
Proof.
  intros [Hn Hg Hc Hl] Hw Hlast. split.
  - intros wid' gpc. rewrite lookup_insert. case_decide; [subst; intros _; eauto|eauto].
  - intros wid' g' pc2. rewrite lookup_insert. case_decide; [|eauto]. intros [= <- <-]. eauto.
  - intros g' gen Hgen. rewrite (crew_size_update g _ _ _ pc) //. eauto.
  - intros wid' g' pc2. rewrite lookup_insert. case_decide; [|eauto]. intros [= <- <-]. done.
Qed.

Lemma crew_exit p W next wid g pc :
  crew p W next → W !! wid = Some (g, pc) →
  (∃ gen, Lifecycle.gens p !! g = Some gen ∧ (0 < Lifecycle.remaining gen)%Z) ∧
  crew (Lifecycle.workerDone g p) (delete wid W) next.
Proof.
  intros [Hn Hg Hc Hl] Hw. destruct (Hg _ _ _ Hw) as [gen Hgen].
  pose proof (Hc _ _ Hgen) as Hcnt. rewrite (crew_size_delete g _ _ _ pc Hw) decide_True // in Hcnt.
  split; [exists gen; split; [done|lia]|]. split.
  - intros wid' gpc [_ ?]%lookup_delete_Some. eauto.
  - intros wid' g' pc' [_ Hw']%lookup_delete_Some. unfold Lifecycle.workerDone. rewrite upd_gen_lookup.
    case_decide; [apply fmap_is_Some|]; eauto.
  - intros g' gen'. unfold Lifecycle.workerDone. rewrite upd_gen_lookup. case_decide as Hgg.
    + subst g'. rewrite Hgen. intros [= <-]. simpl. case_match; simpl; lia.
    + intros Hgen'%Hc. rewrite (crew_size_delete g _ _ _ pc Hw) decide_False // in Hgen'.
  - intros wid' g' pc' [_ Hw']%lookup_delete_Some Hlast. pose proof (Hl _ _ _ Hw' Hlast) as Hcan.
    unfold gen_cancelled, Lifecycle.workerDone in *. rewrite upd_gen_lookup. case_decide; [|done].
    destruct (Lifecycle.gens p !! g') as [gen'|]; simpl in *; [by case_match|done].
Qed.

Lemma crew_start p W next workers lo ho :
  crew p W next →
  crew (Lifecycle.mkWorkerPool (Some (length (Lifecycle.gens p))) false lo ho
          (Lifecycle.gens p ++ [Lifecycle.mkGen false (workers <=? 0)%Z workers None]))
    (spawn next (Z.to_nat workers) (length (Lifecycle.gens p)) W) (next + Z.to_nat workers).
Proof.
  intros [Hn Hg Hc Hl].
  assert (∀ wid g pc, W !! wid = Some (g, pc) → g ≠ length (Lifecycle.gens p)) as Hold.
  { intros wid g pc [gen ?%lookup_lt_Some]%Hg. lia. }
  split; unfold gen_cancelled; simpl.
  - intros wid gpc. rewrite spawn_lookup. case_decide; [lia|]. intros ?%Hn. lia.
  - intros wid g pc. rewrite spawn_lookup. case_decide.
    + intros [= <- <-]. eexists. by apply list_lookup_middle.
    + intros [gen Hgen]%Hg. exists gen. by apply lookup_app_l_Some.
  - intros g gen Hgen. rewrite crew_size_spawn //.
    apply lookup_app_Some in Hgen as [Hgen|[Hle [Hz <-]%list_lookup_singleton_Some]].
    + rewrite decide_False; [apply lookup_lt_Some in Hgen; lia|]. simpl. by apply Hc.
    + rewrite decide_True; [lia|]. simpl. assert (crew_size g W = 0) as ->; [|lia].
      unfold crew_size. apply map_size_empty_iff, map_empty. intros wid. apply map_lookup_filter_None.
      right. intros [g' pc] Hw%Hold. simpl. lia.
  - intros wid g pc. rewrite spawn_lookup. case_decide; [by intros [= <- <-]|].
    intros Hw Hlast. pose proof (Hl _ _ _ Hw Hlast) as Hcan. unfold gen_cancelled in Hcan.
    destruct (Lifecycle.gens p !! g) as [gen|] eqn:Hgen; [|done]. by rewrite (lookup_app_l_Some _ _ _ _ Hgen).
Qed.

(** *** Somebody cancels every generation a [Stop] waits for *)
Definition cancel_pending (p : Lifecycle.WorkerPool) (st : gmap nat (nat * bool)) (c : gset nat) (g : nat) : Prop :=
  gen_cancelled p g = true ∨ ∃ pid, pid ∈ c ∧ st !! pid = Some (g, false).

Record cancel_inv (s : Lifecycle.pstate) (c : gset nat) : Prop := {
  ci_stop : ∀ pid g, Lifecycle.ps_stops s !! pid = Some (g, false) →
      cancel_pending (Lifecycle.ps_pool s) (Lifecycle.ps_stops s) c g;
  ci_current : ∀ g, Lifecycle.generation (Lifecycle.ps_pool s) = Some g →
      Lifecycle.stopping (Lifecycle.ps_pool s) = true →
      cancel_pending (Lifecycle.ps_pool s) (Lifecycle.ps_stops s) c g;
}.

(** Steps that cancel no less, and that remove no call that has yet to cancel. *)
Lemma cancel_pending_mono p p' st st' c c' g :
  cancel_pending p st c g →
  (gen_cancelled p g = true → gen_cancelled p' g = true) →
  (∀ pid, pid ∈ c → st !! pid = Some (g, false) →
     gen_cancelled p' g = true ∨ (pid ∈ c' ∧ st' !! pid = Some (g, false))) →
  cancel_pending p' st' c' g.
Proof.
  intros [Hc|(pid & Hin & Hst)] Hp Hs; [left; auto|].
  destruct (Hs _ Hin Hst) as [?|[? ?]]; [by left|right; eauto].
Qed.

Lemma cancel_inv_pool p p' st c :
  cancel_inv (Lifecycle.mkPstate p st) c →
  (∀ g, gen_cancelled p g = true → gen_cancelled p' g = true) →
  (∀ g, Lifecycle.generation p' = Some g → Lifecycle.stopping p' = true →
     Lifecycle.generation p = Some g ∧ Lifecycle.stopping p = true) →
  cancel_inv (Lifecycle.mkPstate p' st) c.
Proof.
  intros [Hs Hc] Hcan Hgen. split; simpl in *.
  - intros pid g Hst. eapply cancel_pending_mono; eauto.
  - intros g Hg Hstp. destruct (Hgen g Hg Hstp). eapply cancel_pending_mono; eauto.
Qed.

Lemma gen_cancelled_upd f k p g :
  (∀ gen, Lifecycle.genCancelled gen = true → Lifecycle.genCancelled (f gen) = true) →
  gen_cancelled p g = true → gen_cancelled (Lifecycle.upd_gen f k p) g = true.
Proof.
  intros Hf. unfold gen_cancelled. rewrite upd_gen_lookup. case_decide; [|done].
  destruct (Lifecycle.gens p !! g); simpl; auto.
Qed.

Lemma gen_cancelled_cancel p g :
  is_Some (Lifecycle.gens p !! g) → gen_cancelled (Lifecycle.cancel_gen g p) g = true.
Proof.
  intros [gen Hg]. unfold gen_cancelled, Lifecycle.cancel_gen. by rewrite upd_gen_lookup decide_True // Hg.
Qed.

Lemma workerDone_cancelled gen :
  Lifecycle.genCancelled gen = true →
  Lifecycle.genCancelled
    (let gen := Lifecycle.mkGen (Lifecycle.genCancelled gen) (Lifecycle.genDone gen)
                  (Lifecycle.remaining gen - 1) (Lifecycle.genOutcome gen) in
     if (Lifecycle.remaining gen =? 0)%Z then Lifecycle.closeDone gen else gen) = true.
Proof. simpl. by case_match. Qed.

Lemma stop_repair_cancelled o gen :
  Lifecycle.genCancelled gen = true →
  Lifecycle.genCancelled
    match Lifecycle.genOutcome gen with
    | Some _ => gen
    | None => Lifecycle.mkGen (Lifecycle.genCancelled gen) (Lifecycle.genDone gen) (Lifecycle.remaining gen) (Some o)
    end = true.
Proof. by case_match. Qed.

(** ** The invariant of the process *)

(** The id counters do not run out. *)
Definition ids_left (s : system) : Prop :=
  (MemoryJobRepo.nextID (sy_jobs s) < int_max)%Z ∧ (Stream.nextID (sy_hub s) + 1 < 2 ^ 63)%Z.

Definition unfinished (s : system) (id : Z) : Prop :=
  ∃ j, jobs (sy_jobs s) !! id = Some j ∧ IsTerminal (Status j) = false.
Definition is_finished (s : system) (id : Z) : Prop :=
  ∃ j, jobs (sy_jobs s) !! id = Some j ∧ IsTerminal (Status j) = true.

(** A step of a [Stop] call that ends a job: the repair is the only one. *)
Definition repairs (a : action) (s s' : system) (id : Z) : Prop :=
  (∃ pid, a = AStopStep pid) ∧ unfinished s id ∧ is_finished s' id.

Section ended.
Context `{!Ended}.

Record sys_inv (own : owners) (s : system) : Prop := {
  si_flow : flow_inv own s;
  si_pool : Lifecycle.pool_inv (sy_pool s);
  si_stops : stops_inv (sy_pool s);
  si_crew : crew (Lifecycle.ps_pool (sy_pool s)) (sy_workers s) (sy_nextw s);
  si_cancel : cancel_inv (sy_pool s) (sy_cancelling s);
}.

Lemma sys_inv_init hub q cap :
  NewHub cap = Some hub → ch q = [] → sys_inv ∅ (sys_init hub q).
Proof.
  intros Hn Hq. assert (closed hub = false) as Hcl.
  { unfold NewHub in Hn. case_match; [done|]. by injection Hn as <-. }
  apply NewHub_inv in Hn as [Hh _]. split.
  - split; simpl; [done| |].
    + split; [apply NewMemoryJobRepository_wf|..]; try (by intros *; rewrite ?lookup_empty).
      intros id. unfold types. rewrite lookup_empty. apply ordered_nil.
    + rewrite Hq. split; [|by constructor]. intros id o st evs. rewrite lookup_empty. split; [done|].
      destruct o; simpl; rewrite ?lookup_empty; [done| |done]. intros [Hin _]. by apply elem_of_nil in Hin.
  - apply Lifecycle.pool_inv_init.
  - apply stops_inv_init.
  - split; simpl; intros *; by rewrite ?lookup_empty.
  - split; simpl; intros *; by rewrite ?lookup_empty.
Qed.

(** A step that leaves the flow of jobs alone. *)
Lemma flow_inv_ext own s s' :
  flow_inv own s → sy_log s' = sy_log s → sy_hub s' = sy_hub s → sy_jobs s' = sy_jobs s →
  ch (sy_queue s') = ch (sy_queue s) →
  (∀ o, agent_claim (sy_requests s') (sy_workers s') o = agent_claim (sy_requests s) (sy_workers s) o) →
  flow_inv own s'.
Proof.
  intros [Hh Hj Hc] El Eh Ej Eq Ea. split; rewrite ?El ?Eh ?Ej ?Eq //. by eapply claims_ext.
Qed.

(** A step of the hub that publishes nothing. *)
Lemma flow_inv_hub own s h :
  flow_inv own s → hub_inv (sy_log s) h → (closed (sy_hub s) = true → closed h = true) →
  flow_inv own (set_hub h s).
Proof.
  intros [Hh Hj Hc] Hh' Hcl. split; simpl; [done| |done].
  destruct (closed (sy_hub s)); [by rewrite Hcl|].
  destruct (closed h); [by eapply jobs_inv_close|done].
Qed.

Lemma flow_inv_exit own s wid g :
  flow_inv own s → sy_workers s !! wid = Some (g, WIdle) → flow_inv own (exit_worker wid g s).
Proof.
  intros Hi Hw. eapply flow_inv_ext; [done..|]. intros o. simpl.
  destruct (decide (o = OWorker wid)) as [->|]; [|by apply agent_claim_delete_worker].
  simpl. by rewrite lookup_delete_eq Hw.
Qed.

(** *** Every action keeps it *)
Lemma sys_inv_other own own' s s' :
  sys_inv own s → flow_inv own' s' → sy_pool s' = sy_pool s → sy_workers s' = sy_workers s →
  sy_nextw s' = sy_nextw s → sy_cancelling s' = sy_cancelling s → sys_inv own' s'.
Proof. intros [Hf Hp Hs Hc Hca] Hf' Ep Ew En Ec. split; rewrite ?Ep ?Ew ?En ?Ec //. Qed.

(** A step of the pool that leaves the goroutines alone. *)
Lemma sys_inv_pool_step own s p' c :
  sys_inv own s → Lifecycle.pool_step (sy_pool s) p' →
  crew (Lifecycle.ps_pool p') (sy_workers s) (sy_nextw s) → cancel_inv p' c →
  sys_inv own (set_cancelling c (set_pool p' s)).
Proof.
  intros [Hf Hp Hs Hc Hca] Hstep Hc' Hca'. split; simpl; try done.
  - by eapply flow_inv_ext.
  - by eapply Lifecycle.pool_inv_step.
  - by eapply stops_inv_step.
Qed.

Lemma sys_inv_exit own own' s s0 wid g pc :
  sys_inv own s → flow_inv own' (exit_worker wid g s0) →
  sy_workers s !! wid = Some (g, pc) → sy_pool s0 = sy_pool s → sy_workers s0 = sy_workers s →
  sy_nextw s0 = sy_nextw s → sy_cancelling s0 = sy_cancelling s →
  sys_inv own' (exit_worker wid g s0).
Proof.
  intros [Hf Hp Hs Hc Hca] Hf' Hw Ep Ew En Ec.
  destruct (crew_exit _ _ _ _ _ _ Hc Hw) as [(gen & Hgen & Hrem) Hcrew].
  assert (Lifecycle.pool_step (sy_pool s)
    (Lifecycle.mkPstate (Lifecycle.workerDone g (Lifecycle.ps_pool (sy_pool s))) (Lifecycle.ps_stops (sy_pool s))))
    as Hstep.
  { destruct (sy_pool s) as [p st] eqn:E. by eapply Lifecycle.p_worker_exit. }
  split; [done|..]; simpl; rewrite ?Ep ?Ew ?En ?Ec.
  - by eapply Lifecycle.pool_inv_step.
  - by eapply stops_inv_step.
  - done.
  - destruct (sy_pool s) as [p st]. simpl in *. apply (cancel_inv_pool p); [done| |done].
    intros g'. apply gen_cancelled_upd, workerDone_cancelled.
Qed.

Lemma worker_step_last fold canc now pc w w' pc' :
  worker_step fold canc now pc w = Some (w', Some pc') →
  pc_last pc' = true → pc_last pc = true ∨ canc = true.
Proof.
  destruct pc as [|item|item c last|item c last|item c last|item|item]; simpl; try done;
    repeat case_match; intros; simplify_eq; simpl in *; auto;
    repeat match goal with
    | H : leave ?l = Some _ |- _ => unfold leave in H; destruct l; simplify_eq; simpl in *
    | H : (if _ then _ else _) = _ |- _ => case_match; simplify_eq; simpl in *
    end; auto.
Qed.

Section fold.
Context (fold : string → string).

Lemma sys_inv_worker own s wid take now s' :
  sys_inv own s → exec_worker fold wid take now s = Some s' → ∃ own', sys_inv own' s'.
Proof.
  intros Hi He. pose proof (si_flow _ _ Hi) as Hf. pose proof (si_crew _ _ Hi) as Hc.
  unfold exec_worker in He. destruct (sy_workers s !! wid) as [[g pc]|] eqn:Hw; [|done].
  assert (pc = WIdle ∨ pc ≠ WIdle) as [->|Hbusy] by (destruct pc; auto).
  - unfold exec_idle, receive in He. destruct (ch (sy_queue s)) as [|item rest] eqn:Hq.
    + destruct (cancelled s g); [|done]. injection He as <-. exists own.
      by eapply sys_inv_exit; [exact Hi|apply flow_inv_exit|..].
    + destruct (cancelled s g && negb take)%bool; injection He as <-.
      { exists own. by eapply sys_inv_exit; [exact Hi|apply flow_inv_exit|..]. }
      exists (<[JobID item := (OWorker wid, JobQueued, announced)]> own).
      destruct Hf as [Hh Hj Hcl]. rewrite Hq in Hcl. destruct Hi as [_ Hp Hs _ Hca]. split; simpl; try done.
      * split; simpl; [done| |].
        -- eapply jobs_inv_give; [exact Hj|]. apply (cl_iff _ _ _ Hcl (JobID item) OQueue). simpl. by split; [left|].
        -- eapply (claims_receive own _ _ _ (OWorker wid)); [exact Hcl|done|..].
           ++ intros. by apply agent_claim_insert_worker.
           ++ simpl. by rewrite Hw.
           ++ simpl. by rewrite lookup_insert_eq.
      * by eapply crew_move.
  - destruct (flow_worker_step fold own s wid g pc (cancelled s g) now Hf Hw Hbusy)
      as (w & next & Hstep & own' & Hf').
    assert (match worker_step fold (cancelled s g) now pc (worker_view s) with
            | None => None
            | Some (w, next) =>
                Some (match next with
                      | Some pc' => set_workers (<[wid := (g, pc')]> (sy_workers s))
                                      (put_worker_view w (worker_log now pc s))
                      | None => exit_worker wid g (put_worker_view w (worker_log now pc s))
                      end)
            end = Some s') as He' by (by destruct pc).
    clear He. rewrite Hstep in He'. injection He' as <-. exists own'.
    assert (∀ s0, sy_pool (put_worker_view w (worker_log now pc s0)) = sy_pool s0 ∧
      sy_workers (put_worker_view w (worker_log now pc s0)) = sy_workers s0 ∧
      sy_nextw (put_worker_view w (worker_log now pc s0)) = sy_nextw s0 ∧
      sy_cancelling (put_worker_view w (worker_log now pc s0)) = sy_cancelling s0) as Hsame
      by (intros; by destruct pc).
    destruct (Hsame s) as (Ep & Ew & En & Ec). destruct next as [pc'|].
    + destruct Hi as [_ Hp Hs _ Hca]. split; [exact Hf'|..]; simpl; rewrite ?Ep ?En ?Ec //.
      eapply crew_move; [done|done|]. intros Hlast.
      destruct (worker_step_last _ _ _ _ _ _ _ Hstep Hlast) as [?|?]; [by eapply cr_last|done].
    + eapply sys_inv_exit; [exact Hi| |done..]. eapply flow_inv_ext; [exact Hf'|done..|].
      intros o. simpl. by rewrite Ew.
Qed.

Lemma sys_inv_start own s workers s' :
  sys_inv own s → exec_start workers s = Some s' → sys_inv own s'.
Proof.
  intros Hi He. unfold exec_start in He. injection He as <-.
  destruct s as [js us h q ob qd R W nw [p st] ca lg]. cbn [sy_pool Lifecycle.ps_pool Lifecycle.ps_stops] in *.
  pose proof (Lifecycle.p_start p st workers) as Hstep.
  destruct (Start_cases p workers) as [[E _]|(lo & ho & E & Hcur)]; rewrite !E in Hstep |- *.
  - rewrite decide_False; [lia|]. by destruct Hi.
  - destruct Hi as [Hf Hp Hs Hc Hca]. cbn [sy_pool sy_workers sy_nextw sy_cancelling Lifecycle.ps_pool] in *.
    rewrite decide_True; [simpl; rewrite length_app /=; lia|]. split; simpl.
    + eapply flow_inv_ext; [exact Hf|done..|]. intros [| |wid]; simpl; try done.
      rewrite spawn_lookup. case_decide; [|done]. destruct (W !! wid) as [gpc|] eqn:Hw; [|done].
      apply (cr_next _ _ _ Hc) in Hw. lia.
    + by eapply Lifecycle.pool_inv_step.
    + by eapply stops_inv_step.
    + by apply crew_start.
    + eapply cancel_inv_pool; [done| |done]. intros g. unfold gen_cancelled. simpl.
      destruct (Lifecycle.gens p !! g) as [gen|] eqn:Hg; [|done]. by rewrite (lookup_app_l_Some _ _ _ _ Hg).
Qed.
End fold.

Lemma sys_inv_stop own s pid s' :
  sys_inv own s → exec_stop pid s = Some s' → sys_inv own s'.
Proof.
  intros Hi He. unfold exec_stop in He.
  destruct s as [js us h q ob qd R W nw [p st] ca lg]. cbn [sy_pool Lifecycle.ps_pool Lifecycle.ps_stops] in *.
  destruct (st !! pid) as [x|] eqn:Hst; [done|].
  destruct (Lifecycle.stop_enter p) as [p' r] eqn:Hen.
  assert (Lifecycle.gens p' = Lifecycle.gens p) as Hgens.
  { unfold Lifecycle.stop_enter in Hen. by destruct (Lifecycle.generation p); injection Hen as <- _. }
  assert (crew p' W nw) as Hcr.
  { apply (crew_gens p); [apply (si_crew _ _ Hi)|rewrite Hgens; eauto..|].
    unfold gen_cancelled. by rewrite Hgens. }
  assert (∀ g, gen_cancelled p' g = gen_cancelled p g) as Hgc by (unfold gen_cancelled; by rewrite Hgens).
  pose proof (si_cancel _ _ Hi) as Hca. simpl in Hca.
  destruct r as [e|g first]; injection He as <-.
  - apply (sys_inv_pool_step own (mkSystem js us h q ob qd R W nw (Lifecycle.mkPstate p st) ca lg)
      (Lifecycle.mkPstate p' st) ca); simpl; try done.
    + pose proof (Lifecycle.p_stop_return p st e) as Hs. rewrite Hen in Hs. by apply Hs.
    + apply (cancel_inv_pool p); [done|intros g; by rewrite Hgc|]. unfold Lifecycle.stop_enter in Hen.
      destruct (Lifecycle.generation p) eqn:E; simplify_eq; congruence.
  - assert (p' = Lifecycle.mkWorkerPool (Some g) true (Lifecycle.lastOutcome p) (Lifecycle.hasOutcome p) (Lifecycle.gens p) ∧
      Lifecycle.generation p = Some g ∧ first = negb (Lifecycle.stopping p)) as (Ep & Hcur & Hfirst).
    { unfold Lifecycle.stop_enter in Hen. destruct (Lifecycle.generation p) eqn:E; by simplify_eq. }
    set (ca' := if first then {[pid]} ∪ ca else ca).
    assert (sys_inv own (set_cancelling ca' (set_pool (Lifecycle.mkPstate p' (<[pid := (g, false)]> st))
      (mkSystem js us h q ob qd R W nw (Lifecycle.mkPstate p st) ca lg)))) as Hgoal.
    { apply (sys_inv_pool_step own); simpl; try done.
      - pose proof (Lifecycle.p_stop_wait p st pid g first) as Hs. rewrite Hen in Hs. by apply Hs.
      - assert (∀ g', cancel_pending p st ca g' → cancel_pending p' (<[pid := (g, false)]> st) ca' g') as Hmono.
        { intros g' Hcp. eapply cancel_pending_mono; [exact Hcp|by rewrite Hgc|].
          intros pid' Hin Hst'. right. split; [unfold ca'; destruct first; set_solver|].
          rewrite lookup_insert_ne //. congruence. }
        assert (cancel_pending p' (<[pid := (g, false)]> st) ca' g) as Hme.
        { destruct (Lifecycle.stopping p) eqn:Hstp.
          - apply Hmono, (ci_current _ _ Hca); done.
          - right. exists pid. unfold ca'. rewrite Hfirst /= lookup_insert_eq. split; [set_solver|done]. }
        split; simpl.
        + intros pid' g'. rewrite lookup_insert. case_decide; [by intros [= <-]|].
          intros Hst'. apply Hmono. by eapply (ci_stop _ _ Hca).
        + rewrite Ep. simpl. intros g' [= <-] _. by rewrite Ep in Hme. }
    unfold ca' in Hgoal. by destruct first.
Qed.

(** The three things a pending [Stop] does: clear the pool, cancel, repair. *)
Lemma sys_inv_stop_clear own s p st pid g :
  sys_inv own s → sy_pool s = Lifecycle.mkPstate p st → st !! pid = Some (g, true) →
  sys_inv own (set_pool (Lifecycle.mkPstate (Lifecycle.stop_clear g p).1 (delete pid st)) s).
Proof.
  intros Hi Hp Hst. destruct s as [js us h q ob qd R W nw pl ca lg]. simpl in Hp. subst pl.
  pose proof (si_cancel _ _ Hi) as Hca. pose proof (si_crew _ _ Hi) as Hcr. simpl in Hca, Hcr.
  assert (∀ g', gen_cancelled (Lifecycle.stop_clear g p).1 g' = gen_cancelled p g') as Hgc.
  { intros g'. unfold Lifecycle.stop_clear. simpl. by case_decide. }
  apply (sys_inv_pool_step own (mkSystem js us h q ob qd R W nw (Lifecycle.mkPstate p st) ca lg)
    (Lifecycle.mkPstate (Lifecycle.stop_clear g p).1 (delete pid st)) ca); simpl; try done.
  - by apply Lifecycle.p_clear.
  - apply (crew_gens p); [done|..]; unfold gen_cancelled, Lifecycle.stop_clear; simpl; case_decide; eauto.
  - assert (∀ g', cancel_pending p st ca g' →
      cancel_pending (Lifecycle.stop_clear g p).1 (delete pid st) ca g') as Hmono.
    { intros g' Hcp. eapply cancel_pending_mono; [exact Hcp|by rewrite Hgc|].
      intros pid' Hin Hst'. right. split; [done|]. rewrite lookup_delete_ne //. congruence. }
    split; simpl.
    + intros pid' g' [_ Hst']%lookup_delete_Some. by eapply Hmono, (ci_stop _ _ Hca).
    + intros g' Hg Hstp. apply Hmono, (ci_current _ _ Hca); simpl; case_decide; done.
Qed.

Lemma sys_inv_stop_cancel own s p st pid g :
  sys_inv own s → sy_pool s = Lifecycle.mkPstate p st → st !! pid = Some (g, false) →
  sys_inv own (set_cancelling (sy_cancelling s ∖ {[pid]})
                 (set_pool (Lifecycle.mkPstate (Lifecycle.cancel_gen g p) st) s)).
Proof.
  intros Hi Hp Hst. destruct s as [js us h q ob qd R W nw pl ca lg]. simpl in Hp. subst pl.
  pose proof (si_cancel _ _ Hi) as Hca. pose proof (si_crew _ _ Hi) as Hcr. simpl in Hca, Hcr.
  apply (sys_inv_pool_step own (mkSystem js us h q ob qd R W nw (Lifecycle.mkPstate p st) ca lg) _ (ca ∖ {[pid]})); simpl.
  - done.
  - apply Lifecycle.p_cancel.
  - by apply crew_upd.
  - pose proof (gen_cancelled_cancel p g (st_exists _ (si_stops _ _ Hi) _ _ _ Hst)) as Hnow.
    assert (∀ g', cancel_pending p st ca g' →
      cancel_pending (Lifecycle.cancel_gen g p) st (ca ∖ {[pid]}) g') as Hmono.
    { intros g' Hcp. eapply cancel_pending_mono; [exact Hcp|by apply gen_cancelled_upd|].
      intros pid' Hin' Hst'. destruct (decide (pid' = pid)) as [->|].
      - left. congruence.
      - right. split; [set_solver|done]. }
    split; simpl.
    + intros pid' g' Hst'. by eapply Hmono, (ci_stop _ _ Hca).
    + intros g' Hg Hstp. by apply Hmono, (ci_current _ _ Hca).
Qed.

Lemma sys_inv_stop_repair own s p st pid g o :
  sys_inv own s → sy_pool s = Lifecycle.mkPstate p st → st !! pid = Some (g, false) →
  Lifecycle.gen_done p g = true → pid ∉ sy_cancelling s →
  sys_inv own (set_pool (Lifecycle.mkPstate (Lifecycle.stop_repair o g p) (<[pid := (g, true)]> st)) s).
Proof.
  intros Hi Hp Hst Hd Hnin. destruct s as [js us h q ob qd R W nw pl ca lg]. simpl in Hp, Hnin. subst pl.
  pose proof (si_cancel _ _ Hi) as Hca. pose proof (si_crew _ _ Hi) as Hcr. simpl in Hca, Hcr.
  apply (sys_inv_pool_step own (mkSystem js us h q ob qd R W nw (Lifecycle.mkPstate p st) ca lg)
    (Lifecycle.mkPstate (Lifecycle.stop_repair o g p) (<[pid := (g, true)]> st)) ca); simpl.
  - done.
  - by apply Lifecycle.p_repair.
  - apply crew_upd; [done| |apply stop_repair_cancelled]. intros gen. by case_match.
  - assert (∀ g', cancel_pending p st ca g' →
      cancel_pending (Lifecycle.stop_repair o g p) (<[pid := (g, true)]> st) ca g') as Hmono.
    { intros g' Hcp. eapply cancel_pending_mono; [exact Hcp|apply gen_cancelled_upd, stop_repair_cancelled|].
      intros pid' Hin' Hst'. right. split; [done|]. rewrite lookup_insert_ne //. congruence. }
    split; simpl.
    + intros pid' g'. rewrite lookup_insert. case_decide; [done|]. intros Hst'.
      by eapply Hmono, (ci_stop _ _ Hca).
    + intros g' Hg Hstp. by apply Hmono, (ci_current _ _ Hca).
Qed.

Lemma sys_inv_stop_step own s pid s' :
  sys_inv own s → exec_stop_step pid s = Some s' → (∀ id, repairs (AStopStep pid) s s' id → ended id) →
  sys_inv own s'.
Proof.
  intros Hi He Hend. unfold exec_stop_step in He. destruct (sy_pool s) as [p st] eqn:Hpool.
  cbn [Lifecycle.ps_pool Lifecycle.ps_stops] in He.
  destruct (st !! pid) as [[g []]|] eqn:Hst; [| |done].
  { injection He as <-. by eapply sys_inv_stop_clear. }
  case_decide as Hin; [injection He as <-; by apply sys_inv_stop_cancel|].
  destruct (Lifecycle.gen_done p g) eqn:Hd; [|done].
  pose proof (sys_inv_stop_repair own s p st pid g) as Hgoal.
  destruct (Worker.repairActiveOnShutdown _ _) as [js' o] eqn:Hrep. injection He as <-.
  specialize (Hgoal o Hi Hpool Hst Hd Hin). destruct (unrepaired s g); [|by destruct s].
  assert (js' = (Worker.repairActiveOnShutdown (tt : @repo_env _ memory_JobRepository) (sy_jobs s)).1) as ->
    by (by rewrite Hrep).
  destruct Hgoal as [[Hh Hj Hc] ? ? ? ?]. split; try done. split; [done| |done].
  simpl in *. apply jobs_inv_repair; [done|]. intros id j Hjob Ha. apply Hend.
  split; [eauto|]. split; [exists j; split; [done|]|].
  - destruct (IsTerminal (Status j)) eqn:Ht; [|done]. apply terminal_not_active in Ht. congruence.
  - exists (fail_active_job JobService.ShutdownJobProblem j). simpl. rewrite repair_jobs /= lookup_fmap Hjob.
    split; [done|]. unfold fail_active_job. by rewrite Ha.
Qed.

Lemma sys_inv_stop_timeout own s pid s' :
  sys_inv own s → exec_stop_timeout pid s = Some s' → sys_inv own s'.
Proof.
  intros Hi He. unfold exec_stop_timeout in He.
  destruct s as [js us h q ob qd R W nw [p st] ca lg]. cbn [sy_pool Lifecycle.ps_pool Lifecycle.ps_stops sy_cancelling] in *.
  destruct (st !! pid) as [[g []]|] eqn:Hst; try done. destruct (decide (pid ∈ ca)); [done|]. injection He as <-.
  pose proof (si_cancel _ _ Hi) as Hca. simpl in Hca.
  apply (sys_inv_pool_step own (mkSystem js us h q ob qd R W nw (Lifecycle.mkPstate p st) ca lg)
      (Lifecycle.mkPstate p (delete pid st)) ca); simpl.
  - done.
  - by eapply Lifecycle.p_stop_timeout.
  - apply (si_crew _ _ Hi).
  - assert (∀ g', cancel_pending p st ca g' → cancel_pending p (delete pid st) ca g') as Hmono.
    { intros g' Hcp. eapply cancel_pending_mono; [exact Hcp|done|].
      intros pid' Hin' Hst'. right. split; [done|]. rewrite lookup_delete_ne //. congruence. }
    split; simpl.
    + intros pid' g' [_ Hst']%lookup_delete_Some. by eapply Hmono, (ci_stop _ _ Hca).
    + intros g' Hg Hstp. by apply Hmono, (ci_current _ _ Hca).
Qed.

Lemma sys_inv_exec fold own a s s' :
  sys_inv own s → ids_left s → exec fold a s = Some s' → (∀ id, repairs a s s' id → ended id) →
  ∃ own', sys_inv own' s'.
Proof.
  intros Hi [Hjobs Hsubs] He Hend. pose proof (si_flow _ _ Hi) as Hf. pose proof (fi_hub _ _ Hf) as Hh.
  destruct a as [pid payload p|pid o now|wid take now|u|workers|pid|pid|pid|g| |job|job id|id| |]; simpl in He.
  - destruct (sy_requests s !! pid) as [x|] eqn:Hr; [done|]. injection He as <-. exists own.
    apply (sys_inv_other own own s); try done. eapply flow_inv_ext; [exact Hf|done..|].
    intros o. destruct (decide (o = OReq pid)) as [->|]; [|by apply agent_claim_insert_req].
    simpl. by rewrite lookup_insert_eq Hr.
  - destruct (flow_handler own s pid o now s' Hf Hjobs He) as [own' Hf']. exists own'.
    unfold exec_handler in He. destruct (sy_requests s !! pid) as [pc|]; [|done].
    destruct (request_step o now pc (handler_view s)) as [[w next]|]; [|done].
    apply (sys_inv_other own own' s); try done; destruct next, pc; by injection He as <-.
  - by eapply sys_inv_worker.
  - injection He as <-. exists own. apply (sys_inv_other own own s); try done. by eapply flow_inv_ext.
  - exists own. by eapply sys_inv_start.
  - exists own. by eapply sys_inv_stop.
  - exists own. by eapply sys_inv_stop_step.
  - exists own. by eapply sys_inv_stop_timeout.
  - injection He as <-. exists own.
    destruct s as [js us h q ob qd R W nw [p st] ca lg].
    apply (sys_inv_pool_step own (mkSystem js us h q ob qd R W nw (Lifecycle.mkPstate p st) ca lg)
      (Lifecycle.mkPstate (Lifecycle.cancel_gen g p) st) ca); simpl; try done.
    + apply Lifecycle.p_cancel.
    + apply crew_upd; [apply (si_crew _ _ Hi)|done..].
    + apply (cancel_inv_pool p); [apply (si_cancel _ _ Hi)|intros; by apply gen_cancelled_upd|done].
  - injection He as <-. exists own. apply (sys_inv_other own own s); try done. by eapply flow_inv_ext.
  - destruct (Subscribe_inv _ _ job Hh Hsubs) as (h' & r & Hs & _ & Hh'). rewrite Hs in He. injection He as <-.
    exists own. apply (sys_inv_other own own s); try done. apply flow_inv_hub; [done|done|].
    unfold Subscribe in Hs. intros Hcl. rewrite Hcl in Hs. by injection Hs as <- _.
  - injection He as <-. exists own. apply (sys_inv_other own own s); try done.
    apply flow_inv_hub; [done|by apply unsubscribe_inv|].
    unfold unsubscribe. intros Hcl. by repeat case_match.
  - injection He as <-. exists own. apply (sys_inv_other own own s); try done.
    apply flow_inv_hub; [done|by apply recv_inv|]. unfold recv. intros Hcl. by repeat case_match.
  - injection He as <-. exists own. apply (sys_inv_other own own s); try done.
    apply flow_inv_hub; [done| |]; unfold close_flag; destruct (closed (sy_hub s)) eqn:Hcl; try done.
    destruct Hh as [? ? ? ? ? ? ?]. by split.
  - destruct (closed (sy_hub s)) eqn:Hcl; [|done].
    destruct (close_drain_inv _ _ Hh) as (h' & Hd & _ & Hh'). rewrite Hd in He. injection He as <-.
    exists own. apply (sys_inv_other own own s); try done. apply flow_inv_hub; [done|done|]. intros _.
    unfold close_drain in Hd. case_match; [|done]. by injection Hd as <-.
Qed.

End ended.

Lemma sys_inv_mono (E E' : Ended) own s :
  (∀ id, E id → E' id) → @sys_inv E own s → @sys_inv E' own s.
Proof.
  intros HE [[Hh Hj Hc] ? ? ? ?]. split; try done. split; [done| |done].
  exact (jobs_inv_mono E E' _ _ _ _ HE Hj).
Qed.

(** The jobs that a repair has ended in the first [n] steps. *)
Definition ended_by_repair (fold : string → string) (sched : nat → action) (s0 : system) (n : nat) : Ended :=
  λ id, ∃ k, k < n ∧ repairs (sched k) (run fold sched k s0) (run fold sched (S k) s0) id.

Lemma sys_inv_run fold sched s own n :
  @sys_inv (ended_by_repair fold sched s 0) own s → (∀ k, k < n → ids_left (run fold sched k s)) →
  ∃ own', @sys_inv (ended_by_repair fold sched s n) own' (run fold sched n s).
Proof.
  intros Hi. induction n as [|n IH]; intros Hids; simpl; [by exists own|].
  destruct IH as [own' Hi']; [intros k Hk; apply Hids; lia|].
  apply (sys_inv_mono _ (ended_by_repair fold sched s (S n))) in Hi'; [|intros id (k & Hk & ?); exists k; split; [lia|done]].
  unfold step. destruct (exec fold (sched n) (run fold sched n s)) as [s'|] eqn:He; simpl; [|by exists own'].
  eapply sys_inv_exec; [exact Hi'|apply Hids; lia|exact He|].
  intros id Hr. exists n. split; [lia|]. simpl. unfold step. by rewrite He.
Qed.

(** ** What holds in every execution *)

(** Where a job is. *)
Definition in_hands (s : system) (o : owner) (id : Z) : Prop :=
  ∃ st evs, holds (agent_claim (sy_requests s) (sy_workers s)) (JobID <$> ch (sy_queue s)) o (id, st, evs).

Lemma in_hands_own own s o id :
  claims own (agent_claim (sy_requests s) (sy_workers s)) (JobID <$> ch (sy_queue s)) →
  in_hands s o id ↔ ∃ st evs, own !! id = Some (o, st, evs).
Proof.
  intros Hc. unfold in_hands. split; intros (st & evs & Hown); exists st, evs; by apply (cl_iff _ _ _ Hc).
Qed.

Lemma unfinished_held `{!Ended} own s id j :
  flow_inv own s → jobs (sy_jobs s) !! id = Some j → IsTerminal (Status j) = false →
  ∃ o st evs, own !! id = Some (o, st, evs).
Proof.
  intros [_ Hj _] Hjob Ht. destruct (own !! id) as [[[o st] evs]|] eqn:Ho; [eauto|].
  destruct (ji_done _ _ _ _ Hj _ _ Ho Hjob). congruence.
Qed.

(** Only a worker about to publish its last event holds a finished job. *)
Lemma terminal_claim R W Q o id st evs :
  holds (agent_claim R W) Q o (id, st, evs) → IsTerminal st = true →
  ∃ wid g item c last, W !! wid = Some (g, WPublish item c last) ∧ JobID item = id ∧ st = call_to c ∧
    evs = events_upto (call_from c last) ∧ full_trace st (evs ++ [call_to c]).
Proof.
  intros Ho Ht. destruct o as [pid| |wid]; simpl in Ho.
  - destruct (R !! pid) as [[]|]; simplify_eq/=; done.
  - destruct Ho as (_ & -> & _). done.
  - destruct (W !! wid) as [[g pc]|] eqn:Hw; [|done].
    destruct pc as [|item|item c last|item c last|item c last|item|item]; simplify_eq/=; try done;
      try (by destruct c, last).
    exists wid, g, item, c, last. split_and!; try done. apply call_events. by intros ->.
Qed.

Lemma final_or_publishing `{!Ended} own s id j :
  flow_inv own s → jobs (sy_jobs s) !! id = Some j → IsTerminal (Status j) = true → closed (sy_hub s) = false →
  cut id j ∨ full_trace (Status j) (types (sy_log s) id) ∨
  ∃ wid g item c last, sy_workers s !! wid = Some (g, WPublish item c last) ∧ JobID item = id ∧
    full_trace (Status j) (types (sy_log s) id ++ [call_to c]).
Proof.
  intros [_ Hj Hc] Hjob Ht Hopen. rewrite Hopen in Hj. destruct (own !! id) as [[[o st] evs]|] eqn:Ho.
  - destruct (ji_held _ _ _ _ Hj _ _ _ _ Ho) as [[_ Hlog] (j2 & Hj2 & Hst)].
    assert (j2 = j) as -> by congruence. destruct Hst as [<-|?]; [|by left].
    apply (cl_iff _ _ _ Hc) in Ho. destruct (terminal_claim _ _ _ _ _ _ _ Ho Ht)
      as (wid & g & item & c & last & Hw & Hid & _ & _ & Hfull).
    right; right. exists wid, g, item, c, last. by rewrite (Hlog eq_refl).
  - destruct (ji_done _ _ _ _ Hj _ _ Ho Hjob) as [_ [?|(evs & Hfull & _ & Hlog)]]; [by left|].
    right; left. by rewrite (Hlog eq_refl).
Qed.

Section executions.
Context (fold : string → string) (cap : Z) (hub : Hub) (q : Queue).
Hypothesis (Hhub : NewHub cap = Some hub) (Hq : ch q = []).

Lemma run_inv sched n :
  (∀ k, k < n → ids_left (run fold sched k (sys_init hub q))) →
  ∃ own, @sys_inv (ended_by_repair fold sched (sys_init hub q) n) own (run fold sched n (sys_init hub q)).
Proof. intros Hids. eapply sys_inv_run; [by eapply sys_inv_init|done]. Qed.

(** (C3) No accepted work is lost, duplicated or orphaned: in every execution
    of any number of handlers, workers, starts, stops and subscribers, each job
    that is not finished is in exactly one place - with the handler that creates
    it, in the queue, or with one worker - and no two queued items name the same
    job. *)
Theorem unfinished_job_in_one_place sched n id j :
  (∀ k, k < n → ids_left (run fold sched k (sys_init hub q))) →
  let s := run fold sched n (sys_init hub q) in
  jobs (sy_jobs s) !! id = Some j → IsTerminal (Status j) = false →
  (∃ o, in_hands s o id ∧ ∀ o', in_hands s o' id → o' = o) ∧ NoDup (JobID <$> ch (sy_queue s)).
Proof.
  intros Hids s Hj Ht. destruct (run_inv sched n Hids) as [own Hi]. fold s in Hi.
  pose proof (si_flow _ _ Hi) as Hf. destruct (unfinished_held _ _ _ _ Hf Hj Ht) as (o & st & evs & Ho).
  split; [|apply (fi_claims _ _ Hf)]. exists o. split.
  - apply (in_hands_own own); [apply (fi_claims _ _ Hf)|eauto].
  - intros o' (st' & evs' & Ho')%(in_hands_own own); [congruence|apply (fi_claims _ _ Hf)].
Qed.

(** (C1) Progress is published in order and completely: in every execution the
    events of a job are, in order, the beginning of one of the three lives
    queued - running - succeeded, queued - running - failed, queued - failed.
    While the hub is open, a finished job has had the whole life of its final
    status published, or a worker stands right before publishing the last event
    of it; the only jobs exempted are those that the repair of a [Stop] call,
    and no worker, has ended.  What a registered subscriber has received so far
    is in that order too. *)
Theorem job_events_in_order sched n id :
  (∀ k, k < n → ids_left (run fold sched k (sys_init hub q))) →
  let s := run fold sched n (sys_init hub q) in
  ordered (evType <$> default [] (sy_log s !! id)) ∧
  (∀ j, jobs (sy_jobs s) !! id = Some j → IsTerminal (Status j) = true → closed (sy_hub s) = false →
     ended_by_repair fold sched (sys_init hub q) n id ∨
     full_trace (Status j) (evType <$> default [] (sy_log s !! id)) ∨
     (∃ wid g item c last, sy_workers s !! wid = Some (g, WPublish item c last) ∧ JobID item = id ∧
        full_trace (Status j) ((evType <$> default [] (sy_log s !! id)) ++ [call_to c]))) ∧
  (∀ sub c, registered (sy_hub s) id sub → chans (sy_hub s) !! sub = Some c →
     ∃ st evs, full_trace st evs ∧ (evType <$> (consumed c ++ buf c)) `sublist_of` evs).
Proof.
  intros Hids s. destruct (run_inv sched n Hids) as [own Hi]. fold s in Hi.
  pose proof (si_flow _ _ Hi) as Hf. pose proof (fi_jobs _ _ Hf) as Hj.
  pose proof (ji_log _ _ _ _ Hj id) as Hord. unfold types in Hord. split_and!; [done| |].
  - intros j Hjob Ht Hopen. destruct (final_or_publishing _ _ _ _ Hf Hjob Ht Hopen) as [[? _]|?]; auto.
  - intros sub c Hreg Hc. destruct (hi_chan _ _ (fi_hub _ _ Hf) _ _ Hreg) as (_ & c' & Hc' & _ & _ & Hsub & _).
    assert (c' = c) as -> by congruence. destruct Hord as (st & evs & Hfull & [rest Hpre]).
    exists st, evs. split; [done|]. rewrite Hpre. apply sublist_inserts_r. by apply fmap_sublist.
Qed.

(** The shutdown repair never races with a worker: at the moment a [Stop]
    call runs the repair of its generation, no worker goroutine of any
    generation exists. *)
Theorem repair_runs_alone sched n pid g :
  (∀ k, k < n → ids_left (run fold sched k (sys_init hub q))) →
  let s := run fold sched n (sys_init hub q) in
  Lifecycle.ps_stops (sy_pool s) !! pid = Some (g, false) →
  Lifecycle.gen_done (Lifecycle.ps_pool (sy_pool s)) g = true → unrepaired s g = true →
  sy_workers s = ∅.
Proof.
  intros Hids s Hst Hd Hun. destruct (run_inv sched n Hids) as [own Hi]. fold s in Hi.
  destruct (st_exists _ (si_stops _ _ Hi) _ _ _ Hst) as [gen Hgen].
  unfold unrepaired in Hun. rewrite Hgen in Hun. destruct (Lifecycle.genOutcome gen) eqn:Ho; [done|].
  destruct (st_pending _ (si_stops _ _ Hi) _ _ _ Hst Hgen Ho) as [Hcur _].
  apply map_empty. intros wid. apply eq_None_not_Some. intros [[g' pc] Hw].
  destruct (crew_exit _ _ _ _ _ _ (si_crew _ _ Hi) Hw) as [(gen' & Hg' & Hrem) _].
  pose proof (Lifecycle.pi_current _ (si_pool _ _ Hi) g' ltac:(by exists gen')) as Hcur'.
  assert (g' = g) as -> by congruence.
  apply (Lifecycle.alive_not_done _ _ (si_pool _ _ Hi) Hd). by exists gen'.
Qed.
End executions.

(** *** One creation, start to end, then a stop *)
Definition ex_fold (s : string) : string := s.
Definition ex_queue2 : Queue := mkQueue [] 2 false 0.
Definition ex_request : CreateUserInput := mkCreateUserInput "Ann" 30 "ann@x.io".
Definition ex_principal : Principal := mkPrincipal 7 RoleUser.

Definition ex_actions : list action :=
  [AStart 1; ASubscribe 1; ARequest 0 ex_request ex_principal;
   AHandler 0 ctx_live 0; AHandler 0 ctx_live 0; AHandler 0 ctx_live 0;
   AWorker 0 true 0; AWorker 0 true 0; AWorker 0 true 0; AWorker 0 true 0; AWorker 0 true 0;
   AWorker 0 true 0; AWorker 0 true 0; AWorker 0 true 0; AWorker 0 true 0; AWorker 0 true 0;
   AStopAccepting; AStop 0; AStopStep 0; AWorker 0 false 0; AStopStep 0; AStopStep 0].
Definition ex_sched (n : nat) : action := nth n ex_actions AStopAccepting.
Definition ex_init : system := sys_init ex_hub ex_queue2.

Definition ids_leftb (s : system) : bool :=
  ((MemoryJobRepo.nextID (sy_jobs s) <? int_max) && (Stream.nextID (sy_hub s) + 1 <? 2 ^ 63))%Z.

Lemma ids_leftb_ok s : ids_leftb s = true → ids_left s.
Proof. unfold ids_leftb, ids_left. rewrite andb_true_iff !Z.ltb_lt. done. Qed.

(** A bounded check by evaluation. *)
Lemma ids_left_upto fold sched s n :
  forallb (λ k, ids_leftb (run fold sched k s)) (seq 0 n) = true → ∀ k, k < n → ids_left (run fold sched k s).
Proof.
  intros Hf k Hk. apply ids_leftb_ok. rewrite forallb_forall in Hf. apply Hf, in_seq. lia.
Qed.

(** After six steps the job is queued. *)
Lemma unfinished_job_in_one_place_witness :
  let s := run ex_fold ex_sched 6 ex_init in
  ∃ j, jobs (sy_jobs s) !! 1%Z = Some j ∧ Status j = JobQueued ∧
    (∃ o, in_hands s o 1%Z ∧ ∀ o', in_hands s o' 1%Z → o' = o).
Proof.
  intros s. eexists. split; [vm_compute; reflexivity|]. split; [reflexivity|].
  destruct (unfinished_job_in_one_place ex_fold 2 ex_hub ex_queue2 eq_refl eq_refl ex_sched 6 1%Z
    (mkJob 1 JobQueued None None 7)) as [H _].
  - apply ids_left_upto. vm_compute. reflexivity.
  - vm_compute. reflexivity.
  - reflexivity.
  - exact H.
Defined.

(** At the end of the creation the subscriber's channel holds the events in order. *)
Lemma job_events_in_order_witness :
  let s := run ex_fold ex_sched 16 ex_init in
  ∃ c, chans (sy_hub s) !! 1%Z = Some c ∧ buf c ≠ [] ∧
    ∃ st evs, full_trace st evs ∧ (evType <$> (consumed c ++ buf c)) `sublist_of` evs.
Proof.
  intros s. eexists. split; [vm_compute; reflexivity|]. split; [discriminate|].
  destruct (job_events_in_order ex_fold 2 ex_hub ex_queue2 eq_refl eq_refl ex_sched 16 1%Z) as (_ & _ & H).
  - apply ids_left_upto. vm_compute. reflexivity.
  - eapply (H 1%Z).
    + exists {[1%Z := tt]}. split; [vm_compute; reflexivity|]. exists tt. vm_compute. reflexivity.
    + vm_compute. reflexivity.
Defined.

Lemma repair_runs_alone_witness :
  let s := run ex_fold ex_sched 20 ex_init in
  Lifecycle.gen_done (Lifecycle.ps_pool (sy_pool s)) 0 = true ∧ sy_workers s = ∅.
Proof.
  intros s. split; [vm_compute; reflexivity|].
  apply (repair_runs_alone ex_fold 2 ex_hub ex_queue2 eq_refl eq_refl ex_sched 20 0 0).
  - apply ids_left_upto. vm_compute. reflexivity.
  - vm_compute. reflexivity.
  - vm_compute. reflexivity.
  - vm_compute. reflexivity.
Defined.
