(* ===== verification/AsyncLive.v ===== *)
(** * Asynchronous creation: what a fair scheduler guarantees

    Over [AsyncSystem]: a scheduler is fair when it runs, again and again, each
    worker goroutine that exists and each [Stop] call that has not returned.
    Under such a scheduler accepted jobs finish and [Stop] calls return.  The
    proofs go phase by phase ([wait]): a goroutine keeps its program point until
    it is scheduled, and each of its own steps lowers a rank.  The last part is
    about the order of the shutdown in [internal/api/server.go]. *)
From S2P Require Import Prelude.
From S2P Require Import GoErrors.
From S2P Require Import Entity.
From S2P Require Import JobRepo.
From S2P Require Import MemoryJobRepo.
From S2P Require Import UserRepo.
From S2P Require Import Services.
From S2P Require Import Queue.
From S2P Require Import Stream.
From S2P Require Import WorkerPool.
From S2P Require Import Security.
From S2P Require Import Handlers.
From S2P Require Import AsyncSystem.
From S2P Require Import AsyncInv.
From S2P Require Import AsyncPool.

(** What was published plays no part here: every job may count as ended. *)
#[local] Instance any_ended : Ended := λ _, True.

Lemma any_inv (E : Ended) own s : @sys_inv E own s → @sys_inv any_ended own s.
Proof. by apply sys_inv_mono. Qed.

(** Whose turn it is. *)
Definition by_worker (wid : nat) (a : action) : bool :=
  match a with AWorker wid' _ _ => bool_decide (wid' = wid) | _ => false end.
Definition by_stop (pid : nat) (a : action) : bool :=
  match a with AStopStep pid' => bool_decide (pid' = pid) | _ => false end.

Lemma by_worker_eq wid a : by_worker wid a = true → ∃ take now, a = AWorker wid take now.
Proof. destruct a; simpl; try done. intros ->%bool_decide_eq_true. eauto. Qed.
Lemma by_stop_eq pid a : by_stop pid a = true → a = AStopStep pid.
Proof. destruct a; simpl; try done. by intros ->%bool_decide_eq_true. Qed.

(** The rule behind every liveness argument: what holds until the awaited turn
    comes either holds when it comes, or something else has settled the matter
    before. *)
Lemma wait (turn : nat → bool) (P D : nat → Prop) n :
  P n → (∃ m, n ≤ m ∧ turn m = true) →
  (∀ k, n ≤ k → P k → turn k = false → P (S k) ∨ D (S k)) →
  (∃ m, n ≤ m ∧ turn m = true ∧ P m) ∨ (∃ m, n ≤ m ∧ D m).
Proof.
  intros HP (m & Hm & Ht) Hk. remember (m - n) as d eqn:Hd. revert n m HP Hm Ht Hk Hd.
  induction d as [|d IH]; intros n m HP Hm Ht Hk Hd.
  - assert (m = n) as -> by lia. left. eauto.
  - destruct (turn n) eqn:Htn; [left; eauto|].
    destruct (Hk n ltac:(lia) HP Htn) as [HP'|HD]; [|right; eauto].
    destruct (IH (S n) m HP' ltac:(lia) Ht) as [(m' & ? & ? & ?)|(m' & ? & ?)].
    + intros k Hk'. apply Hk. lia.
    + lia.
    + left. exists m'. split; [lia|done].
    + right. exists m'. split; [lia|done].
Qed.

(** ** What an action does to one goroutine *)
Section fold.
Context (fold : string → string).

Lemma exec_worker_idle wid g take now s s' :
  sy_workers s !! wid = Some (g, WIdle) → exec fold (AWorker wid take now) s = Some s' →
  (∃ item, ch (sy_queue s) = item :: ch (sy_queue s') ∧ sy_workers s' = <[wid := (g, WGot item)]> (sy_workers s) ∧
     sy_jobs s' = sy_jobs s) ∨
  (cancelled s g = true ∧ sy_workers s' = delete wid (sy_workers s) ∧ sy_queue s' = sy_queue s ∧
     sy_jobs s' = sy_jobs s).
Proof.
  intros Hw. simpl. unfold exec_worker. rewrite Hw. unfold exec_idle, receive.
  destruct (ch (sy_queue s)) as [|item rest] eqn:Hq.
  - destruct (cancelled s g) eqn:Hc; [|done]. intros [= <-]. right. by simpl.
  - destruct (cancelled s g) eqn:Hc, take; simpl; intros [= <-];
      first [by right|left; exists item; by simpl].
Qed.

Lemma exec_worker_busy own wid g pc take now s :
  sys_inv own s → sy_workers s !! wid = Some (g, pc) → pc ≠ WIdle →
  ∃ w next s', exec fold (AWorker wid take now) s = Some s' ∧
    worker_step fold (cancelled s g) now pc (worker_view s) = Some (w, next) ∧
    sy_workers s' = next_workers wid g next (sy_workers s) ∧ sy_queue s' = sy_queue s ∧
    sy_jobs s' = Worker.w_jobs w ∧ sy_requests s' = sy_requests s.
Proof.
  intros Hi Hw Hb.
  destruct (flow_worker_step fold own s wid g pc (cancelled s g) now (si_flow _ _ Hi) Hw Hb) as (w & next & Hs & _).
  simpl. unfold exec_worker. rewrite Hw. exists w, next.
  destruct pc; [done|..]; rewrite Hs; (eexists; split; [done|]; split; [done|]); by destruct next.
Qed.

(** A handler's step and the goroutines and queue. *)
Lemma exec_handler_effect pid o now s s' :
  exec_handler pid o now s = Some s' →
  sy_workers s' = sy_workers s ∧ sy_pool s' = sy_pool s ∧ sy_cancelling s' = sy_cancelling s ∧
  (ch (sy_queue s') = ch (sy_queue s) ∨
   ∃ item, ch (sy_queue s') = ch (sy_queue s) ++ [item] ∧ stopped (sy_queue s) = false) ∧
  stopped (sy_queue s') = stopped (sy_queue s).
Proof.
  unfold exec_handler. destruct (sy_requests s !! pid) as [pc|]; [|done].
  destruct (request_step o now pc (handler_view s)) as [[w next]|] eqn:Hs; [|done]. intros [= <-].
  assert (UsersHandler.w_queue w = sy_queue s ∨
    ∃ item, UsersHandler.w_queue w = (Enqueue o (sy_queue s) item).1) as Hq.
  { destruct pc; simpl in Hs; unfold UsersHandler.publishQueuedJob in Hs;
      try (repeat case_match; simplify_eq/=; by left).
    - destruct (Publish _ (ID job)
        (mkEvent JobQueued (ID job) now DataNil)); simplify_eq/=; by left.
    - right. exists (mkWorkItem (ID job) payload). by repeat case_match; simplify_eq/=. }
  assert ((ch (UsersHandler.w_queue w) = ch (sy_queue s) ∨
     ∃ item, ch (UsersHandler.w_queue w) = ch (sy_queue s) ++ [item] ∧ stopped (sy_queue s) = false) ∧
     stopped (UsersHandler.w_queue w) = stopped (sy_queue s)) as [Hch Hst].
  { destruct Hq as [->|(item & ->)]; [eauto|].
    destruct (Enqueue_cases o (sy_queue s) item) as [(-> & _ & Hst)|(-> & _ & -> & _)]; simpl; eauto. }
  by destruct next, pc.
Qed.

Lemma exec_worker_queue wid take now s s' :
  exec_worker fold wid take now s = Some s' →
  (∀ wid', wid' ≠ wid → sy_workers s' !! wid' = sy_workers s !! wid') ∧
  stopped (sy_queue s') = stopped (sy_queue s) ∧ sy_cancelling s' = sy_cancelling s ∧
  Lifecycle.ps_stops (sy_pool s') = Lifecycle.ps_stops (sy_pool s).
Proof.
  unfold exec_worker. destruct (sy_workers s !! wid) as [[g pc]|] eqn:Hw; [|done].
  assert (∀ w now s0, let s1 := put_worker_view w (worker_log now pc s0) in
    sy_workers s1 = sy_workers s0 ∧ sy_queue s1 = sy_queue s0 ∧ sy_cancelling s1 = sy_cancelling s0 ∧
    sy_pool s1 = sy_pool s0) as Hput by (intros; by destruct pc).
  assert (pc = WIdle ∨ pc ≠ WIdle) as [->|Hb] by (destruct pc; auto).
  - unfold exec_idle, receive. intros He. repeat case_match; simplify_eq/=;
      (split; [|done]); intros; by rewrite ?lookup_insert_ne ?lookup_delete_ne.
  - intros He. assert (match worker_step fold (cancelled s g) now pc (worker_view s) with
      | None => None
      | Some (w, next) =>
          Some (match next with
                | Some pc' => set_workers (<[wid := (g, pc')]> (sy_workers s))
                                (put_worker_view w (worker_log now pc s))
                | None => exit_worker wid g (put_worker_view w (worker_log now pc s))
                end)
      end = Some s') as He' by (by destruct pc).
    clear He. destruct (worker_step _ _ _ _ _) as [[w next]|]; [|done]. injection He' as <-.
    destruct (Hput w now s) as (Ew & Eq & Ec & Ep).
    destruct next; simpl; rewrite ?Ew ?Eq ?Ec ?Ep; (split; [|done]); intros;
      by rewrite ?lookup_insert_ne ?lookup_delete_ne.
Qed.

(** Everything but the handlers and the workers leaves jobs' whereabouts alone. *)
Lemma exec_other_effect own a s s' :
  sys_inv own s → exec fold a s = Some s' →
  match a with AHandler _ _ _ | AWorker _ _ _ => False | _ => True end →
  ch (sy_queue s') = ch (sy_queue s) ∧ (stopped (sy_queue s) = true → stopped (sy_queue s') = true) ∧
  (∀ wid gpc, sy_workers s !! wid = Some gpc → sy_workers s' !! wid = Some gpc) ∧
  (∀ wid gpc, sy_workers s' !! wid = Some gpc → sy_workers s !! wid = Some gpc ∨
     (sy_workers s !! wid = None ∧ gpc = (length (Lifecycle.gens (Lifecycle.ps_pool (sy_pool s))), WIdle))).
Proof.
  intros Hi He Ha.
  assert (∀ s1, sy_queue s1 = sy_queue s → sy_workers s1 = sy_workers s →
    ch (sy_queue s1) = ch (sy_queue s) ∧ (stopped (sy_queue s) = true → stopped (sy_queue s1) = true) ∧
    (∀ wid gpc, sy_workers s !! wid = Some gpc → sy_workers s1 !! wid = Some gpc) ∧
    (∀ wid gpc, sy_workers s1 !! wid = Some gpc → sy_workers s !! wid = Some gpc ∨
       (sy_workers s !! wid = None ∧ gpc = (length (Lifecycle.gens (Lifecycle.ps_pool (sy_pool s))), WIdle))))
    as Hsame by (intros s1 -> ->; auto).
  destruct a as [pid payload p|pid o now|wid' take now|u|workers|pid|pid|pid|g| |job|job id|id| |]; simpl in He;
    try done; try (apply Hsame; by repeat case_match; simplify_eq/=).
  - unfold exec_start in He. injection He as <-. case_decide as Hlen; [|by apply Hsame]. simpl.
    split_and!; [done|done|..].
    + intros wid gpc Hw. rewrite spawn_lookup decide_False //.
      apply (cr_next _ _ _ (si_crew _ _ Hi)) in Hw. lia.
    + intros wid gpc. rewrite spawn_lookup. case_decide; [|by left]. intros [= <-]. right. split; [|done].
      destruct (sy_workers s !! wid) eqn:Hw; [|done]. apply (cr_next _ _ _ (si_crew _ _ Hi)) in Hw. lia.
  - unfold exec_stop in He. apply Hsame; repeat case_match; by simplify_eq/=.
  - unfold exec_stop_step in He. apply Hsame; repeat case_match; by simplify_eq/=.
  - unfold exec_stop_timeout in He. apply Hsame; repeat case_match; by simplify_eq/=.
  - injection He as <-. simpl. auto.
  - destruct (close_drain (sy_hub s)); case_match; simplify_eq/=; by apply Hsame.
Qed.

(** A worker stays where it is while others move. *)
Lemma exec_worker_keeps own a s s' wid gpc :
  sys_inv own s → exec fold a s = Some s' → by_worker wid a = false →
  sy_workers s !! wid = Some gpc → sy_workers s' !! wid = Some gpc.
Proof.
  intros Hi He Ha Hw. destruct a as [ |pid o now|wid' take now| | | | | | | | | | | | ] eqn:E;
    try (by apply (exec_other_effect own a s s' Hi); subst).
  - apply exec_handler_effect in He as [-> _]. done.
  - apply bool_decide_eq_false in Ha. apply exec_worker_queue in He as [Hk _]. rewrite Hk; congruence.
Qed.

(** ** A worker's own steps *)
Definition work_rank (pc : wpc) : nat :=
  match pc with
  | WIdle => 0
  | WPublish _ CallRunning _ => 6
  | WWrite _ CallRunning _ => 7
  | WCheck _ CallRunning _ => 8
  | WPublish _ _ _ => 1
  | WWrite _ _ _ => 2
  | WCheck _ _ _ => 3
  | WSave _ => 4
  | WExists _ => 5
  | WGot _ => 9
  end.

Lemma work_rank_bound pc : work_rank pc <= 9.
Proof. destruct pc as [| |? []|? []|? []| |]; simpl; lia. Qed.

(** Where a step of a busy worker can lead. *)
Inductive pc_next : bool → wpc → option wpc → Prop :=
| next_got canc item :
    pc_next canc (WGot item) (Some (if canc then WCheck item (CallFailed JobService.ShutdownJobProblem) true
                                   else WCheck item CallRunning false))
| next_check canc item c last : pc_next canc (WCheck item c last) (Some (WWrite item c last))
| next_write canc item c last : pc_next canc (WWrite item c last) (Some (WPublish item c last))
| next_leave canc item c last pc :
    pc = WCheck item c last ∨ pc = WWrite item c last ∨ (pc = WPublish item c last ∧ c ≠ CallRunning) →
    pc_next canc pc (leave last)
| next_publish canc item last : pc_next canc (WPublish item CallRunning last) (Some (WExists item))
| next_taken canc item p : pc_next canc (WExists item) (Some (WCheck item (CallFailed p) false))
| next_free canc item : pc_next canc (WExists item) (Some (WSave item))
| next_saved canc item c : c ≠ CallRunning → pc_next canc (WSave item) (Some (WCheck item c false)).

Lemma worker_step_next canc now pc w w' next :
  worker_step fold canc now pc w = Some (w', next) → pc_next canc pc next.
Proof.
  destruct pc as [|item|item c last|item c last|item c last|item|item]; simpl; try done.
  - intros [= _ <-]. constructor.
  - destruct (MemoryJobRepo.GetByID _ _); [|intros [= _ <-]; eapply next_leave; eauto].
    intros [= _ <-]. case_match; [constructor|eapply next_leave; eauto].
  - destruct (call_write _ _ _) as [r [e|]]; intros [= _ <-]; [eapply next_leave; eauto|constructor].
  - destruct (Worker.publish _ _ _); [|done]. intros [= _ <-].
    destruct c; [constructor|eapply next_leave; right; right; done..].
  - intros [= _ <-]. case_match; constructor.
  - destruct (Memory.Save _ _ _) as [u [user [e|]]]; intros [= _ <-]; by constructor.
Qed.

Lemma pc_next_rank canc pc pc' : pc_next canc pc (Some pc') → work_rank pc' < work_rank pc.
Proof.
  remember (Some pc') as next eqn:E. destruct 1 as [canc item|? ? []|? ? []|? ? ? last ? Hpc|? ? ?|? ? ?|? ?|? ? c Hc];
    simplify_eq/=; try lia.
  - destruct canc; simpl; lia.
  - unfold leave in E. destruct last; simplify_eq/=.
    destruct Hpc as [->|[->|[-> ?]]]; simpl; case_match; lia.
  - destruct c; simpl; [done|lia..].
Qed.

(** A step keeps the worker on the same job. *)
Lemma pc_next_claim canc pc next c' :
  pc_next canc pc next → next ≫= work_claim = Some c' → ∃ c, work_claim pc = Some c ∧ c.1.1 = c'.1.1.
Proof.
  destruct 1 as [canc item| | |? ? ? last ? Hpc| | | | ]; simpl; intros E; simplify_eq/=; eauto.
  - destruct canc; simplify_eq/=; eauto.
  - unfold leave in E. by destruct last.
Qed.

Lemma call_write_keeps c r id id' :
  is_Some (jobs r !! id') → is_Some (jobs (call_write c r id).1 !! id').
Proof.
  intros Hj. rewrite call_write_cas. simpl. unfold cas. destruct (jobs r !! id) as [j|] eqn:E; [|done].
  destruct (CanTransitionJob _ _); simpl; [|done]. rewrite lookup_insert. case_decide; [by eexists|done].
Qed.

Lemma worker_step_jobs canc now pc w w' next id :
  worker_step fold canc now pc w = Some (w', next) →
  is_Some (jobs (Worker.w_jobs w) !! id) → is_Some (jobs (Worker.w_jobs w') !! id).
Proof.
  intros Hs Hj. destruct pc as [|item|item c last|item c last|item c last|item|item]; simpl in Hs; try done.
  - by injection Hs as <- _.
  - destruct (MemoryJobRepo.GetByID _ _); by injection Hs as <- _.
  - pose proof (call_write_keeps c (Worker.w_jobs w) (JobID item) id Hj) as Hk.
    destruct (call_write _ _ _) as [r [e|]]; by injection Hs as <- _.
  - unfold Worker.publish in Hs. destruct (Publish _ _ _); [|done]. by injection Hs as <- _.
  - by injection Hs as <- _.
  - destruct (Memory.Save _ _ _) as [u [user [e|]]]; by injection Hs as <- _.
Qed.

(** ** Executions *)
Context (cap : Z) (hub : Hub) (q : Queue) (sched : nat → action).
Context (Hhub : NewHub cap = Some hub) (Hq : ch q = []).
Local Abbreviation at_ k := (run fold sched k (sys_init hub q)).
Context (Hids : ∀ k, ids_left (at_ k)).

Lemma inv_at k : ∃ own, sys_inv own (at_ k).
Proof.
  destruct (run_inv fold cap hub q Hhub Hq sched k (λ k _, Hids k)) as [own Hi].
  exists own. exact (any_inv _ _ _ Hi).
Qed.

Lemma at_S k : exec fold (sched k) (at_ k) = Some (at_ (S k)) ∨ at_ (S k) = at_ k.
Proof. simpl. unfold step. destruct (exec fold (sched k) (at_ k)); simpl; auto. Qed.

Definition finished (k : nat) (id : Z) : Prop :=
  ∃ j, jobs (sy_jobs (at_ k)) !! id = Some j ∧ IsTerminal (Status j) = true.

Definition fair_workers : Prop :=
  ∀ k wid, is_Some (sy_workers (at_ k) !! wid) → ∃ m, k <= m ∧ by_worker wid (sched m) = true.

Lemma worker_waits k wid gpc :
  sy_workers (at_ k) !! wid = Some gpc → by_worker wid (sched k) = false →
  sy_workers (at_ (S k)) !! wid = Some gpc.
Proof.
  intros Hw Ha. destruct (at_S k) as [He| ->]; [|done]. destruct (inv_at k) as [own Hi].
  by eapply exec_worker_keeps.
Qed.

(** A worker's turn comes while it is where it was. *)
Lemma worker_turn k wid gpc :
  fair_workers → sy_workers (at_ k) !! wid = Some gpc →
  ∃ m take now, k <= m ∧ sched m = AWorker wid take now ∧ sy_workers (at_ m) !! wid = Some gpc.
Proof.
  intros Hfair Hw.
  destruct (wait (λ m, by_worker wid (sched m)) (λ m, sy_workers (at_ m) !! wid = Some gpc) (λ _, False) k Hw)
    as [(m & Hm & Ht & Hwm)|(? & _ & [])].
  - apply (Hfair k wid). by exists gpc.
  - intros m _ Hwm Ht. left. by apply worker_waits.
  - apply by_worker_eq in Ht as (take & now & Ht). eauto 10.
Qed.

(** A job a worker has let go of is finished. *)
Lemma released_finished own own' s s' wid id st evs next g :
  flow_inv own s → flow_inv own' s' → own !! id = Some (OWorker wid, st, evs) →
  sy_workers s' = next_workers wid g next (sy_workers s) → sy_queue s' = sy_queue s →
  sy_requests s' = sy_requests s → next ≫= work_claim = None →
  is_Some (jobs (sy_jobs s') !! id) →
  ∃ j, jobs (sy_jobs s') !! id = Some j ∧ IsTerminal (Status j) = true.
Proof.
  intros Hf Hf' Ho Hw Hqq Hr Hn [j Hj]. exists j. split; [done|].
  destruct (IsTerminal (Status j)) eqn:Ht; [done|].
  destruct (unfinished_held _ _ _ _ Hf' Hj Ht) as (o & st' & evs' & Ho').
  apply (cl_iff _ _ _ (fi_claims _ _ Hf')) in Ho'. rewrite Hw Hqq Hr in Ho'.
  destruct (decide (o = OWorker wid)) as [->|Hne].
  - change (agent_claim (sy_requests s) (next_workers wid g next (sy_workers s)) (OWorker wid) = Some (id, st', evs')) in Ho'.
    rewrite next_workers_claim Hn in Ho'. done.
  - assert (own !! id = Some (o, st', evs')) as Hoo; [|congruence].
    apply (cl_iff _ _ _ (fi_claims _ _ Hf)). destruct o as [pid| |wid']; [exact Ho'|exact Ho'|].
    etrans; [symmetry; exact (next_workers_other _ _ wid g next _ Hne)|exact Ho'].
Qed.

(** A job in the hands of a worker gets finished by that worker. *)
Lemma worker_finishes id r : fair_workers → ∀ k wid g pc st evs,
  work_rank pc <= r → sy_workers (at_ k) !! wid = Some (g, pc) → work_claim pc = Some (id, st, evs) →
  ∃ m, k <= m ∧ finished m id.
Proof.
  intros Hfair. induction r as [|r IH]; intros k wid g pc st evs Hr Hw Hc.
  { destruct pc as [| |? []|? []|? []| |]; simpl in Hr, Hc; try lia; done. }
  destruct (worker_turn k wid (g, pc) Hfair Hw) as (m & take & now & Hm & Ht & Hwm).
  destruct (inv_at m) as [own Hi]. destruct (inv_at (S m)) as [own' Hi'].
  assert (pc ≠ WIdle) as Hb by (by intros ->).
  destruct (exec_worker_busy own wid g pc take now (at_ m) Hi Hwm Hb) as (w & next & s' & He & Hs & Hw' & Hq' & Hj' & Hr').
  assert (at_ (S m) = s') as Es by (simpl; unfold step; by rewrite Ht He). rewrite -Es in Hw' Hq' Hj' Hr'. clear He.
  pose proof (worker_step_next _ _ _ _ _ _ Hs) as Hnext.
  assert (own !! id = Some (OWorker wid, st, evs)) as Ho.
  { apply (cl_iff _ _ _ (fi_claims _ _ (si_flow _ _ Hi)) id (OWorker wid)). simpl. by rewrite Hwm. }
  destruct (next ≫= work_claim) as [[[id' st'] evs']|] eqn:Hn.
  - destruct next as [pc'|]; [|done]. destruct (pc_next_claim _ _ _ _ Hnext Hn) as (c & Hc' & Hid).
    simpl in Hn. rewrite Hc in Hc'. injection Hc' as <-. simpl in Hid. subst id'.
    destruct (IH (S m) wid g pc' st' evs') as (m' & ? & ?).
    + apply pc_next_rank in Hnext. lia.
    + rewrite Hw'. simpl. by rewrite lookup_insert_eq.
    + done.
    + exists m'. split; [lia|done].
  - exists (S m). split; [lia|].
    eapply (released_finished own own' (at_ m) (at_ (S m)) wid id st evs next g); try done; [apply Hi|apply Hi'|].
    rewrite Hj'. eapply worker_step_jobs; [exact Hs|].
    destruct (ji_held _ _ _ _ (fi_jobs _ _ (si_flow _ _ Hi)) _ _ _ _ Ho) as [_ (j & ? & _)]. by exists j.
Qed.

(** ** A queued job reaches the head and a worker *)
Definition queued_at (k i : nat) (id : Z) : Prop :=
  ∃ item, ch (sy_queue (at_ k)) !! i = Some item ∧ JobID item = id.
Definition with_worker (k : nat) (id : Z) : Prop :=
  ∃ wid g pc st evs, sy_workers (at_ k) !! wid = Some (g, pc) ∧ work_claim pc = Some (id, st, evs).

Lemma queue_step k i id :
  queued_at k i id →
  queued_at (S k) i id ∨ (∃ i', i = S i' ∧ queued_at (S k) i' id) ∨ with_worker (S k) id.
Proof.
  intros (item & Hi & Hid). destruct (inv_at k) as [own Hinv].
  destruct (at_S k) as [He|Es]; [|left; exists item; by rewrite Es].
  set (s' := at_ (S k)) in *.
  assert (ch (sy_queue s') = ch (sy_queue (at_ k)) → queued_at (S k) i id) as Hsame.
  { intros E. exists item. fold s'. by rewrite E. }
  destruct (sched k) as [ |pid o now|wid take now| | | | | | | | | | | | ] eqn:Ha;
    try (left; apply Hsame; exact (proj1 (exec_other_effect own _ _ _ Hinv He I))).
  - destruct (exec_handler_effect _ _ _ _ _ He) as (_ & _ & _ & [Hch|(item' & Hch & _)] & _); [by left; apply Hsame|].
    left. exists item. fold s'. rewrite Hch. split; [by apply lookup_app_l_Some|done].
  - destruct (sy_workers (at_ k) !! wid) as [[g pc]|] eqn:Hw; [|simpl in He; unfold exec_worker in He; by rewrite Hw in He].
    assert (pc = WIdle ∨ pc ≠ WIdle) as [->|Hb] by (destruct pc; auto).
    + destruct (exec_worker_idle _ _ _ _ _ _ Hw He) as [(head & Hch & Hws & _)|(_ & _ & Hqq & _)];
        [|left; apply Hsame; by rewrite Hqq].
      rewrite Hch in Hi. destruct i as [|i]; simpl in Hi.
      * injection Hi as ->. right. right. exists wid, g, (WGot item), JobQueued, announced. fold s'.
        rewrite Hws lookup_insert_eq. split; [done|]. by rewrite -Hid.
      * right. left. exists i. split; [done|]. by exists item.
    + destruct (exec_worker_busy own wid g pc take now _ Hinv Hw Hb) as (w & next & s2 & He2 & _ & _ & Hqq & _).
      left. apply Hsame. assert (s2 = s') as -> by congruence. by rewrite Hqq.
Qed.

Lemma pc_next_None canc pc : pc_next canc pc None → pc_last pc = true.
Proof.
  remember None as next eqn:E. destruct 1 as [| | |? ? ? last ? Hpc| | | | ]; try done.
  unfold leave in E. destruct last; [|done]. by destruct Hpc as [->|[->|[-> _]]].
Qed.

(** Without cancellation a worker's turn moves it on, and it does not exit. *)
Lemma worker_moves k wid g pc take now :
  sy_workers (at_ k) !! wid = Some (g, pc) → sched k = AWorker wid take now → cancelled (at_ k) g = false →
  ∃ pc', sy_workers (at_ (S k)) !! wid = Some (g, pc') ∧
    (pc ≠ WIdle → work_rank pc' < work_rank pc ∧ sy_queue (at_ (S k)) = sy_queue (at_ k)).
Proof.
  intros Hw Ha Hc. destruct (inv_at k) as [own Hinv].
  assert (pc = WIdle ∨ pc ≠ WIdle) as [->|Hb] by (destruct pc; auto).
  - destruct (at_S k) as [He|Es]; [|exists WIdle; by rewrite Es]. rewrite Ha in He.
    destruct (exec_worker_idle _ _ _ _ _ _ Hw He) as [(head & _ & Hws & _)|(Hcan & _)]; [|congruence].
    exists (WGot head). rewrite Hws lookup_insert_eq. by split.
  - destruct (exec_worker_busy own wid g pc take now _ Hinv Hw Hb) as (w & next & s2 & He2 & Hs & Hws & Hqq & _).
    assert (at_ (S k) = s2) as -> by (simpl; unfold step; by rewrite Ha He2).
    apply worker_step_next in Hs. destruct next as [pc'|].
    + exists pc'. rewrite Hws. simpl. rewrite lookup_insert_eq. split; [done|]. intros _.
      split; [by eapply pc_next_rank|exact Hqq].
    + apply pc_next_None in Hs. pose proof (cr_last _ _ _ (si_crew _ _ Hinv) _ _ _ Hw Hs) as Hcan.
      unfold gen_cancelled in Hcan. unfold cancelled in Hc. congruence.
Qed.

(** An idle worker's turn takes an item when there is one. *)
Lemma worker_takes k wid g take now i id :
  sy_workers (at_ k) !! wid = Some (g, WIdle) → sched k = AWorker wid take now → cancelled (at_ k) g = false →
  queued_at k i id → (∃ i', i = S i' ∧ queued_at (S k) i' id) ∨ with_worker (S k) id.
Proof.
  intros Hw Ha Hc (item & Hi & Hid).
  assert (∃ head rest, ch (sy_queue (at_ k)) = head :: rest) as (head & rest & Hch).
  { destruct (ch (sy_queue (at_ k))) as [|head rest]; [by rewrite lookup_nil in Hi|eauto]. }
  assert (exec fold (AWorker wid take now) (at_ k) =
    Some (set_workers (<[wid := (g, WGot head)]> (sy_workers (at_ k)))
            (set_queue (mkQueue rest (capacity (sy_queue (at_ k))) (stopped (sy_queue (at_ k)))
               (queueRejectionsTotal (sy_queue (at_ k)))) (at_ k)))) as He.
  { simpl. unfold exec_worker, exec_idle, receive. by rewrite Hw Hch Hc. }
  rewrite Hch in Hi.
  assert (at_ (S k) = set_workers (<[wid := (g, WGot head)]> (sy_workers (at_ k)))
            (set_queue (mkQueue rest (capacity (sy_queue (at_ k))) (stopped (sy_queue (at_ k)))
               (queueRejectionsTotal (sy_queue (at_ k)))) (at_ k))) as Es by (simpl; unfold step; by rewrite Ha He).
  destruct i as [|i]; simpl in Hi.
  - injection Hi as ->. right. exists wid, g, (WGot item), JobQueued, announced. rewrite Es. simpl.
    rewrite lookup_insert_eq. split; [done|]. by rewrite Hid.
  - left. exists i. split; [done|]. exists item. by rewrite Es.
Qed.

Definition live_from (n : nat) : Prop := ∀ k g, n <= k → cancelled (at_ k) g = false.

Lemma queued_reaches_worker N : fair_workers → ∀ n k i id wid g pc,
  live_from n → n <= k → 20 * i + work_rank pc <= N →
  queued_at k i id → sy_workers (at_ k) !! wid = Some (g, pc) →
  ∃ m, k <= m ∧ with_worker m id.
Proof.
  intros Hfair. induction N as [N IH] using lt_wf_ind. intros n k i id wid g pc Hlive Hn HN Hqk Hw.
  assert (∀ k' i' pc', k <= k' → queued_at k' i' id → sy_workers (at_ k') !! wid = Some (g, pc') →
    20 * i' + work_rank pc' < 20 * i + work_rank pc → ∃ m, k <= m ∧ with_worker m id) as Hdec.
  { intros k' i' pc' Hk' Hq' Hw' Hlt.
    destruct (IH (20 * i' + work_rank pc') ltac:(lia) n k' i' id wid g pc') as (m & ? & ?); try done; [lia|].
    exists m. split; [lia|done]. }
  destruct (wait (λ m, by_worker wid (sched m))
    (λ m, k <= m ∧ queued_at m i id ∧ sy_workers (at_ m) !! wid = Some (g, pc))
    (λ m, k <= m ∧ ((∃ i', i = S i' ∧ queued_at m i' id ∧ sy_workers (at_ m) !! wid = Some (g, pc)) ∨ with_worker m id)) k)
    as [(m & Hm & Ht & _ & Hqm & Hwm)|(m & Hm & _ & [(i' & -> & Hqm & Hwm)|Hww])].
  - done.
  - apply (Hfair k wid). by exists (g, pc).
  - intros m Hm (_ & Hqm & Hwm) Ht. pose proof (worker_waits m wid _ Hwm Ht) as Hws.
    destruct (queue_step m i id Hqm) as [Hq'|[(i' & -> & Hq')|Hww]].
    + left. split_and!; [lia|done|done].
    + right. split; [lia|]. left. eauto.
    + right. split; [lia|]. by right.
  - apply by_worker_eq in Ht as (take & now & Ht).
    assert (cancelled (at_ m) g = false) as Hcan by (apply Hlive; lia).
    assert (pc = WIdle ∨ pc ≠ WIdle) as [->|Hb] by (destruct pc; auto).
    + destruct (worker_takes m wid g take now i id Hwm Ht Hcan Hqm) as [(i' & -> & Hq')|Hww].
      * destruct (worker_moves m wid g WIdle take now Hwm Ht Hcan) as (pc' & Hw' & _).
        apply (Hdec (S m) i' pc'); [lia|done|done|]. pose proof (work_rank_bound pc'). simpl. lia.
      * exists (S m). split; [lia|done].
    + destruct (worker_moves m wid g pc take now Hwm Ht Hcan) as (pc' & Hw' & Hmove).
      destruct (Hmove Hb) as [Hrank Hqq]. apply (Hdec (S m) i pc'); [lia| |done|lia].
      destruct Hqm as (item & ? & ?). exists item. by rewrite Hqq.
  - apply (Hdec m i' pc); [done|done|done|lia].
  - eauto.
Qed.

(** (C2) Accepted jobs finish: under every fair scheduler, a job that is in the
    queue or with a worker - however many items are before it, and whatever
    handlers, subscribers and other workers do meanwhile - is succeeded or
    failed after finitely many steps, provided the pool has a worker and is not
    being stopped. *)
Theorem accepted_job_finishes n id :
  fair_workers → live_from n → sy_workers (at_ n) ≠ ∅ →
  in_hands (at_ n) OQueue id ∨ (∃ wid, in_hands (at_ n) (OWorker wid) id) →
  ∃ m, n <= m ∧ finished m id.
Proof.
  intros Hfair Hlive Hcrew Hacc.
  assert (∀ k, n <= k → with_worker k id → ∃ m, n <= m ∧ finished m id) as Hdone.
  { intros k Hk (wid & g & pc & st & evs & Hw & Hc).
    destruct (worker_finishes id _ Hfair k wid g pc st evs (le_n _) Hw Hc) as (m & ? & ?). exists m. split; [lia|done]. }
  destruct Hacc as [(st & evs & Hin & _)|(wid & st & evs & Hin)].
  - simpl in Hin. apply list_elem_of_fmap in Hin as (item & -> & Hin). apply list_elem_of_lookup in Hin as [i Hi].
    apply map_choose in Hcrew as (wid & [g pc] & Hw).
    destruct (queued_reaches_worker _ Hfair n n i (JobID item) wid g pc Hlive (le_n _) (le_n _)) as (m & Hm & Hww);
      [by exists item|done|]. by apply (Hdone m).
  - simpl in Hin. destruct (sy_workers (at_ n) !! wid) as [[g pc]|] eqn:Hw; [|done].
    apply (Hdone n); [done|]. exists wid, g, pc, st, evs. by split.
Qed.

(** ** The pool under an action *)
Lemma exec_pool_step own a s s' :
  sys_inv own s → exec fold a s = Some s' →
  sy_pool s' = sy_pool s ∨ Lifecycle.pool_step (sy_pool s) (sy_pool s').
Proof.
  intros Hi He. destruct (sy_pool s) as [p st] eqn:Ep.
  destruct a as [pid payload pr|pid o now|wid take now|u|workers|pid|pid|pid|g| |job|job id|id| |]; simpl in He;
    try (left; by repeat case_match; simplify_eq/=).
  - left. apply exec_handler_effect in He as (_ & -> & _). done.
  - pose proof (si_crew _ _ Hi) as Hc. rewrite Ep in Hc. simpl in Hc. unfold exec_worker in He.
    destruct (sy_workers s !! wid) as [[g pc]|] eqn:Hw; [|done].
    destruct (crew_exit _ _ _ _ _ _ Hc Hw) as [(gen & Hgen & Hrem) _].
    assert (∀ s1, sy_pool s1 = sy_pool s →
      Lifecycle.pool_step (Lifecycle.mkPstate p st) (sy_pool (exit_worker wid g s1))) as Hexit.
    { intros s1 E1. simpl. rewrite E1 Ep. by eapply Lifecycle.p_worker_exit. }
    assert (pc = WIdle ∨ pc ≠ WIdle) as [->|Hb] by (destruct pc; auto).
    + unfold exec_idle in He. repeat case_match; simplify_eq/=; auto.
    + assert (∀ w now s0, sy_pool (put_worker_view w (worker_log now pc s0)) = sy_pool s0) as Hput
        by (intros; by destruct pc).
      destruct (worker_step fold (cancelled s g) now pc (worker_view s)) as [[w next]|] eqn:Hs.
      2: { by destruct pc. }
      assert (s' = match next with
                   | Some pc' => set_workers (<[wid := (g, pc')]> (sy_workers s))
                                   (put_worker_view w (worker_log now pc s))
                   | None => exit_worker wid g (put_worker_view w (worker_log now pc s))
                   end) as -> by (destruct pc; [done|..]; by injection He).
      destruct next; [left; simpl; by rewrite Hput|right; by apply Hexit].
  - unfold exec_start in He. rewrite Ep in He. injection He as <-. right.
    case_decide; simpl; apply Lifecycle.p_start.
  - unfold exec_stop in He. rewrite Ep in He. simpl in He.
    destruct (st !! pid) eqn:Hst; [done|].
    destruct (Lifecycle.stop_enter p) as [p' [e|g first]] eqn:Hen; right.
    + injection He as <-. simpl. pose proof (Lifecycle.p_stop_return p st e) as H. rewrite Hen in H. by apply H.
    + pose proof (Lifecycle.p_stop_wait p st pid g first) as H. rewrite Hen in H. specialize (H eq_refl Hst).
      by destruct first; injection He as <-.
  - unfold exec_stop_step in He. rewrite Ep in He. simpl in He. right.
    destruct (st !! pid) as [[g []]|] eqn:Hst; [| |done].
    + injection He as <-. by apply Lifecycle.p_clear.
    + case_decide; [injection He as <-; apply Lifecycle.p_cancel|].
      destruct (Lifecycle.gen_done p g) eqn:Hd; [|done].
      destruct (Worker.repairActiveOnShutdown _ _) as [js o]. injection He as <-. by apply Lifecycle.p_repair.
  - unfold exec_stop_timeout in He. rewrite Ep in He. simpl in He. right.
    destruct (st !! pid) as [[g []]|] eqn:Hst; try done. case_decide; [done|]. injection He as <-.
    by eapply Lifecycle.p_stop_timeout.
  - injection He as <-. right. rewrite Ep. apply Lifecycle.p_cancel.
  - destruct (closed (sy_hub s)); [|done]. destruct (close_drain (sy_hub s)); [|done]. injection He as <-. by left.
Qed.

Lemma pool_step_gens s s' g :
  Lifecycle.pool_step s s' →
  (is_Some (Lifecycle.gens (Lifecycle.ps_pool s) !! g) → is_Some (Lifecycle.gens (Lifecycle.ps_pool s') !! g)) ∧
  (gen_cancelled (Lifecycle.ps_pool s) g = true → gen_cancelled (Lifecycle.ps_pool s') g = true).
Proof.
  assert (∀ f k p, (∀ gen, Lifecycle.genCancelled gen = true → Lifecycle.genCancelled (f gen) = true) →
    (is_Some (Lifecycle.gens p !! g) → is_Some (Lifecycle.gens (Lifecycle.upd_gen f k p) !! g)) ∧
    (gen_cancelled p g = true → gen_cancelled (Lifecycle.upd_gen f k p) g = true)) as Hupd.
  { intros f k p Hf. split; [|by apply gen_cancelled_upd]. rewrite upd_gen_lookup.
    case_decide; [by rewrite fmap_is_Some|done]. }
  destruct 1 as [p st w|p st e He|p st pid g2 f He Hp|p st g2|p st g2 gen Hg Hr|p st pid g2 o Hp Hd
                 |p st pid g2 Hp|p st pid g2 Hp]; cbn [Lifecycle.ps_pool]; try done.
  - destruct (Start_cases p w) as [[-> _]|(lo & ho & -> & _)]; [done|]. unfold gen_cancelled. simpl. split.
    + intros [gen Hg]. exists gen. by apply lookup_app_l_Some.
    + destruct (Lifecycle.gens p !! g) as [gen|] eqn:Hg; [|done]. by rewrite (lookup_app_l_Some _ _ _ _ Hg).
  - unfold Lifecycle.stop_enter, gen_cancelled. by destruct (Lifecycle.generation p).
  - unfold Lifecycle.stop_enter, gen_cancelled. by destruct (Lifecycle.generation p).
  - by apply Hupd.
  - apply Hupd, workerDone_cancelled.
  - apply Hupd, stop_repair_cancelled.
  - unfold Lifecycle.stop_clear, gen_cancelled. simpl. by case_decide.
Qed.

Lemma gens_mono k m g :
  k <= m →
  (is_Some (Lifecycle.gens (Lifecycle.ps_pool (sy_pool (at_ k))) !! g) →
   is_Some (Lifecycle.gens (Lifecycle.ps_pool (sy_pool (at_ m))) !! g)) ∧
  (cancelled (at_ k) g = true → cancelled (at_ m) g = true).
Proof.
  induction 1 as [|m Hm [IH1 IH2]]; [done|]. destruct (at_S m) as [He| ->]; [|done].
  destruct (inv_at m) as [own Hi]. destruct (exec_pool_step _ _ _ _ Hi He) as [E|Hs].
  - unfold cancelled in *. rewrite E. auto.
  - destruct (pool_step_gens _ _ g Hs) as [Hex Hcan]. split; [auto|]. intros Hc%IH2. by apply Hcan.
Qed.

(** ** Workers of a cancelled generation exit *)
Definition exiting (pc : wpc) : bool :=
  match pc with
  | WCheck _ c last | WWrite _ c last | WPublish _ c last =>
      match c with CallRunning => false | _ => last end
  | _ => false
  end.

Definition stop_rank (pc : wpc) : nat :=
  if exiting pc then work_rank pc
  else match pc with WGot _ => 4 | WIdle => 5 | _ => 5 + work_rank pc end.

Lemma pc_next_stop_rank pc pc' : pc_next true pc (Some pc') → stop_rank pc' < stop_rank pc.
Proof.
  remember (Some pc') as next eqn:E. remember true as canc eqn:Hc.
  destruct 1 as [canc item|? ? [] []|? ? [] []|? ? c last ? Hpc|? ? ?|? ? ?|? ?|? ? c Hcc];
    simplify_eq/=; unfold stop_rank; simpl; try lia.
  - unfold leave in E. destruct last; simplify_eq/=.
    destruct Hpc as [->|[->|[-> ?]]], c; simpl; try done; lia.
  - destruct c; simpl; [done|lia..].
Qed.

Lemma worker_exits r : fair_workers → ∀ k wid g pc,
  stop_rank pc <= r → cancelled (at_ k) g = true → sy_workers (at_ k) !! wid = Some (g, pc) →
  ∃ m, k <= m ∧ sy_workers (at_ m) !! wid = None.
Proof.
  intros Hfair. induction r as [r IH] using lt_wf_ind. intros k wid g pc Hr Hcan Hw.
  destruct (worker_turn k wid (g, pc) Hfair Hw) as (m & take & now & Hm & Ht & Hwm).
  assert (cancelled (at_ m) g = true) as Hcm by (by eapply gens_mono).
  assert (cancelled (at_ (S m)) g = true) as Hcm' by (eapply gens_mono; [|exact Hcm]; lia).
  assert (∀ pc', stop_rank pc' < stop_rank pc → sy_workers (at_ (S m)) !! wid = Some (g, pc') →
    ∃ m, k <= m ∧ sy_workers (at_ m) !! wid = None) as Hdec.
  { intros pc' Hlt Hw'. destruct (IH (stop_rank pc') ltac:(lia) (S m) wid g pc') as (m' & ? & ?); [done..|].
    exists m'. split; [lia|done]. }
  destruct (inv_at m) as [own Hi].
  assert (pc = WIdle ∨ pc ≠ WIdle) as [->|Hb] by (destruct pc; auto).
  - assert (is_Some (exec fold (AWorker wid take now) (at_ m))) as [s' He].
    { simpl. unfold exec_worker, exec_idle. rewrite Hwm Hcm.
      destruct (receive _) as [[item qq]|]; [destruct take|]; simpl; by eexists. }
    assert (at_ (S m) = s') as Es by (simpl; unfold step; by rewrite Ht He).
    destruct (exec_worker_idle _ _ _ _ _ _ Hwm He) as [(item & _ & Hws & _)|(_ & Hws & _)].
    + apply (Hdec (WGot item)); [unfold stop_rank; simpl; lia|]. by rewrite Es Hws lookup_insert_eq.
    + exists (S m). split; [lia|]. by rewrite Es Hws lookup_delete_eq.
  - destruct (exec_worker_busy own wid g pc take now _ Hi Hwm Hb) as (w & next & s' & He & Hs & Hws & _).
    assert (at_ (S m) = s') as Es by (simpl; unfold step; by rewrite Ht He).
    apply worker_step_next in Hs. rewrite Hcm in Hs. destruct next as [pc'|].
    + apply (Hdec pc'); [by apply pc_next_stop_rank|]. rewrite Es Hws. simpl. by rewrite lookup_insert_eq.
    + exists (S m). split; [lia|]. rewrite Es Hws. simpl. by rewrite lookup_delete_eq.
Qed.

(** A goroutine keeps its generation, and no generation gets new members. *)
Lemma exec_gen_closed k wid g :
  is_Some (Lifecycle.gens (Lifecycle.ps_pool (sy_pool (at_ k))) !! g) →
  (∀ pc, sy_workers (at_ k) !! wid ≠ Some (g, pc)) → ∀ pc, sy_workers (at_ (S k)) !! wid ≠ Some (g, pc).
Proof.
  intros [gen Hgen] Hno pc Hw'. destruct (inv_at k) as [own Hi].
  destruct (at_S k) as [He|Es]; [|rewrite Es in Hw'; by apply (Hno pc)]. set (s' := at_ (S k)) in *.
  assert (sy_workers s' !! wid = sy_workers (at_ k) !! wid → False) as Hsame
    by (intros E; rewrite E in Hw'; by apply (Hno pc)).
  destruct (sched k) as [ |pid o now|wid' take now| | | | | | | | | | | | ] eqn:Ha;
    try (destruct (exec_other_effect own _ _ _ Hi He I) as (_ & _ & _ & Hback);
         destruct (Hback _ _ Hw') as [Hw|[_ [= -> _]]];
         [by apply (Hno pc)|apply lookup_lt_Some in Hgen; lia]).
  - destruct (exec_handler_effect _ _ _ _ _ He) as [E _]. apply Hsame. by rewrite E.
  - destruct (decide (wid' = wid)) as [->|Hne].
    2: { destruct (exec_worker_queue _ _ _ _ _ He) as [Hk _]. apply Hsame, Hk. congruence. }
    destruct (sy_workers (at_ k) !! wid) as [[g' pc0]|] eqn:Hw.
    2: { simpl in He. unfold exec_worker in He. by rewrite Hw in He. }
    assert (g' = g → False) as Hg by (intros ->; by apply (Hno pc0)). apply Hg.
    assert (pc0 = WIdle ∨ pc0 ≠ WIdle) as [->|Hb] by (destruct pc0; auto).
    + destruct (exec_worker_idle _ _ _ _ _ _ Hw He) as [(item & _ & Hws & _)|(_ & Hws & _)]; rewrite Hws in Hw'.
      * rewrite lookup_insert_eq in Hw'. congruence.
      * by rewrite lookup_delete_eq in Hw'.
    + destruct (exec_worker_busy own wid g' pc0 take now _ Hi Hw Hb) as (w & next & s2 & He2 & _ & Hws & _).
      assert (s2 = s') as -> by congruence. rewrite Hws in Hw'. destruct next; simpl in Hw'.
      * rewrite lookup_insert_eq in Hw'. congruence.
      * by rewrite lookup_delete_eq in Hw'.
Qed.

Lemma gen_closed k m wid g :
  k <= m → is_Some (Lifecycle.gens (Lifecycle.ps_pool (sy_pool (at_ k))) !! g) →
  (∀ pc, sy_workers (at_ k) !! wid ≠ Some (g, pc)) → ∀ pc, sy_workers (at_ m) !! wid ≠ Some (g, pc).
Proof.
  intros Hm Hg Hno. induction Hm as [|m Hm IH]; [done|]. apply exec_gen_closed; [|done]. by eapply gens_mono.
Qed.

(** All workers of a cancelled generation are gone at some point, for good. *)
Lemma crew_exits k g :
  fair_workers → is_Some (Lifecycle.gens (Lifecycle.ps_pool (sy_pool (at_ k))) !! g) →
  cancelled (at_ k) g = true →
  ∃ m, k <= m ∧ ∀ m', m <= m' → ∀ wid pc, sy_workers (at_ m') !! wid ≠ Some (g, pc).
Proof.
  intros Hfair Hg Hcan.
  assert (∀ l : list nat, ∃ m, k <= m ∧ ∀ wid, wid ∈ l → ∀ pc, sy_workers (at_ m) !! wid ≠ Some (g, pc)) as Hall.
  { induction l as [|wid l (m & Hm & Hl)]; [exists k; split; [done|]; intros wid Hin; by apply elem_of_nil in Hin|].
    assert (∃ m2, m <= m2 ∧ ∀ pc, sy_workers (at_ m2) !! wid ≠ Some (g, pc)) as (m2 & Hm2 & Hwid).
    { destruct (sy_workers (at_ m) !! wid) as [[g' pc]|] eqn:Hw; [|exists m; split; [done|]; by rewrite Hw].
      destruct (decide (g' = g)) as [->|Hne]; [|exists m; split; [done|]; rewrite Hw; congruence].
      destruct (worker_exits _ Hfair m wid g pc (le_n _)) as (m2 & ? & Hnone);
        [by eapply gens_mono|done|]. exists m2. split; [done|]. by rewrite Hnone. }
    exists m2. split; [lia|]. intros wid' [->|Hin]%elem_of_cons; [done|].
    apply (gen_closed m m2); [done| |by apply Hl]. by eapply gens_mono. }
  destruct (Hall (map_to_list (sy_workers (at_ k))).*1) as (m & Hm & Hl). exists m. split; [done|].
  intros m' Hm' wid. destruct (sy_workers (at_ k) !! wid) as [gpc|] eqn:Hw.
  - apply (gen_closed m m'); [done|by eapply gens_mono|]. apply Hl, list_elem_of_fmap.
    exists (wid, gpc). split; [done|]. by apply elem_of_map_to_list.
  - apply (gen_closed k m'); [lia|done|]. by rewrite Hw.
Qed.

(** A generation without workers is done. *)
Lemma crewless_done k g :
  is_Some (Lifecycle.gens (Lifecycle.ps_pool (sy_pool (at_ k))) !! g) →
  (∀ wid pc, sy_workers (at_ k) !! wid ≠ Some (g, pc)) →
  Lifecycle.gen_done (Lifecycle.ps_pool (sy_pool (at_ k))) g = true.
Proof.
  intros [gen Hg] Hno. destruct (inv_at k) as [own Hi].
  pose proof (cr_count _ _ _ (si_crew _ _ Hi) _ _ Hg) as Hcnt.
  assert (crew_size g (sy_workers (at_ k)) = 0) as Hz.
  { unfold crew_size. apply map_size_empty_iff, map_empty. intros wid. apply map_lookup_filter_None.
    right. intros [g' pc] Hw E. simpl in E. subst. by apply (Hno wid pc). }
  unfold Lifecycle.gen_done. rewrite Hg. apply (Lifecycle.pi_done _ (si_pool _ _ Hi) _ _ Hg). lia.
Qed.

(** ** [Stop] calls *)
Local Abbreviation stops_at k := (Lifecycle.ps_stops (sy_pool (at_ k))).

Definition fair_stops : Prop :=
  ∀ k pid, is_Some (stops_at k !! pid) → ∃ m, k <= m ∧ by_stop pid (sched m) = true.

(** A pending call is where it was until its turn, unless its context ends. *)
Lemma stop_waits k pid x :
  stops_at k !! pid = Some x → by_stop pid (sched k) = false →
  (stops_at (S k) !! pid = Some x ∧ (pid ∈ sy_cancelling (at_ (S k)) ↔ pid ∈ sy_cancelling (at_ k))) ∨
  (stops_at (S k) !! pid = None ∧ pid ∉ sy_cancelling (at_ k)).
Proof.
  intros Hp Ha. destruct (at_S k) as [He| ->]; [|by left]. set (s' := at_ (S k)) in *. clearbody s'.
  assert (Lifecycle.ps_stops (sy_pool s') = stops_at k → sy_cancelling s' = sy_cancelling (at_ k) →
    Lifecycle.ps_stops (sy_pool s') !! pid = Some x ∧ (pid ∈ sy_cancelling s' ↔ pid ∈ sy_cancelling (at_ k)))
    as Hsame by (intros -> ->; done).
  destruct (sched k) as [pid' payload pr|pid' o now|wid take now|u|workers|pid'|pid'|pid'|g| |job|job id|id| |];
    simpl in He, Ha; try (left; apply Hsame; by repeat case_match; simplify_eq/=).
  - left. apply exec_handler_effect in He as (_ & E & Ec & _). apply Hsame; by rewrite ?E.
  - left. apply exec_worker_queue in He as (_ & _ & Ec & E). by apply Hsame.
  - left. unfold exec_start in He. injection He as <-. apply Hsame; by case_decide.
  - left. unfold exec_stop in He. destruct (stops_at k !! pid') eqn:Hst; [done|].
    assert (pid' ≠ pid) as Hne by congruence.
    destruct (Lifecycle.stop_enter _) as [p' [e|g first]]; [injection He as <-; by apply Hsame|].
    destruct first; injection He as <-; simpl; rewrite lookup_insert_ne //. set_solver.
  - apply bool_decide_eq_false in Ha. left. unfold exec_stop_step in He.
    destruct (stops_at k !! pid') as [[g []]|] eqn:Hst; [| |done].
    + injection He as <-. simpl. by rewrite lookup_delete_ne.
    + case_decide; [injection He as <-; simpl; split; [done|set_solver]|].
      destruct (Lifecycle.gen_done _ _); [|done]. destruct (Worker.repairActiveOnShutdown _ _) as [js o].
      injection He as <-. simpl. by rewrite lookup_insert_ne.
  - unfold exec_stop_timeout in He. destruct (stops_at k !! pid') as [[g []]|] eqn:Hst; try done.
    case_decide as Hc; [done|]. injection He as <-. simpl. destruct (decide (pid' = pid)) as [->|Hne].
    + right. by rewrite lookup_delete_eq.
    + left. by rewrite lookup_delete_ne.
  - left. destruct (closed _); [|done]. destruct (close_drain _); [|done]. injection He as <-. by apply Hsame.
Qed.

(** The call's turn comes in the state it waits in, or the call is over. *)
Lemma stop_turn k pid x (C : Prop) :
  fair_stops → stops_at k !! pid = Some x → (pid ∈ sy_cancelling (at_ k) ↔ C) →
  (∃ m, k <= m ∧ sched m = AStopStep pid ∧ stops_at m !! pid = Some x ∧ (pid ∈ sy_cancelling (at_ m) ↔ C)) ∨
  (∃ m, k <= m ∧ stops_at m !! pid = None ∧ ¬ C).
Proof.
  intros Hfair Hp HC.
  destruct (wait (λ m, by_stop pid (sched m))
    (λ m, stops_at m !! pid = Some x ∧ (pid ∈ sy_cancelling (at_ m) ↔ C))
    (λ m, stops_at m !! pid = None ∧ ¬ C) k) as [(m & Hm & Ht & Hpm & HCm)|(m & Hm & Hn & Hc)].
  - done.
  - apply (Hfair k). by exists x.
  - intros m Hm [Hpm HCm] Ht. destruct (stop_waits m pid x Hpm Ht) as [[? Hiff]|[? Hnc]].
    + left. split; [done|]. by rewrite Hiff.
    + right. by rewrite -HCm.
  - left. exists m. split_and!; [done|by apply by_stop_eq|done..].
  - right. eauto.
Qed.

Lemma stop_step_at m pid s' :
  sched m = AStopStep pid → exec fold (AStopStep pid) (at_ m) = Some s' → at_ (S m) = s'.
Proof. intros Ht He. simpl. unfold step. by rewrite Ht He. Qed.

(** The last step of a call. *)
Lemma stop_clears k pid g :
  fair_stops → stops_at k !! pid = Some (g, true) → ∃ m, k <= m ∧ stops_at m !! pid = None.
Proof.
  intros Hfair Hp.
  destruct (stop_turn k pid (g, true) (pid ∈ sy_cancelling (at_ k)) Hfair Hp ltac:(done))
    as [(m & Hm & Ht & Hpm & _)|(m & Hm & Hn & _)]; [|eauto].
  exists (S m). split; [lia|]. erewrite (stop_step_at m pid); [|exact Ht|simpl; unfold exec_stop_step; by rewrite Hpm].
  simpl. by rewrite lookup_delete_eq.
Qed.

(** What the call's own turn does: cancel, or repair once the workers are gone. *)
Lemma stop_turn_cancels m pid g :
  sched m = AStopStep pid → stops_at m !! pid = Some (g, false) → pid ∈ sy_cancelling (at_ m) →
  cancelled (at_ (S m)) g = true ∧ stops_at (S m) !! pid = Some (g, false) ∧ pid ∉ sy_cancelling (at_ (S m)).
Proof.
  intros Ht Hp Hc. destruct (inv_at m) as [own Hi].
  erewrite (stop_step_at m pid); [|exact Ht|simpl; unfold exec_stop_step; by rewrite Hp decide_True].
  split; [|split; [done|simpl; set_solver]].
  exact (gen_cancelled_cancel _ g (st_exists _ (si_stops _ _ Hi) _ _ _ Hp)).
Qed.

Lemma stop_turn_repairs m pid g :
  sched m = AStopStep pid → stops_at m !! pid = Some (g, false) → pid ∉ sy_cancelling (at_ m) →
  Lifecycle.gen_done (Lifecycle.ps_pool (sy_pool (at_ m))) g = true →
  stops_at (S m) !! pid = Some (g, true).
Proof.
  intros Ht Hp Hc Hd.
  destruct (Worker.repairActiveOnShutdown (tt : @repo_env _ memory_JobRepository) (sy_jobs (at_ m))) as [js o] eqn:Hr.
  erewrite (stop_step_at m pid); [|exact Ht|simpl; unfold exec_stop_step; by rewrite Hp decide_False // Hd Hr].
  simpl. by rewrite lookup_insert_eq.
Qed.

(** Until it returns a call waits for the same generation. *)
Lemma stop_keeps_gen k m pid g b :
  k <= m → stops_at k !! pid = Some (g, b) →
  (∃ m', k <= m' ∧ stops_at m' !! pid = None) ∨ ∃ b', stops_at m !! pid = Some (g, b').
Proof.
  induction 1 as [|m Hm IH]; [eauto|]. intros Hp. destruct (IH Hp) as [|[b' Hm']]; [by left|].
  destruct (by_stop pid (sched m)) eqn:Ht.
  - apply by_stop_eq in Ht. destruct (at_S m) as [He| ->]; [|eauto]. set (s' := at_ (S m)) in *.
    rewrite Ht in He. simpl in He. unfold exec_stop_step in He. rewrite Hm' in He. destruct b'.
    + left. exists (S m). split; [lia|]. fold s'. injection He as <-. simpl. by rewrite lookup_delete_eq.
    + right. case_decide; [injection He as <-; eauto|]. destruct (Lifecycle.gen_done _ _); [|done].
      destruct (Worker.repairActiveOnShutdown _ _) as [js o]. injection He as <-.
      exists true. simpl. by rewrite lookup_insert_eq.
  - destruct (stop_waits m pid _ Hm' Ht) as [[? _]|[? _]]; [eauto|]. left. exists (S m). split; [lia|done].
Qed.

Lemma stop_cancels k pid g :
  fair_stops → stops_at k !! pid = Some (g, false) → ∃ m, k <= m ∧ cancelled (at_ m) g = true.
Proof.
  intros Hfair Hp. destruct (inv_at k) as [own Hi].
  destruct (ci_stop _ _ (si_cancel _ _ Hi) _ _ Hp) as [Hc|(pid' & Hin & Hp')]; [eauto|].
  destruct (stop_turn k pid' (g, false) True Hfair Hp' ltac:(done)) as [(m & Hm & Ht & Hpm & Hc)|(? & _ & _ & [])];
    [|done]. exists (S m). split; [lia|]. eapply stop_turn_cancels; [exact Ht|exact Hpm|by apply Hc].
Qed.

(** (C4) [Stop] returns: under every fair scheduler a [Stop] call returns after
    finitely many steps, however many workers the pool has, whatever they are
    doing and however many items are queued: the generation is cancelled by its
    first stopper, each worker exits after finishing at most what it holds, the
    last exit closes [done], and the repair and the clearing follow. *)
Theorem stop_call_returns n pid g b :
  fair_workers → fair_stops → stops_at n !! pid = Some (g, b) → ∃ m, n <= m ∧ stops_at m !! pid = None.
Proof.
  intros Hfw Hfs Hp.
  assert (∀ k, n <= k → stops_at k !! pid = Some (g, true) → ∃ m, n <= m ∧ stops_at m !! pid = None) as Hclear.
  { intros k Hk Hpk. destruct (stop_clears k pid g Hfs Hpk) as (m & ? & ?). exists m. split; [lia|done]. }
  destruct b; [by eapply Hclear|].
  destruct (stop_cancels n pid g Hfs Hp) as (m1 & Hm1 & Hcan).
  assert (∀ m, n <= m → is_Some (Lifecycle.gens (Lifecycle.ps_pool (sy_pool (at_ m))) !! g)) as Hgens.
  { intros m Hm. destruct (inv_at n) as [own Hi]. eapply gens_mono; [exact Hm|]. by eapply (st_exists _ (si_stops _ _ Hi)). }
  destruct (crew_exits m1 g Hfw (Hgens m1 Hm1) Hcan) as (m2 & Hm2 & Hgone).
  assert (∀ m, m2 <= m → Lifecycle.gen_done (Lifecycle.ps_pool (sy_pool (at_ m))) g = true) as Hdone.
  { intros m Hm. apply crewless_done; [apply Hgens; lia|by apply Hgone]. }
  assert (∀ k, m2 <= k → stops_at k !! pid = Some (g, false) → pid ∉ sy_cancelling (at_ k) →
    ∃ m, n <= m ∧ stops_at m !! pid = None) as Hrepair.
  { intros k Hk Hpk Hnc.
    destruct (stop_turn k pid (g, false) False Hfs Hpk ltac:(done)) as [(m & Hm & Ht & Hpm & Hcm)|(m & Hm & Hnone & _)].
    - apply (Hclear (S m)); [lia|]. apply stop_turn_repairs; [done|done| |apply Hdone; lia]. rewrite Hcm. tauto.
    - exists m. split; [lia|done]. }
  destruct (stop_keeps_gen n m2 pid g false ltac:(lia) Hp) as [|[[] Hp2]]; [done|apply (Hclear m2); [lia|done]|].
  destruct (decide (pid ∈ sy_cancelling (at_ m2))) as [Hc|Hnc]; [|by apply (Hrepair m2)].
  destruct (stop_turn m2 pid (g, false) True Hfs Hp2 ltac:(done)) as [(m & Hm & Ht & Hpm & Hcm)|(? & _ & _ & [])];
    [|done].
  destruct (stop_turn_cancels m pid g Ht Hpm) as (_ & Hp3 & Hnc); [by apply Hcm|].
  apply (Hrepair (S m)); [lia|done|done].
Qed.

(** ** The order of the shutdown *)

(** Out of the handlers' hands. *)
Definition handed (k : nat) (id : Z) : Prop :=
  id ∈ JobID <$> ch (sy_queue (at_ k)) ∨ with_worker k id.

Lemma stopped_stays k : stopped (sy_queue (at_ k)) = true → stopped (sy_queue (at_ (S k))) = true.
Proof.
  intros Hst. destruct (at_S k) as [He| ->]; [|done]. destruct (inv_at k) as [own Hi].
  destruct (sched k) as [ |pid o now|wid take now| | | | | | | | | | | | ];
    try (by apply (exec_other_effect own _ _ _ Hi He I)).
  - apply exec_handler_effect in He as (_ & _ & _ & _ & ->). done.
  - apply exec_worker_queue in He as (_ & -> & _). done.
Qed.

(** After [StopAccepting] no job leaves the hands of a handler for the queue. *)
Lemma handed_back k id : stopped (sy_queue (at_ k)) = true → handed (S k) id → handed k id.
Proof.
  intros Hst Hh. destruct (inv_at k) as [own Hi].
  destruct (at_S k) as [He|Es]; [|unfold handed, with_worker in *; by rewrite Es in Hh].
  destruct (sched k) as [ |pid o now|wid take now| | | | | | | | | | | | ] eqn:Ha;
    try (destruct (exec_other_effect own _ _ _ Hi He I) as (Hch & _ & _ & Hback);
         unfold handed in *; rewrite Hch in Hh; destruct Hh as [Hh|(wid0 & g0 & pc0 & st0 & evs0 & Hw & Hc)];
         [by left|]; destruct (Hback _ _ Hw) as [Hw0|[_ [= -> ->]]]; [|done];
         right; by exists wid0, g0, pc0, st0, evs0).
  - apply exec_handler_effect in He as (Hw & _ & _ & [Hch|(item & _ & Hf)] & _); [|congruence].
    unfold handed, with_worker in *. by rewrite Hw Hch in Hh.
  - destruct (sy_workers (at_ k) !! wid) as [[g pc]|] eqn:Hw.
    2: { simpl in He. unfold exec_worker in He. by rewrite Hw in He. }
    pose proof (exec_worker_queue _ _ _ _ _ He) as [Hkeep _].
    assert (∀ wid' g' pc' st evs, wid' ≠ wid → sy_workers (at_ (S k)) !! wid' = Some (g', pc') →
      work_claim pc' = Some (id, st, evs) → handed k id) as Hother.
    { intros wid' g' pc' st evs Hne Hw' Hc. right. exists wid', g', pc', st, evs. by rewrite -Hkeep. }
    assert (pc = WIdle ∨ pc ≠ WIdle) as [->|Hb] by (destruct pc; auto).
    + destruct (exec_worker_idle _ _ _ _ _ _ Hw He) as [(head & Hch & Hws & _)|(_ & Hws & Hqq & _)].
      * destruct Hh as [Hh|(wid' & g' & pc' & st & evs & Hw' & Hc)];
          [left; rewrite Hch fmap_cons; by right|].
        destruct (decide (wid' = wid)) as [->|Hne]; [|by eapply Hother].
        rewrite Hws lookup_insert_eq in Hw'. injection Hw' as <- <-. injection Hc as <- _ _.
        left. rewrite Hch fmap_cons. by left.
      * destruct Hh as [Hh|(wid' & g' & pc' & st & evs & Hw' & Hc)]; [left; by rewrite -Hqq|].
        destruct (decide (wid' = wid)) as [->|Hne]; [by rewrite Hws lookup_delete_eq in Hw'|by eapply Hother].
    + destruct (exec_worker_busy own wid g pc take now _ Hi Hw Hb) as (w & next & s2 & He2 & Hs & Hws & Hqq & _).
      assert (s2 = at_ (S k)) as -> by congruence.
      destruct Hh as [Hh|(wid' & g' & pc' & st & evs & Hw' & Hc)]; [left; by rewrite -Hqq|].
      destruct (decide (wid' = wid)) as [->|Hne]; [|by eapply Hother].
      assert (next ≫= work_claim = Some (id, st, evs)) as Hn.
      { rewrite Hws in Hw'. destruct next; simpl in Hw'; [rewrite lookup_insert_eq in Hw'|by rewrite lookup_delete_eq in Hw'].
        injection Hw' as <- <-. exact Hc. }
      destruct (pc_next_claim _ _ _ _ (worker_step_next _ _ _ _ _ _ Hs) Hn) as ([[id0 st0] evs0] & Hc0 & Hid).
      simpl in Hid. subst id0. right. by exists wid, g, pc, st0, evs0.
Qed.

(** What a step of a handler, of a worker and an action do to the stored jobs:
    a terminal job stays terminal or disappears. *)
Lemma request_step_final o now pc w w' next id j j' :
  memory_wf (UsersHandler.w_jobs w) → (MemoryJobRepo.nextID (UsersHandler.w_jobs w) < int_max)%Z →
  request_step o now pc w = Some (w', next) →
  jobs (UsersHandler.w_jobs w) !! id = Some j → IsTerminal (Status j) = true →
  jobs (UsersHandler.w_jobs w') !! id = Some j' → IsTerminal (Status j') = true.
Proof.
  destruct w as [js us hb qw qd]. cbn [UsersHandler.w_jobs]. intros Hwf Hmax Hs Hj Ht Hw.
  destruct pc as [payload p|job payload|job payload|job e]; cbn [request_step UsersHandler.w_jobs] in Hs.
  - pose proof (Save_fresh js (mkJob 0 JobQueued None None (Security.pUserID p)) Hwf Hmax eq_refl
      ltac:(by left)) as Hf.
    destruct (MemoryJobRepo.Save _ _) as [r' job]. injection Hs as <- _. change (jobs r' !! id = Some j') in Hw.
    destruct Hf as (Hnone & _ & _ & Hother & _).
    assert (id ≠ ID job) as Hne by congruence. rewrite (Hother _ Hne) in Hw. congruence.
  - unfold UsersHandler.publishQueuedJob in Hs.
    destruct (Publish _ (ID job) (mkEvent JobQueued (ID job) now DataNil)); [|done]. injection Hs as <- _.
    simpl in Hw. congruence.
  - destruct (Enqueue _ _ _) as [qq [e|]]; injection Hs as <- _; simpl in Hw; congruence.
  - unfold MemoryJobRepo.Delete in Hs. destruct (jobs js !! ID job); injection Hs as <- _; simpl in Hw.
    + apply lookup_delete_Some in Hw as [_ ?]. congruence.
    + congruence.
Qed.

Lemma worker_step_final canc now pc w w' next id j j' :
  worker_step fold canc now pc w = Some (w', next) →
  jobs (Worker.w_jobs w) !! id = Some j → IsTerminal (Status j) = true →
  jobs (Worker.w_jobs w') !! id = Some j' → IsTerminal (Status j') = true.
Proof.
  intros Hs Hj Ht Hj'.
  destruct pc as [|item|item c last|item c last|item c last|item|item]; simpl in Hs; try done.
  - injection Hs as <- _. congruence.
  - destruct (MemoryJobRepo.GetByID _ _); injection Hs as <- _; congruence.
  - pose proof (call_write_cas c (Worker.w_jobs w) (JobID item)) as Hc.
    destruct (call_write c (Worker.w_jobs w) (JobID item)) as [r e]. injection Hc as -> _.
    assert (jobs (Worker.w_jobs w') = (cas (jobs (Worker.w_jobs w)) (JobID item) (call_intent c) (call_apply c)).1) as E
      by (destruct e; by injection Hs as <- _).
    rewrite E in Hj'. pose proof (cas_outcome_terminal _ _ _ _ _ _ id j
      (cas_cas_outcome (jobs (Worker.w_jobs w)) (JobID item) (call_intent c) (call_apply c)) Hj Ht). congruence.
  - unfold Worker.publish in Hs. destruct (Publish _ _ _); [|done]. injection Hs as <- _. simpl in Hj'. congruence.
  - injection Hs as <- _. congruence.
  - destruct (Memory.Save _ _ _) as [u [user [e|]]]; injection Hs as <- _; simpl in Hj'; congruence.
Qed.

Lemma exec_jobs_final a s s' id j j' :
  memory_wf (sy_jobs s) → (MemoryJobRepo.nextID (sy_jobs s) < int_max)%Z → exec fold a s = Some s' →
  jobs (sy_jobs s) !! id = Some j → IsTerminal (Status j) = true →
  jobs (sy_jobs s') !! id = Some j' → IsTerminal (Status j') = true.
Proof.
  intros Hwf Hmax He Hj Ht Hj'.
  assert (jobs (sy_jobs s') !! id = jobs (sy_jobs s) !! id → IsTerminal (Status j') = true) as Hsame by congruence.
  destruct a as [pid payload pr|pid o now|wid take now|u|workers|pid|pid|pid|g| |job|id0 id1|id0| |]; simpl in He;
    try (apply Hsame; by repeat case_match; simplify_eq/=).
  - unfold exec_handler in He. destruct (sy_requests s !! pid) as [pc|]; [|done].
    destruct (request_step o now pc (handler_view s)) as [[w next]|] eqn:Hs; [|done]. injection He as <-.
    eapply (request_step_final _ _ _ (handler_view s)); [done|done|exact Hs|exact Hj|done|by destruct next, pc].
  - unfold exec_worker in He. destruct (sy_workers s !! wid) as [[g pc]|]; [|done].
    assert (pc = WIdle ∨ pc ≠ WIdle) as [->|Hb] by (destruct pc; auto).
    { apply Hsame. unfold exec_idle in He. repeat case_match; by simplify_eq/=. }
    destruct (worker_step fold (cancelled s g) now pc (worker_view s)) as [[w next]|] eqn:Hs.
    2: { by destruct pc. }
    assert (sy_jobs s' = Worker.w_jobs w) as E by (destruct pc; [done|..]; injection He as <-; by destruct next).
    rewrite E in Hj'. by eapply (worker_step_final _ _ _ (worker_view s)).
  - apply Hsame. unfold exec_start in He. injection He as <-. by case_decide.
  - apply Hsame. unfold exec_stop in He. repeat case_match; by simplify_eq/=.
  - unfold exec_stop_step in He. destruct (Lifecycle.ps_stops (sy_pool s) !! pid) as [[g []]|]; [| |done].
    { apply Hsame. by injection He as <-. }
    case_decide; [apply Hsame; by injection He as <-|].
    destruct (Lifecycle.gen_done _ g); [|done].
    pose proof (repair_jobs (sy_jobs s)) as Hrep.
    destruct (Worker.repairActiveOnShutdown _ _) as [js o]. simpl in Hrep. subst js. injection He as <-. simpl in Hj'.
    destruct (unrepaired s g); [|congruence]. simpl in Hj'. rewrite lookup_fmap Hj /= in Hj'. injection Hj' as <-.
    by rewrite fail_active_job_id; [apply terminal_not_active|].
  - apply Hsame. unfold exec_stop_timeout in He. repeat case_match; by simplify_eq/=.
  - apply Hsame. destruct (closed _); [|done]. destruct (close_drain _); [|done]. by injection He as <-.
Qed.

Definition settled (k : nat) : Prop :=
  stopped (sy_queue (at_ k)) = true ∧
  ∀ id j, handed k id → jobs (sy_jobs (at_ k)) !! id = Some j → IsTerminal (Status j) = true.

Lemma settled_stays k m : k <= m → settled k → settled m.
Proof.
  induction 1 as [|m Hm IH]; [done|]. intros [Hst Hset]%IH. split; [by apply stopped_stays|].
  intros id j' Hh%handed_back Hj'; [|done].
  destruct (at_S m) as [He|Es]; [|rewrite Es in Hj'; eauto]. destruct (inv_at m) as [own Hi].
  assert (∃ j, jobs (sy_jobs (at_ m)) !! id = Some j) as [j Hj].
  { pose proof (si_flow _ _ Hi) as Hf.
    assert (∃ c, own !! id = Some c) as [[[o st] evs] Ho].
    { destruct Hh as [Hin|(wid & g & pc & st & evs & Hw & Hc)].
      - exists (OQueue, JobQueued, announced). by apply (cl_iff _ _ _ (fi_claims _ _ Hf) id OQueue).
      - exists (OWorker wid, st, evs). apply (cl_iff _ _ _ (fi_claims _ _ Hf) id (OWorker wid)).
        simpl. by rewrite Hw. }
    destruct (ji_held _ _ _ _ (fi_jobs _ _ Hf) _ _ _ _ Ho) as [_ (j & ? & _)]. eauto. }
  eapply (exec_jobs_final _ _ _ id j j'); [|apply Hids|exact He|exact Hj|by eapply Hset|exact Hj'].
  apply (ji_wf _ _ _ _ (fi_jobs _ _ (si_flow _ _ Hi))).
Qed.

(** (C5) The shutdown order settles everything: when admission was stopped
    before the worker pool's repair ran, then from the moment no creation
    request is in flight any more every job in the store is succeeded or
    failed, for good - whatever was running, queued or being created when the
    shutdown began. *)
Theorem shutdown_settles n1 n2 n3 pid g id j :
  stopped (sy_queue (at_ n1)) = true → n1 <= n2 →
  sched n2 = AStopStep pid → stops_at n2 !! pid = Some (g, false) → pid ∉ sy_cancelling (at_ n2) →
  Lifecycle.gen_done (Lifecycle.ps_pool (sy_pool (at_ n2))) g = true → unrepaired (at_ n2) g = true →
  n2 < n3 → sy_requests (at_ n3) = ∅ →
  jobs (sy_jobs (at_ n3)) !! id = Some j → IsTerminal (Status j) = true.
Proof.
  intros Hst Hn Ht Hp Hc Hd Hun Hn3 Hreq Hj.
  assert (∀ m, n1 <= m → stopped (sy_queue (at_ m)) = true) as Hstop.
  { intros m Hm. induction Hm as [|m Hm IH]; [done|by apply stopped_stays]. }
  assert (settled (S n2)) as Hset.
  { split; [apply Hstop; lia|]. intros id' j' _ Hj'.
    pose proof (repair_jobs (sy_jobs (at_ n2))) as Hrep.
    destruct (Worker.repairActiveOnShutdown (tt : @repo_env _ memory_JobRepository) (sy_jobs (at_ n2))) as [js o] eqn:Hr.
    simpl in Hrep. subst js.
    erewrite (stop_step_at n2 pid) in Hj'; [|exact Ht|simpl; unfold exec_stop_step; by rewrite Hp decide_False // Hd Hr].
    simpl in Hj'. rewrite Hun /= lookup_fmap in Hj'. apply fmap_Some in Hj' as (j0 & Hj0 & ->).
    destruct (inv_at n2) as [own Hi]. pose proof (ji_wf _ _ _ _ (fi_jobs _ _ (si_flow _ _ Hi))) as Hwf.
    unfold fail_active_job. destruct (is_active j0) eqn:Hact; [done|].
    destruct (wf_jobs _ Hwf _ _ Hj0) as [_ Hcons]. unfold job_consistent in Hcons.
    unfold is_active in Hact. unfold IsTerminal. reflect_bools.
    destruct Hcons as [[? _]|[[? _]|[[E _]|[E _]]]]; try done; by rewrite E. }
  apply (settled_stays (S n2) n3 ltac:(lia)) in Hset as [_ Hset].
  destruct (inv_at n3) as [own Hi]. pose proof (si_flow _ _ Hi) as Hf.
  destruct (IsTerminal (Status j)) eqn:Hterm; [done|].
  destruct (unfinished_held _ _ _ _ Hf Hj Hterm) as (o & st & evs & Ho).
  apply (cl_iff _ _ _ (fi_claims _ _ Hf)) in Ho.
  assert (handed n3 id) as Hh; [|by rewrite (Hset id j Hh Hj) in Hterm].
  destruct o as [pid'| |wid]; simpl in Ho.
  - rewrite Hreq lookup_empty in Ho. done.
  - left. apply Ho.
  - right. destruct (sy_workers (at_ n3) !! wid) as [[g' pc]|] eqn:Hw; [|done]. by exists wid, g', pc, st, evs.
Qed.
End fold.

(** ** Two fair schedules *)

(** Once no scheduled action can move anything, nothing changes any more. *)
Lemma run_stutters fold sched s K :
  (∀ k, K <= k → step fold (sched k) (run fold sched K s) = run fold sched K s) →
  ∀ k, K <= k → run fold sched k s = run fold sched K s.
Proof. intros Hst k Hk. induction Hk as [|k Hk IH]; [done|]. simpl. rewrite IH. by apply Hst. Qed.

Lemma run_all fold sched s K (P : system → bool) :
  (∀ k, K <= k → step fold (sched k) (run fold sched K s) = run fold sched K s) →
  forallb (λ k, P (run fold sched k s)) (seq 0 (S K)) = true → ∀ k, P (run fold sched k s) = true.
Proof.
  intros Hst Hf k. rewrite forallb_forall in Hf. destruct (decide (K <= k)).
  - rewrite (run_stutters _ _ _ K) //. apply Hf, in_seq. lia.
  - apply Hf, in_seq. lia.
Qed.

(** The bounds the examples stay within: one worker, one [Stop] call. *)
Definition smallb (s : system) : bool :=
  (ids_leftb s && (sy_nextw s <=? 1)
   && forallb (λ x : nat * (nat * bool), x.1 =? 0) (map_to_list (Lifecycle.ps_stops (sy_pool s))))%bool%nat.

Section small.
Context (sched : nat → action) (Hsmall : ∀ k, smallb (run ex_fold sched k ex_init) = true).

Lemma small_ids k : ids_left (run ex_fold sched k ex_init).
Proof. apply ids_leftb_ok. specialize (Hsmall k). unfold smallb in Hsmall. reflect_bools. done. Qed.

Lemma small_workers :
  (∀ k, ∃ m, k <= m ∧ by_worker 0 (sched m) = true) → fair_workers ex_fold ex_hub ex_queue2 sched.
Proof.
  intros H k wid [gpc Hw].
  destruct (run_inv ex_fold 2 ex_hub ex_queue2 eq_refl eq_refl sched k (λ k _, small_ids k)) as [own Hi%any_inv].
  pose proof (cr_next _ _ _ (si_crew _ _ Hi) _ _ Hw) as Hlt.
  specialize (Hsmall k). unfold smallb in Hsmall. apply andb_true_iff in Hsmall as [Hs _].
  apply andb_true_iff in Hs as [_ Hn%Nat.leb_le]. unfold ex_init in Hn. assert (wid = 0) as -> by lia. apply H.
Qed.

Lemma small_stops :
  (∀ k, ∃ m, k <= m ∧ by_stop 0 (sched m) = true) → fair_stops ex_fold ex_hub ex_queue2 sched.
Proof.
  intros H k pid [x Hp]. specialize (Hsmall k). unfold smallb in Hsmall. apply andb_true_iff in Hsmall as [_ Hs].
  rewrite forallb_forall in Hs. assert (pid = 0) as ->; [|apply H].
  apply Nat.eqb_eq, (Hs (pid, x)), list_elem_of_In, elem_of_map_to_list. exact Hp.
Qed.
End small.

(** One creation, then the worker is scheduled for ever. *)
Definition live_sched (n : nat) : action := nth n (take 16 ex_actions) (AWorker 0 true 0).

Lemma live_sched_small k : smallb (run ex_fold live_sched k ex_init) = true.
Proof.
  apply (run_all ex_fold live_sched ex_init 16 smallb).
  - intros k' Hk. replace (live_sched k') with (AWorker 0 true 0); [vm_compute; reflexivity|].
    symmetry. apply nth_overflow. simpl. lia.
  - vm_compute. reflexivity.
Qed.

Definition uncancelledb (s : system) : bool :=
  forallb (λ gen, negb (Lifecycle.genCancelled gen)) (Lifecycle.gens (Lifecycle.ps_pool (sy_pool s))).

Lemma live_sched_uncancelled k : uncancelledb (run ex_fold live_sched k ex_init) = true.
Proof.
  apply (run_all ex_fold live_sched ex_init 16 uncancelledb).
  - intros k' Hk. replace (live_sched k') with (AWorker 0 true 0); [vm_compute; reflexivity|].
    symmetry. apply nth_overflow. simpl. lia.
  - vm_compute. reflexivity.
Qed.

Lemma uncancelledb_ok s g : uncancelledb s = true → cancelled s g = false.
Proof.
  unfold uncancelledb, cancelled. rewrite forallb_forall. intros H.
  destruct (Lifecycle.gens _ !! g) as [gen|] eqn:Hg; [|done].
  apply negb_true_iff, H, list_elem_of_In. by eapply list_elem_of_lookup_2.
Qed.

Lemma live_sched_fair : fair_workers ex_fold ex_hub ex_queue2 live_sched.
Proof.
  apply (small_workers _ live_sched_small). intros k. exists (k + 16). split; [lia|].
  unfold live_sched. rewrite nth_overflow; [simpl; lia|]. vm_compute. reflexivity.
Qed.

Lemma accepted_job_finishes_witness :
  ∃ m, 6 <= m ∧ finished ex_fold ex_hub ex_queue2 live_sched m 1.
Proof.
  apply (accepted_job_finishes ex_fold 2 ex_hub ex_queue2 live_sched eq_refl eq_refl (small_ids _ live_sched_small) 6 1%Z).
  - exact live_sched_fair.
  - intros k g _. exact (uncancelledb_ok _ g (live_sched_uncancelled k)).
  - vm_compute. discriminate.
  - left. exists JobQueued, announced. split; [|split; reflexivity]. vm_compute. left.
Defined.

(** The same, then a stop; the caller and the worker take turns. *)
Definition stop_sched (n : nat) : action :=
  nth n (take 18 ex_actions) (if Nat.even n then AStopStep 0 else AWorker 0 false 0).

Lemma stop_sched_small k : smallb (run ex_fold stop_sched k ex_init) = true.
Proof.
  apply (run_all ex_fold stop_sched ex_init 26 smallb).
  - intros k' Hk. unfold stop_sched at 1. rewrite nth_overflow; [simpl; lia|].
    destruct (Nat.even k'); vm_compute; reflexivity.
  - vm_compute. reflexivity.
Qed.

Lemma stop_sched_even k : by_stop 0 (stop_sched (2 * (k + 9))) = true.
Proof.
  unfold stop_sched. rewrite nth_overflow; [simpl; lia|]. by rewrite Nat.even_mul.
Qed.
Lemma stop_sched_odd k : by_worker 0 (stop_sched (S (2 * (k + 9)))) = true.
Proof.
  unfold stop_sched. rewrite nth_overflow; [simpl; lia|].
  rewrite Nat.even_succ -Nat.negb_even Nat.even_mul. reflexivity.
Qed.

Lemma stop_call_returns_witness :
  ∃ m, 18 <= m ∧
    Lifecycle.ps_stops (sy_pool (run ex_fold stop_sched m (sys_init ex_hub ex_queue2))) !! 0 = None.
Proof.
  apply (stop_call_returns ex_fold 2 ex_hub ex_queue2 stop_sched eq_refl eq_refl (small_ids _ stop_sched_small) 18 0 0 false).
  - apply (small_workers _ stop_sched_small). intros k. exists (S (2 * (k + 9))). split; [lia|apply stop_sched_odd].
  - apply (small_stops _ stop_sched_small). intros k. exists (2 * (k + 9)). split; [lia|apply stop_sched_even].
  - vm_compute. reflexivity.
Defined.

(** A job is queued when the shutdown begins; its worker is still idle. *)
Definition shutdown_actions : list action :=
  [AStart 1; ARequest 0 ex_request ex_principal; AHandler 0 ctx_live 0; AHandler 0 ctx_live 0;
   AHandler 0 ctx_live 0; AStopAccepting; AStop 0; AStopStep 0; AWorker 0 false 0; AStopStep 0].
Definition shutdown_sched (n : nat) : action := nth n shutdown_actions AStopAccepting.

Lemma shutdown_sched_small k : smallb (run ex_fold shutdown_sched k ex_init) = true.
Proof.
  apply (run_all ex_fold shutdown_sched ex_init 10 smallb).
  - intros k' Hk. unfold shutdown_sched at 1. rewrite nth_overflow; [simpl; lia|]. vm_compute. reflexivity.
  - vm_compute. reflexivity.
Qed.

Lemma shutdown_settles_witness :
  ∃ j, jobs (sy_jobs (run ex_fold shutdown_sched 10 ex_init)) !! 1%Z = Some j ∧
    IsTerminal (Status j) = true ∧ shut j.
Proof.
  eexists. split; [vm_compute; reflexivity|]. split; [|split; reflexivity].
  apply (shutdown_settles ex_fold 2 ex_hub ex_queue2 shutdown_sched eq_refl eq_refl (small_ids _ shutdown_sched_small)
    6 9 10 0 0 1%Z).
  - vm_compute. reflexivity.
  - lia.
  - reflexivity.
  - vm_compute. reflexivity.
  - vm_compute. intros Hin. discriminate Hin.
  - vm_compute. reflexivity.
  - vm_compute. reflexivity.
  - lia.
  - vm_compute. reflexivity.
  - vm_compute. reflexivity.
Defined.
