(* ===== verification/ErrorText.v ===== *)
(** * The texts of errors

    The [Error] methods of the program's error types ([internal/security],
    [internal/httputils], [internal/outbound/profile], [internal/apperr],
    [internal/api]), over the error trees of GoErrors.v.  These texts go to the
    log; [MapError_ignores_texts] shows that none of them goes to a client.  The
    texts of other packages' errors ([lib]) and of durations ([durstr]) are
    parameters. *)
From S2P Require Import Prelude.
From S2P Require Import GoErrors.
From S2P Require Import GoStrings.
From S2P Require Import HttpErrors.

Section text.
Context (lib : error → string) (durstr : Z → string).

(** The [errors.New] values of the program. *)
Definition sentinel_Error (s : sentinel) : string :=
  match s with
  | ErrUserNotFound => "user not found"
  | ErrJobNotFound => "job not found"
  | ErrUserAlreadyExists => "user already exists"
  | ErrConflict => "conflict"
  | ErrForbidden => "forbidden"
  | ErrJobTransitionConflict => "job transition conflict"
  | ErrQueueFull => "queue is full"
  | ErrQueueStopped => "queue is stopped"
  | ErrHubClosed => "stream hub is closed"
  | ErrPoolNotRunning => "worker pool not running"
  | ErrPoolStopping => "worker pool stopping"
  | ErrTimeout => "timeout"
  | ErrCanceled => "canceled"
  | ErrNetwork => "network"
  | ErrUpstream5xx => "upstream 5xx"
  | ErrUpstream4xx => "upstream 4xx"
  | ErrParse => "parse"
  | ErrBadResponse => "bad response"
  | ErrNotAcceptable => "unsupported Accept header; supported: application/json, application/protobuf"
  | ErrBulkheadRejected => "bulkhead rejected"
  | ErrGRPCBridgeUnavailable => "grpc bridge unavailable"
  | ErrGRPCBridgeTimeout => "grpc bridge timeout"
  | ErrGRPCBridgeCanceled => "grpc bridge canceled"
  | ErrJSONEmptyBody => "json: empty body"
  | ErrJSONTrailingData => "json: trailing data"
  | ErrJSONUnknownField => "json: unknown field"
  | ErrJSONBadSyntax => "json: bad syntax"
  | ErrJSONTypeMismatch => "json: type mismatch"
  | ErrJSONDecodeFailure => "json: decode failure"
  | ErrUnsupportedMediaType => "unsupported media type"
  | ErrStreamingUnsupported => "streaming is not supported"
  | ErrProtobufUnavailable => "protobuf response is not available"
  | ErrGRPCServerNotRunning => "grpc server not running"
  | ErrGRPCServerAlreadyStarted => "grpc server already started"
  | ErrGRPCServerRuntimeRequired => "grpc server runtime is nil"
  | _ => lib (ESentinel s)
  end.

(** A text and, after a colon, that of its cause. *)
Definition caused (text : string) (cause : option string) : string :=
  match cause with None => text | Some c => text +:+ ": " +:+ c end.

(** The verb [%v] on an error that may be nil. *)
Definition verb_v (cause : option string) : string := default "<nil>" cause.

Definition AuthNError_Error (kind : AuthNErrorKind) (cause : option string) : string :=
  caused ("authn: " +:+ kind) cause.
Definition UnauthorizedError_Error (kind : AuthNErrorKind) (cause : option string) : string :=
  caused ("unauthorized: " +:+ kind) cause.
Definition ForbiddenError_Error (kind : AuthZErrorKind) (cause : option string) : string :=
  caused ("forbidden: " +:+ kind) cause.
Definition ValidationError_Error : string := "validation failed".
Definition MethodNotAllowedError_Error : string := "method not allowed".
Definition BadRequestError_Error (detail : string) : string :=
  if streqb detail "" then "bad request" else detail.
Definition RateLimitError_Error (retryAfter : Z) : string :=
  "rate limit exceeded, retry after " +:+ durstr retryAfter.

Definition JSONRequestError_Error (kind : sentinel) (field : string) (offset : Z) (cause : option string)
  : string :=
  let k := sentinel_Error kind in
  if negb (streqb field "") then k +:+ ": field=" +:+ Quote field +:+ ": " +:+ verb_v cause
  else if negb (offset =? 0)%Z then k +:+ ": offset=" +:+ Itoa offset +:+ ": " +:+ verb_v cause
  else caused k cause.

Definition profileError_Error (kind : sentinel) (status : Z) (cause : option string) : string :=
  let k := "profile " +:+ sentinel_Error kind in
  caused (if negb (status =? 0)%Z then k +:+ ": status=" +:+ Itoa status else k) cause.

Definition componentShutdownError_Error (component outcome : string) (cause : option string) : string :=
  caused (component +:+ " shutdown " +:+ outcome) cause.

Definition JobTransitionConflictError_Error (id : Z) (from to intent : string) : string :=
  "job " +:+ Itoa id +:+ " cannot transition from " +:+ Quote from +:+ " to " +:+ Quote to +:+
  " with intent " +:+ Quote intent.

Definition shutdownOutcome_text (o : shutdownOutcome) : string :=
  match o with
  | shutdownOutcomeGraceful => "graceful"
  | shutdownOutcomeForced => "forced"
  | shutdownOutcomeTimedOut => "timed_out"
  | shutdownOutcomeFailed => "failed"
  end.

(** [fmt.Errorf] with [%w]: the wrapped error is last, but for the two media
    type errors, which come first. *)
Definition wrapped (msg : string) (e : error) (text : string) : string :=
  match e with
  | ESentinel ErrUnsupportedMediaType | ESentinel ErrNotAcceptable => text +:+ ": " +:+ msg
  | _ => msg +:+ ": " +:+ text
  end.

(** [err.Error()]. *)
Fixpoint Error (e : error) : string :=
  let cause (c : option error) : option string :=
    match c with Some c => Some (Error c) | None => None end in
  match e with
  | ESentinel s => sentinel_Error s
  | EText msg => msg
  | EWrap msg e => wrapped msg e (Error e)
  | EJoin es => Join (map Error es) (of_bytes [chr 10])
  | EBadRequestError d => BadRequestError_Error d
  | EMethodNotAllowedError _ => MethodNotAllowedError_Error
  | EUnauthorizedError k c => UnauthorizedError_Error k (cause c)
  | EAuthNError k c => AuthNError_Error k (cause c)
  | EForbiddenError k c => ForbiddenError_Error k (cause c)
  | EValidationError _ => ValidationError_Error
  | EJSONRequestError k f o c => JSONRequestError_Error k f o (cause c)
  | ERateLimitError d => RateLimitError_Error d
  | EJobTransitionConflictError id from to intent => JobTransitionConflictError_Error id from to intent
  | EProfileError k s c => profileError_Error k s (cause c)
  | EComponentShutdownError n o c => componentShutdownError_Error n (shutdownOutcome_text o) (cause c)
  | _ => lib e
  end.

Example Error_upstream :
  Error (EProfileError ErrUpstream5xx 503 None) = "profile upstream 5xx: status=503".
Proof. reflexivity. Qed.
Example Error_field :
  Error (EJSONRequestError ErrJSONUnknownField "x" 0 None) =
  "json: unknown field: field=" +:+ Quote "x" +:+ ": <nil>".
Proof. reflexivity. Qed.
End text.

(** ** Texts and responses

    [scrub] blanks every text, driver code, offset, status and kind of an error
    tree that is meant for the log only; what is left is the sentinels, the shape
    of the tree and the fields of the client errors. *)
Fixpoint scrub (e : error) : error :=
  let cause (c : option error) : option error :=
    match c with Some c => Some (scrub c) | None => None end in
  match e with
  | EText _ => EText ""
  | EWrap _ e => EWrap "" (scrub e)
  | EJoin es => EJoin (map scrub es)
  | EUnauthorizedError _ c => EUnauthorizedError "" (cause c)
  | EAuthNError _ c => EAuthNError "" (cause c)
  | EForbiddenError _ c => EForbiddenError "" (cause c)
  | EJSONRequestError k f _ c => EJSONRequestError k f 0 (cause c)
  | EJobTransitionConflictError _ _ _ _ => EJobTransitionConflictError 0 "" "" ""
  | EProfileError k _ c => EProfileError k 0 (cause c)
  | EComponentShutdownError _ _ c => EComponentShutdownError "" shutdownOutcomeFailed (cause c)
  | EPgError _ => EPgError ""
  | EStatusError _ _ => EStatusError 0 ""
  | ETimeoutNetError _ => ETimeoutNetError ""
  | EJSONSyntaxError _ => EJSONSyntaxError 0
  | EJSONUnmarshalTypeError _ => EJSONUnmarshalTypeError ""
  | _ => e
  end.

Lemma Unwrap_scrub e : Unwrap (scrub e) = map scrub (Unwrap e).
Proof. by destruct e as [| | | | | |? []|? []|? []| |? ? ? []| | | |? ? []|? ? []| | | | |]. Qed.

(** [f] is what the caller of [errors.As] uses of the value it finds. *)
Lemma errors_As_scrub {A B} (f : A → B) (p : error → option A) e :
  (∀ e, f <$> p (scrub e) = f <$> p e) → f <$> errors_As p (scrub e) = f <$> errors_As p e.
Proof.
  intros Hp. induction e as [e IH] using error_ind_Unwrap. rewrite !errors_As_unfold Unwrap_scrub.
  specialize (Hp e). destruct (p e) as [a|], (p (scrub e)) as [b|]; try done.
  induction (Unwrap e) as [|c cs IHc]; [done|]. simpl.
  pose proof (IH c ltac:(apply list_elem_of_here)) as Hc.
  destruct (errors_As p (scrub c)), (errors_As p c); try done.
  apply IHc. intros c' Hc'. apply IH. by apply list_elem_of_further.
Qed.

Lemma errors_Is_scrub e s : errors_Is (scrub e) s = errors_Is e s.
Proof.
  unfold errors_Is. pose proof (errors_As_scrub id (as_sentinel s) e) as H. rewrite !option_fmap_id in H.
  rewrite H; [|done]. by intros [].
Qed.

Lemma errors_As_scrub_id {A} (p : error → option A) e :
  (∀ e, p (scrub e) = p e) → errors_As p (scrub e) = errors_As p e.
Proof.
  intros Hp. pose proof (errors_As_scrub id p e) as H. rewrite !option_fmap_id in H. apply H.
  intros e'. by rewrite !option_fmap_id.
Qed.

Lemma errors_As_scrub_some {A} (p : error → option A) e :
  (∀ e, (λ _, ()) <$> p (scrub e) = (λ _, ()) <$> p e) →
  (λ _, ()) <$> errors_As p (scrub e) = (λ _, ()) <$> errors_As p e.
Proof. apply errors_As_scrub. Qed.

(** (C13) Error texts stay inside: the problem document, the headers and the
    logging decision for an error depend on nothing but the sentinels in its
    tree, its shape and the fields of the errors meant for clients - whatever the
    texts, the causes' texts, driver codes, upstream statuses, offsets and failure
    kinds are, the client is answered the same. *)
Theorem MapError_ignores_texts e : MapError (Some (scrub e)) = MapError (Some e).
Proof.
  assert (∀ e', as_bad_request (scrub e') = as_bad_request e') as H1 by (by intros []).
  assert (∀ e', as_method_not_allowed (scrub e') = as_method_not_allowed e') as H2 by (by intros []).
  assert (∀ e', as_validation (scrub e') = as_validation e') as H3 by (by intros []).
  assert (∀ e', as_max_bytes (scrub e') = as_max_bytes e') as H4 by (by intros []).
  assert (∀ e', as_json_request (scrub e') = as_json_request e') as H5 by (by intros []).
  assert (∀ e', as_rate_limit (scrub e') = as_rate_limit e') as H6 by (by intros []).
  pose proof (errors_As_scrub_some as_unauthorized e ltac:(by intros [])) as Hu.
  pose proof (errors_As_scrub_some as_forbidden e ltac:(by intros [])) as Hf.
  unfold MapError, map_transport, map_json, map_late.
  rewrite !errors_Is_scrub (errors_As_scrub_id _ e H1) (errors_As_scrub_id _ e H2) (errors_As_scrub_id _ e H3)
    (errors_As_scrub_id _ e H4) (errors_As_scrub_id _ e H5) (errors_As_scrub_id _ e H6).
  destruct (errors_As as_unauthorized (scrub e)), (errors_As as_unauthorized e); try done.
  by destruct (errors_As as_forbidden (scrub e)), (errors_As as_forbidden e).
Qed.
