(* ===== verification/LogPolicy.v ===== *)
(** * Log records

    What the program writes to its log, and what it must not write
    ([docs/observability/logging-policy.md]).  A record is a level, a message
    and a list of attributes ([slog.Attr]); a function that logs returns the
    records it hands to its logger.

    [Audit]: the audit records of [internal/middleware/logging_policy.go],
    [authorization.go], [rbac.go] and [cors.go], written by versions of the
    middleware that differ from those of Middleware.v in the log only
    ([Authenticate_erasure], [Authorize_erasure], [CORS_erasure]).
    [Retry]: the records of [internal/outbound/profile_retry.go] and
    [profile_instrumentation.go].  [Sse]: the connection records of
    [internal/routes/job_handler.go].  [Shutdown]: the summary of
    [internal/api/server.go].  [Access]: the records of
    [internal/middleware/middleware.go]. *)
From Stdlib Require Import Ascii.
From S2P Require Import Prelude.
From S2P Require Import GoErrors.
From S2P Require Import Entity.
From S2P Require Import JobRepo.
From S2P Require Import MemoryJobRepo.
From S2P Require Import UserRepo.
From S2P Require Import Services.
From S2P Require Import Queue.
From S2P Require Import Stream.
From S2P Require Import WorkerPool.
From S2P Require Import GoStrings.
From S2P Require Import HttpErrors.
From S2P Require Import HttpUtils.
From S2P Require Import Security.
From S2P Require Import Middleware.
From S2P Require Import Outbound.
From S2P Require Import Handlers.
From S2P Require Import Server.
From S2P Require Import Observability.

(** ** Records and loggers *)
Inductive value : Type := VString (s : string) | VInt (z : Z) | VBool (b : bool).
Definition attr : Type := string * value.
Record log_record := mkLogRecord { lr_level : Z; lr_msg : string; lr_attrs : list attr }.

Definition LevelInfo : Z := 0.
Definition LevelWarn : Z := 4.
Definition LevelError : Z := 8.

(** A logger is the attributes [With] gave it. *)
Definition logger : Type := list attr.
Definition component (name : string) : logger := [("component", VString name)].
Definition LogAttrs (l : logger) (level : Z) (msg : string) (attrs : list attr) : list log_record :=
  [mkLogRecord level msg (l ++ attrs)].

(** [normalizeLogger]: without a logger, the default one of the component. *)
Definition normalizeLogger (l : option logger) (name : string) : logger := default (component name) l.

Definition keys (r : log_record) : list string := map fst (lr_attrs r).
Definition lookup_attr (k : string) (r : log_record) : option value :=
  snd <$> List.find (λ a, streqb a.1 k) (lr_attrs r).

(** ** Security decisions *)
Module Audit.
Import Auth.

Definition defaultSecurityLogger : logger := component "http_security".

(** The constructors: a nil logger is replaced, a nil verifier is refused. *)
Record AuthAPI := mkAuthAPI { au_verifier : string → res error Principal; au_logger : logger }.
Definition NewAuthAPIWithLogger (verifier : option (string → res error Principal)) (l : option logger)
  : res error AuthAPI :=
  match verifier with
  | None => Err (EText "auth api: verifier is nil")
  | Some v => Ok (mkAuthAPI v (normalizeLogger l "http_security"))
  end.
Definition NewAuthAPI (verifier : option (string → res error Principal)) : res error AuthAPI :=
  NewAuthAPIWithLogger verifier (Some defaultSecurityLogger).

Record AuthorizeAPI := mkAuthorizeAPI { az_rules : gmap string RouteRule; az_logger : logger }.
Definition NewAuthorizeAPIWithLogger (policy : list RouteRule) (l : option logger) : res error AuthorizeAPI :=
  match NewAuthorizeAPI policy with
  | Err e => Err e
  | Ok rules => Ok (mkAuthorizeAPI rules (normalizeLogger l "http_security"))
  end.

(** What the log functions read from a request. *)
Record log_req := mkLogReq { lq_method : string; lq_pattern : string; lq_rid : string }.

Definition requestLogAttrs (r : log_req) (status : Z) : list attr :=
  let route := Chain.canonicalHTTPRoute (lq_pattern r) in
  let route := if streqb route "" then "unmatched" else route in
  [("method", VString (lq_method r)); ("route", VString route); ("status", VInt status);
   ("request_id", VString (lq_rid r))].

Definition logSecurityDecision (l : logger) (event : string) (attrs : list attr) : list log_record :=
  LogAttrs l LevelInfo "security decision"
    ([("event", VString event); ("decision", VString "denied")] ++ attrs).

Definition logAuthNDenied (l : logger) (r : log_req) (kind : AuthNErrorKind) : list log_record :=
  logSecurityDecision l "security.authn.denied" (requestLogAttrs r 401 ++ [("authn_kind", VString kind)]).
Definition logAuthZDenied (l : logger) (r : log_req) (kind : AuthZErrorKind) : list log_record :=
  logSecurityDecision l "security.authz.denied" (requestLogAttrs r 403 ++ [("authz_kind", VString kind)]).
Definition logCORSDenied (l : logger) (r : log_req) (reason : string) : list log_record :=
  logSecurityDecision l "security.cors.denied" (requestLogAttrs r 403 ++ [("cors_denial", VString reason)]).

(** A handler with its log; [rid] is the id in the context of the request. *)
Definition lhandler (A : Type) := hreq → counters → counters * res error A * list log_record.
Definition log_req_of (rid : string) (r : hreq) : log_req := mkLogReq (method r) (pattern r) rid.

Section chain.
Context {A : Type} (Verify : string → res error Principal) (l : logger) (rid : string).

Definition AuthenticateL (next : lhandler A) : lhandler A := λ r c,
  if streqb (method r) "OPTIONS" then next r c
  else
    match parseBearerToken (authorization r) with
    | Err e =>
        let k := authNKindOrOther e in
        (incAuthN k c, Err e, logAuthNDenied l (log_req_of rid r) k)
    | Ok token =>
        match Verify token with
        | Err e =>
            let uerr := UnauthorizedFromVerifyErr (Some e) in
            let k := authNKindOrOther uerr in
            (incAuthN k c, Err uerr, logAuthNDenied l (log_req_of rid r) k)
        | Ok p => next (mkHreq (method r) (pattern r) (authorization r) (Some p)) c
        end
    end.

Definition deny (r : hreq) (c : counters) (kind : AuthZErrorKind)
  : counters * res error A * list log_record :=
  (incForbidden c, Err (NewForbidden kind None), logAuthZDenied l (log_req_of rid r) kind).

Definition AuthorizeL (rules : gmap string RouteRule) (next : lhandler A) : lhandler A := λ r c,
  if streqb (method r) "OPTIONS" then next r c
  else if streqb (pattern r) "" then
    (c, Err (EText "authorize: empty r.Pattern (Authorize must run after ServeMux)"), [])
  else
    match rules !! pattern r with
    | None => deny r c AuthZNoPolicyRule
    | Some rule =>
        if (Access rule =? AccessPublic)%Z then next r c
        else if (Access rule =? AccessAuthenticated)%Z then
          match principal r with
          | None => (c, Err (EText "authorize: principal missing (Authenticate must run before Authorize)"), [])
          | Some _ => next r c
          end
        else if (Access rule =? AccessAdminOnly)%Z then
          match principal r with
          | None => (c, Err (EText "authorize: principal missing (Authenticate must run before Authorize)"), [])
          | Some p =>
              if negb (streqb (pRole p) RoleAdmin) then deny r c AuthZAdminRequired else next r c
          end
        else deny r c AuthZUnknownAccess
    end.

(** Without the log these are the models of Middleware.v. *)
Definition erase (h : lhandler A) : handler A := λ r c, (h r c).1.

Lemma Authenticate_erasure next r c :
  (AuthenticateL next r c).1 = Authenticate Verify (erase next) r c.
Proof. unfold AuthenticateL, Authenticate, erase. by repeat case_match. Qed.

Lemma Authorize_erasure rules next r c :
  (AuthorizeL rules next r c).1 = Authorize rules (erase next) r c.
Proof. unfold AuthorizeL, Authorize, deny, erase. by repeat case_match. Qed.
End chain.

(** *** CORS *)
Record cors_counters := mkCorsCounters { corsDeniedTotal : Z; corsPreflightTotal : Z }.
Definition cors_log_req (pattern rid : string) (r : CORS.cors_req) : log_req :=
  mkLogReq (CORS.cMethod r) pattern rid.

Section cors.
Context (c : CORS.CORSAPI) (l : logger) (pattern rid : string).

Definition deniedL (w : response) (r : CORS.cors_req) (detail reason : string) (m : cors_counters)
  : cors_counters * CORS.cors_out * list log_record :=
  (mkCorsCounters (corsDeniedTotal m + 1) (corsPreflightTotal m), CORS.denied w r detail,
   logCORSDenied l (cors_log_req pattern rid r) reason).

Definition preflightL (w : response) (r : CORS.cors_req) (m : cors_counters)
  : cors_counters * CORS.cors_out * list log_record :=
  if negb (CORS.isMethodAllowed c (ToUpper (TrimSpace (CORS.cReqMethod r))))
  then deniedL w r "cors method denied" "method" m
  else if negb (CORS.areRequestHeadersAllowed c (CORS.cReqHeaders r))
  then deniedL w r "cors headers denied" "headers" m
  else (mkCorsCounters (corsDeniedTotal m) (corsPreflightTotal m + 1), CORS.preflight c w r, []).

Definition CORSL (w : response) (r : CORS.cors_req) (m : cors_counters)
  : cors_counters * CORS.cors_out * list log_record :=
  if streqb (CORS.cOrigin r) "" then (m, CORS.CorsNext (rsHeader w), [])
  else if negb (CORS.isOriginAllowed c (CORS.cOrigin r)) then deniedL w r "cors origin denied" "origin" m
  else
    let allowOrigin := if CORS.allowAny c then "*" else CORS.cOrigin r in
    let w := if CORS.allowAny c then w else CORS.with_header w (AddVary (rsHeader w) "Origin") in
    if (CORS.allowCredentials c && streqb allowOrigin "*")%bool
    then deniedL w r "cors credentials with wildcard origin is not allowed" "credentials_wildcard" m
    else
      let h := <["Access-Control-Allow-Origin" := [allowOrigin]]> (rsHeader w) in
      let h := if CORS.allowCredentials c then <["Access-Control-Allow-Credentials" := ["true"]]> h else h in
      let w := CORS.with_header w h in
      if (streqb (CORS.cMethod r) "OPTIONS" && negb (streqb (CORS.cReqMethod r) ""))%bool
      then preflightL w r m
      else (m, CORS.CorsNext h, []).

Lemma CORS_erasure w r m : (CORSL w r m).1.2 = CORS.CORS c w r.
Proof.
  unfold CORSL, CORS.CORS, deniedL, preflightL.
  destruct (streqb (CORS.cOrigin r) ""); [done|].
  destruct (negb (CORS.isOriginAllowed _ _)); [done|].
  destruct (_ && _)%bool; [done|]. destruct (_ && _)%bool; [|done].
  unfold CORS.preflight at 2.
  destruct (negb (CORS.isMethodAllowed _ _)) eqn:Hm; [done|].
  destruct (negb (CORS.areRequestHeadersAllowed _ _)) eqn:Hh; [done|].
  unfold CORS.preflight. by rewrite Hm Hh.
Qed.

Definition cors_reasons : list string := ["origin"; "credentials_wildcard"; "method"; "headers"].

(** A denied request leaves one record and one count, with a reason from a
    fixed list; a request that is not denied leaves neither. *)
Lemma cors_denials_recorded w r m :
  let '(m', out, log) := CORSL w r m in
  (log = [] ∧ corsDeniedTotal m' = corsDeniedTotal m) ∨
  (∃ reason, reason ∈ cors_reasons ∧ log = logCORSDenied l (cors_log_req pattern rid r) reason ∧
     corsDeniedTotal m' = (corsDeniedTotal m + 1)%Z ∧
     ∃ w' detail, out = CORS.CorsAnswer (WriteProblem w' (CORS.cBase r) (problem 403 detail))).
Proof.
  unfold CORSL, preflightL, deniedL, CORS.denied, cors_reasons.
  repeat case_match; simplify_eq; first [by left|right; eexists; split_and!; [|done|done|by eexists _, _]].
  all: rewrite !elem_of_cons; tauto.
Qed.
End cors.

(** *** The audit trail of authentication and authorization *)

(** The classes a verifier gives a token it refuses. *)
Definition authn_kinds : list AuthNErrorKind := ["invalid"; "expired"; "not_yet_valid"].

(** Why a request is refused: [other] for a header without a bearer token, the
    class the verifier gives the token it refuses; the rule that is missing, not
    met or unknown. *)
Definition authn_reason (Verify : string → res error Principal) (r : hreq) (k : AuthNErrorKind) : Prop :=
  match parseBearerToken (authorization r) with
  | Err _ => k = "other"
  | Ok tok => k ∈ authn_kinds ∧ ∃ cause, Verify tok = Err (EAuthNError k cause)
  end.
Definition authz_reason (Verify : string → res error Principal) (rules : gmap string RouteRule)
    (r : hreq) (k : AuthZErrorKind) : Prop :=
  ∃ tok p, parseBearerToken (authorization r) = Ok tok ∧ Verify tok = Ok p ∧
    match rules !! pattern r with
    | None => k = "no_policy_rule"
    | Some rule =>
        (k = "admin_required" ∧ Access rule = AccessAdminOnly ∧ pRole p ≠ RoleAdmin) ∨
        (k = "unknown_access" ∧ Access rule ∉ [AccessPublic; AccessAuthenticated; AccessAdminOnly])
    end.

(** The route an audit record names: the pattern without the method before it. *)
Definition http_methods : list string :=
  ["CONNECT"; "DELETE"; "GET"; "HEAD"; "OPTIONS"; "PATCH"; "POST"; "PUT"; "TRACE"].
Definition route_named (pattern route : string) : Prop :=
  (∃ m, m ∈ http_methods ∧ pattern = m +:+ " " +:+ route ∧ route ≠ "") ∨
  (route = pattern ∧ ∀ m path, m ∈ http_methods → pattern = m +:+ " " +:+ path → path = "").

Lemma isHTTPMethod_spec m : Chain.isHTTPMethod m = true ↔ m ∈ http_methods.
Proof.
  unfold Chain.isHTTPMethod. rewrite existsb_exists. setoid_rewrite list_elem_of_In.
  split; [by intros (x & Hx & ->%streqb_eq)|intros Hm; exists m; split; [done|by apply streqb_eq]].
Qed.

Lemma method_no_space m : m ∈ http_methods → " "%char ∉ to_bytes m.
Proof. unfold http_methods. rewrite !elem_of_cons elem_of_nil. intros H. destruct_or! H; subst; by vm_compute; set_solver. Qed.

Lemma Cut_method m path : m ∈ http_methods → Chain.Cut (m +:+ " " +:+ path) " "%char = Some (m, path).
Proof.
  intros Hm%method_no_space. unfold Chain.Cut.
  destruct (IndexByte_cut (m +:+ " " +:+ path) " "%char (to_bytes m) (to_bytes path)) as (-> & -> & ->);
    [by rewrite !to_bytes_app|done|].
  rewrite !of_to_bytes. by destruct (Z.ltb_spec (Z.of_nat (length (to_bytes m))) 0); [lia|].
Qed.

Lemma Cut_join s m path : Chain.Cut s " "%char = Some (m, path) → s = m +:+ " " +:+ path.
Proof.
  unfold Chain.Cut. destruct (Z.ltb_spec (IndexByte s " "%char) 0) as [|Hi]; [done|].
  destruct (IndexByte_nonneg _ _ Hi) as (pre & post & E & Hn & ->).
  destruct (IndexByte_cut _ _ _ _ E Hn) as (_ & -> & ->). intros [= <- <-].
  rewrite -(of_to_bytes s) -(of_to_bytes (_ +:+ _)) E. f_equal. by rewrite !to_bytes_app !to_of_bytes.
Qed.

Lemma canonicalHTTPRoute_named p : route_named p (Chain.canonicalHTTPRoute p).
Proof.
  unfold Chain.canonicalHTTPRoute. destruct (Chain.Cut p " "%char) as [[m path]|] eqn:Hc.
  - pose proof (Cut_join _ _ _ Hc) as Hp.
    destruct (Chain.isHTTPMethod m) eqn:Hm; simpl; [destruct (streqb path "") eqn:He; simpl|].
    + right. split; [done|]. intros m' path' Hm' Hp'. rewrite Hp' (Cut_method _ _ Hm') in Hc.
      simplify_eq. by apply streqb_eq.
    + left. exists m. split_and!; [by apply isHTTPMethod_spec|done|by apply streqb_neq].
    + right. split; [done|]. intros m' path' Hm' Hp'. rewrite Hp' (Cut_method _ _ Hm') in Hc. simplify_eq.
      by apply isHTTPMethod_spec in Hm'; rewrite Hm' in Hm.
  - right. split; [done|]. intros m path Hm Hp. by rewrite Hp (Cut_method _ _ Hm) in Hc.
Qed.

Section verify.
Context (parse : parserOpts → string → (jwtHeader → res error string) → res error (jwtClaims * bool)).
Context (v : JWTVerifierHS256).

Lemma mapJWTParseError_kind err : ∃ k, k ∈ authn_kinds ∧ mapJWTParseError err = EAuthNError k (Some err).
Proof.
  unfold mapJWTParseError, authn_kinds. repeat case_match; eexists; split; try reflexivity.
  all: rewrite !elem_of_cons; tauto.
Qed.

Lemma verify_keys_kind tok ks : ∀ last e, verify_keys parse v tok ks last = Err e →
  ∃ k c, k ∈ authn_kinds ∧ e = EAuthNError k c.
Proof.
  induction ks as [|key ks IH]; intros last e; simpl.
  - intros [= <-]. eexists _, _. split; [|done]. unfold authn_kinds. rewrite !elem_of_cons. tauto.
  - destruct (tryVerifyWithKey _ _ _ _) as [p|err]; [done|].
    destruct (errors_Is err _); [apply IH|]. intros [= <-].
    destruct (mapJWTParseError_kind err) as (k & ? & ->). eauto.
Qed.

(** Whatever the token, the verifier names one of three kinds. *)
Lemma Verify_kind tok e : Verify parse v tok = Err e → ∃ k c, k ∈ authn_kinds ∧ e = EAuthNError k c.
Proof.
  unfold Verify. destruct (tryVerifyByKID _ _ _) as [p|err]; [done|].
  destruct (negb _); [|apply verify_keys_kind]. intros [= <-].
  destruct (mapJWTParseError_kind err) as (k & ? & ->). eauto.
Qed.
End verify.

Lemma parseBearerToken_unclassified hdr e : parseBearerToken hdr = Err e →
  authNKindOrOther e = "other" ∧ ∃ k, e = EUnauthorizedError k None.
Proof. unfold parseBearerToken. intros H. repeat case_match; simplify_eq; eauto. Qed.

Lemma requestLogAttrs_route r status : pattern r ≠ "" → ∀ rid, ∃ route, route_named (pattern r) route ∧
  requestLogAttrs (log_req_of rid r) status =
    [("method", VString (method r)); ("route", VString route); ("status", VInt status); ("request_id", VString rid)].
Proof.
  intros Hp rid. exists (Chain.canonicalHTTPRoute (pattern r)). split; [apply canonicalHTTPRoute_named|].
  unfold requestLogAttrs, log_req_of. cbn [lq_pattern lq_method lq_rid].
  destruct (streqb (Chain.canonicalHTTPRoute (pattern r)) "") eqn:E; [|done]. apply streqb_eq in E. exfalso.
  destruct (canonicalHTTPRoute_named (pattern r)) as [(m & _ & _ & Hne)|[Heq _]]; [done|congruence].
Qed.

Lemma forbidden_status k : prStatus (mpProblem (MapError (Some (NewForbidden k None)))) = 403%Z.
Proof. reflexivity. Qed.

(** The records as they are written. *)
Lemma logAuthNDenied_record l rid r k : pattern r ≠ "" → ∃ route, route_named (pattern r) route ∧
  logAuthNDenied l (log_req_of rid r) k =
    [mkLogRecord 0 "security decision"
       (l ++ [("event", VString "security.authn.denied"); ("decision", VString "denied");
              ("method", VString (method r)); ("route", VString route); ("status", VInt 401);
              ("request_id", VString rid); ("authn_kind", VString k)])].
Proof.
  intros Hp. destruct (requestLogAttrs_route r 401 Hp rid) as (route & Hr & H). exists route.
  split; [done|]. unfold logAuthNDenied. by rewrite H.
Qed.

Lemma deny_record {A} l rid r p c k : pattern r ≠ "" → ∃ route, route_named (pattern r) route ∧
  deny (A := A) l rid (mkHreq (method r) (pattern r) (authorization r) (Some p)) c k =
    (mkCounters (forbiddenTotal c + 1) (authnFailures c), Err (NewForbidden k None),
     [mkLogRecord 0 "security decision"
       (l ++ [("event", VString "security.authz.denied"); ("decision", VString "denied");
              ("method", VString (method r)); ("route", VString route); ("status", VInt 403);
              ("request_id", VString rid); ("authz_kind", VString k)])]).
Proof.
  intros Hp. destruct (requestLogAttrs_route r 403 Hp rid) as (route & Hr & H). exists route.
  split; [done|]. unfold deny, logAuthZDenied.
  change (log_req_of rid (mkHreq _ _ _ _)) with (log_req_of rid r). by rewrite H.
Qed.

(** The denial of the policy with kind [K]; its reason is left to show. *)
Ltac refuse K Hp :=
  right; right;
  match goal with |- context [@deny ?A ?l ?rid (mkHreq (method ?r) _ _ (Some ?p)) ?c ?k] =>
    let route := fresh "route" in let Hr := fresh "Hroute" in
    destruct (@deny_record A l rid r p c k Hp) as (route & Hr & ->);
    exists K, route, (NewForbidden K None); split_and!; [|done|done|done]
  end.

(** (C14) The audit trail of access control: a request with a matched pattern is
    either granted - handed to the handler with its principal, nothing logged or
    counted before - or denied, and then the log is exactly one record at level
    info, [security decision]: the event, the decision [denied], the method and the
    route of the request, the status the client is answered with (401 or 403), the
    request id and the kind.  The kind is the reason of the refusal, from a closed
    list, and the denial adds one to the counter of that kind and to no other.  No
    part of the header, the token or the principal is in the record. *)
Theorem denials_audited {A} parse v rules l rid (next : lhandler A) r c :
  (∀ tok e, Verify parse v tok = Err e → verifier_error e) →
  method r ≠ "OPTIONS" → pattern r ≠ "" →
  let out := AuthenticateL (Verify parse v) l rid (AuthorizeL l rid rules next) r c in
  (∃ r', out = next r' c ∧ access_granted (Verify parse v) rules r r') ∨
  (∃ k route e, authn_reason (Verify parse v) r k ∧ route_named (pattern r) route ∧
     prStatus (mpProblem (MapError (Some e))) = 401%Z ∧
     out = (mkCounters (forbiddenTotal c) (<[k := (default 0 (authnFailures c !! k) + 1)%Z]> (authnFailures c)),
            Err e,
            [mkLogRecord 0 "security decision"
               (l ++ [("event", VString "security.authn.denied"); ("decision", VString "denied");
                      ("method", VString (method r)); ("route", VString route); ("status", VInt 401);
                      ("request_id", VString rid); ("authn_kind", VString k)])])) ∨
  (∃ k route e, authz_reason (Verify parse v) rules r k ∧ route_named (pattern r) route ∧
     prStatus (mpProblem (MapError (Some e))) = 403%Z ∧
     out = (mkCounters (forbiddenTotal c + 1) (authnFailures c),
            Err e,
            [mkLogRecord 0 "security decision"
               (l ++ [("event", VString "security.authz.denied"); ("decision", VString "denied");
                      ("method", VString (method r)); ("route", VString route); ("status", VInt 403);
                      ("request_id", VString rid); ("authz_kind", VString k)])])).
Proof.
  intros Hverr Hm%streqb_neq Hp out. subst out. unfold AuthenticateL, AuthorizeL.
  cbn [method pattern authorization principal]. rewrite !Hm (proj2 (streqb_neq _ _) Hp).
  destruct (parseBearerToken (authorization r)) as [token|e] eqn:Htok.
  2:{ right; left. destruct (parseBearerToken_unclassified _ _ Htok) as [Hk [k ->]]. rewrite Hk.
      destruct (logAuthNDenied_record l rid r "other" Hp) as (route & Hr & ->).
      exists "other", route, (EUnauthorizedError k None). by rewrite /authn_reason Htok. }
  destruct (Verify parse v token) as [p|e] eqn:Hv.
  2:{ right; left. destruct (Verify_kind _ _ _ _ Hv) as (k & ca & Hk & ->). cbn [authNKindOrOther].
      change (authNKindOrOther _) with k.
      destruct (logAuthNDenied_record l rid r k Hp) as (route & Hr & ->).
      exists k, route, (EUnauthorizedError k (Some (EAuthNError k ca))). split_and!; [|done| |done].
      - rewrite /authn_reason Htok. eauto.
      - apply (unauthorized_status k (Some (EAuthNError k ca))). intros ? [= <-]. by eapply Hverr. }
  assert (∀ rule, rules !! pattern r = Some rule →
    (Access rule = AccessPublic ∨ Access rule = AccessAuthenticated ∨ Access rule = AccessAdminOnly) →
    (Access rule = AccessAdminOnly → pRole p = RoleAdmin) →
    access_granted (Verify parse v) rules r (mkHreq (method r) (pattern r) (authorization r) (Some p))) as Hgrant by (intros rule ???; exists rule, token, p; split_and!; done).
  destruct (rules !! pattern r) as [rule|] eqn:Hr.
  2:{ refuse "no_policy_rule" Hp. exists token, p. by rewrite Hr. }
  destruct (Z.eqb_spec (Access rule) AccessPublic) as [Ha|Ha];
    [left; eexists; split; [done|apply (Hgrant _ eq_refl); [auto|by rewrite Ha]]|].
  destruct (Z.eqb_spec (Access rule) AccessAuthenticated) as [Hb|Hb];
    [left; eexists; split; [done|apply (Hgrant _ eq_refl); [auto|by rewrite Hb]]|].
  destruct (Z.eqb_spec (Access rule) AccessAdminOnly) as [Hd|Hd].
  - destruct (streqb (pRole p) RoleAdmin) eqn:Hrole; simpl.
    + left. eexists. split; [done|]. apply (Hgrant _ eq_refl); [auto|]. intros _. by apply streqb_eq.
    + refuse "admin_required" Hp. exists token, p. rewrite Hr. apply streqb_neq in Hrole. by split_and!; [..|left].
  - refuse "unknown_access" Hp. exists token, p. rewrite Hr. split_and!; [done..|right]. split; [done|].
    rewrite !elem_of_cons elem_of_nil. tauto.
Qed.

(** The composed chain without the log is the composed chain of Middleware.v. *)
Lemma access_control_erasure {A} Verify l rid rules (next : lhandler A) r c :
  (AuthenticateL Verify l rid (AuthorizeL l rid rules next) r c).1 =
  Authenticate Verify (Authorize rules (erase next)) r c.
Proof.
  rewrite Authenticate_erasure. unfold Authenticate. unfold erase at 1 2.
  repeat case_match; by rewrite ?Authorize_erasure.
Qed.

Definition ex_parse (o : parserOpts) (tok : string) (kf : jwtHeader → res error string)
  : res error (jwtClaims * bool) := Err (ESentinel JwtErrTokenExpired).
Definition ex_verifier : JWTVerifierHS256 :=
  mkJWTVerifier (mkParserOpts ["HS256"] 0 true None None) "HS256" [mkHMACKey "k1" "secret"] ∅.
Definition ex_request : hreq := mkHreq "GET" "GET /api/v1/users" "Bearer abc" None.

Lemma denials_audited_witness :
  let next : lhandler nat := λ _ c, (c, Ok 0, []) in
  ∃ e, AuthenticateL (Verify ex_parse ex_verifier) defaultSecurityLogger "rid-1"
           (AuthorizeL defaultSecurityLogger "rid-1" ∅ next) ex_request (mkCounters 0 ∅) =
         (mkCounters 0 {["expired" := 1%Z]}, Err e,
          [mkLogRecord 0 "security decision"
             [("component", VString "http_security"); ("event", VString "security.authn.denied");
              ("decision", VString "denied"); ("method", VString "GET"); ("route", VString "/api/v1/users");
              ("status", VInt 401); ("request_id", VString "rid-1"); ("authn_kind", VString "expired")]]) ∧
    prStatus (mpProblem (MapError (Some e))) = 401%Z.
Proof.
  intros next.
  destruct (denials_audited ex_parse ex_verifier ∅ defaultSecurityLogger "rid-1" next ex_request (mkCounters 0 ∅))
    as [(r' & Hr & _)|[(k & route & e & _ & _ & Hs & Hr)|(k & route & e & _ & _ & _ & Hr)]].
  - intros tok e He. vm_compute in He. injection He as <-. intros e' Hin.
    inversion Hin as [|? ? ? Hc Hin']; subst; [reflexivity|].
    apply list_elem_of_singleton in Hc as ->. inversion Hin' as [|? ? ? Hc _]; subst; [reflexivity|]. inversion Hc.
  - discriminate.
  - discriminate.
  - exfalso. vm_compute in Hr. discriminate Hr.
  - exists e. split; [|exact Hs].
    assert (He := f_equal (λ x, x.1.2) Hr). vm_compute in He. injection He as <-. vm_compute. reflexivity.
  - exfalso. vm_compute in Hr. discriminate Hr.
Defined.
End Audit.

(** ** The outbound profile client *)
Module Retry.

(** [deadlineRemainingMS]: the time left before the deadline of the context,
    in milliseconds and never negative. *)
Definition millisecond : Z := 1000000.
Definition Milliseconds (d : Z) : Z := d ÷ millisecond.
Definition deadlineRemainingMS (until : option Z) : option Z :=
  match until with
  | None => None
  | Some remaining => Some (Milliseconds (if (remaining <? 0)%Z then 0%Z else remaining))
  end.

Definition remaining_attr (until : option Z) : list attr :=
  match deadlineRemainingMS until with
  | Some ms => [("deadline_remaining_ms", VInt ms)]
  | None => []
  end.

Definition defaultOutboundLogger : logger := component "outbound_profile".

Definition normalizeOutboundLogger (l : option logger) : logger :=
  match l with Some l => l | None => defaultOutboundLogger end.

(** The constructors: the client and its logger, never nil. *)
Definition NewRetryingProfileClientWithLogger (attempts base max : Z) (l : option logger)
  : RetryingProfileClient * option logger :=
  (Outbound.NewRetryingProfileClient attempts base max, Some (normalizeOutboundLogger l)).

Section client.
Context (l : option logger) (c : RetryingProfileClient) (requestID : string).

Definition logRetryScheduled (attempt delay : Z) (err : error) (until : option Z) : list log_record :=
  match l with
  | None => []
  | Some l =>
      if (maxAttempts c <=? 1)%Z then []
      else LogAttrs l LevelInfo "profile retry scheduled"
             ([("event", VString "profile.retry.scheduled"); ("operation", VString "profile.fetch");
               ("request_id", VString requestID); ("attempt", VInt attempt);
               ("max_attempts", VInt (maxAttempts c)); ("backoff_ms", VInt (Milliseconds delay));
               ("retryable", VBool true); ("error_kind", VString (KindLabel err));
               ("status", VInt (profileErrorStatus (Some err)))] ++ remaining_attr until)
  end.

Definition logRetryCompleted (attempts elapsed : Z) (outcome : string) (err : option error)
    (until : option Z) : list log_record :=
  match l with
  | None => []
  | Some l =>
      if ((maxAttempts c <=? 1)%Z || ((attempts <=? 1)%Z && bool_decide (err = None)))%bool then []
      else LogAttrs l LevelInfo "profile retry completed"
             ([("event", VString "profile.retry.completed"); ("operation", VString "profile.fetch");
               ("request_id", VString requestID); ("outcome", VString outcome); ("attempts", VInt attempts);
               ("max_attempts", VInt (maxAttempts c)); ("duration_ms", VInt (Milliseconds elapsed))] ++
              match err with
              | Some e => [("error_kind", VString (KindLabel e)); ("status", VInt (profileErrorStatus (Some e)));
                           ("retryable", VBool (isRetryableProfileError e))]
              | None => []
              end ++ remaining_attr until)
  end.
End client.

(** What the clock shows: the time left when the attempt's retry is scheduled,
    and the duration and the time left at the end. *)
Record log_times := mkLogTimes { lt_sched : Z → option Z; lt_elapsed : Z; lt_end : option Z }.

Section fetch.
Context (l : option logger) (c : RetryingProfileClient) (requestID : string).

Definition fetched : Type := Z * (option error + Profile) * list log_record.

(** [FetchProfile] with its log, like [Outbound.fetch_loop]. *)
Fixpoint fetch_loop_log (t : log_times) (env : Z → attempt_env) (fuel : nat) (attempt calls attemptsMade : Z)
    (lastErr : option error) (log : list log_record) : option fetched :=
  let completed (attempts : Z) (outcome : string) (err : option error) : list log_record :=
    log ++ logRetryCompleted l c requestID attempts (lt_elapsed t) outcome err (lt_end t) in
  match fuel with
  | O => Some (calls, inl lastErr, completed attemptsMade "failed" lastErr)
  | S fuel =>
      let e := env attempt in
      match ae_ctx e with
      | Some err =>
          let err := ctxToProfileError err in
          Some (calls, inl (Some err), completed (attempt - 1)%Z "failed" (Some err))
      | None =>
          match ae_call e with
          | Ok p => Some ((calls + 1)%Z, inr p, completed attempt "success" None)
          | Err err =>
              if (attempt =? maxAttempts c)%Z
              then Some ((calls + 1)%Z, inl (Some err), completed attempt "failed" (Some err))
              else if negb (isRetryableProfileError err)
              then Some ((calls + 1)%Z, inl (Some err), completed attempt "failed" (Some err))
              else
                match backoffWithJitter (ae_rng e) c attempt with
                | None => None
                | Some delay =>
                    let log' := log ++ logRetryScheduled l c requestID attempt delay err (lt_sched t attempt) in
                    if (0 <? delay)%Z then
                      if negb (hasTimeForDelay (ae_until e) delay)
                      then Some ((calls + 1)%Z, inl (Some err), completed attempt "failed" (Some err))
                      else
                        match ae_sleep e with
                        | Some serr =>
                            let serr := ctxToProfileError serr in
                            Some ((calls + 1)%Z, inl (Some serr),
                                  log' ++ logRetryCompleted l c requestID attempt (lt_elapsed t) "failed"
                                            (Some serr) (lt_end t))
                        | None => fetch_loop_log t env fuel (attempt + 1) (calls + 1) attempt (Some err) log'
                        end
                    else fetch_loop_log t env fuel (attempt + 1) (calls + 1) attempt (Some err) log'
                end
          end
      end
  end.

Definition FetchProfileL (t : log_times) (env : Z → attempt_env) : option fetched :=
  fetch_loop_log t env (Z.to_nat (maxAttempts c)) 1 0 0 None [].

(** Without the log it is the model of Outbound.v. *)
Lemma fetch_loop_log_erasure t env fuel : ∀ attempt calls made lastErr log,
  fst <$> fetch_loop_log t env fuel attempt calls made lastErr log =
  fetch_loop c env fuel attempt calls lastErr.
Proof.
  induction fuel as [|fuel IH]; intros attempt calls made lastErr log; [done|]. simpl.
  destruct (ae_ctx _); [done|]. destruct (ae_call _) as [p|err]; [done|].
  destruct (_ =? _)%Z; [done|]. destruct (negb _); [done|].
  destruct (backoffWithJitter _ _ _) as [delay|]; [|done].
  destruct (0 <? delay)%Z; [|apply IH].
  destruct (negb _); [done|]. destruct (ae_sleep _); [done|]. apply IH.
Qed.

(** *** The shape of the log *)

(** The records of the retries of the attempts from [first] on. *)
Fixpoint scheduled (t : log_times) (first : Z) (retries : list (Z * error)) : list log_record :=
  match retries with
  | [] => []
  | (delay, err) :: retries =>
      logRetryScheduled l c requestID first delay err (lt_sched t first) ++ scheduled t (first + 1) retries
  end.

Definition outcome_of (r : option error + Profile) : string * option error :=
  match r with inl err => ("failed", err) | inr _ => ("success", None) end.

(** A retry of an attempt: its exchange failed with a retryable error, and the
    delay is the one drawn for it. *)
Definition retry_ok (env : Z → attempt_env) (k : Z) (r : Z * error) : Prop :=
  ae_call (env k) = Err r.2 ∧ isRetryableProfileError r.2 = true ∧
  backoffWithJitter (ae_rng (env k)) c k = Some r.1.

Lemma fetch_loop_log_shape t env fuel : ∀ attempt made lastErr log out,
  made = (attempt - 1)%Z →
  fetch_loop_log t env fuel attempt (attempt - 1) made lastErr log = Some out →
  let '(calls, r, log') := out in
  ∃ retries,
    log' = log ++ scheduled t attempt retries ++
           logRetryCompleted l c requestID calls (lt_elapsed t) (outcome_of r).1 (outcome_of r).2 (lt_end t) ∧
    (∀ i x, retries !! i = Some x → retry_ok env (attempt + Z.of_nat i) x) ∧
    (attempt + Z.of_nat (length retries) - 1 <= calls <= attempt + Z.of_nat (length retries))%Z.
Proof.
  induction fuel as [|fuel IH]; intros attempt made lastErr log out -> Hl.
  { simpl in Hl. simplify_eq. exists []. simpl. split_and!; [done|by intros|lia..]. }
  cbn -[Z.add Z.sub] in Hl.
  destruct (ae_ctx _) as [err|]; [simplify_eq; exists []; simpl; split_and!; [done|by intros|lia..]|].
  replace (attempt - 1 + 1)%Z with attempt in Hl by lia.
  destruct (ae_call _) as [p|err] eqn:Hcall; [simplify_eq; exists []; simpl; split_and!; [done|by intros|lia..]|].
  destruct (_ =? _)%Z; [simplify_eq; exists []; simpl; split_and!; [done|by intros|lia..]|].
  destruct (negb _) eqn:Hre; [simplify_eq; exists []; simpl; split_and!; [done|by intros|lia..]|].
  apply negb_false_iff in Hre.
  destruct (backoffWithJitter _ _ _) as [delay|] eqn:Hb; [|done].
  set (log1 := log ++ logRetryScheduled _ _ _ _ _ _ _) in Hl.
  assert (retry_ok env attempt (delay, err)) as Hok by done.
  assert (∀ out, fetch_loop_log t env fuel (attempt + 1) attempt attempt (Some err) log1 = Some out →
    let '(calls, r, log') := out in
    ∃ retries, log' = log ++ scheduled t attempt retries ++
        logRetryCompleted l c requestID calls (lt_elapsed t) (outcome_of r).1 (outcome_of r).2 (lt_end t) ∧
      (∀ i x, retries !! i = Some x → retry_ok env (attempt + Z.of_nat i) x) ∧
      (attempt + Z.of_nat (length retries) - 1 <= calls <= attempt + Z.of_nat (length retries))%Z) as Hnext.
  { intros [[calls r] log'] Hn. replace attempt with (attempt + 1 - 1)%Z in Hn at 2 3 by lia.
    destruct (IH _ _ _ _ _ eq_refl Hn) as (retries & -> & Hrs & Hc).
    exists ((delay, err) :: retries). cbn [scheduled length]. split_and!; [|intros [|i] x Hx|lia..].
    - unfold log1. by rewrite -!app_assoc.
    - simpl in Hx. simplify_eq. by rewrite Z.add_0_r.
    - specialize (Hrs i x Hx). by replace (attempt + Z.of_nat (S i))%Z with (attempt + 1 + Z.of_nat i)%Z by lia. }
  destruct (0 <? delay)%Z; [|by apply Hnext].
  destruct (negb _); [simplify_eq; exists []; simpl; split_and!; [done|by intros|lia..]|].
  destruct (ae_sleep _) as [serr|]; [|by apply Hnext]. simplify_eq.
  exists [(delay, err)]. cbn [scheduled length outcome_of fst snd]. split_and!; [|intros [|i] x Hx|lia..].
  - unfold log1. by rewrite app_nil_r -!app_assoc.
  - simpl in Hx. simplify_eq. by rewrite Z.add_0_r.
  - done.
Qed.

Lemma FetchProfileL_shape t env : (0 < maxDelay c < int_max)%Z →
  ∃ calls r retries,
    FetchProfileL t env =
      Some (calls, r, scheduled t 1 retries ++
        logRetryCompleted l c requestID calls (lt_elapsed t) (outcome_of r).1 (outcome_of r).2 (lt_end t)) ∧
    FetchProfile c env = Some (calls, r) ∧
    (∀ i x, retries !! i = Some x → retry_ok env (1 + Z.of_nat i) x) ∧
    (Z.of_nat (length retries) <= calls <= 1 + Z.of_nat (length retries))%Z.
Proof.
  intros Hd. destruct (fetch_loop_total c env Hd (Z.to_nat (maxAttempts c)) 1 0 None) as [[calls r] Hf].
  pose proof (fetch_loop_log_erasure t env (Z.to_nat (maxAttempts c)) 1 0 0 None []) as He.
  rewrite Hf in He. destruct (fetch_loop_log _ _ _ _ _ _ _ _) as [[[calls' r'] log]|] eqn:Hl; [|done].
  simpl in He. simplify_eq. change 0%Z with (1 - 1)%Z in Hl at 1.
  destruct (fetch_loop_log_shape _ _ _ _ _ _ _ _ eq_refl Hl) as (retries & -> & Hrs & Hc).
  exists calls, r, retries. unfold FetchProfileL, FetchProfile. simpl in Hl. split_and!; [|done|done|lia..].
  rewrite Hl. done.
Qed.
End fetch.

(** *** What the records say *)

(** The class of an error: the first of the kinds of the profile client that
    [errors.Is] finds in it. *)
Definition profile_kinds : list (sentinel * string) :=
  [(ErrTimeout, "timeout"); (ErrCanceled, "canceled"); (ErrNetwork, "network"); (ErrUpstream5xx, "5xx");
   (ErrUpstream4xx, "4xx"); (ErrParse, "parse"); (ErrBadResponse, "bad_response")].
Definition kind_of (err : error) : string :=
  default "unknown" (snd <$> List.find (λ k, errors_Is err k.1) profile_kinds).
(** The status the upstream answered with, zero when it did not answer. *)
Definition status_of (err : error) : Z :=
  default 0%Z (errors_As (λ e, match e with EProfileError _ status _ => Some status | _ => None end) err).
Definition worth_retrying (err : error) : bool :=
  existsb (errors_Is err) [ErrTimeout; ErrNetwork; ErrUpstream5xx].
Definition time_left (until : option Z) : list attr :=
  match until with
  | Some ns => [("deadline_remaining_ms", VInt (Z.max 0 ns ÷ 1000000))]
  | None => []
  end.

Lemma kind_of_label err : KindLabel err = kind_of err.
Proof. unfold KindLabel, kind_of. simpl. by repeat case_match. Qed.
Lemma status_of_status err : profileErrorStatus (Some err) = status_of err.
Proof.
  unfold profileErrorStatus, status_of. fold as_profile. destruct (errors_As as_profile err) as [st|]; [|done].
  simpl. destruct (Z.eqb_spec st 0) as [->|]; done.
Qed.
Lemma worth_retrying_retryable err : isRetryableProfileError err = worth_retrying err.
Proof. unfold isRetryableProfileError, worth_retrying. simpl. by rewrite orb_false_r orb_assoc. Qed.
Lemma time_left_attr until : remaining_attr until = time_left until.
Proof.
  destruct until as [ns|]; [|done]. unfold remaining_attr, deadlineRemainingMS, time_left, Milliseconds, millisecond.
  do 4 f_equal. destruct (Z.ltb_spec ns 0); lia.
Qed.

(** Every attempt but the first follows an error, so a failed read has one. *)
Lemma fetch_loop_error c env fuel : ∀ attempt calls lastErr calls',
  lastErr ≠ None ∨ 0 < fuel → fetch_loop c env fuel attempt calls lastErr ≠ Some (calls', inl None).
Proof.
  induction fuel as [|fuel IH]; intros attempt calls lastErr calls' H; simpl.
  { destruct H as [H|H]; [by intros [= _ ->]|lia]. }
  assert (∀ a k e, fetch_loop c env fuel a k (Some e) ≠ Some (calls', inl None)) as Hn by (intros; apply IH; by left).
  repeat case_match; done.
Qed.

Section records.
Context (lg : logger) (c : RetryingProfileClient) (requestID : string) (t : log_times).

Lemma scheduled_silent first retries l : l = None ∨ (maxAttempts c <= 1)%Z → scheduled l c requestID t first retries = [].
Proof.
  intros H. revert first. induction retries as [|[delay err] retries IH]; intros first; [done|].
  simpl. rewrite IH app_nil_r. unfold logRetryScheduled. destruct H as [->|H]; [done|].
  destruct l; [|done]. by rewrite (proj2 (Z.leb_le _ _) H).
Qed.
Lemma completed_silent attempts elapsed outcome err until l : l = None ∨ (maxAttempts c <= 1)%Z →
  logRetryCompleted l c requestID attempts elapsed outcome err until = [].
Proof.
  intros H. unfold logRetryCompleted. destruct H as [->|H]; [done|]. destruct l; [|done].
  by rewrite (proj2 (Z.leb_le _ _) H).
Qed.

Lemma scheduled_records first retries : (1 < maxAttempts c)%Z →
  scheduled (Some lg) c requestID t first retries =
  imap (λ i '(delay, err),
    mkLogRecord 0 "profile retry scheduled"
      (lg ++ [("event", VString "profile.retry.scheduled"); ("operation", VString "profile.fetch");
              ("request_id", VString requestID); ("attempt", VInt (first + Z.of_nat i));
              ("max_attempts", VInt (maxAttempts c)); ("backoff_ms", VInt (delay ÷ 1000000));
              ("retryable", VBool true); ("error_kind", VString (kind_of err));
              ("status", VInt (status_of err))] ++ time_left (lt_sched t (first + Z.of_nat i)))) retries.
Proof.
  intros H. revert first. induction retries as [|[delay err] retries IH]; intros first; [done|].
  rewrite imap_cons. cbn [scheduled]. rewrite IH. unfold logRetryScheduled, LogAttrs, Milliseconds, millisecond.
  rewrite (proj2 (Z.leb_gt _ _) H) kind_of_label status_of_status time_left_attr.
  rewrite Nat2Z.inj_0 Z.add_0_r. simpl. f_equal. apply imap_ext. intros i [d e] _. simpl.
  by replace (first + 1 + Z.of_nat i)%Z with (first + Z.of_nat (S i))%Z by lia.
Qed.

Lemma completed_records calls elapsed outcome err until : (1 < maxAttempts c)%Z →
  logRetryCompleted (Some lg) c requestID calls elapsed outcome err until =
  if ((calls <=? 1)%Z && bool_decide (err = None))%bool then [] else
    [mkLogRecord 0 "profile retry completed"
       (lg ++ [("event", VString "profile.retry.completed"); ("operation", VString "profile.fetch");
               ("request_id", VString requestID); ("outcome", VString outcome); ("attempts", VInt calls);
               ("max_attempts", VInt (maxAttempts c)); ("duration_ms", VInt (elapsed ÷ 1000000))] ++
              match err with
              | Some e => [("error_kind", VString (kind_of e)); ("status", VInt (status_of e));
                           ("retryable", VBool (worth_retrying e))]
              | None => []
              end ++ time_left until)].
Proof.
  intros H. unfold logRetryCompleted, LogAttrs, Milliseconds, millisecond.
  rewrite (proj2 (Z.leb_gt _ _) H) time_left_attr orb_false_l. destruct (_ && _)%bool; [done|].
  destruct err as [e|]; [by rewrite kind_of_label status_of_status worth_retrying_retryable|done].
Qed.
End records.

(** (C16) The retry log is truthful: a profile read of a client built by the
    constructor returns, and says what it did.  A client without a logger, or that
    makes one attempt only, logs nothing.  Otherwise the log is, in order, one
    record per retry it prepared - with the number of the attempt that failed, the
    bound on the attempts, the delay drawn for the retry in milliseconds, the class
    and the status of the error that attempt met, which is retryable, and the time
    left - followed by one completion record: the outcome [failed], with the class,
    status and retryability of the error the caller gets, or [success]; the number
    of exchanges performed, the duration and the time left.  Only a success at the
    first attempt leaves no record.  A read performs as many retries as it
    scheduled, or one less when its context ends during the wait or before the next
    exchange. *)
Theorem retry_log_truthful l requestID attempts base max t env :
  (0 < max < int_max)%Z →
  let c := NewRetryingProfileClient attempts base max in
  let n := Z.max 1 attempts in
  ∃ calls r retries log,
    FetchProfileL l c requestID t env = Some (calls, r, log) ∧ FetchProfile c env = Some (calls, r) ∧
    (∀ i delay err, retries !! i = Some (delay, err) →
       ae_call (env (1 + Z.of_nat i)%Z) = Err err ∧ worth_retrying err = true ∧
       backoffWithJitter (ae_rng (env (1 + Z.of_nat i)%Z)) c (1 + Z.of_nat i) = Some delay) ∧
    (Z.of_nat (length retries) <= calls <= 1 + Z.of_nat (length retries))%Z ∧
    (l = None ∨ n = 1%Z → log = []) ∧
    (∀ lg, l = Some lg → (1 < n)%Z → ∃ completion,
       log = imap (λ i '(delay, err),
         mkLogRecord 0 "profile retry scheduled"
           (lg ++ [("event", VString "profile.retry.scheduled"); ("operation", VString "profile.fetch");
                   ("request_id", VString requestID); ("attempt", VInt (1 + Z.of_nat i));
                   ("max_attempts", VInt n); ("backoff_ms", VInt (delay ÷ 1000000));
                   ("retryable", VBool true); ("error_kind", VString (kind_of err));
                   ("status", VInt (status_of err))] ++ time_left (lt_sched t (1 + Z.of_nat i)))) retries
         ++ completion ∧
       match r with
       | inr _ =>
           completion = if (calls <=? 1)%Z then [] else
             [mkLogRecord 0 "profile retry completed"
                (lg ++ [("event", VString "profile.retry.completed"); ("operation", VString "profile.fetch");
                        ("request_id", VString requestID); ("outcome", VString "success");
                        ("attempts", VInt calls); ("max_attempts", VInt n);
                        ("duration_ms", VInt (lt_elapsed t ÷ 1000000))] ++ time_left (lt_end t))]
       | inl (Some e) =>
           completion =
             [mkLogRecord 0 "profile retry completed"
                (lg ++ [("event", VString "profile.retry.completed"); ("operation", VString "profile.fetch");
                        ("request_id", VString requestID); ("outcome", VString "failed");
                        ("attempts", VInt calls); ("max_attempts", VInt n);
                        ("duration_ms", VInt (lt_elapsed t ÷ 1000000)); ("error_kind", VString (kind_of e));
                        ("status", VInt (status_of e)); ("retryable", VBool (worth_retrying e))] ++
                 time_left (lt_end t))]
       | inl None => False
       end).
Proof.
  intros Hm c n.
  assert (maxAttempts c = n) as Hn by (unfold c, n; simpl; destruct (Z.ltb_spec attempts 1); lia).
  destruct (FetchProfileL_shape l c requestID t env) as (calls & r & retries & Hl & Hf & Hrs & Hc).
  { unfold c; simpl; destruct (Z.ltb_spec max 0); lia. }
  eexists calls, r, retries, _. split; [exact Hl|]. split; [exact Hf|]. split; [|split; [exact Hc|split]].
  - intros i delay err Hi. rewrite -worth_retrying_retryable. exact (Hrs i _ Hi).
  - intros H. rewrite scheduled_silent ?completed_silent //; rewrite Hn; destruct H; (by left) || (right; lia).
  - intros lg -> Hn1. rewrite scheduled_records ?completed_records ?Hn //. eexists. split; [done|].
    destruct r as [[e|]|p]; [by rewrite andb_false_r|exfalso|by rewrite andb_true_r].
    eapply fetch_loop_error; [|exact Hf]. right. lia.
Qed.

(** *** Privacy *)

(** Errors a reader of the log cannot tell apart. *)
Definition alike (e1 e2 : error) : Prop :=
  KindLabel e1 = KindLabel e2 ∧ profileErrorStatus (Some e1) = profileErrorStatus (Some e2) ∧
  isRetryableProfileError e1 = isRetryableProfileError e2.
Definition ctx_alike (e1 e2 : error) : Prop := alike (ctxToProfileError e1) (ctxToProfileError e2).

Definition call_alike (x1 x2 : res error Profile) : Prop :=
  match x1, x2 with
  | Ok _, Ok _ => True
  | Err e1, Err e2 => alike e1 e2
  | _, _ => False
  end.

Record env_alike (e1 e2 : attempt_env) : Prop := {
  alike_ctx : option_Forall2 ctx_alike (ae_ctx e1) (ae_ctx e2);
  alike_call : call_alike (ae_call e1) (ae_call e2);
  alike_rng : ∀ n, ae_rng e1 n = ae_rng e2 n;
  alike_until : ae_until e1 = ae_until e2;
  alike_sleep : option_Forall2 ctx_alike (ae_sleep e1) (ae_sleep e2);
}.

#[export] Instance alike_equivalence : Equivalence alike.
Proof. split; repeat intros (?&?&?) || intros ?; unfold alike in *; split_and!; naive_solver congruence. Qed.

Section privacy.
Context (l : option logger) (c : RetryingProfileClient) (requestID : string).

#[local] Instance scheduled_proper attempt delay :
  Proper (alike ==> eq ==> eq) (logRetryScheduled l c requestID attempt delay).
Proof. intros e1 e2 (Hk & Hs & _) until ? <-. unfold logRetryScheduled. by rewrite Hk Hs. Qed.

#[local] Instance completed_proper attempts elapsed outcome :
  Proper (option_Forall2 alike ==> eq ==> eq) (logRetryCompleted l c requestID attempts elapsed outcome).
Proof.
  intros o1 o2 [e1 e2 (Hk & Hs & Hr)|] until ? <-; [|done]. unfold logRetryCompleted. rewrite Hk Hs Hr.
  by rewrite !bool_decide_eq_false_2.
Qed.

Lemma fetch_loop_log_alike t env1 env2 fuel : (∀ k, env_alike (env1 k) (env2 k)) →
  ∀ attempt calls made err1 err2 log, option_Forall2 alike err1 err2 →
  snd <$> fetch_loop_log l c requestID t env1 fuel attempt calls made err1 log =
  snd <$> fetch_loop_log l c requestID t env2 fuel attempt calls made err2 log.
Proof.
  intros Henv. induction fuel as [|fuel IH]; intros attempt calls made err1 err2 log Herr; simpl.
  { do 2 f_equal. by apply completed_proper. }
  destruct (Henv attempt) as [Hctx Hcall Hrng Huntil Hsleep].
  destruct Hctx as [x1 x2 Hx|]; simpl; [do 2 f_equal; apply completed_proper; [by constructor|done]|].
  destruct (ae_call (env1 attempt)) as [p1|e1], (ae_call (env2 attempt)) as [p2|e2]; try done.
  pose proof Hcall as (_ & _ & Hre). rewrite Hre.
  assert (∀ d, logRetryScheduled l c requestID attempt d e1 (lt_sched t attempt) =
    logRetryScheduled l c requestID attempt d e2 (lt_sched t attempt)) as Hs by (intros d; by apply scheduled_proper).
  assert (∀ o, logRetryCompleted l c requestID attempt (lt_elapsed t) o (Some e1) (lt_end t) =
    logRetryCompleted l c requestID attempt (lt_elapsed t) o (Some e2) (lt_end t)) as Hd
    by (intros o; apply completed_proper; [by constructor|done]).
  rewrite Hd. destruct (_ =? _)%Z; [done|]. destruct (negb _); [done|].
  assert (backoffWithJitter (ae_rng (env1 attempt)) c attempt = backoffWithJitter (ae_rng (env2 attempt)) c attempt)
    as -> by (unfold backoffWithJitter; by rewrite Hrng).
  destruct (backoffWithJitter _ _ _) as [delay|]; [|done]. rewrite Hs Huntil.
  destruct (0 <? delay)%Z; [|apply IH; by constructor].
  destruct (negb _); [done|].
  destruct Hsleep as [s1 s2 Hss|]; simpl; [|apply IH; by constructor].
  do 2 f_equal. apply completed_proper; [by constructor|done].
Qed.

(** (C15) The retry log is private: whatever profile is read and whatever the
    errors say - their texts, the upstream address, the causes they wrap - the
    records are those of any other read whose errors have the same kinds and
    status codes: nothing else of an error, of the profile or of the user can
    be read off the log. *)
Theorem retry_log_private t env1 env2 :
  (∀ k, env_alike (env1 k) (env2 k)) →
  snd <$> FetchProfileL l c requestID t env1 = snd <$> FetchProfileL l c requestID t env2.
Proof. intros Henv. apply fetch_loop_log_alike; [done|constructor]. Qed.
End privacy.

Definition ex_client : RetryingProfileClient := NewRetryingProfileClient 3 (10 ^ 8) (10 ^ 9).
Definition ex_times : log_times := mkLogTimes (λ _, None) (250 * millisecond) (Some (750 * millisecond)%Z).
Definition ex_attempts (text : string) (k : Z) : attempt_env :=
  mkAttemptEnv None
    (if (k =? 1)%Z then Err (EProfileError ErrNetwork 0 (Some (EText text)))
     else Ok (UserProfileService.mkProfile 7 text "city"))
    (λ n, n - 1)%Z None None.

Lemma retry_log_truthful_witness :
  ∃ p delay,
    FetchProfileL (Some defaultOutboundLogger) ex_client "rid-1" ex_times (ex_attempts "refused") =
      Some (2%Z, inr p,
        [mkLogRecord 0 "profile retry scheduled"
           [("component", VString "outbound_profile"); ("event", VString "profile.retry.scheduled");
            ("operation", VString "profile.fetch"); ("request_id", VString "rid-1"); ("attempt", VInt 1);
            ("max_attempts", VInt 3); ("backoff_ms", VInt (delay ÷ 1000000)); ("retryable", VBool true);
            ("error_kind", VString "network"); ("status", VInt 0)];
         mkLogRecord 0 "profile retry completed"
           [("component", VString "outbound_profile"); ("event", VString "profile.retry.completed");
            ("operation", VString "profile.fetch"); ("request_id", VString "rid-1");
            ("outcome", VString "success"); ("attempts", VInt 2); ("max_attempts", VInt 3);
            ("duration_ms", VInt 250); ("deadline_remaining_ms", VInt 750)]]).
Proof.
  destruct (retry_log_truthful (Some defaultOutboundLogger) "rid-1" 3 (10 ^ 8) (10 ^ 9) ex_times
    (ex_attempts "refused") ltac:(unfold int_max; lia))
    as (calls & r & retries & log & Hl & Hf & Hr & Hn & _ & Hlog).
  destruct (Hlog _ eq_refl ltac:(lia)) as (completion & -> & Hcomp).
  vm_compute in Hf. injection Hf as <- <-. rewrite Hcomp in Hl.
  destruct retries as [|[delay err] [|[d e] [|]]]; [simpl in Hn; lia| | |simpl in Hn; lia].
  - destruct (Hr 0 _ _ eq_refl) as [He _]. vm_compute in He. injection He as <-.
    eexists _, delay. exact Hl.
  - exfalso. destruct (Hr 1 _ _ eq_refl) as [Hy _]. vm_compute in Hy. discriminate Hy.
Defined.

Lemma retry_log_private_witness :
  snd <$> FetchProfileL (Some defaultOutboundLogger) ex_client "rid-1" ex_times (ex_attempts "dial tcp 10.0.0.7") =
  snd <$> FetchProfileL (Some defaultOutboundLogger) ex_client "rid-1" ex_times (ex_attempts "alice was here").
Proof.
  apply (retry_log_private (Some defaultOutboundLogger) ex_client "rid-1" ex_times). intros k.
  split; unfold ex_attempts; simpl; [constructor| |reflexivity|reflexivity|constructor].
  destruct (k =? 1)%Z; [split_and!; reflexivity|exact I].
Defined.
End Retry.

(** ** Event streams *)
Module Sse.
Import JobHandler.

Definition defaultSSELogger : logger := component "sse".
Definition normalizeJobHandlerLogger (l : option logger) : logger :=
  match l with Some l => l | None => defaultSSELogger end.

(** The handler: a nil logger is replaced; the client of the gRPC bridge may be
    nil. *)
Record Handler (client : Type) := mkHandler {
  jh_heartbeat : Z; jh_writeTimeout : Z; jh_client : option client; jh_logger : logger }.
Arguments mkHandler {client} _ _ _ _.
Definition NewJobHandlerWithLogger {client} (heartbeat writeTimeout : Z) (c : option client) (l : option logger)
  : Handler client :=
  mkHandler heartbeat writeTimeout c (normalizeJobHandlerLogger l).
Definition NewJobHandler {client} (heartbeat writeTimeout : Z) (c : option client) : Handler client :=
  NewJobHandlerWithLogger heartbeat writeTimeout c (Some defaultSSELogger).

Definition opened (l : logger) (rid : string) (id : Z) : list log_record :=
  LogAttrs l LevelInfo "sse connection opened"
    [("event", VString "sse.connection.opened"); ("request_id", VString rid); ("job_id", VInt id)].
Definition closed (l : logger) (rid : string) (id : Z) (closeReason : string) (writeFailures elapsed : Z)
  : list log_record :=
  LogAttrs l LevelInfo "sse connection closed"
    [("event", VString "sse.connection.closed"); ("request_id", VString rid); ("job_id", VInt id);
     ("reason", VString closeReason); ("write_failures", VInt writeFailures);
     ("duration_ms", VInt (Retry.Milliseconds elapsed))].
Definition logSSEWriteFailure (l : logger) (rid : string) (id : Z) (phase : string) (err : error)
  : list log_record :=
  LogAttrs l LevelWarn "sse write failed"
    [("event", VString "sse.write.failed"); ("request_id", VString rid); ("job_id", VInt id);
     ("phase", VString phase); ("error_kind", VString (sseErrorKind err))].

(** How a loop ended, for the log: the reason, and the phase and the error of
    a failed write. *)
Record stream_log := mkStreamLog { sl_reason : string; sl_failure : option (string * error) }.

(** [events_loop] with what its log needs; [None] in the last component while
    the stream is open. *)
Fixpoint events_loop_log (rounds : list round) (sub : Z) (h : Hub) (out : list frame)
  : option (Hub * list frame * stream_end * option stream_log) :=
  match rounds with
  | [] => Some (h, out, StillOpen, None)
  | r :: rounds =>
      let h := idle r h in
      match sel r with
      | SelDone cause =>
          Some (h, out, Ended (sseCloseReason cause) None, Some (mkStreamLog (sseCloseReason cause) None))
      | SelTick None => events_loop_log rounds sub h (out ++ [Heartbeat])
      | SelTick (Some err) =>
          Some (h, out, Ended "write_failed" (Some err),
                Some (mkStreamLog "write_failed" (Some ("heartbeat", err))))
      | SelEvent result =>
          match chans h !! sub with
          | Some (mkChan (ev :: _) _ _ _) =>
              let h := recv h sub in
              match result with
              | None => events_loop_log rounds sub h (out ++ [EventFrame (evType ev) (Data ev)])
              | Some err =>
                  Some (h, out, Ended "write_failed" (Some err),
                        Some (mkStreamLog "write_failed" (Some ("event", err))))
              end
          | Some (mkChan [] true _ _) =>
              Some (h, out, Ended "subscription_closed" None, Some (mkStreamLog "subscription_closed" None))
          | _ => None
          end
      end
  end.

(** The records of a connection: the failed write before the deferred closing
    record. *)
Definition stream_records (l : logger) (rid : string) (id elapsed : Z) (s : option stream_log) : list log_record :=
  opened l rid id ++
  match s with
  | None => []
  | Some s =>
      match sl_failure s with
      | Some (phase, err) => logSSEWriteFailure l rid id phase err ++ closed l rid id (sl_reason s) 1 elapsed
      | None => closed l rid id (sl_reason s) 0 elapsed
      end
  end.

(** [Events] with its log. *)
Definition EventsL {S} `{!JobRepository S} (l : logger) (rid : string) (elapsed : Z) (env : repo_env) (s : S)
    (w : response) (principal : option Principal) (flusher : bool) (rounds : list round) (h : Hub) (id : Z)
  : option (Hub * response * list frame * option (option error) * list log_record) :=
  match readable_job env s principal id with
  | Err err => Some (h, w, [], Some (Some err), [])
  | Ok _ =>
      let w := sse_headers w in
      if negb flusher then Some (h, w, [], Some (Some (ESentinel ErrStreamingUnsupported)), [])
      else
        match Subscribe h id with
        | None => None
        | Some (h, Err err) => Some (h, w, [], Some (Some err), [])
        | Some (h, Ok sub) =>
            match events_loop_log rounds sub h [] with
            | None => None
            | Some (h, out, StillOpen, sl) => Some (h, w, out, None, stream_records l rid id elapsed sl)
            | Some (h, out, Ended _ err, sl) =>
                Some (unsubscribe h id sub, w, out, Some err, stream_records l rid id elapsed sl)
            end
        end
  end.

Lemma events_loop_log_erasure rounds sub : ∀ h out,
  fst <$> events_loop_log rounds sub h out = events_loop rounds sub h out.
Proof.
  induction rounds as [|r rounds IH]; intros h out; [done|]. simpl.
  destruct (sel r) as [cause|[err|]|result]; [done|done|apply IH|].
  destruct (chans _ !! sub) as [[[|ev evs] [] ? ?]|]; try done; destruct result; try done; apply IH.
Qed.

Lemma EventsL_erasure {S} `{!JobRepository S} l rid elapsed (env : repo_env) (s : S) w principal flusher rounds h id :
  fst <$> EventsL l rid elapsed env s w principal flusher rounds h id =
  Events env s w principal flusher rounds h id.
Proof.
  unfold EventsL, Events. destruct (readable_job _ _ _ _); [|done]. destruct (negb flusher); [done|].
  destruct (Subscribe h id) as [[h1 [sub|err]]|]; [|done|done].
  rewrite -events_loop_log_erasure.
  by destruct (events_loop_log _ _ _ _) as [[[[h2 out] []] sl]|].
Qed.

(** *** What the records say *)

(** Why a stream ended without an error: the way its context ended, or the hub
    closed its channel. *)
Definition done_reason (cause : option error) (reason : string) : Prop :=
  match cause with
  | Some e =>
      (errors_Is e ContextCanceled = true ∧ reason = "client_closed") ∨
      (errors_Is e ContextCanceled = false ∧ errors_Is e ContextDeadlineExceeded = true ∧
       reason = "deadline_exceeded") ∨
      (errors_Is e ContextCanceled = false ∧ errors_Is e ContextDeadlineExceeded = false ∧ reason = "context_done")
  | None => reason = "context_done"
  end.
Definition quiet_end (rounds : list round) (reason : string) : Prop :=
  ∃ r, r ∈ rounds ∧
    match sel r with
    | SelDone cause => done_reason cause reason
    | SelEvent _ => reason = "subscription_closed"
    | SelTick _ => False
    end.

(** The write that failed, and the class of its error. *)
Definition failed_write (rounds : list round) (phase : string) (err : error) : Prop :=
  ∃ r, r ∈ rounds ∧
    ((phase = "heartbeat" ∧ sel r = SelTick (Some err)) ∨ (phase = "event" ∧ sel r = SelEvent (Some err))).
Definition times_out (err : error) : Prop :=
  is_Some (errors_As (λ e, match e with ETimeoutNetError _ => Some tt | _ => None end) err).
Definition write_class (err : error) (kind : string) : Prop :=
  (errors_Is err ContextCanceled = true ∧ kind = "context_canceled") ∨
  (errors_Is err ContextCanceled = false ∧
    ((errors_Is err ContextDeadlineExceeded = true ∧ kind = "deadline_exceeded") ∨
     (errors_Is err ContextDeadlineExceeded = false ∧
       ((times_out err ∧ kind = "timeout") ∨ (¬ times_out err ∧ kind = "write_error"))))).

Lemma sseCloseReason_spec cause : done_reason cause (sseCloseReason cause).
Proof. destruct cause as [e|]; [|done]. unfold done_reason, sseCloseReason. repeat case_match; tauto. Qed.
Lemma sseErrorKind_spec err : write_class err (sseErrorKind err).
Proof.
  unfold write_class, sseErrorKind, times_out. fold as_timeout.
  destruct (errors_Is err ContextCanceled); [by left|right; split; [done|]].
  destruct (errors_Is err ContextDeadlineExceeded); [by left|right; split; [done|]].
  destruct (errors_As as_timeout err); [by left|right]. split; [|done]. by intros [? ?].
Qed.

(** The log and the end of a loop agree with the round that ended it. *)
Definition end_agrees (rounds : list round) (e : stream_end) (sl : option stream_log) : Prop :=
  match e, sl with
  | StillOpen, None => True
  | Ended reason err, Some sl =>
      reason = sl_reason sl ∧
      match sl_failure sl with
      | Some (phase, x) => reason = "write_failed" ∧ err = Some x ∧ failed_write rounds phase x
      | None => err = None ∧ quiet_end rounds reason
      end
  | _, _ => False
  end.

Lemma end_agrees_mono r rounds e sl : end_agrees rounds e sl → end_agrees (r :: rounds) e sl.
Proof.
  destruct e as [|reason err], sl as [[reason' [[phase x]|]]|]; simpl; try done.
  - intros (? & ? & ? & r' & Hr & ?). split_and!; try done. exists r'. split; [by apply list_elem_of_further|done].
  - intros (? & ? & r' & Hr & ?). split_and!; try done. exists r'. split; [by apply list_elem_of_further|done].
Qed.

Lemma events_loop_log_agrees rounds sub : ∀ h out h' out' e sl,
  events_loop_log rounds sub h out = Some (h', out', e, sl) → end_agrees rounds e sl.
Proof.
  induction rounds as [|r rounds IH]; intros h out h' out' e sl; simpl; [by intros; simplify_eq|].
  assert (r ∈ r :: rounds) as Hin by apply list_elem_of_here.
  destruct (sel r) as [cause|[err|]|result] eqn:Es.
  - intros [= <- <- <- <-]. split; [done|split; [done|]]. exists r. rewrite Es. by split; [|apply sseCloseReason_spec].
  - intros [= <- <- <- <-]. do 3 (split; [done|]). exists r. rewrite Es. by split; [|left].
  - intros H. by eapply end_agrees_mono, IH.
  - destruct (chans _ !! sub) as [[[|ev evs] [] ? ?]|]; try done.
    1: by intros [= <- <- <- <-]; split; [done|split; [done|]]; exists r; rewrite Es.
    all: destruct result; [|by intros H; eapply end_agrees_mono, IH].
    all: intros [= <- <- <- <-]; do 3 (split; [done|]); exists r; rewrite Es; by split; [|right].
Qed.

(** (C17) The log of an event stream is about the connection only.  A caller who is
    refused - the job is missing or not his, the connection cannot stream, the hub
    is closed - leaves no record.  Every other stream leaves one opening record
    with the request and the job and, when it ends, one closing record: with the
    way its context ended, or the closing of its channel, no failed writes and no
    error returned; or, when a write failed, with the reason [write_failed] and one
    failure, after a warning with the phase of that write and the class of the
    error the handler returns - cancelled, past its deadline, timed out or else -
    never its text.  However many events were sent, nothing of them is logged. *)
Theorem sse_log_connection_level {S} `{!JobRepository S} l rid elapsed (env : repo_env) (s : S) w principal
    flusher rounds h id h' w' out err log :
  EventsL l rid elapsed env s w principal flusher rounds h id = Some (h', w', out, err, log) →
  let opening :=
    mkLogRecord 0 "sse connection opened"
      (l ++ [("event", VString "sse.connection.opened"); ("request_id", VString rid); ("job_id", VInt id)]) in
  let closing (reason : string) (failures : Z) :=
    mkLogRecord 0 "sse connection closed"
      (l ++ [("event", VString "sse.connection.closed"); ("request_id", VString rid); ("job_id", VInt id);
             ("reason", VString reason); ("write_failures", VInt failures);
             ("duration_ms", VInt (elapsed ÷ 1000000))]) in
  let failure (phase kind : string) :=
    mkLogRecord 4 "sse write failed"
      (l ++ [("event", VString "sse.write.failed"); ("request_id", VString rid); ("job_id", VInt id);
             ("phase", VString phase); ("error_kind", VString kind)]) in
  (((∃ e, readable_job env s principal id = Err e) ∨ flusher = false ∨ ∃ h1 e, Subscribe h id = Some (h1, Err e)) ∧
     log = [] ∧ out = [] ∧ ∃ e, err = Some (Some e)) ∨
  ((∃ job, readable_job env s principal id = Ok job) ∧ flusher = true ∧ (∃ h1 sub, Subscribe h id = Some (h1, Ok sub)) ∧
     ((err = None ∧ log = [opening]) ∨
      (∃ reason, err = Some None ∧ quiet_end rounds reason ∧ log = [opening; closing reason 0%Z]) ∨
      (∃ phase kind e, err = Some (Some e) ∧ failed_write rounds phase e ∧ write_class e kind ∧
         log = [opening; failure phase kind; closing "write_failed" 1%Z]))).
Proof.
  unfold EventsL. destruct (readable_job _ _ _ _) as [job|e]; [|intros [= <- <- <- <- <-]; left; split; eauto].
  destruct flusher; simpl; [|intros [= <- <- <- <- <-]; left; split; eauto].
  destruct (Subscribe h id) as [[h1 [sub|e]]|]; [|intros [= <- <- <- <- <-]; left; split; eauto|done].
  destruct (events_loop_log rounds sub h1 []) as [[[[h2 out2] e2] sl]|] eqn:El; [|done].
  apply events_loop_log_agrees in El. intros H. right. split_and!; [by eauto|done|by eauto|]. revert H.
  destruct e2 as [|reason r], sl as [[reason' [[phase x]|]]|]; simpl in El; try done.
  - intros [= <- <- <- <- <-]. by left.
  - destruct El as (<- & -> & -> & Hf). intros [= <- <- <- <- <-]. right; right.
    exists phase, (sseErrorKind x), x. split_and!; [done|done|apply sseErrorKind_spec|done].
  - destruct El as (<- & -> & Hq). intros [= <- <- <- <- <-]. right; left. by exists reason.
Qed.

Lemma sse_log_connection_level_witness :
  ∃ h' w' out err,
    EventsL defaultSSELogger "rid-1" 2500000 no_env ex_store empty_response (Some ex_owner) true ex_rounds ex_hub 1 =
      Some (h', w', out, err,
        [mkLogRecord 0 "sse connection opened"
           [("component", VString "sse"); ("event", VString "sse.connection.opened");
            ("request_id", VString "rid-1"); ("job_id", VInt 1)];
         mkLogRecord 0 "sse connection closed"
           [("component", VString "sse"); ("event", VString "sse.connection.closed");
            ("request_id", VString "rid-1"); ("job_id", VInt 1); ("reason", VString "client_closed");
            ("write_failures", VInt 0); ("duration_ms", VInt 2)]]) ∧
    length (event_frames out) = 2.
Proof.
  destruct (EventsL defaultSSELogger "rid-1" 2500000 no_env ex_store empty_response (Some ex_owner) true ex_rounds ex_hub 1)
    as [[[[[h' w'] out] err] log]|] eqn:E; [|vm_compute in E; discriminate].
  pose proof (sse_log_connection_level _ _ _ _ _ _ _ _ _ _ _ _ _ _ _ _ E) as H.
  exists h', w', out, err.
  destruct H as [(_ & H & _)|(_ & _ & _ & [(H & _)|[(reason & _ & _ & H)|(phase & kind & e & H & _)]])].
  all: vm_compute in E; injection E as <- <- <- <- <-; try discriminate.
  split; [|reflexivity]. vm_compute in H. injection H as <-. reflexivity.
Defined.
End Sse.

(** ** The shutdown summary *)
Module Shutdown.

Definition outcome_name (o : shutdownOutcome) : string :=
  match o with
  | shutdownOutcomeGraceful => "graceful"
  | shutdownOutcomeForced => "forced"
  | shutdownOutcomeTimedOut => "timed_out"
  | shutdownOutcomeFailed => "failed"
  end.

(** What ended the run, as the select of [Run] names it. *)
Definition shutdownTrigger (s : APIServer) (t : trigger) : string :=
  match t with
  | CtxDone => "context"
  | ServerError name _ => String.append name "_server_error"
  | GrpcDone =>
      match run_error s GrpcDone with
      | Some _ => "grpc_server_error"
      | None => "grpc_stopped"
      end
  end.

Definition logShutdownStarted (l : logger) (trigger : string) (timeout : Z) : list log_record :=
  LogAttrs l LevelInfo "shutdown started"
    [("event", VString "shutdown.started"); ("trigger", VString trigger);
     ("shutdown_timeout_ms", VInt (Retry.Milliseconds timeout))].

Definition queue_attrs (q : Queue) : list attr := [("queue_depth", VInt (Z.of_nat (length (ch q))))].
Definition hub_attrs (h : option Hub) : list attr :=
  match h with
  | None => []
  | Some h => [("sse_subscribers", VInt (subscribers h)); ("sse_events_total", VInt (eventsTotal h));
               ("sse_drops_total", VInt (dropsTotal h))]
  end.
Definition pool_attrs (p : Lifecycle.WorkerPool) : list attr :=
  match Lifecycle.LastStopOutcome p with
  | (o, true) => [("repaired_active_jobs", VInt (RepairedActiveJobs o))]
  | (_, false) => []
  end.

Definition logShutdownSummary (l : logger) (s : APIServer) (elapsed : Z) (trigger : string)
    (runErr cleanupErr : option error) : list log_record :=
  let outcome := outcome_name (overallShutdownOutcome runErr cleanupErr) in
  let level := if streqb outcome (outcome_name shutdownOutcomeGraceful) then LevelInfo else LevelWarn in
  LogAttrs l level "shutdown completed"
    ([("event", VString "shutdown.completed"); ("trigger", VString trigger); ("outcome", VString outcome);
      ("duration_ms", VInt (Retry.Milliseconds elapsed))] ++
     queue_attrs (queue s) ++ hub_attrs (eventHub s) ++ pool_attrs (pool s)).

(** The end of [Run], from the trigger on: the record that starts the shutdown,
    the cleanup and the summary. *)
Definition finishL (l : logger) (timeout elapsed : Z) (e : cleanup_env) (t : trigger) (s : APIServer)
  : option (APIServer * option error * list log_record) :=
  let name := shutdownTrigger s t in
  match cleanup e s with
  | None => None
  | Some (s', cleanupErr) =>
      Some (s', errors_Join [run_error s t; cleanupErr],
            logShutdownStarted l name timeout ++
            logShutdownSummary l s' elapsed name (run_error s t) cleanupErr)
  end.

(** [run_started] with its log from the trigger on. *)
Definition run_startedL (l : logger) (timeout elapsed : Z) (e : run_env) (s : APIServer)
  : option (APIServer * option error * list log_record) :=
  match Lifecycle.Start (pool s) (re_workers e) with
  | (p, Some err) =>
      Some (mkServer (readiness s) p (queue s) (grpcRuntime s) (eventHub s) false false (trace s), Some err, [])
  | (p, None) =>
      match grpc_start (grpcRuntime s) with
      | (g, Some err) =>
          let p := (Stop p (re_start_stop e)).1 in
          Some (mkServer (readiness s) p (queue s) g (eventHub s) false false (trace s), Some err, [])
      | (g, None) =>
          let s := mkServer true p (queue s) g (eventHub s) (openHTTP s) (openHTTPS s)
                     (trace s ++ [SetReady]) in
          finishL l timeout elapsed (re_cleanup e) (re_trigger e) (re_serving e s)
      end
  end.

Lemma run_startedL_erasure l timeout elapsed e s :
  fst <$> run_startedL l timeout elapsed e s = run_started e s.
Proof.
  unfold run_startedL, run_started, finishL. destruct (Lifecycle.Start _ _) as [p [err|]]; [done|].
  destruct (grpc_start _) as [g [err|]]; [done|]. by destruct (cleanup _ _) as [[s' err]|].
Qed.

Lemma errors_Join_None runErr cleanupErr :
  errors_Join [runErr; cleanupErr] = None ↔ runErr = None ∧ cleanupErr = None.
Proof. destruct runErr, cleanupErr; unfold errors_Join; simpl; naive_solver. Qed.

Lemma graceful_iff runErr cleanupErr :
  overallShutdownOutcome runErr cleanupErr = shutdownOutcomeGraceful ↔ runErr = None ∧ cleanupErr = None.
Proof. unfold overallShutdownOutcome. repeat case_match; naive_solver. Qed.

Definition defaultLogger : logger := component "api_server".

(** The shutdown summary tells how the run ended: once supervision is over
    the run leaves the record that starts the shutdown and exactly one summary
    after the cleanup, with the same trigger; its outcome is graceful and its
    level an information exactly when the run returns without an error, and a
    warning otherwise. *)
Theorem summary_truthful timeout elapsed e t s s' err log :
  finishL defaultLogger timeout elapsed e t s = Some (s', err, log) →
  ∃ started summary, log = [started; summary] ∧
    lookup_attr "trigger" started = Some (VString (shutdownTrigger s t)) ∧
    lookup_attr "trigger" summary = Some (VString (shutdownTrigger s t)) ∧
    lookup_attr "event" summary = Some (VString "shutdown.completed") ∧
    (lookup_attr "outcome" summary = Some (VString "graceful") ↔ err = None) ∧
    lr_level summary = (if bool_decide (err = None) then LevelInfo else LevelWarn).
Proof.
  unfold finishL. destruct (cleanup e s) as [[s1 cleanupErr]|]; [|done]. intros [= <- <- <-].
  unfold logShutdownStarted, logShutdownSummary, LogAttrs. cbn [app].
  eexists _, _. split; [reflexivity|].
  assert (errors_Join [run_error s t; cleanupErr] = None ↔
    overallShutdownOutcome (run_error s t) cleanupErr = shutdownOutcomeGraceful) as Hg
    by (by rewrite errors_Join_None graceful_iff).
  destruct (overallShutdownOutcome _ _) eqn:Ho.
  - rewrite bool_decide_true; [by apply Hg|]. split_and!; try done. by split; [intros _; apply Hg|].
  - rewrite bool_decide_false; [by intros H%Hg|]. split_and!; try done. split; [done|by intros H%Hg].
  - rewrite bool_decide_false; [by intros H%Hg|]. split_and!; try done. split; [done|by intros H%Hg].
  - rewrite bool_decide_false; [by intros H%Hg|]. split_and!; try done. split; [done|by intros H%Hg].
Qed.

Lemma summary_truthful_witness :
  ∃ s' err log started summary,
    finishL defaultLogger (10 * 10 ^ 9) (3 * 10 ^ 9) ex_cleanup CtxDone ex_server = Some (s', err, log) ∧
    log = [started; summary] ∧ lr_level summary = LevelWarn ∧
    lookup_attr "outcome" summary = Some (VString "forced").
Proof.
  destruct (finishL defaultLogger (10 * 10 ^ 9) (3 * 10 ^ 9) ex_cleanup CtxDone ex_server)
    as [[[s' err] log]|] eqn:E; [|vm_compute in E; discriminate].
  destruct (summary_truthful _ _ _ _ _ _ _ _ E) as (started & summary & Hl & _ & _ & _ & Ho & Hlev).
  exists s', err, log, started, summary. split; [reflexivity|]. split; [exact Hl|].
  vm_compute in E. injection E as <- <- <-. injection Hl as <- <-.
  split; [exact Hlev|reflexivity].
Defined.
End Shutdown.

(** ** Access, recovery and outbound request records *)
Module Access.

(** [LoggerWithLogger] and [RecoverWithLogger]; [d] is the duration of the
    request, [stack] the text of [debug.Stack]. *)
Definition record_of (l : logger) (d : Z) (stack : string) (r : Chain.record) : list log_record :=
  match r with
  | Chain.Access e =>
      LogAttrs l (Chain.en_level e) "http request completed"
        [("event", VString "http.request.completed"); ("method", VString (Chain.en_method e));
         ("route", VString (Chain.en_route e)); ("status", VInt (Chain.en_status e));
         ("bytes", VInt (Chain.en_bytes e)); ("duration_ms", VInt (Retry.Milliseconds d));
         ("request_id", VString (Chain.en_rid e)); ("scheme", VString (Chain.en_scheme e))]
  | Chain.PanicRecovered rid =>
      LogAttrs l LevelError "panic recovered"
        [("event", VString "http.panic.recovered"); ("request_id", VString rid);
         ("error_kind", VString "panic"); ("stack", VString stack)]
  end.

(** The records of [InstrumentedProfileClient.FetchProfile]. *)
Definition outbound_of (l : logger) (host requestID : string) (d : Z) (e : Metrics.outbound_entry)
  : list log_record :=
  let common (event : string) :=
    [("event", VString event); ("operation", VString "profile.fetch"); ("request_id", VString requestID);
     ("host", VString host); ("method", VString "GET"); ("route", VString "/profiles/{user_id}");
     ("status", VInt (Metrics.oe_status e)); ("duration_ms", VInt (Retry.Milliseconds d))] in
  match Metrics.oe_kind e with
  | Some kind => LogAttrs l LevelWarn "outbound request failed"
                   (common "profile.request.failed" ++ [("error_kind", VString kind)])
  | None => LogAttrs l LevelInfo "outbound request completed" (common "profile.request.completed")
  end.

(** The log of an instrumented exchange depends on the kind and the status of
    its error only. *)
Lemma outbound_private l host requestID d m e1 e2 : Retry.alike e1 e2 →
  mbind (M := list) (outbound_of l host requestID d) (Metrics.InstrumentedFetchProfile host true (Err e1) d m).1.2 =
  mbind (M := list) (outbound_of l host requestID d) (Metrics.InstrumentedFetchProfile host true (Err e2) d m).1.2.
Proof. intros (Hk & Hs & _). unfold Metrics.InstrumentedFetchProfile. cbn [fst snd]. by rewrite Hk Hs. Qed.
End Access.

(** ** The field list of the policy

    The fields docs/observability/logging-policy.md allows by default, for
    security decisions, for retries and for event streams, and the fields the
    records have besides them. *)
Definition allowed_fields : list string :=
  ["component"; "event"; "operation"; "method"; "route"; "status"; "duration_ms"; "outcome"; "reason";
   "error_kind"; "request_id"].
Definition security_fields : list string := ["authn_kind"; "authz_kind"; "cors_denial"].
Definition retry_fields : list string :=
  ["attempt"; "attempts"; "max_attempts"; "backoff_ms"; "deadline_remaining_ms"; "error_kind"; "outcome"].
Definition sse_fields : list string := ["job_id"].

Definition within (fields : list string) (log : list log_record) : bool :=
  forallb (λ r, forallb (λ k, existsb (streqb k) fields) (keys r)) log.

Lemma denial_fields r k :
  within (allowed_fields ++ security_fields ++ ["decision"]) (Audit.logAuthNDenied Audit.defaultSecurityLogger r k) = true ∧
  within (allowed_fields ++ security_fields ++ ["decision"]) (Audit.logAuthZDenied Audit.defaultSecurityLogger r k) = true.
Proof. done. Qed.

Lemma retry_scheduled_fields c rid attempt delay err until :
  within (allowed_fields ++ retry_fields ++ ["retryable"])
    (Retry.logRetryScheduled (Some Retry.defaultOutboundLogger) c rid attempt delay err until) = true.
Proof. unfold Retry.logRetryScheduled. destruct (_ <=? _)%Z; [done|]. by destruct until. Qed.

Lemma retry_completed_fields c rid attempts elapsed outcome err until :
  within (allowed_fields ++ retry_fields ++ ["retryable"])
    (Retry.logRetryCompleted (Some Retry.defaultOutboundLogger) c rid attempts elapsed outcome err until) = true.
Proof. unfold Retry.logRetryCompleted. destruct (_ || _)%bool; [done|]. by destruct err, until. Qed.

Lemma stream_fields rid id elapsed s :
  within (allowed_fields ++ sse_fields ++ ["phase"; "write_failures"])
    (Sse.stream_records Sse.defaultSSELogger rid id elapsed s) = true.
Proof. by destruct s as [[reason [[phase err]|]]|]. Qed.

(** Three of these fields are not on the policy's lists. *)
Lemma fields_off_policy :
  ∃ r k err,
    within (allowed_fields ++ security_fields) (Audit.logAuthNDenied Audit.defaultSecurityLogger r k) = false ∧
    within (allowed_fields ++ retry_fields)
      (Retry.logRetryScheduled (Some Retry.defaultOutboundLogger) Retry.ex_client "rid" 1 0 err None) = false ∧
    within (allowed_fields ++ sse_fields)
      (Sse.closed Sse.defaultSSELogger "rid" 1 "client_closed" 0 0) = false.
Proof.
  exists (Audit.mkLogReq "GET" "" ""), "other", (EText "").
  split_and!; vm_compute; reflexivity.
Qed.
