(* ===== verification/Process.v ===== *)
(** * The process

    Models [main] of [cmd/api/main.go] (exit codes, the logger, the deferred
    telemetry shutdown, the list of readiness checks), the HTTP server settings
    of [internal/api/server.go], [internal/db/stats.go] and the accessors of
    [internal/telemetry/runtime.go], over the models of the other files. *)
From Stdlib Require Import Ascii.
From S2P Require Import Prelude.
From S2P Require Import GoErrors.
From S2P Require Import GoStrings.
From S2P Require Import HttpErrors.
From S2P Require Import Security.
From S2P Require Import Middleware.
From S2P Require Import Queue.
From S2P Require Import Stream.
From S2P Require Import WorkerPool.
From S2P Require Import GrpcServer.
From S2P Require Import Server.
From S2P Require Import Router.
From S2P Require Import Config.
From S2P Require Import ConfigLoad.
From S2P Require Import GrpcTransport.
From S2P Require Import Telemetry.
From S2P Require Import Wiring.
From S2P Require Import ErrorText.
From S2P Require Import LogPolicy.

(** ** Main *)

(** What the process leaves behind: its exit code, the record of [main] and the
    resources it opened and released. *)
Record outcome := mkOutcome { oc_exit : Z; oc_log : list log_record; oc_trace : list event }.

Definition fallbackLogger : Config.logger := Config.mkLogger TextHandler 0 false.

Section main.
Context `{GoParsers} {IP : Type} (ParseCIDR : string → option (IP → bool)) (ParseIP : string → option IP)
  (To4 : IP → bool) (lib : error → string) (durstr : Z → string).

Definition exited (e : error) : list log_record :=
  LogAttrs (component "main") LevelError "application exited" [("err", VString (Error lib durstr e))].

(** [main]: when the logger cannot be built the variable holds a nil logger,
    and reporting that panics. *)
Definition main (env : string → option string) (w : world) : option outcome :=
  match Load env with
  | Err e => Some (mkOutcome 1 (exited e) [])
  | Ok cfg =>
      match NewLogger true (cfg_Logging cfg) with
      | Err _ => None
      | Ok _ =>
          match run ParseCIDR ParseIP To4 w cfg with
          | None => None
          | Some (tr, Some e) => Some (mkOutcome 1 (exited e) tr)
          | Some (tr, None) => Some (mkOutcome 0 [] tr)
          end
      end
  end.

(** The hub a server closes is one its operations reach. *)
Definition hub_fine (w : world) : Prop :=
  ∀ s, hub_ready (re_cleanup (w_run w)) (re_serving (w_run w) s).

Lemma run_started_total e s : (∀ s, hub_ready (re_cleanup e) (re_serving e s)) → is_Some (run_started e s).
Proof.
  intros Hh. unfold run_started. destruct (Lifecycle.Start _ _) as [p [err|]]; [by eexists|].
  destruct (grpc_start _) as [g [err|]]; [by eexists|]. cbv zeta.
  match goal with |- context [cleanup _ ?x] => destruct (cleanup_returns (re_cleanup e) x (Hh _)) as (? & ? & -> & _) end.
  by eexists.
Qed.

Lemma Run_total e s : (∀ s, hub_ready (re_cleanup e) (re_serving e s)) → is_Some (Run e s).
Proof.
  intros Hh. unfold Run. destruct (re_listen e); [by eexists|]. destruct (re_tls e); [|by apply run_started_total].
  destruct (re_cert e); [by eexists|]. destruct (re_listen_tls e); [by eexists|]. by apply run_started_total.
Qed.

Lemma with_defer_total r p : is_Some p → is_Some (with_defer r p).
Proof. intros [[tr err] ->]. by eexists. Qed.

Lemma serve_total w cfg q hub rt : hub_fine w → (0 < MaxParallel (cfg_Bulkhead cfg))%Z →
  is_Some (serve w cfg q hub rt).
Proof.
  intros Hh Hb. unfold serve, Bulkhead.NewBulkhead. destruct (Z.ltb_spec (MaxParallel (cfg_Bulkhead cfg)) 0); [lia|].
  destruct (Auth.NewAuthorizeAPI _); [|by eexists].
  destruct (Run_total (server_env w cfg) (NewAPIServer Lifecycle.NewWorkerPool q (Iface rt) (Some hub)) Hh)
    as [[s err] ->]. by eexists.
Qed.

Lemma run_grpc_total w cfg q hub : hub_fine w → (0 < MaxParallel (cfg_Bulkhead cfg))%Z →
  is_Some (run_grpc w cfg q hub).
Proof.
  intros Hh Hb. unfold run_grpc. destruct (grpc_Enable _); [|by apply serve_total].
  destruct (Construct.NewRuntimeWithConfig _ _ _ _ _) as [b|]; [|by eexists].
  destruct (Construct.NewJobsClientWithConfig _ _ _ _ _); [|by eexists].
  destruct (with_defer_total RGrpcConn (serve w cfg q hub (Some (Construct.b_runtime b)))) as [[tr err] ->];
    [by apply serve_total|by eexists].
Qed.

(** With an accepted configuration no constructor panics. *)
Lemma run_total w cfg : hub_fine w → config_ok cfg → is_Some (run ParseCIDR ParseIP To4 w cfg).
Proof.
  intros Hh Hc. pose proof (co_limits cfg Hc) as Hl. unfold limits_ok in Hl.
  do 8 (apply list.Forall_cons in Hl as [? Hl]).
  assert (∀ hub, is_Some (run_transport w cfg hub)) as Ht.
  { intros hub. unfold run_transport, Queue.New. destruct (Z.ltb_spec (QueueSize (cfg_Pool cfg)) 0); [lia|].
    apply with_defer_total. destruct (new_verifier _); [by apply run_grpc_total|by eexists]. }
  unfold run. destruct (NewFailOpen _ _ _ _) as [ev [r|e]]; [|by eexists]. apply with_defer_total.
  unfold run_storage. destruct (NewProxyAPI _ _ _ _); [|by eexists].
  unfold NewHub. destruct (Z.leb_spec (st_SubscriberBuffer (cfg_Streaming cfg)) 0); [lia|].
  destruct (streqb _ "memory"); [done|]. destruct (streqb _ "postgres"); [|by eexists].
  unfold Open. destruct (w_sqlOpen w); [by eexists|]. destruct (w_ping w); [by eexists|]. by apply with_defer_total.
Qed.

(** *** The listener of the gRPC server *)

(** While the server serves nothing but its own operations writes its trace, and
    its runtime and its hub are not replaced by nothing. *)
Record serving_fine (w : world) : Prop := {
  sf_hub : hub_fine w;
  sf_trace : ∀ s, trace (re_serving (w_run w) s) = trace s;
  sf_grpc : ∀ s rt, grpcRuntime s = Iface rt → ∃ rt', grpcRuntime (re_serving (w_run w) s) = Iface rt';
  sf_events : ∀ s, is_Some (eventHub s) → is_Some (eventHub (re_serving (w_run w) s));
}.

(** The whole run of a server, from ready to closed. *)
Definition full_run : list action :=
  [SetReady; SetNotReady; QueueStopAccepting; StopHTTP; StopGRPC; StopPool; CloseHub].

(** After [tr] opened the listener: it was closed at once, start-up failing; or
    the connection was opened and the server ran, to the end of its shutdown, or
    not at all since a port could not be bound. *)
Definition listener_settled (w : world) (cfg : Config) (err : option error) (post : list event) : Prop :=
  (∃ post', post = Closed RGrpcListener :: post' ∧ is_Some err) ∨
  (∃ acts post', post = Opened RGrpcConn :: Served acts :: post' ∧
     (acts = full_run ∨
      acts = [] ∧ is_Some err ∧ bind_error (server_env w cfg) = err)).
Definition listener_accounted (w : world) (cfg : Config) (p : prog) : Prop :=
  ∀ tr err, p = Some (tr, err) →
  ∀ pre post, tr = pre ++ Opened RGrpcListener :: post → listener_settled w cfg err post.

Lemma Run_serves e q rt h : bind_error e = None → Runtime.state rt = Runtime.runtimeStateNew →
  (∀ s, hub_ready (re_cleanup e) (re_serving e s)) →
  (∀ s, trace (re_serving e s) = trace s) →
  (∀ s r, grpcRuntime s = Iface r → ∃ r', grpcRuntime (re_serving e s) = Iface r') →
  (∀ s, is_Some (eventHub s) → is_Some (eventHub (re_serving e s))) →
  ∃ s err, Run e (NewAPIServer Lifecycle.NewWorkerPool q (Iface (Some rt)) (Some h)) = Some (s, err) ∧
    trace s = full_run.
Proof.
  intros Hb Hnew Hh Ht Hg He.
  destruct (Run_bound e (NewAPIServer Lifecycle.NewWorkerPool q (Iface (Some rt)) (Some h)) Hb) as [b ->].
  unfold run_started. cbn -[cleanup Runtime.Start]. unfold Runtime.Start. cbn -[cleanup].
  rewrite decide_False; [by intros []|]. cbn -[cleanup].
  match goal with |- context [cleanup _ (re_serving e ?x)] => set (s0 := x) end.
  destruct (Hg s0 _ eq_refl) as [r' Hr]. destruct (He s0 ltac:(by eexists)) as [h' Hh'].
  destruct (cleanup_returns (re_cleanup e) (re_serving e s0) (Hh s0))
    as (s' & err & -> & _ & _ & _ & _ & _ & _ & _ & Htr).
  eexists _, _. split; [done|]. by rewrite Htr Ht Hr Hh'.
Qed.

Lemma NewRuntimeWithConfig_new keypair readFile pem listen cfg b :
  Construct.NewRuntimeWithConfig keypair readFile pem listen cfg = Ok b →
  Runtime.state (Construct.b_runtime b) = Runtime.runtimeStateNew.
Proof. unfold Construct.NewRuntimeWithConfig. intros E. repeat (case_match; try discriminate E); by injection E as <-. Qed.

Lemma default_policy_Ok : Auth.NewAuthorizeAPI DefaultPolicy = Ok API.policy_rules.
Proof.
  assert (match Auth.NewAuthorizeAPI DefaultPolicy with Ok _ => true | Err _ => false end = true) as Hok
    by (vm_compute; reflexivity).
  unfold API.policy_rules. by destruct (Auth.NewAuthorizeAPI DefaultPolicy).
Qed.

Lemma accounted_fail w cfg e : listener_accounted w cfg (fail e).
Proof. intros ? ? [= <- <-] pre post E. by destruct pre. Qed.

Lemma accounted_defer w cfg r p : r ≠ RGrpcListener → listener_accounted w cfg p →
  listener_accounted w cfg (with_defer r p).
Proof.
  intros Hr Hp. destruct p as [[tr err]|]; [|done]. intros ? ? [= <- <-] pre post E.
  destruct pre as [|ev pre]; [by injection E as E _; destruct Hr|]. injection E as _ E.
  assert (∃ post', post = post' ++ [Closed r] ∧ tr = pre ++ Opened RGrpcListener :: post') as (post' & -> & ->).
  { destruct (exists_last (l := post)) as (post' & x & ->).
    - intros ->. by apply app_inj_tail in E as [_ E].
    - rewrite app_comm_cons app_assoc in E. apply app_inj_tail in E as [-> <-]. eauto. }
  destruct (Hp _ _ eq_refl pre post' eq_refl) as [(q & -> & ?)|(acts & q & -> & ?)]; [left|right].
  - by eexists.
  - by eexists _, _.
Qed.

Lemma accounted_quiet w cfg p :
  (∀ tr err, p = Some (tr, err) → Opened RGrpcListener ∉ tr) → listener_accounted w cfg p.
Proof.
  intros Hq tr err Hp pre post ->. destruct (Hq _ _ Hp). rewrite elem_of_app elem_of_cons. tauto.
Qed.

Lemma run_grpc_accounted w cfg q hub : serving_fine w → listener_accounted w cfg (run_grpc w cfg q hub).
Proof.
  intros [Hh Ht Hg He]. unfold run_grpc.
  assert (∀ rt tr err, serve w cfg q hub rt = Some (tr, err) → tr = [] ∨ ∃ a, tr = [Served a]) as Hserve.
  { intros rt tr err. unfold serve. destruct (Bulkhead.NewBulkhead _); [|done].
    destruct (Auth.NewAuthorizeAPI _); [|by intros [= <- _]; left].
    destruct (Run _ _) as [[s e]|]; [|done]. intros [= <- _]. by right; eexists. }
  destruct (grpc_Enable _).
  2:{ apply accounted_quiet. intros tr err [->|[a ->]]%Hserve; [by intros ?%elem_of_nil|by intros ?%list_elem_of_singleton]. }
  destruct (Construct.NewRuntimeWithConfig _ _ _ _ _) as [b|e] eqn:Eb; [|apply accounted_fail].
  apply NewRuntimeWithConfig_new in Eb.
  destruct (Construct.NewJobsClientWithConfig _ _ _ _ _) as [conn|e].
  2:{ intros ? ? [= <- <-] pre post E. destruct pre as [|x [|y [|]]]; simplify_eq/=. left. eauto. }
  unfold serve. destruct (Bulkhead.NewBulkhead _); [|done].
  rewrite default_policy_Ok.
  set (sv := NewAPIServer _ _ _ _).
  destruct (bind_error (server_env w cfg)) as [x|] eqn:Hb.
  - destruct (Run_unbound (server_env w cfg) sv x Hb eq_refl) as (s' & -> & Htr). cbn. rewrite Htr.
    intros ? ? [= <- <-] pre post E. destruct pre as [|? [|? [|? [|? [|]]]]]; simplify_eq/=. right.
    eexists _, _. split; [done|]. right. by rewrite Hb.
  - destruct (Run_serves (server_env w cfg) q (Construct.b_runtime b) hub Hb Eb Hh Ht Hg He) as (s' & err & Hr & Htr).
    fold sv in Hr. rewrite Hr. cbn. rewrite Htr.
    intros ? ? [= <- <-] pre post E. destruct pre as [|? [|? [|? [|? [|]]]]]; simplify_eq/=. right.
    eexists _, _. split; [done|]. by left.
Qed.

Lemma run_accounted w cfg : serving_fine w → listener_accounted w cfg (run ParseCIDR ParseIP To4 w cfg).
Proof.
  intros Hs.
  assert (∀ hub, listener_accounted w cfg (run_transport w cfg hub)) as Ht.
  { intros hub. unfold run_transport. destruct (Queue.New _); [|done]. apply accounted_defer; [done|].
    destruct (new_verifier _); [by apply run_grpc_accounted|apply accounted_fail]. }
  unfold run. destruct (NewFailOpen _ _ _ _) as [ev [r|e]]; [|apply accounted_fail]. apply accounted_defer; [done|].
  unfold run_storage. destruct (NewProxyAPI _ _ _ _); [|apply accounted_fail]. destruct (NewHub _) as [hub|]; [|done].
  destruct (streqb _ "memory"); [apply Ht|]. destruct (streqb _ "postgres"); [|apply accounted_fail].
  unfold Open. destruct (w_sqlOpen w); [apply accounted_fail|].
  destruct (w_ping w); [|by apply accounted_defer; [|apply Ht]].
  apply accounted_quiet. intros ? ? [= <- _]. rewrite !elem_of_cons elem_of_nil. by intros [?|[?|?]].
Qed.

(** (C12) The process always ends properly: whatever the environment and the
    outside world, [main] does not panic - no constructor, not the hub's shutdown,
    not the report of a bad configuration - and exits with 0 or 1.  It exits with 0
    only after a loaded configuration was run to its end without an error, and then
    reports nothing; it exits with 1 when loading or running failed, and then the
    report is one record at level error, [application exited], with the text of
    that error.  Telemetry, the database, the transport and the gRPC connection,
    where opened, are released in reverse order.  The gRPC listener, once open, is
    closed at once when the client cannot be built, and otherwise by the shutdown
    of the server, which ran to its end; only when a port of the server cannot be
    bound is the listener left to the exit of the process. *)
Theorem main_ends_properly env w :
  serving_fine w →
  ∃ o, main env w = Some o ∧
    ((oc_exit o = 0%Z ∧ oc_log o = [] ∧
      ∃ cfg, Load env = Ok cfg ∧ run ParseCIDR ParseIP To4 w cfg = Some (oc_trace o, None)) ∨
     (oc_exit o = 1%Z ∧ ∃ e,
      oc_log o = [mkLogRecord 8 "application exited"
                    [("component", VString "main"); ("err", VString (Error lib durstr e))]] ∧
      ((Load env = Err e ∧ oc_trace o = []) ∨
       ∃ cfg, Load env = Ok cfg ∧ run ParseCIDR ParseIP To4 w cfg = Some (oc_trace o, Some e)))) ∧
    (∀ st, unwind (oc_trace o) st = Some st) ∧
    (∀ pre post, oc_trace o = pre ++ Opened RGrpcListener :: post →
      (∃ post', post = Closed RGrpcListener :: post' ∧ oc_exit o = 1%Z) ∨
      (∃ acts post', post = Opened RGrpcConn :: Served acts :: post' ∧
        (acts = [SetReady; SetNotReady; QueueStopAccepting; StopHTTP; StopGRPC; StopPool; CloseHub] ∨
         acts = [] ∧ oc_exit o = 1%Z ∧ ∃ cfg, Load env = Ok cfg ∧ is_Some (bind_error (server_env w cfg))))).
Proof.
  intros Hs. unfold main. destruct (Load env) as [cfg|e] eqn:Hl.
  2:{ eexists; split; [reflexivity|]; split; [right; eauto 10|split; [done|]]. by intros [|? ?] ?. }
  pose proof (Load_config_ok env cfg Hl) as Hc.
  destruct (co_logging cfg Hc) as [lg ->].
  destruct (run_total w cfg (sf_hub w Hs) Hc) as [[tr err] Hr]. rewrite Hr.
  assert (∀ st, unwind tr st = Some st) as Hu.
  { pose proof (run_releases ParseCIDR ParseIP To4 w cfg) as Hrel. by rewrite Hr in Hrel. }
  pose proof (run_accounted w cfg Hs tr err Hr) as Hacc.
  destruct err as [e|]; eexists; (split; [reflexivity|split; [|split; [done|]]]).
  1: right; eauto 10.
  2: left; eauto 10.
  all: intros pre post Hp; destruct (Hacc pre post Hp) as
    [(post' & -> & [? [=]])|(acts & post' & -> & [->|(-> & [? [=]] & Hb)])].
  all: first [by left; eauto|right; eexists _, _; split; [done|]].
  all: first [by left|right; split_and!; [done|done|]]. exists cfg. by rewrite Hb.
Qed.
End main.

(** *** Which configurations start *)
Section startup.
Context `{GoParsers} {IP : Type} (ParseCIDR : string → option (IP → bool)) (ParseIP : string → option IP)
  (To4 : IP → bool).

(** The files and the name that mutual TLS needs: three for the server, four for
    its client. *)
Definition server_files (g : GRPCTLSConfig) : list string := [gtls_CertFile g; gtls_KeyFile g; gtls_ClientCAFile g].
Definition client_files (g : GRPCTLSConfig) : list string :=
  [gtls_ClientCertFile g; gtls_ClientKeyFile g; gtls_ServerCAFile g; gtls_ServerName g].
Definition named (l : list string) : Prop := Forall (λ f, TrimSpace f ≠ "") l.

(** What [Load] does not look at: whether there is a storage of that name, and
    whether gRPC over TLS has all of its files. *)
Definition deployable (c : Config) : Prop :=
  (db_StorageBackend (cfg_DB c) = "memory" ∨ db_StorageBackend (cfg_DB c) = "postgres") ∧
  (grpc_Enable (cfg_GRPC c) = true → gtls_Enable (grpc_TLS (cfg_GRPC c)) = true →
   named (server_files (grpc_TLS (cfg_GRPC c))) ∧ named (client_files (grpc_TLS (cfg_GRPC c)))).

(** A world in which nothing outside the program is missing: the database
    answers, certificates and files are there, ports can be bound and dialled,
    telemetry or its fallback comes up, [127.0.0.1] is a loopback address and a
    trusted proxy prints in the form [net.ParseCIDR] reads. *)
Record helpful (w : world) (c : Config) : Prop := {
  hw_hub : hub_fine w;
  hw_telemetry : ∃ r, (NewFailOpen (w_sdk w) (w_sdk_fallback w) (cfg_Telemetry c)
                         (telemetryBuildInfo (w_version w) c)).2 = Ok r;
  hw_open : w_sqlOpen w = None;
  hw_ping : w_ping w = None;
  hw_keypair : ∀ cert key, w_keypair w cert key = None;
  hw_files : ∀ path, ∃ pem, w_readFile w path = Ok pem ∧ w_pem w pem = true;
  hw_listen : ∀ addr, w_listen w addr = None;
  hw_dial : ∀ addr, w_dial w addr = None;
  hw_loopback : ∃ a, ParseAddr "127.0.0.1" = Some a ∧ Addr_IsLoopback a = true;
  hw_proxies : Forall (λ p, let text := TrimSpace (Prefix_String p) in
    ContainsByte text "/"%char = true ∧ is_Some (ParseCIDR text)) (TrustedProxies (cfg_Proxy c));
}.

(** A start-up that reaches [server.Run] exactly when [P]. *)
Definition reaches (P : Prop) (p : prog) : Prop :=
  ∃ tr err, p = Some (tr, err) ∧ ((∃ acts, Served acts ∈ tr) ↔ P) ∧ (¬ P → is_Some err).

Lemma reaches_fail P e : ¬ P → reaches P (fail e).
Proof. intros Hn. eexists _, _. split; [done|]. split; [|by eexists]. split; [by intros [? ?%elem_of_nil]|done]. Qed.

Lemma reaches_quiet P tr e : ¬ P → (∀ acts, Served acts ∉ tr) → reaches P (Some (tr, Some e)).
Proof. intros Hn Hq. eexists _, _. split; [done|]. split; [|by eexists]. split; [by intros [? ?%Hq]|done]. Qed.

Lemma reaches_defer P r p : reaches P p → reaches P (with_defer r p).
Proof.
  intros (tr & err & -> & Hiff & He). eexists _, _. split; [done|]. split; [|done]. rewrite -Hiff.
  split; intros [acts Hin]; exists acts; rewrite elem_of_cons elem_of_app list_elem_of_singleton in Hin |- *;
    [by destruct Hin as [?|[?|?]]|tauto].
Qed.

Lemma reaches_cons P r p : reaches P p →
  reaches P (match p with None => None | Some (tr, err) => Some (Opened r :: tr, err) end).
Proof.
  intros (tr & err & -> & Hiff & He). eexists _, _. split; [done|]. split; [|done]. rewrite -Hiff.
  split; intros [acts Hin]; exists acts; rewrite elem_of_cons in Hin |- *; [by destruct Hin|by right].
Qed.

Lemma reaches_iff P Q p : (P ↔ Q) → reaches Q p → reaches P p.
Proof. intros HPQ (tr & err & ? & ? & ?). exists tr, err. split_and!; [done|tauto|tauto]. Qed.

Lemma serve_reaches w cfg q hub rt : hub_fine w → (0 < MaxParallel (cfg_Bulkhead cfg))%Z →
  reaches True (serve w cfg q hub rt).
Proof.
  intros Hh Hb. unfold serve, Bulkhead.NewBulkhead. destruct (Z.ltb_spec (MaxParallel (cfg_Bulkhead cfg)) 0); [lia|].
  rewrite default_policy_Ok.
  destruct (Run_total (server_env w cfg) (NewAPIServer Lifecycle.NewWorkerPool q (Iface rt) (Some hub)) Hh)
    as [[s err] ->].
  eexists _, _. split; [done|]. split; [|done]. split; [done|]. intros _. eexists. by apply list_elem_of_singleton.
Qed.

Lemma server_constructs w c : grpc_ok (cfg_GRPC c) → grpc_Enable (cfg_GRPC c) = true → helpful w c →
  let r := Construct.NewRuntimeWithConfig (w_keypair w) (w_readFile w) (w_pem w) (w_listen w) (server_config c) in
  let ok := gtls_Enable (grpc_TLS (cfg_GRPC c)) = true → named (server_files (grpc_TLS (cfg_GRPC c))) in
  (ok ∧ ∃ b, r = Ok b) ∨ (¬ ok ∧ ∃ e, r = Err e).
Proof.
  intros Hok Hen Hw r ok. destruct (Hok Hen) as (Hb & _ & Hlb). unfold blank in Hb. apply streqb_neq in Hb.
  unfold r, Construct.NewRuntimeWithConfig.
  cbn [server_config Construct.sc_Addr Construct.sc_ReflectionEnabled Construct.sc_Verifier Construct.sc_TLS
    Construct.s_Enable]. rewrite Hb.
  assert ((grpc_ReflectionEnable (cfg_GRPC c) && negb (Construct.serverIsLoopbackListenAddr (grpc_Addr (cfg_GRPC c))))%bool
    = false) as ->.
  { destruct (grpc_ReflectionEnable _); [|done]. by rewrite (Construct.loopback_agree _ (Hlb (or_intror eq_refl))). }
  cbn [negb]. rewrite (hw_listen w c Hw). unfold ok. destruct (gtls_Enable _) eqn:Ht.
  2:{ rewrite (Construct.loopback_agree _ (Hlb (or_introl eq_refl))). left. split; [done|]. by eexists. }
  unfold Construct.newServerTLSCredentials, Construct.certPoolFromFile, named, server_files.
  cbn [Construct.s_CertFile Construct.s_KeyFile Construct.s_ClientCAFile].
  rewrite (hw_keypair w c Hw). destruct (hw_files w c Hw (gtls_ClientCAFile (grpc_TLS (cfg_GRPC c)))) as (pem & -> & ->).
  rewrite !list.Forall_cons list.Forall_nil.
  repeat match goal with |- context [streqb ?x ""] =>
    let E := fresh in destruct (streqb x "") eqn:E; [apply streqb_eq in E; right; split; [tauto|by eexists]|apply streqb_neq in E] end.
  left. split; [tauto|by eexists].
Qed.

Lemma client_constructs w c : grpc_ok (cfg_GRPC c) → grpc_Enable (cfg_GRPC c) = true → helpful w c →
  let r := Construct.NewJobsClientWithConfig (w_keypair w) (w_readFile w) (w_pem w) (w_dial w) (client_config c) in
  let ok := gtls_Enable (grpc_TLS (cfg_GRPC c)) = true → named (client_files (grpc_TLS (cfg_GRPC c))) in
  (ok ∧ ∃ conn, r = Ok conn) ∨ (¬ ok ∧ ∃ e, r = Err e).
Proof.
  intros Hok Hen Hw r ok. destruct (Hok Hen) as (Hb & (host & port & Hs & _) & Hlb).
  destruct (gtls_Enable (grpc_TLS (cfg_GRPC c))) eqn:Ht; unfold ok in *; clear ok.
  2:{ left. split; [done|]. destruct (hw_loopback w c Hw) as (a & Ha & Hl).
      destruct (plaintext_constructs w c a Hok Hen Ht Ha Hl (hw_listen w c Hw) (hw_dial w c Hw))
        as (b & conn & _ & Hc & _). by exists conn. }
  assert (∃ target, Construct.loopbackTarget (grpc_Addr (cfg_GRPC c)) = Ok target) as [target Htg].
  { unfold Construct.loopbackTarget. destruct (HasPrefix _ _); [by eexists|]. rewrite Hs. by eexists. }
  unfold r, Construct.NewJobsClientWithConfig.
  cbn [client_config Construct.cc_Addr Construct.cc_TLS Construct.c_Enable Construct.cc_CallTimeout].
  rewrite Htg Ht (hw_dial w c Hw).
  unfold Construct.newClientTLSCredentials, Construct.certPoolFromFile, named, client_files.
  cbn [Construct.c_CertFile Construct.c_KeyFile Construct.c_CAFile Construct.c_ServerName].
  rewrite (hw_keypair w c Hw). destruct (hw_files w c Hw (gtls_ServerCAFile (grpc_TLS (cfg_GRPC c)))) as (pem & -> & ->).
  rewrite !list.Forall_cons list.Forall_nil.
  repeat match goal with |- context [streqb ?x ""] =>
    let E := fresh in destruct (streqb x "") eqn:E; [apply streqb_eq in E; right; split; [tauto|by eexists]|apply streqb_neq in E] end.
  left. split; [tauto|by eexists].
Qed.

Lemma run_grpc_reaches w c q hub : config_ok c → helpful w c →
  reaches (grpc_Enable (cfg_GRPC c) = true → gtls_Enable (grpc_TLS (cfg_GRPC c)) = true →
           named (server_files (grpc_TLS (cfg_GRPC c))) ∧ named (client_files (grpc_TLS (cfg_GRPC c))))
    (run_grpc w c q hub).
Proof.
  intros Hc Hw. pose proof (co_limits c Hc) as Hl. unfold limits_ok in Hl.
  assert (0 < MaxParallel (cfg_Bulkhead c))%Z as Hb.
  { unfold positive in Hl. rewrite list.Forall_forall in Hl. apply Hl. set_solver. }
  unfold run_grpc. destruct (grpc_Enable (cfg_GRPC c)) eqn:Hen.
  2:{ eapply reaches_iff; [|by apply serve_reaches; [apply (hw_hub w c Hw)|]]. split; [done|by intros]. }
  destruct (server_constructs w c (co_grpc c Hc) Hen Hw) as [[Hs [b ->]]|[Hs [e ->]]]; [|apply reaches_fail; tauto].
  destruct (client_constructs w c (co_grpc c Hc) Hen Hw) as [[Hk [conn ->]]|[Hk [e ->]]].
  - apply reaches_cons, reaches_defer. eapply reaches_iff; [|by apply serve_reaches; [apply (hw_hub w c Hw)|]].
    tauto.
  - apply reaches_quiet; [tauto|]. intros acts. rewrite !elem_of_cons elem_of_nil. by intros [?|[?|?]].
Qed.

Lemma proxy_nets_Ok ps :
  Forall (λ p, let text := TrimSpace (Prefix_String p) in
    ContainsByte text "/"%char = true ∧ is_Some (ParseCIDR text)) ps →
  ∃ nets, proxy_nets ParseCIDR ParseIP To4 ps = Ok nets.
Proof.
  induction 1 as [|p ps [Hslash [net Hnet]] _ [nets IH]]; [by eexists|]. simpl.
  destruct (streqb _ ""); [by exists nets|]. rewrite Hslash Hnet IH. by eexists.
Qed.

Lemma NewProxyAPI_Ok c : proxy_ok (cfg_Proxy c) →
  Forall (λ p, let text := TrimSpace (Prefix_String p) in
    ContainsByte text "/"%char = true ∧ is_Some (ParseCIDR text)) (TrustedProxies (cfg_Proxy c)) →
  ∃ p, NewProxyAPI ParseCIDR ParseIP To4 (cfg_Proxy c) = Ok p.
Proof.
  intros Hp Hf. unfold NewProxyAPI. rewrite (proj2 (proxy_requirements_ok _) Hp).
  destruct (proxy_nets_Ok _ Hf) as [nets ->]. by eexists.
Qed.

#[local] Instance deployable_dec c : Decision (deployable c).
Proof. unfold deployable, named. apply _. Defined.

Lemma run_reaches w c px : config_ok c → helpful w c →
  NewProxyAPI ParseCIDR ParseIP To4 (cfg_Proxy c) = Ok px →
  (∃ q, Queue.New (QueueSize (cfg_Pool c)) = Some q) →
  (∃ h, NewHub (st_SubscriberBuffer (cfg_Streaming c)) = Some h) →
  reaches (deployable c) (run ParseCIDR ParseIP To4 w c).
Proof.
  intros Hc Hw Hpx [q Hq] [hub Hhub]. unfold run. destruct (hw_telemetry w c Hw) as [r ->]. apply reaches_defer.
  unfold run_storage. rewrite Hpx Hhub.
  assert (db_StorageBackend (cfg_DB c) = "memory" ∨ db_StorageBackend (cfg_DB c) = "postgres" →
    reaches (deployable c) (run_transport w c hub)) as Ht.
  { intros Hb. unfold run_transport. rewrite Hq. apply reaches_defer.
    destruct (new_verifier_Ok _ (co_jwt c Hc)) as [v ->].
    eapply reaches_iff; [|by apply run_grpc_reaches]. unfold deployable. tauto. }
  destruct (streqb _ "memory") eqn:Em; [apply streqb_eq in Em; apply Ht; by left|].
  destruct (streqb _ "postgres") eqn:Ep.
  - apply streqb_eq in Ep. unfold Open. rewrite (hw_open w c Hw) (hw_ping w c Hw). apply reaches_defer, Ht. by right.
  - apply streqb_neq in Em, Ep. apply reaches_fail. unfold deployable. tauto.
Qed.

(** (C18) The configuration contract is enough, up to two things [Load] leaves to
    start-up.  For every configuration [Load] returns, the logger, the queue, the
    event hub, the bulkhead and the token verifier are built without error or
    panic, and the CORS middleware never combines credentials with any origin.
    In a world where nothing outside the program is missing the proxy middleware
    is built as well, where gRPC runs without TLS both its server and its client
    accept the address, on loopback, and [run] does not panic: it reaches
    [server.Run] if the storage is one of the two there are and, where gRPC runs
    over TLS, every certificate file and the server name are given; otherwise it
    ends with an error and the server is not run. *)
Theorem startup_contract env c w : Load env = Ok c →
  (∃ l, NewLogger true (cfg_Logging c) = Ok l) ∧
  (∃ q, Queue.New (QueueSize (cfg_Pool c)) = Some q) ∧
  (∃ h, NewHub (st_SubscriberBuffer (cfg_Streaming c)) = Some h) ∧
  (∃ b, Bulkhead.NewBulkhead (MaxParallel (cfg_Bulkhead c)) = Some b) ∧
  (∃ v, new_verifier (cfg_JWT c) = Ok v) ∧
  ValidateTrustedProxyRequirements (cfg_Proxy c) = None ∧
  (CORS.allowCredentials (CORS.NewCORS (cfg_CORS c)) = true → CORS.allowAny (CORS.NewCORS (cfg_CORS c)) = false) ∧
  (helpful w c →
   (∃ p, NewProxyAPI ParseCIDR ParseIP To4 (cfg_Proxy c) = Ok p) ∧
   (grpc_Enable (cfg_GRPC c) = true → gtls_Enable (grpc_TLS (cfg_GRPC c)) = false → plaintext_accepted w c) ∧
   ∃ tr err, run ParseCIDR ParseIP To4 w c = Some (tr, err) ∧
     ((∃ acts, Served acts ∈ tr) ↔
      (db_StorageBackend (cfg_DB c) = "memory" ∨ db_StorageBackend (cfg_DB c) = "postgres") ∧
      (grpc_Enable (cfg_GRPC c) = true → gtls_Enable (grpc_TLS (cfg_GRPC c)) = true →
       let g := grpc_TLS (cfg_GRPC c) in
       Forall (λ f, TrimSpace f ≠ "")
         [gtls_CertFile g; gtls_KeyFile g; gtls_ClientCAFile g; gtls_ClientCertFile g; gtls_ClientKeyFile g;
          gtls_ServerCAFile g; gtls_ServerName g])) ∧
     (err = None → ∃ acts, Served acts ∈ tr)).
Proof.
  intros Hload%Load_config_ok. pose proof Hload as [_ Hlog _ Hg Hlim _ _ Hj (Hcors & _) _ Hp].
  unfold limits_ok, positive in Hlim. rewrite list.Forall_forall in Hlim.
  assert (∃ q, Queue.New (QueueSize (cfg_Pool c)) = Some q) as Hq.
  { unfold Queue.New. destruct (Z.ltb_spec (QueueSize (cfg_Pool c)) 0); [|by eexists].
    specialize (Hlim (QueueSize (cfg_Pool c)) ltac:(set_solver)). lia. }
  assert (∃ h, NewHub (st_SubscriberBuffer (cfg_Streaming c)) = Some h) as Hhub.
  { unfold NewHub. destruct (Z.leb_spec (st_SubscriberBuffer (cfg_Streaming c)) 0); [|by eexists].
    specialize (Hlim (st_SubscriberBuffer (cfg_Streaming c)) ltac:(set_solver)). lia. }
  do 3 (split; [done|]). split; [|split; [by apply new_verifier_Ok|split; [by apply proxy_requirements_ok|split]]].
  - unfold Bulkhead.NewBulkhead. destruct (Z.ltb_spec (MaxParallel (cfg_Bulkhead c)) 0); [|by eexists].
    specialize (Hlim (MaxParallel (cfg_Bulkhead c)) ltac:(set_solver)). lia.
  - simpl. intros Hc%Hcors. destruct (existsb _ _) eqn:E; [|done].
    apply existsb_exists in E as (o & Ho%list_elem_of_In & <-%streqb_eq). done.
  - intros Hw. destruct (NewProxyAPI_Ok c Hp (hw_proxies w c Hw)) as [px Hpx]. split; [by eexists|split].
    { intros Hen Ht. destruct (hw_loopback w c Hw) as (a & Ha & Hl).
      by eapply (plaintext_constructs w c a Hg Hen Ht Ha Hl (hw_listen w c Hw) (hw_dial w c Hw)). }
    destruct (run_reaches w c px Hload Hw Hpx Hq Hhub) as (tr & err & Hr & Hiff & He).
    exists tr, err. split; [done|]. rewrite Hiff. split.
    + unfold deployable, named, server_files, client_files. rewrite !list.Forall_cons !list.Forall_nil. tauto.
    + intros ->. destruct (deployable_dec c) as [Hd|Hd]; [done|]. by destruct (He Hd) as [? [=]].
Qed.
End startup.

Definition ex_world2 : world :=
  mkWorld (ex_sdk None) (ex_sdk None) "(devel)" None None (λ _ _, None) (λ _, Ok "pem") (λ _, true)
    (λ _, None) (λ _, None) ex_run2.

Lemma ex_world2_fine : hub_fine ex_world2.
Proof. intros s h [= <-]. split; [reflexivity|]. exists ∅. apply ex_hub_inv. Qed.

Lemma ex_world2_serving : serving_fine ex_world2.
Proof.
  split; [exact ex_world2_fine|done|by intros s rt Hs; exists rt|by intros s _; eexists].
Qed.

Lemma main_ends_properly_witness :
  ∃ o, @main ex_parsers nat ex_cidr ex_ip (λ _, true) (λ _, "library error") Itoa ex_production ex_world2 = Some o ∧
    (∀ st, unwind (oc_trace o) st = Some st) ∧
    Served [SetReady; SetNotReady; QueueStopAccepting; StopHTTP; StopGRPC; StopPool; CloseHub] ∈ oc_trace o.
Proof.
  destruct (@main_ends_properly ex_parsers nat ex_cidr ex_ip (λ _, true) (λ _, "library error") Itoa ex_production
    ex_world2 ex_world2_serving) as (o & Hm & _ & Hu & _).
  exists o. split; [exact Hm|]. split; [exact Hu|].
  vm_compute in Hm. injection Hm as <-. rewrite !elem_of_cons. tauto.
Defined.

(** A helpful world for the production configuration, and for the same with a
    storage that does not exist. *)
Definition ex_unknown_storage (k : string) : option string :=
  if streqb k "STORAGE_BACKEND" then Some "oracle" else ex_production k.

Definition ex_proxies : list (@Prefix ex_parsers) := [("10.0.0.0", 8%Z); ("10.0.0.1", 32%Z)].
Definition ex_shown (env : string → option string)
  : option (TelemetryConfig * list (@Prefix ex_parsers) * string * bool) :=
  match @Load ex_parsers env with
  | Ok c => Some (cfg_Telemetry c, TrustedProxies (cfg_Proxy c), db_StorageBackend (cfg_DB c),
                  gtls_Enable (grpc_TLS (cfg_GRPC c)))
  | Err _ => None
  end.

Lemma ex_helpful c : cfg_Telemetry c = mkTelemetryConfig false 5000000000 →
  TrustedProxies (cfg_Proxy c) = ex_proxies → @helpful ex_parsers nat ex_cidr ex_world2 c.
Proof.
  intros Ht Hp. split; try done.
  - apply ex_world2_fine.
  - rewrite Ht. unfold telemetryBuildInfo, NewFailOpen. eexists. cbn. reflexivity.
  - intros path. by exists "pem".
  - by exists "127.0.0.1".
  - rewrite Hp. unfold ex_proxies.
    repeat (apply list.Forall_cons; split; [split; [vm_compute; reflexivity|by eexists]|]). by apply list.Forall_nil.
Qed.

Lemma startup_contract_witness :
  match @Load ex_parsers ex_production, @Load ex_parsers ex_unknown_storage with
  | Ok c, Ok c' =>
      (∃ tr err acts, @run ex_parsers nat ex_cidr ex_ip (λ _, true) ex_world2 c = Some (tr, err) ∧ Served acts ∈ tr) ∧
      (∃ tr err, @run ex_parsers nat ex_cidr ex_ip (λ _, true) ex_world2 c' = Some (tr, Some err) ∧
         ∀ acts, Served acts ∉ tr)
  | _, _ => False
  end.
Proof.
  assert (ex_shown ex_production = Some (mkTelemetryConfig false 5000000000, ex_proxies, "postgres", false)) as Hc
    by (vm_compute; reflexivity).
  assert (ex_shown ex_unknown_storage = Some (mkTelemetryConfig false 5000000000, ex_proxies, "oracle", false)) as Hc'
    by (vm_compute; reflexivity).
  unfold ex_shown in Hc, Hc'.
  destruct (@Load ex_parsers ex_production) as [c|e] eqn:E; [|discriminate Hc].
  destruct (@Load ex_parsers ex_unknown_storage) as [c'|e'] eqn:E'; [|discriminate Hc'].
  injection Hc as Ht Hp Hb Hg. injection Hc' as Ht' Hp' Hb' _. split.
  - destruct (@startup_contract ex_parsers nat ex_cidr ex_ip (λ _, true) ex_production c ex_world2 E)
      as (_ & _ & _ & _ & _ & _ & _ & Hrun).
    destruct (Hrun (ex_helpful c Ht Hp)) as (_ & _ & tr & err & Hr & [_ Hreach] & _).
    destruct Hreach as [acts Hacts]; [|exists tr, err, acts; split; [exact Hr|exact Hacts]].
    split; [right; exact Hb|]. intros _ Htls. rewrite Hg in Htls. discriminate Htls.
  - destruct (@startup_contract ex_parsers nat ex_cidr ex_ip (λ _, true) ex_unknown_storage c' ex_world2 E')
      as (_ & _ & _ & _ & _ & _ & _ & Hrun).
    destruct (Hrun (ex_helpful c' Ht' Hp')) as (_ & _ & tr & err & Hr & [Hreach _] & Herr).
    assert (∀ acts, Served acts ∉ tr) as Hn.
    { intros acts Hin. destruct (Hreach (ex_intro _ acts Hin)) as [Hs _]. rewrite Hb' in Hs. destruct Hs as [Hs|Hs]; discriminate Hs. }
    destruct err as [err|]; [exists tr, err; split; [exact Hr|exact Hn]|]. destruct (Herr eq_refl) as [acts Hin]. destruct (Hn acts Hin).
Defined.

(** ** Readiness *)
Section readiness.
Context `{GoParsers} (lib : error → string) (durstr : Z → string).

(** [MemoryUserRepository.Ping] and the ping of the pool, under a context that
    has ended with an error or not. *)
Definition Ping (ctx : option error) : option error := ctx.

(** What the probe meets: the components, the database's answer and the context
    after each check. *)
Record probe := mkProbe {
  pb_grpc : option Runtime.Runtime; pb_repo : option error; pb_pool : Lifecycle.WorkerPool; pb_hub : Hub }.

(** The checks in the order [run] registers them; without gRPC there is none for
    it. *)
Definition readiness_checks (cfg : Config) (p : probe) (ctxErr : nat → option string) : list Health.Check :=
  let text (e : option error) : option string := Error lib durstr <$> e in
  let base :=
    [("db", text (pb_repo p)); ("workerpool", text (Lifecycle.CheckRunning (pb_pool p)));
     ("streamHub", text (Stream.Ready (pb_hub p)))] in
  let named := if grpc_Enable (cfg_GRPC cfg) then ("grpc", text (Runtime.Ready (pb_grpc p))) :: base else base in
  imap (λ i c, Health.mkCheck c.1 c.2 (ctxErr i)) named.

(** (C40) Ready means able to serve: with the flag set and time left the probe
    answers 200 exactly when the database answers, a generation of workers is
    running, the event hub is open and, with gRPC enabled, its server runs; and
    the names of its checks are distinct, so no failure hides another. *)
Theorem ready_means_serving cfg p flag :
  let rd := Health.mkReadiness flag (readiness_checks cfg p (λ _, None)) in
  (Health.hr_code (Health.ReadinessHandler rd) = 200%Z ↔
   flag = true ∧ pb_repo p = None ∧ Lifecycle.IsRunning (pb_pool p) = true ∧ Stream.closed (pb_hub p) = false ∧
   (grpc_Enable (cfg_GRPC cfg) = true →
    ∃ rt, pb_grpc p = Some rt ∧ Runtime.state rt = Runtime.runtimeStateRunning)) ∧
  NoDup (map Health.ck_Name (Health.checks rd)).
Proof.
  intros rd. split.
  - rewrite Health.readiness_ok_iff. unfold rd, readiness_checks. cbn [Health.IsReady Health.checks Health.ready].
    assert (Lifecycle.CheckRunning (pb_pool p) = None ↔ Lifecycle.IsRunning (pb_pool p) = true) as Hp
      by (unfold Lifecycle.CheckRunning; destruct (Lifecycle.IsRunning _); naive_solver).
    assert (Stream.Ready (pb_hub p) = None ↔ Stream.closed (pb_hub p) = false) as Hh
      by (unfold Stream.Ready; destruct (Stream.closed _); naive_solver).
    assert (Runtime.Ready (pb_grpc p) = None ↔
      ∃ rt, pb_grpc p = Some rt ∧ Runtime.state rt = Runtime.runtimeStateRunning) as Hg.
    { unfold Runtime.Ready. destruct (pb_grpc p) as [rt|]; [|split; [done|by intros (? & ? & _)]].
      case_decide as Hd; split; [done|by intros (? & [= <-] & ?)| |done].
      intros _. exists rt. split; [done|]. by destruct (Runtime.state rt); try done; destruct Hd. }
    rewrite -Hp -Hh -Hg.
    destruct (grpc_Enable _); cbn [imap]; rewrite !list.Forall_cons list.Forall_nil /= !fmap_None;
      clear Hp Hh Hg; intuition discriminate.
  - unfold rd, readiness_checks. cbn [Health.checks].
    destruct (grpc_Enable _); cbn; repeat (apply list.NoDup_cons; split; [rewrite ?elem_of_cons ?elem_of_nil; naive_solver|]);
      by apply list.NoDup_nil.
Qed.
End readiness.

(** ** The HTTP servers *)

(** [tls.Config] as the server fills it: the certificates, and the minimal
    version, zero when it is not set. *)
Record tls_config := mkTlsConfig { tc_certificate : string * string; tc_MinVersion : Z }.
Record http_server := mkHttpServer {
  hs_Addr : string; hs_ReadHeaderTimeout : Z; hs_ReadTimeout : Z; hs_WriteTimeout : Z; hs_IdleTimeout : Z;
  hs_MaxHeaderBytes : Z; hs_TLSConfig : option tls_config }.

Section servers.
Context `{GoParsers}.

Definition newHTTPServer (cfg : HTTPConfig) (addr : string) (tlsCfg : option tls_config) : http_server :=
  mkHttpServer addr (http_ReadHeaderTimeout cfg) (http_ReadTimeout cfg) (http_WriteTimeout cfg)
    (http_IdleTimeout cfg) (http_MaxHeaderBytes cfg) tlsCfg.

(** The servers [Run] builds; the pair stands for the loaded certificate. *)
Definition plain_server (cfg : HTTPConfig) : http_server := newHTTPServer cfg (http_Addr cfg) None.
Definition tls_server (cfg : HTTPConfig) : option http_server :=
  if tls_Enable (http_TLS cfg)
  then Some (newHTTPServer cfg (tls_Addr (http_TLS cfg))
               (Some (mkTlsConfig (tls_CertFile (http_TLS cfg), tls_KeyFile (http_TLS cfg)) 0)))
  else None.
Definition servers (cfg : HTTPConfig) : list http_server := plain_server cfg :: option_list (tls_server cfg).

(** The oldest version a server negotiates: [crypto/tls] takes TLS 1.2 when the
    minimal version is not set. *)
Definition negotiates (s : http_server) : option Z :=
  match hs_TLSConfig s with
  | None => None
  | Some t => Some (if (tc_MinVersion t =? 0)%Z then VersionTLS12 else tc_MinVersion t)
  end.

(** No accepted configuration leaves a server without a timeout for headers,
    reads, writes and idle connections, or without a limit of its headers. *)
Theorem servers_bounded env c s : Load env = Ok c → s ∈ servers (cfg_HTTP c) →
  (0 < hs_ReadHeaderTimeout s ∧ 0 < hs_ReadTimeout s ∧ 0 < hs_WriteTimeout s ∧ 0 < hs_IdleTimeout s ∧
   0 < hs_MaxHeaderBytes s)%Z ∧ hs_Addr s ≠ EmptyString.
Proof.
  intros Hl Hs. destruct (co_http c (Load_config_ok env c Hl)) as (Hp & Ha & _ & Ht). unfold positive in Hp.
  do 6 (apply list.Forall_cons in Hp as [? Hp]).
  unfold servers, tls_server in Hs. destruct (tls_Enable (http_TLS (cfg_HTTP c))) eqn:He.
  - apply elem_of_cons in Hs as [->|Hs]; [done|]. apply list_elem_of_singleton in Hs as ->.
    split; [done|]. by destruct (Ht eq_refl).
  - by apply list_elem_of_singleton in Hs as ->.
Qed.

(** The configured minimal TLS version has no effect: whatever
    HTTP_TLS_MIN_VERSION says, the HTTPS server negotiates TLS 1.2, so a
    configuration that asks for 1.3 is accepted and not honoured. *)
Theorem tls_min_version_ignored cfg s : tls_server cfg = Some s → negotiates s = Some VersionTLS12.
Proof. unfold tls_server. destruct (tls_Enable _); [|done]. by intros [= <-]. Qed.
End servers.

Definition ex_tls13 : HTTPConfig :=
  mkHTTPConfig ":8080" second second second second second 65536 false
    (mkTLSConfig true ":8443" "cert.pem" "key.pem" VersionTLS13).

Lemma tls_min_version_ignored_witness :
  ∃ s, tls_server ex_tls13 = Some s ∧ negotiates s = Some VersionTLS12 ∧
    tls_MinVersion (http_TLS ex_tls13) = VersionTLS13.
Proof.
  eexists. split; [reflexivity|]. split; [|reflexivity]. by eapply (tls_min_version_ignored ex_tls13).
Defined.

(** A component's deadline is the shutdown deadline, if there is one. *)
Definition componentShutdownContext (deadline : option Z) : option Z :=
  match deadline with Some d => Some d | None => None end.

(** ** Database statistics *)
Module DBStats.

Record Stats := mkStats {
  MaxOpenConnections : Z; OpenConnections : Z; InUse : Z; Idle : Z; WaitCount : Z; WaitDuration : Z;
  MaxIdleClosed : Z; MaxIdleTimeClosed : Z; MaxLifetimeClosed : Z }.

(** The process-wide map [db_pool]: a published variable is a function that is
    evaluated when the page is read. *)
Definition vars : Type := option (gmap string (Stats → Z)).

Definition initDBStatsVars (v : vars) : vars := match v with None => Some ∅ | Some m => Some m end.

Definition published : list (string * (Stats → Z)) :=
  [("max_open_connections", MaxOpenConnections); ("open_connections", OpenConnections); ("in_use", InUse);
   ("idle", Idle); ("wait_count", WaitCount); ("wait_duration_ns", WaitDuration);
   ("max_idle_closed", MaxIdleClosed); ("max_idle_time_closed", MaxIdleTimeClosed);
   ("max_lifetime_closed", MaxLifetimeClosed)].

Definition PublishStats (db : bool) (v : vars) : vars :=
  if negb db then v
  else foldl (λ v kf, (λ m, <[kf.1 := kf.2]> m) <$> v) (initDBStatsVars v) published.

(** The page, for the statistics of the moment. *)
Definition page (v : vars) (s : Stats) : gmap string Z := (λ f, f s) <$> default ∅ v.

Lemma PublishStats_idempotent v : PublishStats true (PublishStats true v) = PublishStats true v.
Proof.
  unfold PublishStats. cbn [negb]. unfold published. cbn [foldl].
  destruct v as [m|]; cbn; f_equal; apply map_eq; intros k; rewrite !lookup_insert; repeat case_decide; done.
Qed.

(** After publication the page shows the nine counters as they are when it is
    read, and what other parts of the program published is kept. *)
Theorem PublishStats_page v s :
  let p := page (PublishStats true v) s in
  (∀ k f, (k, f) ∈ published → p !! k = Some (f s)) ∧
  (∀ k, k ∉ map fst published → p !! k = page v s !! k) ∧
  page (PublishStats false v) s = page v s.
Proof.
  unfold PublishStats, page. cbn [negb]. split_and!; [| |done].
  - intros k f Hk. rewrite lookup_fmap. unfold published in Hk. rewrite !elem_of_cons elem_of_nil in Hk.
    unfold published. cbn [foldl].
    destruct_or! Hk; try done; simplify_eq; destruct v as [m|]; cbn; rewrite !lookup_insert;
      repeat case_decide; done.
  - intros k Hk. rewrite !lookup_fmap. f_equal. unfold published in *. cbn [map fst] in Hk.
    rewrite !elem_of_cons elem_of_nil in Hk. cbn [foldl].
    destruct v as [m|]; cbn; rewrite !lookup_insert_ne; try done; intros <-; apply Hk; tauto.
Qed.
End DBStats.
