(* ===== verification/Protogen.v ===== *)
(** * The protobuf generator script

    Models [scripts/protogen/main.go]: the search for the repository root, the
    checks of the tool versions and the command that is run when they pass.  A
    path is the list of its segments below the root of the file system; the file
    system and the results of commands are arguments. *)
From Stdlib Require Import Ascii.
From S2P Require Import Prelude.
From S2P Require Import GoErrors.
From S2P Require Import GoStrings.

Definition requiredProtocVersion : string := "libprotoc 34.0".
Definition requiredProtocGenGoVersion : string := "v1.36.11".
Definition requiredProtocGenGRPCVersion : string := "1.6.1".
Definition protoFiles : list string :=
  ["internal/transport/pb/user.proto"; "internal/transport/pb/job.proto"].

(** ** The repository root *)
Abbreviation path := (list string).

(** [filepath.Dir] of a clean absolute path. *)
Definition Dir (p : path) : path := removelast p.

Section root.
Context (has_go_mod : path → bool).

(** The loop, from [dir] upwards; [None] when the fuel runs out. *)
Fixpoint find_from (fuel : nat) (dir : path) : option (res error path) :=
  match fuel with
  | 0 => None
  | S fuel =>
      if has_go_mod dir then Some (Ok dir)
      else
        let parent := Dir dir in
        if decide (parent = dir) then Some (Err (EText "could not find repository root"))
        else find_from fuel parent
  end.

Definition findRepoRoot (wd : res error path) : option (res error path) :=
  match wd with
  | Err e => Some (Err e)
  | Ok wd => find_from (S (length wd)) wd
  end.

Lemma find_from_spec dir : ∀ fuel, length dir < fuel →
  (∃ d rest, find_from fuel dir = Some (Ok d) ∧ dir = d ++ rest ∧ has_go_mod d = true ∧
     ∀ r1 r2, rest = r1 ++ r2 → r1 ≠ [] → has_go_mod (d ++ r1) = false) ∨
  (∃ e, find_from fuel dir = Some (Err e) ∧ ∀ d rest, dir = d ++ rest → has_go_mod d = false).
Proof.
  induction dir as [|x dir IH] using rev_ind; intros [|fuel] Hf; try (simpl in Hf; lia); cbn [find_from]; cbv zeta.
  - destruct (has_go_mod []) eqn:E.
    + left. exists [], []. split_and!; [done|done|done|]. intros r1 r2 Hr. symmetry in Hr. by apply app_eq_nil in Hr as [-> _].
    + right. destruct (decide (Dir [] = [])) as [_|Hne]; [|by destruct Hne]. eexists. split; [done|]. intros d rest Hd. symmetry in Hd.
      by apply app_eq_nil in Hd as [-> _].
  - destruct (has_go_mod (dir ++ [x])) eqn:E.
    + left. exists (dir ++ [x]), []. split_and!; [done|by rewrite app_nil_r|done|]. intros r1 r2 Hr. symmetry in Hr.
      by apply app_eq_nil in Hr as [-> _].
    + assert (Dir (dir ++ [x]) = dir) as -> by apply removelast_last.
      destruct (decide (dir = dir ++ [x])) as [H%(f_equal length)|_]; [rewrite length_app /= in H; lia|].
      rewrite length_app /= in Hf. destruct (IH fuel ltac:(lia)) as [(d & rest & Hr & -> & Hd & Hn)|(e & Hr & Hn)].
      * left. exists d, (rest ++ [x]). split_and!; [done|by rewrite app_assoc|done|].
        intros r1 r2 Hr12 Hr1. destruct r2 as [|y r2 _] using rev_ind.
        -- rewrite app_nil_r in Hr12. subst r1. by rewrite app_assoc.
        -- rewrite app_assoc in Hr12. apply app_inj_tail in Hr12 as [-> ->]. by eapply Hn.
      * right. exists e. split; [done|]. intros d rest Hd. destruct rest as [|y rest _] using rev_ind.
        -- rewrite app_nil_r in Hd. by subst d.
        -- rewrite app_assoc in Hd. apply app_inj_tail in Hd as [-> ->]. by eapply Hn.
Qed.

(** The search ends, with the nearest directory at or above the working
    directory that holds a go.mod, or with an error when there is none. *)
Theorem findRepoRoot_nearest wd :
  (∃ d rest, findRepoRoot (Ok wd) = Some (Ok d) ∧ wd = d ++ rest ∧ has_go_mod d = true ∧
     ∀ r1 r2, rest = r1 ++ r2 → r1 ≠ [] → has_go_mod (d ++ r1) = false) ∨
  (∃ e, findRepoRoot (Ok wd) = Some (Err e) ∧ ∀ d rest, wd = d ++ rest → has_go_mod d = false).
Proof. apply find_from_spec. lia. Qed.
End root.

(** ** Tool versions *)

(** The cut set of [normalizeVersionToken]. *)
Definition cutset : list ascii := [" "; "009"; "013"; "010"]%char ++ [chr 34] ++ to_bytes "'`()[]{}<>,;".
Definition in_cutset (c : ascii) : bool := existsb (ceqb c) cutset.
Definition trim_cut (b : bytes) : bytes := rev (drop_while in_cutset (rev (drop_while in_cutset b))).
Definition normalizeVersionToken (token : string) : string := of_bytes (trim_cut (to_bytes token)).

Definition hasNormalizedVersionToken (output want : string) : bool :=
  let want := normalizeVersionToken want in
  existsb (λ token, streqb (normalizeVersionToken token) want) (Fields output).

(** What a command that is run leaves: its outputs and the error of [Run]. *)
Record run_result := mkRunResult { rr_stdout : string; rr_stderr : string; rr_err : option error }.

Section tools.
Context (exec : string → list string → run_result).

Definition commandOutput (command : string) (args : list string) : res error string :=
  let r := exec command args in
  match rr_err r with
  | Some err =>
      let output := TrimSpace (rr_stdout r +:+ rr_stderr r) in
      if streqb output "" then Err (EWrap ("run " +:+ command) err)
      else Err (EWrap ("run " +:+ command +:+ ": " +:+ output) err)
  | None => Ok (TrimSpace (rr_stdout r))
  end.

Definition requireExactVersion (command : string) (args : list string) (want : string) : option error :=
  match commandOutput command args with
  | Err e => Some e
  | Ok got =>
      if negb (streqb got want)
      then Some (EText (command +:+ " version " +:+ Quote got +:+ ", want " +:+ Quote want))
      else None
  end.

Definition requireVersionToken (command : string) (args : list string) (want : string) : option error :=
  match commandOutput command args with
  | Err e => Some e
  | Ok got =>
      if negb (hasNormalizedVersionToken got want)
      then Some (EText (command +:+ " version " +:+ Quote got +:+ ", want exact token " +:+ Quote want))
      else None
  end.

Definition protoc_args : list string :=
  ["-I"; "."; "--go_out=."; "--go_opt=paths=source_relative"; "--go-grpc_out=.";
   "--go-grpc_opt=paths=source_relative"] ++ protoFiles.

(** What [main] did: the command it ran (directory and arguments), and its
    failure, with which it exits with code 1. *)
Record result := mkResult { rs_ran : option (path * list string); rs_failed : option error }.

Definition main (has_go_mod : path → bool) (wd : res error path) (generate : path → list string → option error)
  : option result :=
  match findRepoRoot has_go_mod wd with
  | None => None
  | Some (Err e) => Some (mkResult None (Some e))
  | Some (Ok root) =>
      match requireExactVersion "protoc" ["--version"] requiredProtocVersion with
      | Some e => Some (mkResult None (Some e))
      | None =>
          match requireVersionToken "protoc-gen-go" ["--version"] requiredProtocGenGoVersion with
          | Some e => Some (mkResult None (Some e))
          | None =>
              match requireVersionToken "protoc-gen-go-grpc" ["--version"] requiredProtocGenGRPCVersion with
              | Some e => Some (mkResult None (Some e))
              | None =>
                  Some (mkResult (Some (root, protoc_args))
                          (EWrap "run protoc" <$> generate root protoc_args))
              end
          end
      end
  end.

(** Generated code comes from the pinned tools only: the script ends, and runs
    the generator, once and in the repository root with both files, only when
    each tool reported the required version. *)
Theorem generator_pinned has_go_mod wd generate :
  ∃ r, main has_go_mod wd generate = Some r ∧
    (∀ root args, rs_ran r = Some (root, args) →
       args = protoc_args ∧ has_go_mod root = true ∧
       commandOutput "protoc" ["--version"] = Ok requiredProtocVersion ∧
       (∃ out, commandOutput "protoc-gen-go" ["--version"] = Ok out ∧
          hasNormalizedVersionToken out requiredProtocGenGoVersion = true) ∧
       (∃ out, commandOutput "protoc-gen-go-grpc" ["--version"] = Ok out ∧
          hasNormalizedVersionToken out requiredProtocGenGRPCVersion = true)).
Proof.
  unfold main. destruct wd as [wd|e]; [|by eexists].
  destruct (findRepoRoot_nearest has_go_mod wd) as [(d & rest & -> & _ & Hd & _)|(e & -> & _)]; [|by eexists].
  unfold requireExactVersion, requireVersionToken.
  destruct (commandOutput "protoc" _) as [out|]; [|by eexists].
  destruct (negb (streqb out _)) eqn:E1; [by eexists|].
  destruct (commandOutput "protoc-gen-go" _) as [out2|]; [|by eexists].
  destruct (negb (hasNormalizedVersionToken out2 _)) eqn:E2; [by eexists|].
  destruct (commandOutput "protoc-gen-go-grpc" _) as [out3|]; [|by eexists].
  destruct (negb (hasNormalizedVersionToken out3 _)) eqn:E3; [by eexists|].
  apply negb_false_iff in E1, E2, E3. apply streqb_eq in E1 as ->.
  eexists. split; [done|]. intros root args [= <- <-]. split_and!; eauto.
Qed.
End tools.

(** The token of a version line, with punctuation around it. *)
Example token_found : hasNormalizedVersionToken "protoc-gen-go v1.36.11" "v1.36.11" = true.
Proof. vm_compute. reflexivity. Qed.
Example token_in_quotes : hasNormalizedVersionToken "protoc-gen-go-grpc (1.6.1);" "1.6.1" = true.
Proof. vm_compute. reflexivity. Qed.
Example token_other : hasNormalizedVersionToken "protoc-gen-go v1.36.110" "v1.36.11" = false.
Proof. vm_compute. reflexivity. Qed.
